(** * Engine.cpp: the calculation engine of the game, embedded in Rocq

    This development follows [source/Engine.cpp].  The engine owns the
    live collections of ships, projectiles, flotsam and visuals, advances
    them once per frame on a worker thread, and hands the finished frame
    to the foreground through a pair of "tick-tock" indices.

    Layout of the file:
    - [TickTock]: the monitor protocol of [Wait], [Step], [Go] and
      [ThreadEntryPoint], as a labelled transition system;
    - [Model]: the data the engine manipulates (ships, projectiles,
      flotsam, the engine record itself) and the interface of the
      collaborators whose code lives in other translation units;
    - [Code]: the member functions of [Engine], one definition each;
    - [Terms], [Scenario]: the vocabulary of the statements and a small
      world to run the functions in;
    - [Vector], [Radar], [Foreground], [Mouse], [Arrival]: the in-place
      [Prune], the radar, and the parts of [Step], [Draw],
      [HandleMouseClicks] and [EnterSystem] that [Code] leaves to the
      collaborators;
    - the properties, grouped by the function they are about. *)

From Stdlib Require Import ZArith QArith List Bool Lia String Ascii.
From stdpp Require Import base option list gmap strings.
From Stdlib Require Import Lqa.
From Corelib Require SpecFloat.

Set Default Proof Using "Type".
Local Open Scope Z_scope.

(* ===================================================================== *)
(** * The tick-tock monitor                                               *)
(* ===================================================================== *)

Module TickTock.

(** Where the foreground thread is in its frame.  The protocol is
    [Wait(); Step(); Go();] once per frame; [Draw()] reads
    [draw[drawTickTock]] between [Go()] and the next [Wait()].  The
    destructor may run at any point and ends the foreground's part. *)
Inductive Foreground :=
| FgBeforeWait   (* Go() has returned (or nothing was called yet) *)
| FgBeforeStep   (* Wait() has returned *)
| FgBeforeGo     (* Step() has returned *)
| FgDestroyed.   (* ~Engine() has set [terminate] *)

(** Where the worker is inside [ThreadEntryPoint]. *)
Inductive Worker :=
| WkWaiting      (* inside the first locked block, on [condition.wait] *)
| WkCalculating  (* inside [CalculateStep] *)
| WkPublishing   (* [CalculateStep] returned, second locked block not yet run *)
| WkExited.      (* left the loop through [break] *)

(** The shared fields and the two program counters.  [goes] and
    [calculated] are counters of the model: the number of [Go()] calls
    and the number of [CalculateStep()] calls that have returned. *)
Record State := mkState {
  calcTickTock : bool;
  drawTickTock : bool;
  terminate : bool;
  step : Z;
  fg : Foreground;
  wk : Worker;
  goes : nat;
  calculated : nat
}.

(** The atomic actions.  Every access to the shared fields happens with
    [swapMutex] held, so each locked block is one action. *)
Inductive Action :=
| FgWaitReturn   (* Wait(): the loop condition was false, Wait returns *)
| FgStepCall     (* Step(isActive) *)
| FgGoCall       (* Go(): ++step; drawTickTock = !drawTickTock *)
| FgDraw         (* Draw(): reads draw[drawTickTock] *)
| FgDestroy      (* ~Engine(): terminate = true *)
| WkWake         (* the wait loop ends with terminate false *)
| WkExit         (* the wait loop ends with terminate true: break *)
| WkCalcDone     (* CalculateStep() returns *)
| WkPublish.     (* calcTickTock = drawTickTock *)

Definition same_slot (s : State) : bool :=
  Bool.eqb (calcTickTock s) (drawTickTock s).

(** One action; [None] when the action is not enabled (a thread blocked
    on the condition variable, or a call the protocol does not make). *)
Definition act (s : State) (a : Action) : option State :=
  match a, fg s, wk s with
  | FgWaitReturn, FgBeforeWait, _ =>
      (* while(calcTickTock != drawTickTock) condition.wait(lock); *)
      if same_slot s
      then Some (mkState (calcTickTock s) (drawTickTock s) (terminate s) (step s)
                         FgBeforeStep (wk s) (goes s) (calculated s))
      else None
  | FgStepCall, FgBeforeStep, _ =>
      Some (mkState (calcTickTock s) (drawTickTock s) (terminate s) (step s)
                    FgBeforeGo (wk s) (goes s) (calculated s))
  | FgGoCall, FgBeforeGo, _ =>
      Some (mkState (calcTickTock s) (negb (drawTickTock s)) (terminate s) (step s + 1)
                    FgBeforeWait (wk s) (S (goes s)) (calculated s))
  | FgDraw, FgBeforeWait, _ => Some s
  | FgDestroy, FgDestroyed, _ => None
  | FgDestroy, _, _ =>
      Some (mkState (calcTickTock s) (drawTickTock s) true (step s)
                    FgDestroyed (wk s) (goes s) (calculated s))
  | WkWake, _, WkWaiting =>
      (* while(calcTickTock == drawTickTock && !terminate) condition.wait(lock);
         if(terminate) break; *)
      if same_slot s || terminate s then None
      else Some (mkState (calcTickTock s) (drawTickTock s) (terminate s) (step s)
                         (fg s) WkCalculating (goes s) (calculated s))
  | WkExit, _, WkWaiting =>
      if terminate s
      then Some (mkState (calcTickTock s) (drawTickTock s) (terminate s) (step s)
                         (fg s) WkExited (goes s) (calculated s))
      else None
  | WkCalcDone, _, WkCalculating =>
      Some (mkState (calcTickTock s) (drawTickTock s) (terminate s) (step s)
                    (fg s) WkPublishing (goes s) (S (calculated s)))
  | WkPublish, _, WkPublishing =>
      Some (mkState (drawTickTock s) (drawTickTock s) (terminate s) (step s)
                    (fg s) WkWaiting (goes s) (calculated s))
  | _, _, _ => None
  end.

(** A schedule is a list of actions, run from left to right. *)
Fixpoint run (s : State) (sched : list Action) : option State :=
  match sched with
  | [] => Some s
  | a :: rest => match act s a with
                 | Some s' => run s' rest
                 | None => None
                 end
  end.

(** The state the constructor leaves: both indices name the same slot
    (the constructor fills [draw[calcTickTock]] itself, with the worker
    already started and waiting), nothing has been calculated yet.  The
    member initialisers are in Engine.h; the common value [b] of the two
    indices is left open. *)
Definition init (b : bool) : State :=
  mkState b b false 0 FgBeforeWait WkWaiting 0 0.

(** The slot [CalculateStep] is writing, if a calculation is in progress,
    and the slot [Draw] reads. *)
Definition calculating_into (s : State) : option bool :=
  match wk s with
  | WkCalculating => Some (calcTickTock s)
  | _ => None
  end.

Definition drawn_slot (s : State) : bool := drawTickTock s.

(** "One slot is being calculated into and the other one is drawn". *)
Definition one_calculated_other_drawn (s : State) : Prop :=
  exists slot, calculating_into s = Some slot /\ slot <> drawn_slot s.

(** A frame of the protocol in which the worker runs as soon as it can. *)
Definition frame : list Action :=
  [FgWaitReturn; FgStepCall; FgGoCall; FgDraw; WkWake; WkCalcDone; WkPublish].

(** The invariant of the protocol. *)
Definition inv (s : State) : Prop :=
  match wk s with
  | WkCalculating =>
      calcTickTock s <> drawTickTock s /\ goes s = S (calculated s)
      /\ (fg s = FgBeforeWait \/ fg s = FgDestroyed)
  | WkPublishing =>
      calcTickTock s <> drawTickTock s /\ goes s = calculated s
      /\ (fg s = FgBeforeWait \/ fg s = FgDestroyed)
  | WkWaiting | WkExited =>
      (calcTickTock s = drawTickTock s /\ goes s = calculated s)
      \/ (calcTickTock s <> drawTickTock s /\ goes s = S (calculated s)
          /\ (fg s = FgBeforeWait \/ fg s = FgDestroyed))
  end.

End TickTock.

(* ===================================================================== *)
(** * The data of the engine                                              *)
(* ===================================================================== *)

Module Model.

(** Objects the engine only holds pointers to are named by their address.
    [const Government *] and [const System *] point into the static game
    data; [shared_ptr<Ship>], [weak_ptr<Ship>] and [Ship *] name an
    object of the ship heap of the engine record below. *)
Abbreviation ShipId := nat (only parsing).
Abbreviation GovId := nat (only parsing).
Abbreviation SystemId := nat (only parsing).
Abbreviation FleetId := nat (only parsing).

(** [double] is modelled by exact rationals: the engine only assigns the
    constants 0 and 1, compares, and forms one product and one sum. *)
Definition Qltb (a b : Q) : bool := negb (Qle_bool b a).
Definition Qnonzero (a : Q) : bool := negb (Qeq_bool a 0).

(** Fixed-width integers: [int] and [int64_t], with their wrap-around. *)
Definition wrap (bits : Z) (z : Z) : Z :=
  (z + 2 ^ (bits - 1)) mod 2 ^ bits - 2 ^ (bits - 1).
Definition wrap32 : Z -> Z := wrap 32.
Definition wrap64 : Z -> Z := wrap 64.
(** Conversion of an [int] to the [uint32_t] parameter of [Random::Int]. *)
Definition to_uint32 (z : Z) : Z := z mod 2 ^ 32.

Module Point.
Record t := mk { X : Q; Y : Q }.
Definition zero : t := mk 0 0.
Definition add (p q : t) : t := mk (X p + X q) (Y p + Y q).
Definition sub (p q : t) : t := mk (X p - X q) (Y p - Y q).
Definition scale (k : Q) (p : t) : t := mk (k * X p) (k * Y p).
End Point.

Module Government.
Record t := mk {
  GetName : string;
  Language : string;
  IsPlayer : bool
}.
End Government.

Module Ship.
(** What the engine reads from a [Ship] through its accessors.  Every
    ship in the engine's list has a government: [MoveShip] dereferences
    [ship->GetGovernment()] for each of them in every step. *)
Record t := mk {
  Name : string;
  ModelName : string;
  Noun : string;
  GetGovernment : GovId;
  GetSystem : option SystemId;
  Position : Point.t;
  Velocity : Point.t;
  Zoom : Q;
  Cloaking : Q;
  Shields : Q;
  Hull : Q;
  Cost : Z;
  Crew : Z;
  CargoFree : Z;                    (* Cargo().Free() *)
  GetTargetShip : option ShipId;    (* a weak_ptr *)
  GetParent : option ShipId;        (* a weak_ptr *)
  HasSprite : bool;
  IsDisabled : bool;
  IsDestroyed : bool;
  IsTargetable : bool;
  IsYours : bool;
  CannotAct : bool;
  IsHyperspacing : bool;
  IsEnteringHyperspace : bool;
  IsUsingJumpDrive : bool;
  IsMute : bool;                    (* GetPersonality().IsMute() *)
  IsHeroic : bool;                  (* GetPersonality().IsHeroic() *)
  ShouldBeRemoved : bool
}.

(** [SetName], [SetGovernment], [SetPersonality], [SetSystem] *)
Definition SetName (name : string) (s : t) : t :=
  mk name (ModelName s) (Noun s) (GetGovernment s) (GetSystem s)
    (Position s) (Velocity s) (Zoom s) (Cloaking s) (Shields s) (Hull s)
    (Cost s) (Crew s) (CargoFree s) (GetTargetShip s) (GetParent s)
    (HasSprite s) (IsDisabled s) (IsDestroyed s) (IsTargetable s)
    (IsYours s) (CannotAct s) (IsHyperspacing s) (IsEnteringHyperspace
    s) (IsUsingJumpDrive s) (IsMute s) (IsHeroic s) (ShouldBeRemoved s).
(** see [SetName] *)
Definition SetGovernment (gov : GovId) (s : t) : t :=
  mk (Name s) (ModelName s) (Noun s) gov (GetSystem s) (Position s)
    (Velocity s) (Zoom s) (Cloaking s) (Shields s) (Hull s) (Cost s)
    (Crew s) (CargoFree s) (GetTargetShip s) (GetParent s) (HasSprite s)
    (IsDisabled s) (IsDestroyed s) (IsTargetable s) (IsYours s)
    (CannotAct s) (IsHyperspacing s) (IsEnteringHyperspace s)
    (IsUsingJumpDrive s) (IsMute s) (IsHeroic s) (ShouldBeRemoved s).
(** see [SetName] *)
Definition SetPersonality (mute heroic : bool) (s : t) : t :=
  mk (Name s) (ModelName s) (Noun s) (GetGovernment s) (GetSystem s)
    (Position s) (Velocity s) (Zoom s) (Cloaking s) (Shields s) (Hull s)
    (Cost s) (Crew s) (CargoFree s) (GetTargetShip s) (GetParent s)
    (HasSprite s) (IsDisabled s) (IsDestroyed s) (IsTargetable s)
    (IsYours s) (CannotAct s) (IsHyperspacing s) (IsEnteringHyperspace
    s) (IsUsingJumpDrive s) mute heroic (ShouldBeRemoved s).
(** see [SetName] *)
Definition SetSystem (system : option SystemId) (s : t) : t :=
  mk (Name s) (ModelName s) (Noun s) (GetGovernment s) system (Position
    s) (Velocity s) (Zoom s) (Cloaking s) (Shields s) (Hull s) (Cost s)
    (Crew s) (CargoFree s) (GetTargetShip s) (GetParent s) (HasSprite s)
    (IsDisabled s) (IsDestroyed s) (IsTargetable s) (IsYours s)
    (CannotAct s) (IsHyperspacing s) (IsEnteringHyperspace s)
    (IsUsingJumpDrive s) (IsMute s) (IsHeroic s) (ShouldBeRemoved s).
End Ship.

Module Weapon.
Record t := mk {
  IsPhasing : bool;
  IsSafe : bool;
  TriggerRadius : Q;
  BlastRadius : Q;
  WeaponVelocity : Q                (* Velocity() *)
}.
End Weapon.

Module Projectile.
(** [GetGovernment] is null for the "projectile" a dying ship leaves as
    its explosion.  [Target] is the cached raw pointer, [TargetPtr]
    the weak pointer it was cached from. *)
Record t := mk {
  GetWeapon : Weapon.t;
  GetGovernment : option GovId;
  Target : option ShipId;
  TargetPtr : option ShipId;
  Position : Point.t;
  Velocity : Point.t;
  MissileStrength : Z;
  ShouldBeRemoved : bool
}.
End Projectile.

Module Outfit.
Record t := mk {
  Name : string;
  PluralName : string;
  installable : Q                   (* Get("installable") *)
}.
End Outfit.

Module Flotsam.
Record t := mk {
  Position : Point.t;
  Source : option ShipId;           (* the raw pointer Source() *)
  OutfitType : option Outfit.t;
  CommodityType : string;
  UnitSize : Q;
  Count : Z;
  ShouldBeRemoved : bool
}.
End Flotsam.

Module Visual.
Record t := mk {
  Sprite : nat;
  Position : Point.t;
  ShouldBeRemoved : bool
}.
End Visual.

Module Person.
Record t := mk {
  GetShip : ShipId;
  GetGovernment : GovId;
  PersonalityIsMute : bool;
  PersonalityIsHeroic : bool
}.
End Person.

Module FleetProbability.
Record t := mk { Get : FleetId; Period : Z }.
End FleetProbability.

(** ShipEvent: the type is one of the named constants the engine passes
    itself, or the bit mask a collaborator returned. *)
Inductive EventType := JUMP | DESTROY | BOARD | ASSIST | Bits (mask : Z).

Inductive ShipEvent :=
| EventByGovernment (actor : option GovId) (target : ShipId) (type : EventType)
| EventByShip (actor : ShipId) (target : ShipId) (type : EventType).

(** What has been given to the draw list. *)
Inductive Drawable :=
| DrawObject (tag : nat)              (* stellar objects, asteroids, minables *)
| DrawFlotsam (f : Flotsam.t)
| DrawShip (ship : ShipId)
| DrawShipPart (ship : ShipId) (tag : nat)  (* flares, hardpoints, carried craft *)
| DrawProjectile (p : Projectile.t)
| DrawVisual (v : Visual.t).

(** The four places that make a circle query: the trigger radius (line
    1543), the blast on [shipCollisions] (line 1590) and on
    [cloakedCollisions] (line 1603), and the pick-up of flotsam (line
    1648). *)
Inductive Query := ForTrigger | ForBlast | ForCloakedBlast | ForPickup.

(** The record of what the engine did to which entity, in order.  It is
    not a field of the C++ class: it is how the properties below speak of
    "was moved", "was tested against", "was given damage". *)
Inductive Call :=
| CShipMove (ship : ShipId)                         (* ship->Move(...) *)
| CFlotsamMove (f : Flotsam.t)                      (* it->Move(newVisuals) *)
| CProjectileMove (p : Projectile.t)                (* projectile.Move(...) *)
| CVisualMove (v : Visual.t)                        (* visual.Move() *)
| CFleetEnter (fleet : FleetId)                     (* fleet.Get()->Enter(...) *)
| CPersonEnter (name : string)                      (* Fleet::Enter(system, *ship) *)
| CDoCollisions (p : Projectile.t)                  (* DoCollisions(projectile) *)
| CMaskCollide (target : ShipId)                    (* GetMask(step).Collide(...) *)
| CCircle (why : Query) (center : Point.t) (radius : Q)
                                                    (* a Circle(center, radius) query *)
| CLine                                             (* shipCollisions.Line(...) *)
| CAsteroidsCollide                                 (* asteroids.Collide(...) *)
| CExplode (fraction : Q)                           (* projectile.Explode(...) *)
| CTakeDamage (ship : ShipId) (isBlast : bool)      (* ship->TakeDamage(...) *)
| CFireAntiMissile (ship : ShipId)                  (* ship->FireAntiMissile(...) *)
| CKill                                             (* projectile.Kill() *)
| CDoCollection (f : Flotsam.t)                     (* DoCollection(flotsam) *)
| CTransferTo (collector : ShipId).                 (* flotsam.TransferTo(collector) *)

(** Dereferencing a null pointer, or a pointer to an object that is gone,
    is a fault; the functions below return [Fault] where the C++ code
    would do so. *)
Inductive fault := NullGovernment | NullSystem | DanglingShip.

Inductive result (A : Type) :=
| Ok (a : A)
| Fault (f : fault).
Arguments Ok {A} a.
Arguments Fault {A} f.

Definition bind {A B : Type} (m : result A) (k : A -> result B) : result B :=
  match m with
  | Ok a => k a
  | Fault f => Fault f
  end.

Notation "'let*' x := m 'in' k" := (bind m (fun x => k))
  (at level 10, x pattern, m at level 100, k at level 200).

(** A loop over a container whose body can fault. *)
Fixpoint for_each {A S : Type} (body : S -> A -> result S) (l : list A) (s : S)
  : result S :=
  match l with
  | [] => Ok s
  | a :: rest => let* s' := body s a in for_each body rest s'
  end.

(** ** The collaborators

    Everything [Engine.cpp] calls that is defined in another translation
    unit.  [World] is the state those units own (the random generator,
    the asteroid field, the AI's tables, the audio queue, the player's
    dates and conditions); a call that can change it returns the new one.
    Who is whose enemy does not change while a step is calculated: the
    reputations are updated by the foreground, from the events of the
    finished step. *)
Class Collaborators := {
  World : Type;

  (* Random *)
  RandomInt : World -> Z -> Z * World;               (* Random::Int(upper) *)
  RandomReal : World -> Q * World;                    (* Random::Real() *)

  (* Government, Politics *)
  government : GovId -> Government.t;
  IsEnemy : GovId -> GovId -> bool;                   (* gov->IsEnemy(other) *)
  IsEnemyOfPlayer : GovId -> bool;                    (* gov->IsEnemy() *)

  (* PlayerInfo *)
  GetCondition : World -> string -> Z;
  LastName : World -> string;
  PlayerIsDead : World -> bool;
  Preference : World -> string -> bool;               (* Preferences::Has(name) *)
  Harvest : World -> Outfit.t -> World;
  VisitWormholes : World -> SystemId -> option SystemId -> World;

  (* System, Fleet, Person, Planet *)
  Links_empty : SystemId -> bool;
  Fleets : SystemId -> list FleetProbability.t;
  FleetGovernment : FleetId -> option GovId;          (* fleet.Get()->GetGovernment() *)
  FleetEnter : World -> gmap ShipId Ship.t -> FleetId -> SystemId ->
               gmap ShipId Ship.t * list ShipId * World;
  Persons : list (string * Person.t);                 (* GameData::Persons() *)
  Frequency : gmap ShipId Ship.t -> Person.t -> SystemId -> Z;
  Recharge : Ship.t -> Ship.t;
  FleetEnterShip : World -> SystemId -> Ship.t -> Ship.t * World;
                                        (* SetHail(...); Fleet::Enter(system, ship) *)
  DeployDefense : World -> gmap ShipId Ship.t -> SystemId ->
                  gmap ShipId Ship.t * list ShipId * World;
  Arrive : World -> gmap ShipId Ship.t -> ShipId ->
           gmap ShipId Ship.t * list string * World;  (* EnterSystem, lines 910-971 *)
  PlaceFleets : World -> gmap ShipId Ship.t -> option SystemId ->
                gmap ShipId Ship.t * list ShipId * list string * World;
                                                      (* EnterSystem, lines 973-994 *)
  HelpMessages : World -> list string;                (* EnterSystem, lines 1006-1012 *)
  Objects : World -> SystemId -> list Drawable;       (* the system's sprites *)

  (* AI *)
  AIStep : World -> gmap ShipId Ship.t -> gmap ShipId Ship.t * World;
  AIClean : World -> World;
  EnemyStrength : World -> GovId -> Z;
  AllyStrength : World -> GovId -> Z;

  (* Ship *)
  ShipMove : World -> Ship.t -> Ship.t * list Visual.t * list Flotsam.t * World;
  Board : World -> gmap ShipId Ship.t -> ShipId -> bool ->
          gmap ShipId Ship.t * option ShipId * World;
  Launch : World -> gmap ShipId Ship.t -> ShipId ->
           gmap ShipId Ship.t * list ShipId * World;
  Fire : World -> Ship.t -> Ship.t * list Projectile.t * list Visual.t * bool * World;
  TakeDamage : World -> Ship.t -> Projectile.t -> bool -> Ship.t * Z * World;
  FireAntiMissile : World -> Ship.t -> Projectile.t ->
                    Ship.t * list Visual.t * bool * World;
  Scan : World -> Ship.t -> Ship.t * Z * World;
  GetHail : World -> Ship.t -> string * World;
  MaskCollide : Z -> Ship.t -> Point.t -> Point.t -> Q;
                               (* GetMask(step).Collide(offset, velocity, Facing()) *)
  ShipParts : Ship.t -> list nat * list nat;          (* AddSprites: below, above *)

  (* Projectile, Flotsam, Visual *)
  ProjectileMove : World -> gmap ShipId Ship.t -> Projectile.t ->
                   Projectile.t * list Visual.t * list Projectile.t * World;
  Explode : Projectile.t -> Q -> Point.t -> Projectile.t * list Visual.t;
  Kill : Projectile.t -> Projectile.t;
  FlotsamMove : World -> Flotsam.t -> Flotsam.t * list Visual.t * World;
  TransferTo : Flotsam.t -> Ship.t -> Flotsam.t * Ship.t * Z;
  VisualMove : Visual.t -> Visual.t;

  (* AsteroidField *)
  AsteroidsStep : World -> list Visual.t * list Flotsam.t * World;
  AsteroidsCollide : World -> Projectile.t -> Z -> Q -> Point.t -> Q * Point.t * World;
  AsteroidsDraw : World -> list Drawable;

  (* CollisionSet: the queries, over the bodies added since Clear() *)
  Circle : gmap ShipId Ship.t -> list ShipId -> Point.t -> Q -> list ShipId;
  Line : gmap ShipId Ship.t -> list ShipId -> Projectile.t -> Q -> option ShipId * Q;

  (* Format, Audio, the HUD *)
  FormatNumber : Q -> string;
  LowerCase : string -> string;
  PlaySound : World -> string -> World;               (* Audio::Play(Audio::Get(name)) *)
  FlareSounds : World -> Ship.t -> World;             (* lines 1184-1189, 1194-1199 *)
  MouseClicks : World -> gmap ShipId Ship.t -> list ShipId ->
                gmap ShipId Ship.t * list string * World;
  Radar : World -> gmap ShipId Ship.t -> list ShipId -> list Projectile.t -> World
}.

(** ** The engine

    The members of [class Engine] that [CalculateStep] and the functions it
    calls read or write.  The radar, the HUD lists, the zoom and the load
    counters are left out: nothing below depends on them. *)
Section Engine.
Context `{Collaborators}.

Record Engine := mkEngine {
  world : World;  (* the state owned by the collaborators *)
  playerSystem : option SystemId;  (* player.GetSystem() *)
  flagship : option ShipId;  (* player.Flagship() *)
  step : Z;
  heap : gmap ShipId Ship.t;  (* the Ship objects some shared_ptr keeps alive *)
  ships : list ShipId;
  newShips : list ShipId;
  projectiles : list Projectile.t;
  newProjectiles : list Projectile.t;
  flotsam : list Flotsam.t;
  newFlotsam : list Flotsam.t;
  visuals : list Visual.t;
  newVisuals : list Visual.t;
  hasAntiMissile : list ShipId;
  eventQueue : list ShipEvent;
  grudge : gmap GovId (option ShipId);  (* a weak_ptr per government; None is an empty one *)
  grudgeTime : Z;
  shipCollisions : list ShipId;  (* the bodies added since Clear() *)
  cloakedCollisions : list ShipId;  (* the bodies added since Clear() *)
  messages : list string;  (* what Messages::Add was given *)
  draw : list Drawable;  (* draw[calcTickTock] *)
  doEnter : bool;
  doFlash : bool;
  trace : list Call  (* model only: see [Call] *)
}.

(** Assignment to one member. *)
Definition set_world (x : World) (e : Engine) : Engine :=
  mkEngine x (playerSystem e) (flagship e) (step e) (heap e) (ships e)
    (newShips e) (projectiles e) (newProjectiles e) (flotsam e) (newFlotsam
    e) (visuals e) (newVisuals e) (hasAntiMissile e) (eventQueue e) (grudge
    e) (grudgeTime e) (shipCollisions e) (cloakedCollisions e) (messages e)
    (draw e) (doEnter e) (doFlash e) (trace e).
Definition set_playerSystem (x : option SystemId) (e : Engine) : Engine :=
  mkEngine (world e) x (flagship e) (step e) (heap e) (ships e) (newShips e)
    (projectiles e) (newProjectiles e) (flotsam e) (newFlotsam e) (visuals
    e) (newVisuals e) (hasAntiMissile e) (eventQueue e) (grudge e)
    (grudgeTime e) (shipCollisions e) (cloakedCollisions e) (messages e)
    (draw e) (doEnter e) (doFlash e) (trace e).
Definition set_flagship (x : option ShipId) (e : Engine) : Engine :=
  mkEngine (world e) (playerSystem e) x (step e) (heap e) (ships e)
    (newShips e) (projectiles e) (newProjectiles e) (flotsam e) (newFlotsam
    e) (visuals e) (newVisuals e) (hasAntiMissile e) (eventQueue e) (grudge
    e) (grudgeTime e) (shipCollisions e) (cloakedCollisions e) (messages e)
    (draw e) (doEnter e) (doFlash e) (trace e).
Definition set_step (x : Z) (e : Engine) : Engine :=
  mkEngine (world e) (playerSystem e) (flagship e) x (heap e) (ships e)
    (newShips e) (projectiles e) (newProjectiles e) (flotsam e) (newFlotsam
    e) (visuals e) (newVisuals e) (hasAntiMissile e) (eventQueue e) (grudge
    e) (grudgeTime e) (shipCollisions e) (cloakedCollisions e) (messages e)
    (draw e) (doEnter e) (doFlash e) (trace e).
Definition set_heap (x : gmap ShipId Ship.t) (e : Engine) : Engine :=
  mkEngine (world e) (playerSystem e) (flagship e) (step e) x (ships e)
    (newShips e) (projectiles e) (newProjectiles e) (flotsam e) (newFlotsam
    e) (visuals e) (newVisuals e) (hasAntiMissile e) (eventQueue e) (grudge
    e) (grudgeTime e) (shipCollisions e) (cloakedCollisions e) (messages e)
    (draw e) (doEnter e) (doFlash e) (trace e).
Definition set_ships (x : list ShipId) (e : Engine) : Engine :=
  mkEngine (world e) (playerSystem e) (flagship e) (step e) (heap e) x
    (newShips e) (projectiles e) (newProjectiles e) (flotsam e) (newFlotsam
    e) (visuals e) (newVisuals e) (hasAntiMissile e) (eventQueue e) (grudge
    e) (grudgeTime e) (shipCollisions e) (cloakedCollisions e) (messages e)
    (draw e) (doEnter e) (doFlash e) (trace e).
Definition set_newShips (x : list ShipId) (e : Engine) : Engine :=
  mkEngine (world e) (playerSystem e) (flagship e) (step e) (heap e) (ships
    e) x (projectiles e) (newProjectiles e) (flotsam e) (newFlotsam e)
    (visuals e) (newVisuals e) (hasAntiMissile e) (eventQueue e) (grudge e)
    (grudgeTime e) (shipCollisions e) (cloakedCollisions e) (messages e)
    (draw e) (doEnter e) (doFlash e) (trace e).
Definition set_projectiles (x : list Projectile.t) (e : Engine) : Engine :=
  mkEngine (world e) (playerSystem e) (flagship e) (step e) (heap e) (ships
    e) (newShips e) x (newProjectiles e) (flotsam e) (newFlotsam e) (visuals
    e) (newVisuals e) (hasAntiMissile e) (eventQueue e) (grudge e)
    (grudgeTime e) (shipCollisions e) (cloakedCollisions e) (messages e)
    (draw e) (doEnter e) (doFlash e) (trace e).
Definition set_newProjectiles (x : list Projectile.t) (e : Engine) : Engine :=
  mkEngine (world e) (playerSystem e) (flagship e) (step e) (heap e) (ships
    e) (newShips e) (projectiles e) x (flotsam e) (newFlotsam e) (visuals e)
    (newVisuals e) (hasAntiMissile e) (eventQueue e) (grudge e) (grudgeTime
    e) (shipCollisions e) (cloakedCollisions e) (messages e) (draw e)
    (doEnter e) (doFlash e) (trace e).
Definition set_flotsam (x : list Flotsam.t) (e : Engine) : Engine :=
  mkEngine (world e) (playerSystem e) (flagship e) (step e) (heap e) (ships
    e) (newShips e) (projectiles e) (newProjectiles e) x (newFlotsam e)
    (visuals e) (newVisuals e) (hasAntiMissile e) (eventQueue e) (grudge e)
    (grudgeTime e) (shipCollisions e) (cloakedCollisions e) (messages e)
    (draw e) (doEnter e) (doFlash e) (trace e).
Definition set_newFlotsam (x : list Flotsam.t) (e : Engine) : Engine :=
  mkEngine (world e) (playerSystem e) (flagship e) (step e) (heap e) (ships
    e) (newShips e) (projectiles e) (newProjectiles e) (flotsam e) x
    (visuals e) (newVisuals e) (hasAntiMissile e) (eventQueue e) (grudge e)
    (grudgeTime e) (shipCollisions e) (cloakedCollisions e) (messages e)
    (draw e) (doEnter e) (doFlash e) (trace e).
Definition set_visuals (x : list Visual.t) (e : Engine) : Engine :=
  mkEngine (world e) (playerSystem e) (flagship e) (step e) (heap e) (ships
    e) (newShips e) (projectiles e) (newProjectiles e) (flotsam e)
    (newFlotsam e) x (newVisuals e) (hasAntiMissile e) (eventQueue e)
    (grudge e) (grudgeTime e) (shipCollisions e) (cloakedCollisions e)
    (messages e) (draw e) (doEnter e) (doFlash e) (trace e).
Definition set_newVisuals (x : list Visual.t) (e : Engine) : Engine :=
  mkEngine (world e) (playerSystem e) (flagship e) (step e) (heap e) (ships
    e) (newShips e) (projectiles e) (newProjectiles e) (flotsam e)
    (newFlotsam e) (visuals e) x (hasAntiMissile e) (eventQueue e) (grudge
    e) (grudgeTime e) (shipCollisions e) (cloakedCollisions e) (messages e)
    (draw e) (doEnter e) (doFlash e) (trace e).
Definition set_hasAntiMissile (x : list ShipId) (e : Engine) : Engine :=
  mkEngine (world e) (playerSystem e) (flagship e) (step e) (heap e) (ships
    e) (newShips e) (projectiles e) (newProjectiles e) (flotsam e)
    (newFlotsam e) (visuals e) (newVisuals e) x (eventQueue e) (grudge e)
    (grudgeTime e) (shipCollisions e) (cloakedCollisions e) (messages e)
    (draw e) (doEnter e) (doFlash e) (trace e).
Definition set_eventQueue (x : list ShipEvent) (e : Engine) : Engine :=
  mkEngine (world e) (playerSystem e) (flagship e) (step e) (heap e) (ships
    e) (newShips e) (projectiles e) (newProjectiles e) (flotsam e)
    (newFlotsam e) (visuals e) (newVisuals e) (hasAntiMissile e) x (grudge
    e) (grudgeTime e) (shipCollisions e) (cloakedCollisions e) (messages e)
    (draw e) (doEnter e) (doFlash e) (trace e).
Definition set_grudge (x : gmap GovId (option ShipId)) (e : Engine) : Engine :=
  mkEngine (world e) (playerSystem e) (flagship e) (step e) (heap e) (ships
    e) (newShips e) (projectiles e) (newProjectiles e) (flotsam e)
    (newFlotsam e) (visuals e) (newVisuals e) (hasAntiMissile e) (eventQueue
    e) x (grudgeTime e) (shipCollisions e) (cloakedCollisions e) (messages
    e) (draw e) (doEnter e) (doFlash e) (trace e).
Definition set_grudgeTime (x : Z) (e : Engine) : Engine :=
  mkEngine (world e) (playerSystem e) (flagship e) (step e) (heap e) (ships
    e) (newShips e) (projectiles e) (newProjectiles e) (flotsam e)
    (newFlotsam e) (visuals e) (newVisuals e) (hasAntiMissile e) (eventQueue
    e) (grudge e) x (shipCollisions e) (cloakedCollisions e) (messages e)
    (draw e) (doEnter e) (doFlash e) (trace e).
Definition set_shipCollisions (x : list ShipId) (e : Engine) : Engine :=
  mkEngine (world e) (playerSystem e) (flagship e) (step e) (heap e) (ships
    e) (newShips e) (projectiles e) (newProjectiles e) (flotsam e)
    (newFlotsam e) (visuals e) (newVisuals e) (hasAntiMissile e) (eventQueue
    e) (grudge e) (grudgeTime e) x (cloakedCollisions e) (messages e) (draw
    e) (doEnter e) (doFlash e) (trace e).
Definition set_cloakedCollisions (x : list ShipId) (e : Engine) : Engine :=
  mkEngine (world e) (playerSystem e) (flagship e) (step e) (heap e) (ships
    e) (newShips e) (projectiles e) (newProjectiles e) (flotsam e)
    (newFlotsam e) (visuals e) (newVisuals e) (hasAntiMissile e) (eventQueue
    e) (grudge e) (grudgeTime e) (shipCollisions e) x (messages e) (draw e)
    (doEnter e) (doFlash e) (trace e).
Definition set_messages (x : list string) (e : Engine) : Engine :=
  mkEngine (world e) (playerSystem e) (flagship e) (step e) (heap e) (ships
    e) (newShips e) (projectiles e) (newProjectiles e) (flotsam e)
    (newFlotsam e) (visuals e) (newVisuals e) (hasAntiMissile e) (eventQueue
    e) (grudge e) (grudgeTime e) (shipCollisions e) (cloakedCollisions e) x
    (draw e) (doEnter e) (doFlash e) (trace e).
Definition set_draw (x : list Drawable) (e : Engine) : Engine :=
  mkEngine (world e) (playerSystem e) (flagship e) (step e) (heap e) (ships
    e) (newShips e) (projectiles e) (newProjectiles e) (flotsam e)
    (newFlotsam e) (visuals e) (newVisuals e) (hasAntiMissile e) (eventQueue
    e) (grudge e) (grudgeTime e) (shipCollisions e) (cloakedCollisions e)
    (messages e) x (doEnter e) (doFlash e) (trace e).
Definition set_doEnter (x : bool) (e : Engine) : Engine :=
  mkEngine (world e) (playerSystem e) (flagship e) (step e) (heap e) (ships
    e) (newShips e) (projectiles e) (newProjectiles e) (flotsam e)
    (newFlotsam e) (visuals e) (newVisuals e) (hasAntiMissile e) (eventQueue
    e) (grudge e) (grudgeTime e) (shipCollisions e) (cloakedCollisions e)
    (messages e) (draw e) x (doFlash e) (trace e).
Definition set_doFlash (x : bool) (e : Engine) : Engine :=
  mkEngine (world e) (playerSystem e) (flagship e) (step e) (heap e) (ships
    e) (newShips e) (projectiles e) (newProjectiles e) (flotsam e)
    (newFlotsam e) (visuals e) (newVisuals e) (hasAntiMissile e) (eventQueue
    e) (grudge e) (grudgeTime e) (shipCollisions e) (cloakedCollisions e)
    (messages e) (draw e) (doEnter e) x (trace e).
Definition set_trace (x : list Call) (e : Engine) : Engine :=
  mkEngine (world e) (playerSystem e) (flagship e) (step e) (heap e) (ships
    e) (newShips e) (projectiles e) (newProjectiles e) (flotsam e)
    (newFlotsam e) (visuals e) (newVisuals e) (hasAntiMissile e) (eventQueue
    e) (grudge e) (grudgeTime e) (shipCollisions e) (cloakedCollisions e)
    (messages e) (draw e) (doEnter e) (doFlash e) x.

End Engine.

End Model.

(* ===================================================================== *)
(** * The arithmetic of [double]                                          *)
(* ===================================================================== *)

(** Where the result of a computation in [double] decides what the code
    does, its arithmetic is that of IEEE 754 binary64 as the standard
    library specifies it: 53 bits of mantissa, every operation rounded to
    the nearest value, ties to even, with the infinities, the two zeros
    and NaN, with which every comparison is false. *)
Module Double.

Definition t := SpecFloat.spec_float.

(** The conversion of an integer, as of the [int64_t] cost of a ship. *)
Definition of_int (z : Z) : t := SpecFloat.binary_normalize 53 1024 z 0 false.

Definition power_of_two (d : positive) : bool :=
  Z.eqb (Zpos d) (2 ^ Z.log2 (Zpos d)).

(** The [double] a rational of the model stands for: itself if it is one,
    that is [n / 2^k] within the range and precision of the format, and
    the nearest one otherwise.  A rational zero is the positive zero. *)
Definition of_Q (q : Q) : t :=
  if power_of_two (Qden q)
  then SpecFloat.binary_normalize 53 1024 (Qnum q) (- Z.log2 (Zpos (Qden q)))
                                  false
  else SpecFloat.SFdiv 53 1024 (of_int (Qnum q)) (of_int (Zpos (Qden q))).

Definition add : t -> t -> t := SpecFloat.SFadd 53 1024.
Definition sub : t -> t -> t := SpecFloat.SFsub 53 1024.
Definition mul : t -> t -> t := SpecFloat.SFmul 53 1024.
Definition div : t -> t -> t := SpecFloat.SFdiv 53 1024.
Definition leb : t -> t -> bool := SpecFloat.SFleb.      (* [<=] *)
Definition ltb : t -> t -> bool := SpecFloat.SFltb.      (* [<] *)

End Double.

(* ===================================================================== *)
(** * The member functions                                                *)
(* ===================================================================== *)

Module Code.
Import Model.

Section Code.
Context `{Collaborators}.

(** ** Small helpers *)

Definition log (c : Call) (e : Engine) : Engine :=
  set_trace (trace e ++ [c]) e.

Definition say (m : string) (e : Engine) : Engine :=
  set_messages (messages e ++ [m]) e.

Definition emit (ev : ShipEvent) (e : Engine) : Engine :=
  set_eventQueue (eventQueue e ++ [ev]) e.

(** [*p] for a pointer that is expected to name a live ship. *)
Definition deref (e : Engine) (id : ShipId) : result Ship.t :=
  match heap e !! id with
  | Some s => Ok s
  | None => Fault DanglingShip
  end.

(** Writing back the object a member function has changed. *)
Definition store (id : ShipId) (s : Ship.t) (e : Engine) : Engine :=
  set_heap (<[id := s]> (heap e)) e.

(** [weak_ptr::lock()]: the pointer, if the object is still alive. *)
Definition lock (e : Engine) (w : option ShipId) : option ShipId :=
  match w with
  | Some id => match heap e !! id with Some _ => Some id | None => None end
  | None => None
  end.

(** [a == b] on pointers. *)
Definition same (a b : option nat) : bool := bool_decide (a = b).

Definition is_null {A} (p : option A) : bool :=
  match p with Some _ => false | None => true end.

(** The double-quote character of the message texts. *)
Definition quote : string := String (ascii_of_nat 34) EmptyString.

Definition cat (parts : list string) : string :=
  fold_right String.append EmptyString parts.

(** [previous->GetSystem() == player.GetSystem() && !previous->IsDisabled()] *)
Definition present_and_able (e : Engine) (s : Ship.t) : bool :=
  same (Ship.GetSystem s) (playerSystem e) && negb (Ship.IsDisabled s).

(** ** DoGrudge (lines 1865-1945) *)

(** [(ship->Shields() + ship->Hull()) * ship->Cost()], in [double]: the
    cost, an [int64_t], is converted, and the sum and the product are
    rounded. *)
Definition strength (s : Ship.t) : Double.t :=
  Double.mul (Double.add (Double.of_Q (Ship.Shields s))
                         (Double.of_Q (Ship.Hull s)))
             (Double.of_int (Ship.Cost s)).

(** The loop of lines 1910-1915 over [ships]. *)
Definition count_attackers (e : Engine) (target : ShipId) (attacker : GovId)
  : result (Z * Double.t) :=
  for_each
    (fun '(attackerCount, attackerStrength) id =>
       let* ship := deref e id in
       if Nat.eqb (Ship.GetGovernment ship) attacker
          && same (lock e (Ship.GetTargetShip ship)) (Some target)
       then Ok (wrap32 (attackerCount + 1),
                Double.add attackerStrength (strength ship))
       else Ok (attackerCount, attackerStrength))
    (ships e) (0, Double.of_int 0).

(** Lines 1921-1922:
    [Random::Real() * 10. > attackerStrength / targetStrength - 1.]
    With a target strength of zero the quotient is an infinity or NaN,
    and so is the ratio. *)
Definition draw_fails (r : Q) (attackerStrength targetStrength : Double.t)
  : bool :=
  let ratio := Double.sub (Double.div attackerStrength targetStrength)
                          (Double.of_int 1) in
  Double.ltb ratio (Double.mul (Double.of_Q r) (Double.of_int 10)).

Definition thanks (e : Engine) (previous : Ship.t) : string :=
  cat [Government.GetName (government (Ship.GetGovernment previous)); " ";
       Ship.Noun previous; " "; quote; Ship.Name previous; quote;
       ": Thank you for your assistance, Captain "; LastName (world e); "!"].

Definition request (target : Ship.t) (attacker : GovId) (attackerCount : Z)
  : string :=
  let one := Z.eqb attackerCount 1 in
  cat ([Government.GetName (government (Ship.GetGovernment target));
        " ship "; quote; Ship.Name target; quote; ": "]
       ++ (if Ship.IsHeroic target
           then ["Please assist us in destroying ";
                 if one then "this " else "these ";
                 Government.GetName (government attacker);
                 if one then " ship." else " ships."]
           else ["We are under attack by "]
                ++ (if one then ["a "] else [])
                ++ [Government.GetName (government attacker);
                    if one then " ship" else " ships";
                    ". Please assist us!"])).

Definition DoGrudge (e : Engine) (target : ShipId) (attacker : option GovId)
  : result Engine :=
  match attacker with
  | None => Fault NullGovernment                  (* attacker->IsPlayer() *)
  | Some attacker =>
    let* t := deref e target in
    if Government.IsPlayer (government attacker) then
      (* grudge[target->GetGovernment()]: operator[] makes the entry *)
      let key := Ship.GetGovernment t in
      let entry := default None (grudge e !! key) in
      let e := set_grudge (<[key := entry]> (grudge e)) e in
      match lock e entry with
      | Some pid =>
          let* previous := deref e pid in
          if present_and_able e previous
          then Ok (say (thanks e previous)
                       (set_grudge (<[key := None]> (grudge e)) e))
          else Ok e
      | None => Ok e
      end
    else if negb (Z.eqb (grudgeTime e) 0) then Ok e
    else
      let* suppressed :=
        match grudge e !! attacker with
        | Some entry =>                           (* grudge.count(attacker) *)
            match lock e entry with
            | None => Ok true                     (* !previous *)
            | Some pid =>
                let* previous := deref e pid in
                Ok (present_and_able e previous)
            end
        | None => Ok false
        end in
      if suppressed then Ok e
      else if Government.IsPlayer (government (Ship.GetGovernment t)) then Ok e
      else if negb (IsEnemyOfPlayer attacker) then Ok e
      else if IsEnemyOfPlayer (Ship.GetGovernment t) then Ok e
      else if Ship.IsMute t then Ok e
      else
        let language := Government.Language (government (Ship.GetGovernment t)) in
        if negb (String.eqb language EmptyString)
           && Z.eqb (GetCondition (world e) (String.append "language: " language)) 0
        then Ok e
        else
          let targetStrength := strength t in
          let* (attackerCount, attackerStrength) := count_attackers e target attacker in
          if Double.leb attackerStrength targetStrength then Ok e
          else
            let '(r, w) := RandomReal (world e) in
            let e := set_world w e in
            if draw_fails r attackerStrength targetStrength then Ok e
            else
              let e := set_grudge (<[attacker := Some target]> (grudge e)) e in
              let e := set_grudgeTime 120 e in
              Ok (say (request t attacker attackerCount) e)
  end.

(** ** SpawnFleets (lines 1315-1333) *)

(** One iteration of the loop over [player.GetSystem()->Fleets()]. *)
Definition SpawnFleet (system : SystemId) (e : Engine) (fleet : FleetProbability.t)
  : Engine :=
  let '(r, w) := RandomInt (world e) (to_uint32 (FleetProbability.Period fleet)) in
  let e := set_world w e in
  if negb (Z.eqb r 0) then e
  else
    match FleetGovernment (FleetProbability.Get fleet) with
    | None => e                                   (* if(!gov) continue; *)
    | Some gov =>
        let enemyStrength := EnemyStrength (world e) gov in
        if negb (Z.eqb enemyStrength 0)
           && Z.ltb (wrap64 (2 * enemyStrength)) (AllyStrength (world e) gov)
        then e                                    (* continue; *)
        else
          let '(h, added, w) :=
            FleetEnter (world e) (heap e) (FleetProbability.Get fleet) system in
          log (CFleetEnter (FleetProbability.Get fleet))
            (set_newShips (newShips e ++ added) (set_heap h (set_world w e)))
    end.

Definition SpawnFleets (e : Engine) : result Engine :=
  match playerSystem e with
  | None => Fault NullSystem
  | Some system => Ok (fold_left (SpawnFleet system) (Fleets system) e)
  end.

(** ** SpawnPersons (lines 1338-1375) *)

(** The first loop: [sum += it.second.Frequency(player.GetSystem())]. *)
Definition total_frequency (e : Engine) (system : SystemId)
  (persons : list (string * Person.t)) : Z :=
  fold_left (fun sum it => wrap32 (sum + Frequency (heap e) (snd it) system))
            persons 0.

(** The second loop: [sum -= person.Frequency(...); if(sum < 0) ...]. *)
Fixpoint pick_person (e : Engine) (system : SystemId) (sum : Z)
  (persons : list (string * Person.t)) : option (string * Person.t) :=
  match persons with
  | [] => None
  | it :: rest =>
      let sum := wrap32 (sum - Frequency (heap e) (snd it) system) in
      if Z.ltb sum 0 then Some it else pick_person e system sum rest
  end.

Definition SpawnPersons (e : Engine) : result Engine :=
  let '(gate, w) := RandomInt (world e) 36000 in
  let e := set_world w e in
  match playerSystem e with
  | None => if negb (Z.eqb gate 0) then Ok e else Fault NullSystem
  | Some system =>
    if negb (Z.eqb gate 0) || Links_empty system then Ok e
    else
      let sum := total_frequency e system Persons in
      if Z.eqb sum 0 then Ok e
      else
        let '(r, w) := RandomInt (world e) (to_uint32 (wrap32 (sum + 1000))) in
        let picked := pick_person e system (wrap32 r) Persons in
        let e := set_world w e in
        match picked with
        | None => Ok e
        | Some (name, person) =>
            let id := Person.GetShip person in
            let* ship := deref e id in
            let ship := Recharge ship in
            let ship := Ship.SetName name ship in
            let ship := Ship.SetGovernment (Person.GetGovernment person) ship in
            let ship := Ship.SetPersonality (Person.PersonalityIsMute person)
                          (Person.PersonalityIsHeroic person) ship in
            let '(ship, w) := FleetEnterShip (world e) system ship in
            Ok (log (CPersonEnter name)
                  (set_newShips (newShips e ++ [id])
                     (store id ship (set_world w e))))
        end
  end.

(** ** FillCollisionSets (lines 1291-1309) *)

Definition FillCollisionSets (e : Engine) : result Engine :=
  for_each
    (fun e id =>
       let* it := deref e id in
       if same (Ship.GetSystem it) (playerSystem e) && Qeq_bool (Ship.Zoom it) 1
       then if Qltb (Ship.Cloaking it) 1
            then Ok (set_shipCollisions (shipCollisions e ++ [id]) e)
            else Ok (set_cloakedCollisions (cloakedCollisions e ++ [id]) e)
       else Ok e)
    (ships e)
    (set_cloakedCollisions [] (set_shipCollisions [] e)).

(** ** DoCollisions (lines 1507-1639) *)

(** The loop of lines 1543-1548: is there, among the bodies in the
    trigger radius, the target or an enemy of [gov]? *)
Fixpoint triggered (e : Engine) (gov : GovId) (target : option ShipId)
  (bodies : list ShipId) : result bool :=
  match bodies with
  | [] => Ok false
  | body :: rest =>
      if same (Some body) target then Ok true
      else
        let* b := deref e body in
        if IsEnemy gov (Ship.GetGovernment b) then Ok true
        else triggered e gov target rest
  end.

(** Lines 1512-1572: the closest hit of this step, the ship that was hit
    and the velocity to give the explosion. *)
Definition FindHit (e : Engine) (projectile : Projectile.t)
  : result (Engine * Q * option ShipId * Point.t) :=
  let weapon := Projectile.GetWeapon projectile in
  match Projectile.GetGovernment projectile with
  | None => Ok (e, 0%Q, None, Point.zero)         (* if(!gov) closestHit = 0.; *)
  | Some gov =>
    if Weapon.IsPhasing weapon && negb (is_null (Projectile.Target projectile))
    then
      match lock e (Projectile.TargetPtr projectile) with
      | None => Ok (e, 1%Q, None, Point.zero)
      | Some tid =>
          let* target := deref e tid in
          if same (Ship.GetSystem target) (playerSystem e)
             && Qeq_bool (Ship.Zoom target) 1 && Qltb (Ship.Cloaking target) 1
          then
            let offset :=
              Point.sub (Projectile.Position projectile) (Ship.Position target) in
            let range :=
              MaskCollide (step e) target offset (Projectile.Velocity projectile) in
            let e := log (CMaskCollide tid) e in
            if Qltb range 1 then Ok (e, range, Some tid, Point.zero)
            else Ok (e, 1%Q, None, Point.zero)
          else Ok (e, 1%Q, None, Point.zero)
      end
    else
      let triggerRadius := Weapon.TriggerRadius weapon in
      let* (e, closestHit) :=
        if Qnonzero triggerRadius then
          let bodies := Circle (heap e) (shipCollisions e)
                               (Projectile.Position projectile) triggerRadius in
          let e := log (CCircle ForTrigger (Projectile.Position projectile) triggerRadius) e in
          let* t := triggered e gov (Projectile.Target projectile) bodies in
          Ok (e, if t then 0%Q else 1%Q)
        else Ok (e, 1%Q) in
      let* (e, closestHit, hit, hitVelocity) :=
        if Qltb 0 closestHit then
          let '(ship, closestHit) :=
            Line (heap e) (shipCollisions e) projectile closestHit in
          let e := log CLine e in
          match ship with
          | Some sid =>
              let* s := deref e sid in
              Ok (e, closestHit, Some sid, Ship.Velocity s)
          | None => Ok (e, closestHit, None, Point.zero)
          end
        else Ok (e, closestHit, None, Point.zero) in
      if negb (Weapon.IsPhasing weapon) then
        let '(closestAsteroid, hitVelocity, w) :=
          AsteroidsCollide (world e) projectile (step e) closestHit hitVelocity in
        let e := log CAsteroidsCollide (set_world w e) in
        if Qltb closestAsteroid closestHit
        then Ok (e, closestAsteroid, None, hitVelocity)
        else Ok (e, closestHit, hit, hitVelocity)
      else Ok (e, closestHit, hit, hitVelocity)
  end.

(** [ship->TakeDamage(projectile, isBlast)] and the event it may yield. *)
Definition Damage (projectile : Projectile.t) (isBlast : bool)
  (e : Engine) (id : ShipId) : result Engine :=
  let* ship := deref e id in
  let '(ship, eventType, w) := TakeDamage (world e) ship projectile isBlast in
  let e := log (CTakeDamage id isBlast) (store id ship (set_world w e)) in
  if negb (Z.eqb eventType 0)
  then Ok (emit (EventByGovernment (Projectile.GetGovernment projectile) id
                                   (Bits eventType)) e)
  else Ok e.

(** The test of lines 1592-1594 and 1605-1607:
    [isSafe && projectile.Target() != body
       && !projectile.GetGovernment()->IsEnemy(body->GetGovernment())]. *)
Definition spared (e : Engine) (projectile : Projectile.t) (body : ShipId)
  : result bool :=
  if Weapon.IsSafe (Projectile.GetWeapon projectile)
     && negb (same (Projectile.Target projectile) (Some body))
  then
    match Projectile.GetGovernment projectile with
    | None => Fault NullGovernment
    | Some gov =>
        let* b := deref e body in
        Ok (negb (IsEnemy gov (Ship.GetGovernment b)))
    end
  else Ok false.

(** The body of the two loops of lines 1590-1614. *)
Definition Blast (projectile : Projectile.t) (hit : option ShipId)
  (e : Engine) (body : ShipId) : result Engine :=
  let* skip := spared e projectile body in
  if skip then Ok e
  else Damage projectile (negb (same (Some body) hit)) e body.

(** [ship == projectile.Target() || gov->IsEnemy(ship->GetGovernment())] *)
Definition eligible (e : Engine) (projectile : Projectile.t) (id : ShipId)
  : result bool :=
  if same (Some id) (Projectile.Target projectile) then Ok true
  else
    match Projectile.GetGovernment projectile with
    | None => Fault NullGovernment
    | Some gov =>
        let* ship := deref e id in
        Ok (IsEnemy gov (Ship.GetGovernment ship))
    end.

(** The loop of lines 1631-1637 over [hasAntiMissile]. *)
Fixpoint AntiMissile (e : Engine) (projectile : Projectile.t)
  (ready : list ShipId) : result (Engine * Projectile.t) :=
  match ready with
  | [] => Ok (e, projectile)
  | id :: rest =>
      let* ok := eligible e projectile id in
      if ok then
        let* ship := deref e id in
        let '(ship, vs, fired, w) := FireAntiMissile (world e) ship projectile in
        let e := log (CFireAntiMissile id)
                   (set_visuals (visuals e ++ vs) (store id ship (set_world w e))) in
        if fired then Ok (log CKill e, Kill projectile)
        else AntiMissile e projectile rest
      else AntiMissile e projectile rest
  end.

(** [projectile.Position() + closestHit * projectile.Velocity()] *)
Definition impact (projectile : Projectile.t) (closestHit : Q) : Point.t :=
  Point.add (Projectile.Position projectile)
            (Point.scale closestHit (Projectile.Velocity projectile)).

(** Lines 1589-1614: the blast, first on the visible ships, then on the
    cloaked ones. *)
Definition BlastAll (e : Engine) (projectile : Projectile.t)
  (hit : option ShipId) (hitPos : Point.t) (blastRadius : Q) : result Engine :=
  let visible := Circle (heap e) (shipCollisions e) hitPos blastRadius in
  let* e := for_each (Blast projectile hit) visible
                     (log (CCircle ForBlast hitPos blastRadius) e) in
  let cloaked := Circle (heap e) (cloakedCollisions e) hitPos blastRadius in
  for_each (Blast projectile hit) cloaked
           (log (CCircle ForCloakedBlast hitPos blastRadius) e).

Definition DoCollisions (e : Engine) (projectile : Projectile.t)
  : result (Engine * Projectile.t) :=
  let e := log (CDoCollisions projectile) e in
  let* (e, closestHit, hit, hitVelocity) := FindHit e projectile in
  if Qltb closestHit 1 then
    let '(projectile, vs) := Explode projectile closestHit hitVelocity in
    let e := log (CExplode closestHit) (set_visuals (visuals e ++ vs) e) in
    let blastRadius := Weapon.BlastRadius (Projectile.GetWeapon projectile) in
    let* e :=
      if Qnonzero blastRadius then
        BlastAll e projectile hit (impact projectile closestHit) blastRadius
      else
        match hit with
        | Some h => Damage projectile false e h
        | None => Ok e
        end in
    let* e :=
      match hit with
      | Some h => DoGrudge e h (Projectile.GetGovernment projectile)
      | None => Ok e
      end in
    Ok (e, projectile)
  else if negb (Z.eqb (Projectile.MissileStrength projectile) 0) then
    AntiMissile e projectile (hasAntiMissile e)
  else Ok (e, projectile).

(** ** DoCollection (lines 1644-1710) *)

(** The test of line 1651:
    [!ship->CannotAct() && ship != flotsam.Source()
       && ship->Cargo().Free() >= flotsam.UnitSize()]. *)
Definition can_collect (f : Flotsam.t) (body : ShipId) (ship : Ship.t) : bool :=
  negb (Ship.CannotAct ship)
  && negb (same (Some body) (Flotsam.Source f))
  && Qle_bool (Flotsam.UnitSize f) (inject_Z (Ship.CargoFree ship)).

(** The loop of lines 1648-1656 over the bodies of the circle query. *)
Fixpoint find_collector (e : Engine) (f : Flotsam.t) (bodies : list ShipId)
  : result (option ShipId) :=
  match bodies with
  | [] => Ok None
  | body :: rest =>
      let* ship := deref e body in
      if can_collect f body ship then Ok (Some body)
      else find_collector e f rest
  end.

(** Lines 1666-1709: the message for a pick-up by one of the player's
    ships, and the harvest it may record. *)
Definition collection_message (e : Engine) (f : Flotsam.t) (collector : Ship.t)
  (amount : Z) : Engine :=
  let name :=
    if is_null (lock e (Ship.GetParent collector)) then "You picked up "%string
    else cat ["Your ship "; quote; Ship.Name collector; quote; " picked up "] in
  let '(commodity, message, e) :=
    match Flotsam.OutfitType f with
    | Some outfit =>
        if Qltb (Outfit.installable outfit) 0
        then (Outfit.Name outfit, EmptyString,
              set_world (Harvest (world e) outfit) e)
        else (EmptyString,
              cat [name; FormatNumber (inject_Z amount); " ";
                   if Z.eqb amount 1 then Outfit.Name outfit
                   else Outfit.PluralName outfit; "."], e)
    | None => (Flotsam.CommodityType f, EmptyString, e)
    end in
  let message :=
    if negb (String.eqb commodity EmptyString) then
      let amountInTons := (inject_Z amount * Flotsam.UnitSize f)%Q in
      cat [name;
           if Qeq_bool amountInTons 1 then "a ton"%string
           else String.append (FormatNumber amountInTons) " tons";
           " of "; LowerCase commodity; "."]
    else message in
  if negb (String.eqb message EmptyString) then
    let free := Ship.CargoFree collector in
    say (cat [message; " ("; FormatNumber (inject_Z free);
              if Z.eqb free 1 then " ton" else " tons";
              " of free space remaining.)"]) e
  else e.

Definition DoCollection (e : Engine) (f : Flotsam.t)
  : result (Engine * Flotsam.t) :=
  let e := log (CDoCollection f) e in
  let bodies := Circle (heap e) (shipCollisions e) (Flotsam.Position f) 5 in
  let e := log (CCircle ForPickup (Flotsam.Position f) 5) e in
  let* collector := find_collector e f bodies in
  match collector with
  | None => Ok (e, f)
  | Some id =>
      let* ship := deref e id in
      let '(f, ship, amount) := TransferTo f ship in
      let e := log (CTransferTo id) (store id ship e) in
      if negb (Ship.IsYours ship) then Ok (e, f)
      else Ok (collection_message e f ship amount, f)
  end.

(** ** DoScanning (lines 1716-1725) *)

Definition DoScanning (e : Engine) (id : ShipId) : result Engine :=
  let* ship := deref e id in
  let '(ship, scan, w) := Scan (world e) ship in
  let e := store id ship (set_world w e) in
  if negb (Z.eqb scan 0) then
    match lock e (Ship.GetTargetShip ship) with
    | Some tid =>
        let* target := deref e tid in
        if Ship.IsTargetable target
        then Ok (emit (EventByShip id tid (Bits scan)) e)
        else Ok e
    | None => Ok e
    end
  else Ok e.

(** ** MoveShip (lines 1228-1283) *)

(** Lines 1249-1262: the sound of a ship that jumps out of the player's
    system or into it. *)
Definition JumpSounds (e : Engine) (id : ShipId) (ship : Ship.t)
  (isJump wasHere wasHyperspacing : bool) : result Engine :=
  if negb (same (Some id) (flagship e)) && Qeq_bool (Ship.Zoom ship) 1 then
    let e :=
      if wasHere && negb wasHyperspacing && Ship.IsHyperspacing ship
      then set_world (PlaySound (world e)
                        (if isJump then "jump out" else "hyperdrive out")) e
      else e in
    match flagship e with
    | Some f =>
        if wasHere then Ok e
        else
          let* fs := deref e f in
          if same (Ship.GetSystem ship) (Ship.GetSystem fs)
          then Ok (set_world (PlaySound (world e)
                                (if isJump then "jump in" else "hyperdrive in")) e)
          else Ok e
    | None => Ok e
    end
  else Ok e.

(** Lines 1264-1270: boarding. *)
Definition AutoBoard (e : Engine) (id : ShipId) (ship : Ship.t) : result Engine :=
  let autoPlunder :=
    negb (Government.IsPlayer (government (Ship.GetGovernment ship))) in
  let '(h, victim, w) := Board (world e) (heap e) id autoPlunder in
  let e := set_heap h (set_world w e) in
  match victim with
  | Some v =>
      let* boarder := deref e id in
      let* boarded := deref e v in
      Ok (emit (EventByShip id v
                  (if IsEnemy (Ship.GetGovernment boarder)
                              (Ship.GetGovernment boarded)
                   then BOARD else ASSIST)) e)
  | None => Ok e
  end.

(** Lines 1276-1282: launching fighters and firing weapons. *)
Definition LaunchAndFire (e : Engine) (id : ShipId) : result Engine :=
  let '(h, launched, w) := Launch (world e) (heap e) id in
  let e := set_newShips (newShips e ++ launched) (set_heap h (set_world w e)) in
  let* ship := deref e id in
  let '(ship, ps, vs, ready, w) := Fire (world e) ship in
  let e := set_newVisuals (newVisuals e ++ vs)
             (set_newProjectiles (newProjectiles e ++ ps)
                (store id ship (set_world w e))) in
  if ready then Ok (set_hasAntiMissile (hasAntiMissile e ++ [id]) e)
  else Ok e.

Definition MoveShip (e : Engine) (id : ShipId) : result Engine :=
  let* ship := deref e id in
  let isJump := Ship.IsUsingJumpDrive ship in
  let* wasHere :=
    match flagship e with
    | Some f => let* fs := deref e f in
                Ok (same (Ship.GetSystem ship) (Ship.GetSystem fs))
    | None => Ok false
    end in
  let wasHyperspacing := Ship.IsHyperspacing ship in
  let '(ship, vs, fs, w) := ShipMove (world e) ship in
  let e := log (CShipMove id)
             (set_newFlotsam (newFlotsam e ++ fs)
                (set_newVisuals (newVisuals e ++ vs)
                   (store id ship (set_world w e)))) in
  if Ship.ShouldBeRemoved ship
  then Ok (emit (EventByGovernment None id DESTROY) e)
  else
    let* e := JumpSounds e id ship isJump wasHere wasHyperspacing in
    let* e := AutoBoard e id ship in
    let* ship := deref e id in
    if negb (same (Ship.GetSystem ship) (playerSystem e)) then Ok e
    else LaunchAndFire e id.

(** ** Prune and Append (lines 72-108) *)

(** [Prune(vector<Type> &)]: the objects that should not be removed, in
    their order. *)
Definition Prune {A : Type} (ShouldBeRemoved : A -> bool) (objects : list A)
  : list A :=
  List.filter (fun x => negb (ShouldBeRemoved x)) objects.

(** [Prune(list<shared_ptr<Type>> &)], for the ships. *)
Fixpoint PruneShips (e : Engine) (objects : list ShipId) : result (list ShipId) :=
  match objects with
  | [] => Ok []
  | id :: rest =>
      let* it := deref e id in
      let* rest := PruneShips e rest in
      Ok (if Ship.ShouldBeRemoved it then rest else id :: rest)
  end.

(** [Append(objects, added)], and [splice] at the end of a list. *)
Definition Append {A : Type} (objects added : list A) : list A * list A :=
  (objects ++ added, []).

(** ** EnterSystem (lines 902-1013) *)

Definition EnterSystem (e : Engine) : result Engine :=
  let e := set_world (AIClean (world e)) e in
  match flagship e with
  | None => Ok e
  | Some f =>
      let* _ := deref e f in
      let e := set_doEnter true e in
      let '(h, said, w) := Arrive (world e) (heap e) f in
      let e := set_messages (messages e ++ said) (set_heap h (set_world w e)) in
      let* fs := deref e f in
      let '(h, placed, said, w) :=
        PlaceFleets (world e) (heap e) (Ship.GetSystem fs) in
      let e := set_messages (messages e ++ said)
                 (set_ships (ships e ++ placed) (set_heap h (set_world w e))) in
      let e := set_grudge ∅ e in
      let e := set_projectiles [] e in
      let e := set_visuals [] e in
      let e := set_flotsam [] e in
      let e := set_newProjectiles [] e in
      let e := set_newVisuals [] e in
      let e := set_newFlotsam [] e in
      Ok (set_messages (messages e ++ HelpMessages (world e)) e)
  end.

(** ** SendHails (lines 1380-1420) *)

Definition SendHails (e : Engine) : result Engine :=
  let '(r, w) := RandomInt (world e) 600 in
  let e := set_world w e in
  if negb (Z.eqb r 0) || PlayerIsDead (world e) || is_null (head (ships e))
  then Ok e
  else
    let '(i, w) := RandomInt (world e) (Z.of_nat (length (ships e))) in
    let e := set_world w e in
    match ships e !! Z.to_nat i with
    | None => Fault DanglingShip
    | Some id =>
        let* source := deref e id in
        let gov := government (Ship.GetGovernment source) in
        if Government.IsPlayer gov then Ok e
        else if negb (same (Ship.GetSystem source) (playerSystem e)) then Ok e
        else if Ship.IsDisabled source || Z.eqb (Ship.Crew source) 0
                || Qle_bool 1 (Ship.Cloaking source) then Ok e
        else
          let '(message, w) := GetHail (world e) source in
          let e := set_world w e in
          if String.eqb message EmptyString then Ok e
          else
            let tag :=
              if negb (String.eqb (Ship.Name source) EmptyString)
              then cat [Government.GetName gov; " "; Ship.Noun source; " ";
                        quote; Ship.Name source; quote; ": "]
              else cat [Ship.ModelName source; " ("; Government.GetName gov; "): "] in
            Ok (say (String.append tag message) e)
    end.

(** ** AddSprites (lines 1807-1859) *)

Definition AddSprites (e : Engine) (id : ShipId) (ship : Ship.t) : Engine :=
  let '(below, above) := ShipParts ship in
  set_draw (draw e ++ map (DrawShipPart id) below ++ [DrawShip id]
                   ++ map (DrawShipPart id) above) e.

(** ** CalculateStep (lines 1044-1222) *)

(** Lines 1098-1099, 1103-1104 and 1108-1109: the three loops that move
    the flotsam, the projectiles and the visuals where they are. *)
Definition MoveFlotsam (e : Engine) : Engine :=
  fold_left
    (fun e it =>
       let '(it', vs, w) := FlotsamMove (world e) it in
       log (CFlotsamMove it)
         (set_flotsam (flotsam e ++ [it'])
            (set_newVisuals (newVisuals e ++ vs) (set_world w e))))
    (flotsam e) (set_flotsam [] e).

Definition MoveProjectiles (e : Engine) : Engine :=
  fold_left
    (fun e projectile =>
       let '(projectile', vs, ps, w) :=
         ProjectileMove (world e) (heap e) projectile in
       log (CProjectileMove projectile)
         (set_projectiles (projectiles e ++ [projectile'])
            (set_newProjectiles (newProjectiles e ++ ps)
               (set_newVisuals (newVisuals e ++ vs) (set_world w e)))))
    (projectiles e) (set_projectiles [] e).

Definition MoveVisuals (e : Engine) : Engine :=
  fold_left
    (fun e visual =>
       log (CVisualMove visual)
         (set_visuals (visuals e ++ [VisualMove visual]) e))
    (visuals e) (set_visuals [] e).

(** Lines 1123-1126: the new objects go to the ends of the lists. *)
Definition Merge (e : Engine) : Engine :=
  let e := set_newShips [] (set_ships (ships e ++ newShips e) e) in
  let '(objects, added) := Append (projectiles e) (newProjectiles e) in
  let e := set_newProjectiles added (set_projectiles objects e) in
  let e := set_newFlotsam [] (set_flotsam (flotsam e ++ newFlotsam e) e) in
  let '(objects, added) := Append (visuals e) (newVisuals e) in
  set_newVisuals added (set_visuals objects e).

(** Lines 1136-1137 and 1143-1144: the loops that call [DoCollisions]
    and [DoCollection] on each element where it is. *)
Definition CollideAll (e : Engine) : result Engine :=
  for_each
    (fun e projectile =>
       let* (e, projectile) := DoCollisions e projectile in
       Ok (set_projectiles (projectiles e ++ [projectile]) e))
    (projectiles e) (set_projectiles [] e).

Definition CollectAll (e : Engine) : result Engine :=
  for_each
    (fun e it =>
       let* (e, it) := DoCollection e it in
       Ok (set_flotsam (flotsam e ++ [it]) e))
    (flotsam e) (set_flotsam [] e).

(** Lines 1161-1212: the radar and the draw list. *)
Definition DrawAll (e : Engine) : result Engine :=
  let e := set_world (Radar (world e) (heap e) (ships e) (projectiles e)) e in
  match playerSystem e with
  | None => Fault NullSystem
  | Some system =>
      let e := set_draw (draw e ++ Objects (world e) system) e in
      let e := set_draw (draw e ++ AsteroidsDraw (world e)) e in
      let e := set_draw (draw e ++ map DrawFlotsam (flotsam e)) e in
      let* e :=
        for_each
          (fun e id =>
             let* ship := deref e id in
             if same (Ship.GetSystem ship) (playerSystem e) && Ship.HasSprite ship
                && negb (same (Some id) (flagship e))
             then Ok (set_world (FlareSounds (world e) ship) (AddSprites e id ship))
             else Ok e)
          (ships e) e in
      let* e :=
        match flagship e with
        | Some f =>
            let* ship := deref e f in
            if Ship.HasSprite ship
            then Ok (set_world (FlareSounds (world e) ship) (AddSprites e f ship))
            else Ok e
        | None => Ok e
        end in
      let e := set_draw (draw e ++ map DrawProjectile (projectiles e)) e in
      Ok (set_draw (draw e ++ map DrawVisual (visuals e)) e)
  end.

(** Lines 1129-1130: [if(grudgeTime) --grudgeTime;] *)
Definition tick (grudgeTime : Z) : Z :=
  if negb (Z.eqb grudgeTime 0) then wrap32 (grudgeTime - 1) else grudgeTime.

(** Lines 1056-1116: everything up to the point where the new objects
    join the lists. *)
Definition BeforeMerge (system : SystemId) (e : Engine) : result Engine :=
  let '(h, w) := AIStep (world e) (heap e) in
  let e := set_heap h (set_world w e) in
  let '(h, defenders, w) := DeployDefense (world e) (heap e) system in
  let e := set_newShips (newShips e ++ defenders) (set_heap h (set_world w e)) in
  let* wasHyperspacing :=
    match flagship e with
    | Some f => let* fs := deref e f in Ok (Ship.IsEnteringHyperspace fs)
    | None => Ok false
    end in
  let* e := for_each MoveShip (ships e) e in
  let* e :=
    match flagship e with
    | Some f =>
        let* fs := deref e f in
        let e :=
          if negb wasHyperspacing && Ship.IsEnteringHyperspace fs
          then set_world (PlaySound (world e)
                            (if Ship.IsUsingJumpDrive fs
                             then "jump drive" else "hyperdrive")) e
          else e in
        if negb (same (playerSystem e) (Ship.GetSystem fs)) then
          let e := if negb wasHyperspacing
                   then set_world (VisitWormholes (world e) system
                                                  (Ship.GetSystem fs)) e
                   else e in
          let e := set_doFlash (Preference (world e) "Show hyperspace flash") e in
          EnterSystem (set_playerSystem (Ship.GetSystem fs) e)
        else Ok e
    | None => Ok e
    end in
  let* pruned := PruneShips e (ships e) in
  let e := set_ships pruned e in
  let '(vs, fs, w) := AsteroidsStep (world e) in
  let e := set_newFlotsam (newFlotsam e ++ fs)
             (set_newVisuals (newVisuals e ++ vs) (set_world w e)) in
  let e := MoveFlotsam e in
  let e := set_flotsam (Prune Flotsam.ShouldBeRemoved (flotsam e)) e in
  let e := MoveProjectiles e in
  let e := set_projectiles (Prune Projectile.ShouldBeRemoved (projectiles e)) e in
  let e := MoveVisuals e in
  let e := set_visuals (Prune Visual.ShouldBeRemoved (visuals e)) e in
  let* e := SpawnFleets e in
  let* e := SpawnPersons e in
  let* e := SendHails e in
  let '(h, said, w) := MouseClicks (world e) (heap e) (ships e) in
  Ok (set_messages (messages e ++ said) (set_heap h (set_world w e))).

(** Lines 1128-1212: everything after it. *)
Definition AfterMerge (e : Engine) : result Engine :=
  let e := set_grudgeTime (tick (grudgeTime e)) e in
  let* e := FillCollisionSets e in
  let* e := CollideAll e in
  let e := set_hasAntiMissile [] e in
  let* e := CollectAll e in
  let* e := for_each DoScanning (ships e) e in
  DrawAll e.

Definition CalculateStep (e : Engine) : result Engine :=
  let e := set_draw [] e in
  match playerSystem e with
  | None => Ok e                                  (* if(!player.GetSystem()) return; *)
  | Some system =>
      let* e := BeforeMerge system e in
      AfterMerge (Merge e)
  end.

End Code.
End Code.

(* ===================================================================== *)
(** * Terms the properties are stated in                                  *)
(* ===================================================================== *)

Module Terms.
Import Model Code.

(** The collaborators with another list of persons in [GameData]. *)
Definition with_persons (H : Collaborators) (persons : list (string * Person.t))
  : Collaborators := {|
  World := @World H;
  RandomInt := @RandomInt H;
  RandomReal := @RandomReal H;
  government := @government H;
  IsEnemy := @IsEnemy H;
  IsEnemyOfPlayer := @IsEnemyOfPlayer H;
  GetCondition := @GetCondition H;
  LastName := @LastName H;
  PlayerIsDead := @PlayerIsDead H;
  Preference := @Preference H;
  Harvest := @Harvest H;
  VisitWormholes := @VisitWormholes H;
  Links_empty := @Links_empty H;
  Fleets := @Fleets H;
  FleetGovernment := @FleetGovernment H;
  FleetEnter := @FleetEnter H;
  Persons := persons;
  Frequency := @Frequency H;
  Recharge := @Recharge H;
  FleetEnterShip := @FleetEnterShip H;
  DeployDefense := @DeployDefense H;
  Arrive := @Arrive H;
  PlaceFleets := @PlaceFleets H;
  HelpMessages := @HelpMessages H;
  Objects := @Objects H;
  AIStep := @AIStep H;
  AIClean := @AIClean H;
  EnemyStrength := @EnemyStrength H;
  AllyStrength := @AllyStrength H;
  ShipMove := @ShipMove H;
  Board := @Board H;
  Launch := @Launch H;
  Fire := @Fire H;
  TakeDamage := @TakeDamage H;
  FireAntiMissile := @FireAntiMissile H;
  Scan := @Scan H;
  GetHail := @GetHail H;
  MaskCollide := @MaskCollide H;
  ShipParts := @ShipParts H;
  ProjectileMove := @ProjectileMove H;
  Explode := @Explode H;
  Kill := @Kill H;
  FlotsamMove := @FlotsamMove H;
  TransferTo := @TransferTo H;
  VisualMove := @VisualMove H;
  AsteroidsStep := @AsteroidsStep H;
  AsteroidsCollide := @AsteroidsCollide H;
  AsteroidsDraw := @AsteroidsDraw H;
  Circle := @Circle H;
  Line := @Line H;
  FormatNumber := @FormatNumber H;
  LowerCase := @LowerCase H;
  PlaySound := @PlaySound H;
  FlareSounds := @FlareSounds H;
  MouseClicks := @MouseClicks H;
  Radar := @Radar H
|}.

(** The engine [e], for the collaborators with another list of persons. *)
Definition among (H : Collaborators) (persons : list (string * Person.t))
  (e : @Engine H) : @Engine (with_persons H persons) :=
  @mkEngine (with_persons H persons) (world e) (playerSystem e) (flagship e)
    (step e) (heap e) (ships e) (newShips e) (projectiles e) (newProjectiles e)
    (flotsam e) (newFlotsam e) (visuals e) (newVisuals e) (hasAntiMissile e)
    (eventQueue e) (grudge e) (grudgeTime e) (shipCollisions e)
    (cloakedCollisions e) (messages e) (draw e) (doEnter e) (doFlash e)
    (trace e).

Section Terms.
Context `{Collaborators}.

(** The values an [int64_t] strength can take for which [2 * enemyStrength]
    and the comparison with the allied strength are computed without
    overflow whenever the allies outnumber the enemies. *)
Definition strengths_in_range (w : World) (gov : GovId) : Prop :=
  - 2 ^ 62 <= EnemyStrength w gov /\ AllyStrength w gov < 2 ^ 63.

(** "The allied strength exceeds twice the enemy strength, which is not
    zero." *)
Definition outnumbering (w : World) (gov : GovId) : Prop :=
  EnemyStrength w gov <> 0 /\ 2 * EnemyStrength w gov < AllyStrength w gov.

(** The sum of the frequencies, as a number. *)
Definition frequency_sum (e : Engine) (system : SystemId)
  (persons : list (string * Person.t)) : Z :=
  fold_right (fun it sum => Frequency (heap e) (snd it) system + sum) 0 persons.

(** The values [Random::Int(upper)] can return. *)
Definition outcomes (upper : Z) : list Z :=
  map Z.of_nat (seq 0 (Z.to_nat upper)).

(** The call of [SpawnPersons] on [e] has put a ship into [newShips]. *)
Definition spawned (e : Engine) (run : result Engine) : bool :=
  match run with
  | Ok e' => negb (Nat.eqb (length (newShips e')) (length (newShips e)))
  | Fault _ => false
  end.

(** The world [world_of g r] answers [g] to [Random::Int(m)] and then
    [r] to [Random::Int(n)]. *)
Definition deals (world_of : Z -> Z -> World) (m n g r : Z) : Prop :=
  exists w1 w2,
    RandomInt (world_of g r) m = (g, w1) /\ RandomInt w1 n = (r, w2).

(** [SpawnPersons] puts a ship into [newShips] when the world deals the
    pair [draws]. *)
Definition spawns_on (e : Engine) (world_of : Z -> Z -> World)
  (draws : Z * Z) : bool :=
  spawned e (SpawnPersons (set_world (world_of (fst draws) (snd draws)) e)).

(** The members that the resolution of collisions leaves alone. *)
Definition store_of (e : Engine) :=
  (playerSystem e, flagship e, step e, ships e, newShips e, projectiles e,
   newProjectiles e, flotsam e, newFlotsam e, newVisuals e, hasAntiMissile e,
   shipCollisions e, cloakedCollisions e, draw e, doEnter e, doFlash e).

(** The lists of the entity store, and what is drawn. *)
Definition live_of (e : Engine) :=
  (playerSystem e, flagship e, ships e, projectiles e, flotsam e, visuals e,
   draw e).

(** The calls [FindHit] makes. *)
Definition is_search (c : Call) : Prop :=
  match c with
  | CMaskCollide _ | CCircle ForTrigger _ _ | CLine | CAsteroidsCollide => True
  | _ => False
  end.

(** A ship is given damage among the calls [t]. *)
Definition takes_damage (id : ShipId) (t : list Call) : Prop :=
  exists isBlast, In (CTakeDamage id isBlast) t.

(** The ship is the target the projectile has locked, or an enemy of the
    government [gov]. *)
Definition target_or_enemy (projectile : Projectile.t) (gov : GovId)
  (id : ShipId) (s : Ship.t) : bool :=
  same (Projectile.Target projectile) (Some id)
  || IsEnemy gov (Ship.GetGovernment s).

(** The calls [DoCollisions] makes once the search is over, [hit] being
    the ship the search has found. *)
Definition is_resolution (hit : option ShipId) (c : Call) : Prop :=
  match c with
  | CExplode _ | CCircle ForBlast _ _ | CCircle ForCloakedBlast _ _
  | CFireAntiMissile _ | CKill => True
  | CTakeDamage id isBlast => isBlast = negb (same (Some id) hit)
  | _ => False
  end.

(** The ships among [ready] that may fire at the projectile: its locked
    target and the enemies of its government [gov]. *)
Definition may_intercept (e : Engine) (projectile : Projectile.t) (gov : GovId)
  (ready : list ShipId) : list ShipId :=
  List.filter
    (fun id =>
       same (Some id) (Projectile.Target projectile)
       || match heap e !! id with
          | Some s => IsEnemy gov (Ship.GetGovernment s)
          | None => false
          end)
    ready.

(** "They fire in turn, and the first that succeeds kills the
    projectile." *)
Fixpoint Intercept (e : Engine) (projectile : Projectile.t)
  (shooters : list ShipId) : result (Engine * Projectile.t) :=
  match shooters with
  | [] => Ok (e, projectile)
  | id :: rest =>
      let* ship := deref e id in
      let '(ship, vs, fired, w) := FireAntiMissile (world e) ship projectile in
      let e := log (CFireAntiMissile id)
                 (set_visuals (visuals e ++ vs) (store id ship (set_world w e))) in
      if fired then Ok (log CKill e, Kill projectile)
      else Intercept e projectile rest
  end.

(** The ship the table of requesters names for [attacker] is alive, in
    the player's system and not disabled. *)
Definition requester_active (e : Engine) (attacker : GovId) : Prop :=
  exists requester s,
    grudge e !! attacker = Some (Some requester)
    /\ heap e !! requester = Some s /\ present_and_able e s = true.

(** It is alive, but disabled or not in the player's system. *)
Definition requester_away (e : Engine) (attacker : GovId) : Prop :=
  exists requester s,
    grudge e !! attacker = Some (Some requester)
    /\ heap e !! requester = Some s /\ present_and_able e s = false.

(** There is an entry but its weak pointer does not lock any more: the
    ship object is gone, or the entry was reset. *)
Definition requester_expired (e : Engine) (attacker : GovId) : Prop :=
  exists entry, grudge e !! attacker = Some entry /\ lock e entry = None.

(** The tests of lines 1893-1923 all let the attack of [attacker] on
    [target] through. *)
Definition qualifying (e : Engine) (target : ShipId) (attacker : GovId) : Prop :=
  exists t attackerCount attackerStrength,
    heap e !! target = Some t
    /\ Government.IsPlayer (government (Ship.GetGovernment t)) = false
    /\ IsEnemyOfPlayer attacker = true
    /\ IsEnemyOfPlayer (Ship.GetGovernment t) = false
    /\ Ship.IsMute t = false
    /\ (Government.Language (government (Ship.GetGovernment t)) = EmptyString
        \/ GetCondition (world e)
             (String.append "language: "
                (Government.Language (government (Ship.GetGovernment t)))) <> 0)
    /\ count_attackers e target attacker = Ok (attackerCount, attackerStrength)
    /\ Double.leb attackerStrength (strength t) = false
    /\ draw_fails (fst (RandomReal (world e))) attackerStrength (strength t)
       = false.

(** The engine after the request of lines 1925-1944. *)
Definition request_made (e : Engine) (target : ShipId) (attacker : GovId)
  : option Engine :=
  match heap e !! target, count_attackers e target attacker with
  | Some t, Ok (attackerCount, _) =>
      Some (say (request t attacker attackerCount)
              (set_grudgeTime 120
                 (set_grudge (<[attacker := Some target]> (grudge e))
                    (set_world (snd (RandomReal (world e))) e))))
  | _, _ => None
  end.

(** The calls of the four loops of [CalculateStep] that move the ships,
    the flotsam, the projectiles and the visuals. *)
Definition is_move (c : Call) : bool :=
  match c with
  | CShipMove _ | CFlotsamMove _ | CProjectileMove _ | CVisualMove _ => true
  | _ => false
  end.

Definition moves (t : list Call) : list Call := List.filter is_move t.

(** [p'] is what a call of [DoCollisions] has made of the projectile [p],
    [f'] what a call of [DoCollection] has made of the flotsam [f]. *)
Definition resolves (p p' : Projectile.t) : Prop :=
  exists e1 e2, DoCollisions e1 p = Ok (e2, p').

Definition collects (f f' : Flotsam.t) : Prop :=
  exists e1 e2, DoCollection e1 f = Ok (e2, f').

(** The test of lines 1296-1302: the ship goes to one of the two
    collision sets. *)
Definition collidable (e : Engine) (s : Ship.t) : bool :=
  same (Ship.GetSystem s) (playerSystem e) && Qeq_bool (Ship.Zoom s) 1.

(** The test of line 1180, but for the flagship. *)
Definition drawable (e : Engine) (s : Ship.t) : bool :=
  same (Ship.GetSystem s) (playerSystem e) && Ship.HasSprite s.

(** The flotsam, the projectiles and the visuals of [e'] are those of [e],
    or the system was entered and there are none. *)
Definition kept_or_cleared (e e' : Engine) : Prop :=
  (flotsam e', projectiles e', visuals e')
  = (flotsam e, projectiles e, visuals e)
  \/ (flotsam e', projectiles e', visuals e') = ([], [], []).

(** Where the step takes place, the ships and the collision sets. *)
Definition scene_of (e : Engine) :=
  (playerSystem e, flagship e, ships e, shipCollisions e, cloakedCollisions e).

(** The engines at the ends of consecutive steps that start from [e],
    each calculated with the player in a system. *)
Fixpoint steps_from (e : Engine) (es : list Engine) : Prop :=
  match es with
  | [] => True
  | e1 :: rest =>
      playerSystem e <> None /\ CalculateStep e = Ok e1 /\ steps_from e1 rest
  end.

(** What a run of the collisions can do to the cooldown: keep it, or set
    it to 120 when it was zero. *)
Definition kept_or_started (g g' : Z) : Prop :=
  g' = g \/ (g = 0 /\ g' = 120).

End Terms.
End Terms.

(* ===================================================================== *)
(** * A small world to run the engine in                                  *)
(* ===================================================================== *)

(** The properties below hold for every implementation of the
    collaborators.  To evaluate the functions on concrete engines, this
    module gives one: three governments, point-sized hit masks, a random
    generator that replays a list of draws. *)
Module Scenario.
Import Model Code.

Definition player : GovId := 0%nat.
Definition merchant : GovId := 1%nat.
Definition pirate : GovId := 2%nat.
Definition sol : SystemId := 7%nat.

Definition scenario_government (g : GovId) : Government.t :=
  match g with
  | O => Government.mk "Player" "" true
  | S O => Government.mk "Merchant" "" false
  | _ => Government.mk "Pirate" "" false
  end.

(** Pirates are at war with everybody else. *)
Definition hostile (a b : GovId) : bool :=
  xorb (Nat.eqb a pirate) (Nat.eqb b pirate).

(** The next draw of the replayed list (0 when it is used up). *)
Definition draw_next (w : list Z) : Z * list Z :=
  match w with
  | [] => (0, [])
  | r :: w' => (r, w')
  end.

Definition ship (name model : string) (gov : GovId) (x y : Q) : Ship.t :=
  Ship.mk name model "ship" gov (Some sol) (Point.mk x y) Point.zero
    1 0 1 1 100 1 10 None None true false false true false false
    false false false false false false.

(** A ship after a hit that costs it [loss] of its hull. *)
Definition hurt (loss : Q) (s : Ship.t) : Ship.t :=
  Ship.mk (Ship.Name s) (Ship.ModelName s) (Ship.Noun s) (Ship.GetGovernment
    s) (Ship.GetSystem s) (Ship.Position s) (Ship.Velocity s) (Ship.Zoom s)
    (Ship.Cloaking s) (Ship.Shields s) (Ship.Hull s - loss)%Q (Ship.Cost s)
    (Ship.Crew s) (Ship.CargoFree s) (Ship.GetTargetShip s) (Ship.GetParent
    s) (Ship.HasSprite s) (Ship.IsDisabled s || Qle_bool (Ship.Hull s) loss)
    (Qle_bool (Ship.Hull s) loss) (Ship.IsTargetable s) (Ship.IsYours s)
    (Ship.CannotAct s) (Ship.IsHyperspacing s) (Ship.IsEnteringHyperspace s)
    (Ship.IsUsingJumpDrive s) (Ship.IsMute s) (Ship.IsHeroic s)
    (Ship.ShouldBeRemoved s).

(** A ship after one step of drift; a destroyed one is to be removed. *)
Definition drifted  (s : Ship.t) : Ship.t :=
  Ship.mk (Ship.Name s) (Ship.ModelName s) (Ship.Noun s) (Ship.GetGovernment
    s) (Ship.GetSystem s) (Point.add (Ship.Position s) (Ship.Velocity s))
    (Ship.Velocity s) (Ship.Zoom s) (Ship.Cloaking s) (Ship.Shields s)
    (Ship.Hull s) (Ship.Cost s) (Ship.Crew s) (Ship.CargoFree s)
    (Ship.GetTargetShip s) (Ship.GetParent s) (Ship.HasSprite s)
    (Ship.IsDisabled s) (Ship.IsDestroyed s) (Ship.IsTargetable s)
    (Ship.IsYours s) (Ship.CannotAct s) (Ship.IsHyperspacing s)
    (Ship.IsEnteringHyperspace s) (Ship.IsUsingJumpDrive s) (Ship.IsMute s)
    (Ship.IsHeroic s) (Ship.IsDestroyed s).

(** A ship after taking [tons] of cargo on board. *)
Definition loaded (tons : Z) (s : Ship.t) : Ship.t :=
  Ship.mk (Ship.Name s) (Ship.ModelName s) (Ship.Noun s) (Ship.GetGovernment
    s) (Ship.GetSystem s) (Ship.Position s) (Ship.Velocity s) (Ship.Zoom s)
    (Ship.Cloaking s) (Ship.Shields s) (Ship.Hull s) (Ship.Cost s)
    (Ship.Crew s) (Ship.CargoFree s - tons) (Ship.GetTargetShip s)
    (Ship.GetParent s) (Ship.HasSprite s) (Ship.IsDisabled s)
    (Ship.IsDestroyed s) (Ship.IsTargetable s) (Ship.IsYours s)
    (Ship.CannotAct s) (Ship.IsHyperspacing s) (Ship.IsEnteringHyperspace s)
    (Ship.IsUsingJumpDrive s) (Ship.IsMute s) (Ship.IsHeroic s)
    (Ship.ShouldBeRemoved s).

(** A fully cloaked ship. *)
Definition cloaked  (s : Ship.t) : Ship.t :=
  Ship.mk (Ship.Name s) (Ship.ModelName s) (Ship.Noun s) (Ship.GetGovernment
    s) (Ship.GetSystem s) (Ship.Position s) (Ship.Velocity s) (Ship.Zoom s)
    1%Q (Ship.Shields s) (Ship.Hull s) (Ship.Cost s) (Ship.Crew s)
    (Ship.CargoFree s) (Ship.GetTargetShip s) (Ship.GetParent s)
    (Ship.HasSprite s) (Ship.IsDisabled s) (Ship.IsDestroyed s)
    (Ship.IsTargetable s) (Ship.IsYours s) (Ship.CannotAct s)
    (Ship.IsHyperspacing s) (Ship.IsEnteringHyperspace s)
    (Ship.IsUsingJumpDrive s) (Ship.IsMute s) (Ship.IsHeroic s)
    (Ship.ShouldBeRemoved s).

(** A disabled ship. *)
Definition disabled  (s : Ship.t) : Ship.t :=
  Ship.mk (Ship.Name s) (Ship.ModelName s) (Ship.Noun s) (Ship.GetGovernment
    s) (Ship.GetSystem s) (Ship.Position s) (Ship.Velocity s) (Ship.Zoom s)
    (Ship.Cloaking s) (Ship.Shields s) (Ship.Hull s) (Ship.Cost s)
    (Ship.Crew s) (Ship.CargoFree s) (Ship.GetTargetShip s) (Ship.GetParent
    s) (Ship.HasSprite s) true (Ship.IsDestroyed s) (Ship.IsTargetable s)
    (Ship.IsYours s) (Ship.CannotAct s) (Ship.IsHyperspacing s)
    (Ship.IsEnteringHyperspace s) (Ship.IsUsingJumpDrive s) (Ship.IsMute s)
    (Ship.IsHeroic s) (Ship.ShouldBeRemoved s).

(** A ship that targets [target]. *)
Definition aiming (target : ShipId) (s : Ship.t) : Ship.t :=
  Ship.mk (Ship.Name s) (Ship.ModelName s) (Ship.Noun s) (Ship.GetGovernment
    s) (Ship.GetSystem s) (Ship.Position s) (Ship.Velocity s) (Ship.Zoom s)
    (Ship.Cloaking s) (Ship.Shields s) (Ship.Hull s) (Ship.Cost s)
    (Ship.Crew s) (Ship.CargoFree s) (Some target) (Ship.GetParent s)
    (Ship.HasSprite s) (Ship.IsDisabled s) (Ship.IsDestroyed s)
    (Ship.IsTargetable s) (Ship.IsYours s) (Ship.CannotAct s)
    (Ship.IsHyperspacing s) (Ship.IsEnteringHyperspace s)
    (Ship.IsUsingJumpDrive s) (Ship.IsMute s) (Ship.IsHeroic s)
    (Ship.ShouldBeRemoved s).

(** A ship of the given cost. *)
Definition worth (cost : Z) (s : Ship.t) : Ship.t :=
  Ship.mk (Ship.Name s) (Ship.ModelName s) (Ship.Noun s) (Ship.GetGovernment
    s) (Ship.GetSystem s) (Ship.Position s) (Ship.Velocity s) (Ship.Zoom s)
    (Ship.Cloaking s) (Ship.Shields s) (Ship.Hull s) cost (Ship.Crew s)
    (Ship.CargoFree s) (Ship.GetTargetShip s) (Ship.GetParent s)
    (Ship.HasSprite s) (Ship.IsDisabled s) (Ship.IsDestroyed s)
    (Ship.IsTargetable s) (Ship.IsYours s) (Ship.CannotAct s)
    (Ship.IsHyperspacing s) (Ship.IsEnteringHyperspace s)
    (Ship.IsUsingJumpDrive s) (Ship.IsMute s) (Ship.IsHeroic s)
    (Ship.ShouldBeRemoved s).

Definition plain : Weapon.t := Weapon.mk false false 0 0 10.
Definition bomb (safe : bool) (radius : Q) : Weapon.t :=
  Weapon.mk false safe 0 radius 10.
Definition phaser : Weapon.t := Weapon.mk true false 0 0 10.

Definition shot (weapon : Weapon.t) (gov : option GovId) (target : option ShipId)
  (x y dx dy : Q) (missile : Z) : Projectile.t :=
  Projectile.mk weapon gov target target (Point.mk x y) (Point.mk dx dy)
    missile false.

Definition crate (x y : Q) (source : option ShipId) : Flotsam.t :=
  Flotsam.mk (Point.mk x y) source None "Food" 1 3 false.

(** A point is within [r] of [c]. *)
Definition within (c : Point.t) (r : Q) (p : Point.t) : bool :=
  Qle_bool ((Point.X p - Point.X c) * (Point.X p - Point.X c)
            + (Point.Y p - Point.Y c) * (Point.Y p - Point.Y c)) (r * r).

Definition same_point (p q : Point.t) : bool :=
  Qeq_bool (Point.X p) (Point.X q) && Qeq_bool (Point.Y p) (Point.Y q).

Definition at_point (h : gmap ShipId Ship.t) (p : Point.t) (id : ShipId) : bool :=
  match h !! id with
  | Some s => same_point (Ship.Position s) p
  | None => false
  end.

#[export] Instance scenario : Collaborators := {|
  World := list Z;
  RandomInt w upper :=
    let '(r, w') := draw_next w in
    (if Z.eqb upper 0 then 0 else r mod upper, w');
  RandomReal w := let '(r, w') := draw_next w in ((r mod 1000) # 1000, w');
  government := scenario_government;
  IsEnemy a b := hostile a b;
  IsEnemyOfPlayer g := hostile g player;
  GetCondition _ _ := 0;
  LastName _ := "Doe";
  PlayerIsDead _ := false;
  Preference _ _ := false;
  Harvest w _ := w;
  VisitWormholes w _ _ := w;
  Links_empty _ := false;
  Fleets _ := [FleetProbability.mk 1 1; FleetProbability.mk 2 1];
  FleetGovernment fleet :=
    match fleet with
    | S O => Some merchant
    | S (S O) => Some pirate
    | _ => None
    end;
  FleetEnter w h fleet _ :=
    (<[(100 + fleet)%nat := ship "Reinforcement" "Frigate" fleet 0 0]> h,
     [(100 + fleet)%nat], w);
  Persons := [("Alice", Person.mk 50 merchant false true);
              ("Bob", Person.mk 51 pirate true false)];
  Frequency _ _ _ := 1000;
  Recharge s := s;
  FleetEnterShip w system s := (Ship.SetSystem (Some system) s, w);
  DeployDefense w h _ := (h, [], w);
  Arrive w h _ := (h, ["Entering the system."], w);
  PlaceFleets w h _ := (h, [], [], w);
  HelpMessages _ := [];
  Objects _ _ := [DrawObject 0];
  AIStep w h := (h, w);
  AIClean w := w;
  EnemyStrength _ g := if Nat.eqb g merchant then 10 else 0;
  AllyStrength _ g := if Nat.eqb g merchant then 25 else 0;
  ShipMove w s := (drifted s, [], [], w);
  Board w h _ _ := (h, None, w);
  Launch w h _ := (h, [], w);
  Fire w s :=
    (s,
     if String.eqb (Ship.ModelName s) "Gunboat"
     then [shot plain (Some (Ship.GetGovernment s)) (Ship.GetTargetShip s)
             (Point.X (Ship.Position s)) (Point.Y (Ship.Position s)) 10 0 0]
     else [],
     [], String.eqb (Ship.ModelName s) "Defender", w);
  TakeDamage w s _ _ :=
    (hurt (1 # 2) s, if Qle_bool (Ship.Hull s) (1 # 2) then 128 else 0, w);
  FireAntiMissile w s _ :=
    let '(r, w') := draw_next w in (s, [], Z.eqb r 0, w');
  Scan w s := (s, 0, w);
  GetHail w _ := ("Hello.", w);
  MaskCollide _ _ offset velocity :=
    if same_point (Point.add offset velocity) Point.zero then (1 # 2)%Q else 1%Q;
  ShipParts _ := ([], []);
  ProjectileMove w _ p :=
    (Projectile.mk (Projectile.GetWeapon p) (Projectile.GetGovernment p)
       (Projectile.Target p) (Projectile.TargetPtr p)
       (Point.add (Projectile.Position p) (Projectile.Velocity p))
       (Projectile.Velocity p) (Projectile.MissileStrength p)
       (Projectile.ShouldBeRemoved p), [], [], w);
  Explode p _ _ :=
    (Projectile.mk (Projectile.GetWeapon p) (Projectile.GetGovernment p)
       (Projectile.Target p) (Projectile.TargetPtr p) (Projectile.Position p)
       (Projectile.Velocity p) (Projectile.MissileStrength p) true,
     [Visual.mk 1 (Projectile.Position p) false]);
  Kill p :=
    Projectile.mk (Projectile.GetWeapon p) (Projectile.GetGovernment p)
      (Projectile.Target p) (Projectile.TargetPtr p) (Projectile.Position p)
      (Projectile.Velocity p) 0 true;
  FlotsamMove w f := (f, [], w);
  TransferTo f s :=
    (Flotsam.mk (Flotsam.Position f) (Flotsam.Source f) (Flotsam.OutfitType f)
       (Flotsam.CommodityType f) (Flotsam.UnitSize f) 0 true,
     loaded (Flotsam.Count f) s, Flotsam.Count f);
  VisualMove v := v;
  AsteroidsStep w := ([], [], w);
  AsteroidsCollide w _ _ closestHit hitVelocity := (closestHit, hitVelocity, w);
  AsteroidsDraw _ := [];
  Circle h bodies center radius :=
    List.filter
      (fun id => match h !! id with
                 | Some s => within center radius (Ship.Position s)
                 | None => false
                 end) bodies;
  Line h bodies p closestHit :=
    match List.find (at_point h (Point.add (Projectile.Position p)
                                           (Projectile.Velocity p))) bodies with
    | Some id => (Some id, (1 # 2)%Q)
    | None => (None, closestHit)
    end;
  FormatNumber _ := "some";
  LowerCase s := s;
  PlaySound w _ := w;
  FlareSounds w _ := w;
  MouseClicks w h _ := (h, [], w);
  Radar w _ _ _ := w
|}.

(** An engine with the given ships, in the order of their ids, and
    nothing else. *)
Definition engine_of (w : list Z) (fleet : list (ShipId * Ship.t)) : Engine :=
  mkEngine w (Some sol) None 0 (list_to_map fleet) (map fst fleet) []
    [] [] [] [] [] [] [] [] ∅ 0 [] [] [] [] false false [].

(** A merchant, #1, under attack by a pirate, #2, five times its worth;
    [requester] is what the table of requesters holds for the pirates. *)
Definition under_attack (w : list Z) (requester : option (option ShipId))
  : Engine :=
  let e := engine_of w [(1%nat, ship "Ann" "Freighter" merchant 0 0);
                        (2%nat, aiming 1 (worth 500 (ship "Rex" "Raider" pirate 3 0)))] in
  match requester with
  | Some entry => set_grudge {[pirate := entry]} e
  | None => e
  end.

(** Three ships around a crate that #2 has dropped: #1 is cloaked, #3 has
    room for it. *)
Definition around_crate : Engine :=
  engine_of [] [(1%nat, cloaked (ship "Ghost" "Frigate" merchant 0 0));
                (2%nat, ship "Tug" "Freighter" merchant 1 0);
                (3%nat, ship "Gull" "Freighter" merchant 2 0)].

(** The engines the functions leave when run in the small world. *)
Definition after (run : result Engine) : Engine :=
  match run with
  | Ok e => e
  | Fault _ => engine_of [] []
  end.

Definition before_fleets : Engine := engine_of [0; 0] [].
Definition after_fleets : Engine :=
  Eval vm_compute in after (SpawnFleets before_fleets).

Definition tugs_crate : Flotsam.t := crate 0 0 (Some 2%nat).
Definition around_crate_filled : Engine :=
  Eval vm_compute in after (FillCollisionSets around_crate).
Definition around_crate_collected : Engine * Flotsam.t :=
  Eval vm_compute in
    match DoCollection around_crate_filled tugs_crate with
    | Ok r => r
    | Fault _ => (around_crate, tugs_crate)
    end.

Definition found (run : result (Engine * Q * option ShipId * Point.t))
  : Engine * Q * option ShipId * Point.t :=
  match run with
  | Ok r => r
  | Fault _ => (engine_of [] [], 0%Q, None, Point.zero)
  end.

Definition resolved (run : result (Engine * Projectile.t))
  : Engine * Projectile.t :=
  match run with
  | Ok r => r
  | Fault _ => (engine_of [] [], shot plain None None 0 0 0 0 0)
  end.

(** A merchant, a pirate and a cloaked merchant close to each other,
    with the collision sets filled. *)
Definition battle : Engine :=
  Eval vm_compute in
    after (FillCollisionSets
             (engine_of [0; 0; 0]
                [(1%nat, ship "Ann" "Freighter" merchant 0 2);
                 (2%nat, ship "Rex" "Raider" pirate 1 0);
                 (3%nat, cloaked (ship "Ghost" "Frigate" merchant 0 1))])).

(** A merchant's bomb with a safe blast of radius 3, on its way to the
    pirate. *)
Definition safe_bomb : Projectile.t :=
  shot (bomb true 3) (Some merchant) None 0 0 1 0 0.

Definition safe_bomb_found : Engine * Q * option ShipId * Point.t :=
  Eval vm_compute in
    found (FindHit (log (CDoCollisions safe_bomb) battle) safe_bomb).

Definition battle_bombed : Engine * Projectile.t :=
  Eval vm_compute in resolved (DoCollisions battle safe_bomb).

(** A merchant's phasing shot that has locked the pirate. *)
Definition phased : Projectile.t :=
  shot phaser (Some merchant) (Some 2%nat) 0 0 1 0 0.

Definition battle_phased : Engine * Projectile.t :=
  Eval vm_compute in resolved (DoCollisions battle phased).

(** The explosion of a ship whose weapon attributes say "safe": a
    "projectile" without government and with a safe blast. *)
Definition safe_explosion : Projectile.t :=
  shot (bomb true 3) None None 0 0 0 0 0.

(** A merchant gunboat whose guns point at a pirate ten units away; the
    draws keep the rare encounter and the hail away. *)
Definition gunfight : Engine :=
  engine_of [0; 0; 1; 1]
    [(1%nat, ship "Gun" "Gunboat" merchant 0 0);
     (2%nat, ship "Rex" "Raider" pirate 10 0)].

(** The shot the gunboat fires. *)
Definition gunshot : Projectile.t := shot plain (Some merchant) None 0 0 10 0 0.

Definition gunfight_merge : Engine :=
  Eval vm_compute in after (BeforeMerge sol (set_draw [] gunfight)).

Definition gunfight_step : Engine :=
  Eval vm_compute in after (CalculateStep gunfight).

(** Two ships whose anti-missile systems are ready, a pirate and a
    merchant, and a merchant missile that passes far from both. *)
Definition defended (w : list Z) : Engine :=
  set_hasAntiMissile [1%nat; 2%nat]
    (set_shipCollisions [1%nat; 2%nat]
       (engine_of w [(1%nat, ship "Rex" "Defender" pirate 50 50);
                     (2%nat, ship "Ann" "Defender" merchant 60 60)])).

Definition missile : Projectile.t := shot plain (Some merchant) None 0 0 1 0 5.

Definition missile_found (w : list Z)
  : Engine * Q * option ShipId * Point.t :=
  Eval vm_compute in
    found (FindHit (log (CDoCollisions missile) (defended w)) missile).

Definition missile_shot_down : Engine * Projectile.t :=
  Eval vm_compute in resolved (DoCollisions (defended [0]) missile).

Definition missile_missed : Engine * Projectile.t :=
  Eval vm_compute in resolved (DoCollisions (defended [1]) missile).

(** Four ships around the point (5, 0), with the collision sets filled:
    a merchant at (5, 5), a pirate at (10, 0), a cloaked merchant at
    (5, -5) and a merchant at (-5, 0). *)
Definition blast_site : Engine :=
  Eval vm_compute in
    after (FillCollisionSets
             (engine_of [0; 0; 0]
                [(1%nat, ship "Ann" "Freighter" merchant 5 5);
                 (2%nat, ship "Rex" "Raider" pirate 10 0);
                 (3%nat, cloaked (ship "Ghost" "Frigate" merchant 5 (-5)));
                 (4%nat, ship "Far" "Freighter" merchant (-5) 0)])).

(** A merchant's bomb with a blast of radius 6 that is not safe, fired
    at the origin with velocity (10, 0): it hits the pirate half-way
    through the step, at (5, 0). *)
Definition wide_bomb : Projectile.t :=
  shot (bomb false 6) (Some merchant) None 0 0 10 0 0.

Definition wide_bomb_found : Engine * Q * option ShipId * Point.t :=
  Eval vm_compute in
    found (FindHit (log (CDoCollisions wide_bomb) blast_site) wide_bomb).

Definition blast_site_bombed : Engine * Projectile.t :=
  Eval vm_compute in resolved (DoCollisions blast_site wide_bomb).

(** A pirate gunboat, five times the worth of the merchant ten units
    away at which its guns point; the cooldown stands at [cooldown].  The
    draws keep the rare encounter and the hail away. *)
Definition ambush (cooldown : Z) : Engine :=
  set_grudgeTime cooldown
    (engine_of [0; 0; 1; 1; 1; 1; 1; 1]
       [(1%nat, ship "Ann" "Freighter" merchant 10 0);
        (2%nat, aiming 1 (worth 500 (ship "Rex" "Gunboat" pirate 0 0)))]).

Definition ambush_step (cooldown : Z) : Engine :=
  after (CalculateStep (ambush cooldown)).

(** The step after the one that began with the cooldown at 120. *)
Definition ambush_second : Engine :=
  Eval vm_compute in after (CalculateStep (ambush_step 120)).

(** The small world with Alice alone in the list of persons. *)
Definition alone : Collaborators :=
  Terms.with_persons scenario [("Alice", Person.mk 50 merchant false true)].

(** The world in which the next two draws are [g] and [r]. *)
Definition dealing (g r : Z) : list Z := [g; r].

(** An empty system; the ships of the two persons exist, and are not in
    the system yet.  And the same for Alice alone. *)
Definition empty_system : Engine :=
  set_ships []
    (engine_of [] [(50%nat, ship "Unnamed" "Corvette" merchant 0 0);
                   (51%nat, ship "Unnamed" "Corvette" pirate 0 0)]).

Definition empty_system_alone : @Engine alone :=
  Terms.among scenario [("Alice", Person.mk 50 merchant false true)]
    empty_system.

End Scenario.

(* ===================================================================== *)
(** * Further terms                                                       *)
(* ===================================================================== *)

Module Teardown.
Import TickTock.

(** The actions of the worker thread. *)
Definition is_worker_action (a : Action) : bool :=
  match a with
  | WkWake | WkExit | WkCalcDone | WkPublish => true
  | _ => false
  end.

(** [Step()] is running or about to run: [Wait()] has returned and [Go()]
    has not been called yet. *)
Definition foreground_owns_engine (s : State) : Prop :=
  fg s = FgBeforeStep \/ fg s = FgBeforeGo.

(** The worker is inside [CalculateStep] or about to publish its result. *)
Definition worker_busy (s : State) : Prop :=
  wk s = WkCalculating \/ wk s = WkPublishing.

End Teardown.

Module MoreTerms.
Import Model Code Terms.

Section MoreTerms.
Context `{Collaborators}.

(** The four lists of new objects. *)
Definition staged_of (e : Engine) :=
  (newShips e, newProjectiles e, newFlotsam e, newVisuals e).

(** The ships [FillCollisionSets] puts into [shipCollisions] and into
    [cloakedCollisions]. *)
Definition visible_here (e : Engine) (id : ShipId) : bool :=
  match heap e !! id with
  | Some s => collidable e s && Qltb (Ship.Cloaking s) 1
  | None => false
  end.

Definition cloaked_here (e : Engine) (id : ShipId) : bool :=
  match heap e !! id with
  | Some s => collidable e s && negb (Qltb (Ship.Cloaking s) 1)
  | None => false
  end.

(** The ship a sprite of the draw list belongs to. *)
Definition ship_of (d : Drawable) : option ShipId :=
  match d with
  | DrawShip id | DrawShipPart id _ => Some id
  | _ => None
  end.

(** [Random::Int(n)] answers below [n]. *)
Definition draws_in_range : Prop :=
  forall (w : World) (n : Z), 0 < n -> 0 <= fst (RandomInt w n) < n.

(** The ship can send a hail (lines 1395-1405). *)
Definition can_hail (e : Engine) (source : Ship.t) : Prop :=
  Government.IsPlayer (government (Ship.GetGovernment source)) = false
  /\ Ship.GetSystem source = playerSystem e
  /\ Ship.IsDisabled source = false
  /\ Ship.Crew source <> 0
  /\ Qltb (Ship.Cloaking source) 1 = true.

End MoreTerms.
End MoreTerms.

(* ===================================================================== *)
(** * Prune, in place                                                     *)
(* ===================================================================== *)

(** [Prune(vector<Type> &)] (lines 72-89) works inside the vector, with
    an iterator that reads and one that writes.  A slot holds an object
    or what [std::move] has left of one. *)
Module Vector.

Section Prune.
Context {A : Type} (ShouldBeRemoved : A -> bool).

(** Lines 76-78: [while(in != objects.end() && !in->ShouldBeRemoved()) ++in;]
    [None] when an object that was moved from is read (or the fuel, one
    more than the length of the vector, does not suffice). *)
Fixpoint skip_kept (fuel : nat) (objects : list (option A)) (i : nat)
  : option nat :=
  match fuel with
  | O => None
  | S fuel =>
      match objects !! i with
      | None => Some i                              (* in == objects.end() *)
      | Some None => None
      | Some (Some x) =>
          if negb (ShouldBeRemoved x) then skip_kept fuel objects (S i)
          else Some i
      end
  end.

(** Lines 80-86: the loop that moves the objects to keep to the front.
    The move assignment of line 84 writes the object to the slot [out]
    and leaves the slot [in] moved from; a move of a slot onto itself is
    refused. *)
Fixpoint compact (fuel : nat) (objects : list (option A)) (i out : nat)
  : option (list (option A) * nat) :=
  match fuel with
  | O => None
  | S fuel =>
      match objects !! i with
      | None => Some (objects, out)                 (* in == objects.end() *)
      | Some None => None
      | Some (Some x) =>
          if negb (ShouldBeRemoved x) then
            if Nat.eqb out i then None
            else compact fuel (<[out := Some x]> (<[i := None]> objects))
                         (S i) (S out)
          else compact fuel objects (S i) out
      end
  end.

(** The objects of the slots, if none of them was moved from. *)
Fixpoint contents (objects : list (option A)) : option (list A) :=
  match objects with
  | [] => Some []
  | None :: _ => None
  | Some x :: rest =>
      match contents rest with
      | Some l => Some (x :: l)
      | None => None
      end
  end.

Definition PruneInPlace (objects : list A) : option (list A) :=
  let v := map Some objects in
  match skip_kept (S (length v)) v 0 with
  | None => None
  | Some i =>
      match compact (S (length v)) v i i with
      | None => None
      | Some (v, out) =>
          (* if(out != objects.end()) objects.erase(out, objects.end()); *)
          contents (take out v)
      end
  end.

End Prune.
End Vector.

(* ===================================================================== *)
(** * The radar                                                           *)
(* ===================================================================== *)

(** [RadarType] (lines 51-70) and the parts of [FillRadar] (lines
    1730-1801) that go over the ships and that sound the alarm.  The
    members of [Ship] that the record of the model does not hold are
    parameters. *)
Module Radar.
Import Model Code.

(** The constants of [Radar]. *)
Inductive Kind :=
  PLAYER | FRIENDLY | UNFRIENDLY | HOSTILE | INACTIVE | SPECIAL | BLINK.

(** What [radar.Add] is given for a ship: its type, and the ship whose
    position and radius are shown. *)
Inductive Blip :=
| ShipBlip (type : Kind) (ship : ShipId).

(** [alarmTime] and [hadHostiles]. *)
Record Siren := mkSiren { alarmTime : Z; hadHostiles : bool }.

Section Radar.
Context `{Collaborators}.
Variable IsTarget : Ship.t -> bool.       (* GetPersonality().IsTarget() *)
Variable IsEscort : Ship.t -> bool.       (* GetPersonality().IsEscort() *)
Variable IsOverheated : Ship.t -> bool.   (* IsOverheated() *)

(** [target && target->GetGovernment()->IsPlayer()], for the ship a weak
    pointer names. *)
Definition targets_player (e : Engine) (ship : Ship.t) : bool :=
  match lock e (Ship.GetTargetShip ship) with
  | Some tid =>
      match heap e !! tid with
      | Some target =>
          Government.IsPlayer (government (Ship.GetGovernment target))
      | None => false
      end
  | None => false
  end.

(** Lines 51-70.  [step] is an [int]: [/] and [%] truncate. *)
Definition RadarType (e : Engine) (ship : Ship.t) (step : Z) : Kind :=
  let count := Z.rem (Z.quot step 6) 7 in
  if IsTarget ship && negb (Ship.IsDestroyed ship)
     && ((count =? 0) || (count =? 2))
  then BLINK
  else if Ship.IsDisabled ship
          || (IsOverheated ship && negb (Z.rem (Z.quot step 20) 2 =? 0))
  then INACTIVE
  else if Government.IsPlayer (government (Ship.GetGovernment ship))
          || (IsEscort ship && negb (IsEnemyOfPlayer (Ship.GetGovernment ship)))
  then PLAYER
  else if negb (IsEnemyOfPlayer (Ship.GetGovernment ship)) then FRIENDLY
  else if targets_player e ship then HOSTILE
  else UNFRIENDLY.

(** Lines 1773-1774: is this a hostile ship? *)
Definition is_hostile (e : Engine) (ship : Ship.t) : bool :=
  negb (Ship.IsDisabled ship) && IsEnemyOfPlayer (Ship.GetGovernment ship)
  && targets_player e ship.

(** One iteration of the loop of lines 1756-1775 over [ships]. *)
Definition radar_ship (e : Engine) (acc : list Blip * bool) (id : ShipId)
  : result (list Blip * bool) :=
  let '(blips, hasHostiles) := acc in
  let* ship := deref e id in
  if negb (same (Ship.GetSystem ship) (playerSystem e)) then Ok acc
  else
    let isPlayer := Government.IsPlayer (government (Ship.GetGovernment ship)) in
    if Qle_bool 1 (Ship.Cloaking ship) && negb isPlayer then Ok acc
    else
      let* isYourTarget :=
        match flagship e with
        | Some f =>
            let* fs := deref e f in
            Ok (same (Some id) (lock e (Ship.GetTargetShip fs)))
        | None => Ok false
        end in
      let type := if isYourTarget then SPECIAL else RadarType e ship (step e) in
      Ok (blips ++ [ShipBlip type id], hasHostiles || is_hostile e ship).

Definition radar_ships (e : Engine) : result (list Blip * bool) :=
  for_each (radar_ship e) (ships e) ([], false).

(** Lines 1777-1787: the siren, and whether the alarm is raised in this
    step (it is heard if the preference "Warning siren" is set). *)
Definition alarm (s : Siren) (hasHostiles : bool) : Siren * bool :=
  if negb (alarmTime s =? 0)
  then (mkSiren (wrap32 (alarmTime s - 1)) (hadHostiles s), false)
  else if hasHostiles && negb (hadHostiles s)
  then (mkSiren 180 true, true)
  else if negb hasHostiles then (mkSiren (alarmTime s) false, false)
  else (s, false).

(** The siren over a run of steps, given what each step saw. *)
Fixpoint alarms (s : Siren) (seen : list bool) : Siren * list bool :=
  match seen with
  | [] => (s, [])
  | hasHostiles :: rest =>
      let '(s1, raised) := alarm s hasHostiles in
      let '(s2, later) := alarms s1 rest in
      (s2, raised :: later)
  end.

(** The steps in which a mission target blinks: two windows of six
    steps in every 42. *)
Definition blink_window (step : Z) : bool :=
  (step mod 42 <? 6) || ((12 <=? step mod 42) && (step mod 42 <? 18)).

(** The ship is among the blips. *)
Definition on_radar (id : ShipId) (blips : list Blip) : Prop :=
  exists type, In (ShipBlip type id) blips.

End Radar.
End Radar.

(* ===================================================================== *)
(** * The foreground: Step, Draw and the clicks                           *)
(* ===================================================================== *)

(** The parts of [Step] (lines 318-668), [Draw] (lines 693-847), [Click]
    and [RClick] (lines 852-888) that keep state from one frame to the
    next or that index into a table.  As in [Model], a [double] is a
    rational number. *)
Module Foreground.
Import Model Code.

(** [std::min] and [std::max]. *)
Definition fmin (a b : Q) : Q := if Qltb b a then b else a.
Definition fmax (a b : Q) : Q := if Qltb a b then b else a.

(** ** The jump counter and the mini-map *)

(** Lines 340-353, [jumping] being
    [flagship->IsEnteringHyperspace() || flagship->Commands().Has(Command::JUMP)]. *)
Definition count_jump (jumping : bool) (jumpCount : Z) : Z :=
  if jumping
  then if jumpCount <? 100 then wrap32 (jumpCount + 1) else jumpCount
  else if 0 <? jumpCount then wrap32 (jumpCount - 1) else jumpCount.

(** Lines 325-354: the counter is touched only when the player is on no
    stellar object and has a flagship ([flagship] says whether it is
    jumping). *)
Definition step_jump_count (hasObject : bool) (flagship : option bool)
  (jumpCount : Z) : Z :=
  if hasObject then jumpCount
  else match flagship with
       | Some jumping => count_jump jumping jumpCount
       | None => jumpCount
       end.

(** Lines 804-805: the opacity [Draw] gives the mini-map, if it draws it. *)
Definition minimap_alpha (showMiniMap : bool) (jumpCount : Z) : option Q :=
  if negb (jumpCount =? 0) && showMiniMap
  then Some ((1 # 2) * fmin 1 (inject_Z jumpCount / 30))%Q
  else None.

(** ** The hyperspace flash *)

(** Lines 391-397: the new values of [doFlash] and [flash]. *)
Definition step_flash (doFlash : bool) (flash : Q) : bool * Q :=
  if doFlash then (false, (4 # 10)%Q)
  else if Qnonzero flash
  then (doFlash, fmax 0 (flash * (99 # 100) - (2 # 1000))%Q)
  else (doFlash, flash).

(** The flash one step later, when no new one is asked for. *)
Definition fade (flash : Q) : Q := snd (step_flash false flash).

(** ** The zoom *)

(** Lines 361-368. *)
Definition step_zoom (isActive : bool) (zoomTarget zoom : Q) : Q :=
  if isActive then
    if Qltb zoom zoomTarget then fmin zoomTarget (zoom * (103 # 100))%Q
    else if Qltb zoomTarget zoom then fmax zoomTarget (zoom * (97 # 100))%Q
    else zoom
  else zoom.

(** ** The clicks *)

Inductive Rectangle := WithCorners (a b : Point.t).

Record Clicks := mkClicks {
  doClick : bool;
  doClickNextStep : bool;
  isRightClick : bool;
  isRadarClick : bool;
  hasShift : bool;
  clickPoint : Point.t;
  clickBox : Rectangle
}.

(** [p.Length() <= r], without the square root. *)
Definition within_length (p : Point.t) (r : Q) : bool :=
  Qle_bool 0 r
  && Qle_bool (Point.X p * Point.X p + Point.Y p * Point.Y p)%Q (r * r)%Q.

(** [p / k], for a [k] that is not 0: the radar scale, or the zoom. *)
Definition divide (p : Point.t) (k : Q) : Point.t :=
  Point.mk (Point.X p / k)%Q (Point.Y p / k)%Q.

(** Lines 852-871.  [clickable] is
    [Preferences::Has("Clickable radar display")]. *)
Definition Click (clickable : bool) (radarCenter : Point.t) (radarDiameter : Q)
  (center : Point.t) (zoom : Q) (from to : Point.t) (shift : bool)
  (c : Clicks) : Clicks :=
  let radar :=
    clickable
    && within_length (Point.sub from radarCenter) ((1 # 2) * radarDiameter)%Q in
  mkClicks (doClick c) true false radar shift
    (if radar then Point.sub from radarCenter else from)
    (if radar
     then WithCorners
            (Point.add (divide (Point.sub from radarCenter) (25 # 1000)%Q) center)
            (Point.add (divide (Point.sub to radarCenter) (25 # 1000)%Q) center)
     else WithCorners (Point.add (divide from zoom) center)
                      (Point.add (divide to zoom) center)).

(** Lines 876-888. *)
Definition RClick (clickable : bool) (radarCenter : Point.t)
  (radarDiameter : Q) (zoom : Q) (point : Point.t) (c : Clicks) : Clicks :=
  mkClicks (doClick c) true true (isRadarClick c) false
    (if clickable
        && within_length (Point.sub point radarCenter) ((1 # 2) * radarDiameter)%Q
     then divide (Point.sub point radarCenter) (25 # 1000)%Q
     else divide point zoom)
    (clickBox c).

Section Clicks.
(** The selection of the player, and the three calls that change or
    read it. *)
Context {Selection : Type}.
Variable SelectBox : Selection -> Rectangle -> bool -> bool * Selection.
                                   (* player.SelectShips(clickBox, hasShift) *)
Variable EscortsClick : Point.t -> list ShipId.   (* escorts.Click(clickPoint) *)
Variable SelectStack : Selection -> list ShipId -> bool -> bool * Selection.
                                   (* player.SelectShips(stack, hasShift) *)

(** Lines 630-651. *)
Definition step_clicks (zoom : Q) (p : Selection) (c : Clicks)
  : Clicks * Selection :=
  let c :=
    if doClickNextStep c
    then mkClicks true false (isRightClick c) (isRadarClick c) (hasShift c)
                  (clickPoint c) (clickBox c)
    else mkClicks false (doClickNextStep c) (isRightClick c) (isRadarClick c)
                  (hasShift c) (clickPoint c) (clickBox c) in
  if doClick c && negb (isRightClick c) then
    let '(selected, p) := SelectBox p (clickBox c) (hasShift c) in
    if negb selected then
      let stack := EscortsClick (clickPoint c) in
      match stack with
      | _ :: _ =>
          let '(selected, p) := SelectStack p stack (hasShift c) in
          (mkClicks (negb selected) (doClickNextStep c) (isRightClick c)
                    (isRadarClick c) (hasShift c) (clickPoint c) (clickBox c),
           p)
      | [] =>
          (mkClicks true (doClickNextStep c) (isRightClick c) (isRadarClick c)
                    (hasShift c)
                    (divide (clickPoint c)
                            (if isRadarClick c then (25 # 1000)%Q else zoom))
                    (clickBox c), p)
      end
    else
      (mkClicks false (doClickNextStep c) (isRightClick c) (isRadarClick c)
                (hasShift c) (clickPoint c) (clickBox c), p)
  else (c, p).

End Clicks.

(** ** The status overlays *)

(** [Engine::Status]; [angle] is [None] where the constructor is called
    without its last argument. *)
Record Status := mkStatus {
  position : Point.t;
  outer : Q;
  inner : Q;
  radius : Q;
  type : Z;
  angle : option Q
}.

(** A ring as [RingShader::Draw] is asked to draw it. *)
Record Ring := mkRing {
  ringPosition : Point.t;
  ringRadius : Q;
  ringWidth : Q;
  ringFraction : Q;
  ringColor : string;
  ringDashes : Q;
  ringAngle : option Q
}.

(** The table [color] of lines 706-713, and [color[i]]: [None] is an
    index outside the table. *)
Definition overlay_colors : list string :=
  ["overlay friendly shields"; "overlay hostile shields";
   "overlay outfit scan"; "overlay friendly hull"; "overlay hostile hull";
   "overlay cargo scan"]%string.

Definition color_at (i : Z) : option string :=
  if i <? 0 then None else overlay_colors !! Z.to_nat i.

(** Lines 714-720, for one status. *)
Definition draw_status (zoom : Q) (it : Status) : option (list Ring) :=
  let pos := Point.scale zoom (position it) in
  let r := (radius it * zoom)%Q in
  match (if Qltb 0%Q (outer it)
         then match color_at (type it) with
              | Some c => Some [mkRing pos (r + 3)%Q (15 # 10)%Q (outer it) c 0%Q
                                       (angle it)]
              | None => None
              end
         else Some []) with
  | None => None
  | Some outerRing =>
      let dashes := if 2 <=? type it then 0%Q else (20 * fmin 1 zoom)%Q in
      match (if Qltb 0%Q (inner it)
             then match color_at (wrap32 (3 + type it)) with
                  | Some c => Some [mkRing pos r (15 # 10)%Q (inner it) c dashes
                                           (angle it)]
                  | None => None
                  end
             else Some []) with
      | None => None
      | Some innerRing => Some (outerRing ++ innerRing)
      end
  end.

Section Frame.
Context `{Collaborators}.

(** ** The events handed to the foreground *)

(** Lines 320-339: [events] takes what the worker has queued, and the
    jump event of a flagship that has arrived is added to it. *)
Definition step_events (hasObject : bool) (e : Engine)
  : result (Engine * list ShipEvent) :=
  let events := eventQueue e in
  let e := set_eventQueue [] e in
  if hasObject then Ok (e, events)
  else
    match flagship e with
    | Some f =>
        let* fs := deref e f in
        if doEnter e && Qeq_bool (Ship.Zoom fs) 1%Q
           && negb (Ship.IsHyperspacing fs)
        then Ok (set_doEnter false e, events ++ [EventByShip f f JUMP])
        else Ok (e, events)
    | None => Ok (e, events)
    end.

Variable IsEscort : Ship.t -> bool.       (* GetPersonality().IsEscort() *)
Variable Width : Ship.t -> Q.
Variable Height : Ship.t -> Q.
Variable CargoScanFraction : Ship.t -> Q.
Variable OutfitScanFraction : Ship.t -> Q.
Variable Degrees : Point.t -> Q.          (* Angle(pos).Degrees() *)

(** Lines 454-466, for one ship of the list. *)
Definition ship_status (center : Point.t) (e : Engine) (id : ShipId)
  : result (option Status) :=
  let* it := deref e id in
  if negb (same (Ship.GetSystem it) (playerSystem e))
     || Qeq_bool (Ship.Cloaking it) 1%Q
  then Ok None
  else if Ship.IsDestroyed it then Ok None
  else
    let isEnemy := IsEnemyOfPlayer (Ship.GetGovernment it) in
    if isEnemy || Government.IsPlayer (government (Ship.GetGovernment it))
       || IsEscort it
    then
      let width := fmin (Width it) (Height it) in
      Ok (Some (mkStatus (Point.sub (Ship.Position it) center)
                         (Ship.Shields it) (Ship.Hull it)
                         (fmax 20 (width * (1 # 2)))%Q
                         (if isEnemy then 1 else 0) None))
    else Ok None.

(** Lines 450-467.  [show] is
    [isActive && Preferences::Has("Show status overlays")]. *)
Definition ship_statuses (show : bool) (center : Point.t) (e : Engine)
  : result (list Status) :=
  if show then
    for_each
      (fun statuses id =>
         let* status := ship_status center e id in
         Ok (statuses ++ match status with Some s => [s] | None => [] end))
      (ships e) []
  else Ok [].

(** Lines 612-619: the ring that shows the progress of a scan. *)
Definition scan_status (center : Point.t) (e : Engine)
  : result (option Status) :=
  match flagship e with
  | None => Ok None
  | Some f =>
      let* fs := deref e f in
      match lock e (Ship.GetTargetShip fs) with
      | None => Ok None
      | Some tid =>
          let* target := deref e tid in
          if Ship.IsTargetable target
             && same (Ship.GetSystem target) (playerSystem e)
             && (Qnonzero (CargoScanFraction fs)
                 || Qnonzero (OutfitScanFraction fs))
          then
            let width := fmax (Width target) (Height target) in
            let pos := Point.sub (Ship.Position target) center in
            Ok (Some (mkStatus pos (OutfitScanFraction fs)
                               (CargoScanFraction fs)
                               (10 + fmax 20 (width * (1 # 2)))%Q 2
                               (Some (Degrees pos + 180)%Q)))
          else Ok None
      end
  end.

End Frame.

End Foreground.

(* ===================================================================== *)
(** * The clicks on ships                                                 *)
(* ===================================================================== *)

(** [HandleMouseClicks], lines 1461-1499: the ship a click selects, and
    what is done with it.  The clicks on planets (lines 1435-1459) belong
    to [MouseClicks] of the collaborators. *)
Module Mouse.
Import Model Code.

(** What the click leads to. *)
Inductive Action :=
  | IssueShipTarget (target : ShipId)   (* ai.IssueShipTarget(player, clickTarget) *)
  | BoardTarget                         (* clickCommands |= Command::BOARD *)
  | SetTargetShip (target : ShipId) (select : bool)
                                        (* flagship->SetTargetShip(clickTarget),
                                           and player.SelectShip for a ship of
                                           the player *)
  | IssueMoveTarget (point : Point.t)   (* ai.IssueMoveTarget(player, ...) *)
  | NoAction.

Section Mouse.
Context `{Collaborators}.
Variable MaskRange : Z -> Ship.t -> Point.t -> Q.
                          (* GetMask(step).Range(point, Facing()) *)

(** The test of line 1465. *)
Definition can_click (e : Engine) (id : ShipId) (ship : Ship.t) : bool :=
  same (Ship.GetSystem ship) (playerSystem e)
  && negb (same (Some id) (flagship e))
  && Ship.IsTargetable ship.

(** Lines 1467-1469. *)
Definition click_range (e : Engine) (fs : Ship.t) (clickPoint : Point.t)
  (ship : Ship.t) : Q :=
  let position := Point.sub (Ship.Position ship) (Ship.Position fs) in
  MaskRange (step e) ship (Point.sub clickPoint position).

(** The ship [id] passes the test of line 1465 and is at [range] from
    the click. *)
Definition clickable_at (e : Engine) (fs : Ship.t) (clickPoint : Point.t)
  (id : ShipId) (range : Q) : Prop :=
  exists ship,
    heap e !! id = Some ship /\ can_click e id ship = true
    /\ click_range e fs clickPoint ship = range.

(** The loop of lines 1464-1480, from the values [clickRange] and
    [clickTarget] have when it reaches [candidates]. *)
Fixpoint click_target (e : Engine) (fs : Ship.t) (clickPoint : Point.t)
  (candidates : list ShipId) (clickRange : Q) (clickTarget : option ShipId)
  : result (Q * option ShipId) :=
  match candidates with
  | [] => Ok (clickRange, clickTarget)
  | id :: rest =>
      let* ship := deref e id in
      if can_click e id ship then
        let range := click_range e fs clickPoint ship in
        if Qle_bool range clickRange then
          if negb (Qnonzero range) && IsEnemyOfPlayer (Ship.GetGovernment ship)
          then Ok (range, Some id)                               (* break *)
          else click_target e fs clickPoint rest range (Some id)
        else click_target e fs clickPoint rest clickRange clickTarget
      else click_target e fs clickPoint rest clickRange clickTarget
  end.

(** Lines 1481-1499. *)
Definition click_action (e : Engine) (fs : Ship.t) (isRightClick : bool)
  (clickPoint center : Point.t) (clickTarget : option ShipId) : result Action :=
  match clickTarget with
  | Some target =>
      if isRightClick then Ok (IssueShipTarget target)
      else if same (Some target) (lock e (Ship.GetTargetShip fs))
      then Ok BoardTarget
      else
        let* ship := deref e target in
        Ok (SetTargetShip target
              (Government.IsPlayer (government (Ship.GetGovernment ship))))
  | None =>
      if isRightClick then Ok (IssueMoveTarget (Point.add clickPoint center))
      else Ok NoAction
  end.

(** Lines 1429-1431 and 1461-1499. *)
Definition ship_click (e : Engine) (doClick isRightClick : bool)
  (clickPoint center : Point.t) : result Action :=
  if negb doClick then Ok NoAction
  else
    match flagship e with
    | None => Ok NoAction
    | Some f =>
        let* fs := deref e f in
        let* found := click_target e fs clickPoint (ships e) 50%Q None in
        click_action e fs isRightClick clickPoint center (snd found)
    end.

End Mouse.
End Mouse.

(* ===================================================================== *)
(** * The fleets that are there on arrival                                *)
(* ===================================================================== *)

(** [EnterSystem], lines 973-994, which [PlaceFleets] of the collaborators
    stands for: here with the draws and the calls of [Fleet::Place]
    written out.  The second component of the state lists the fleets
    placed, in the order of the calls. *)
Module Arrival.
Import Model Code.

Section Arrival.
Context `{Collaborators}.
Variable FleetPlace : World -> gmap ShipId Ship.t -> FleetId -> SystemId ->
                      gmap ShipId Ship.t * list ShipId * World.
                          (* Fleet::Place, for this system and [ships] *)
Variable RaidFleet : SystemId -> option FleetId.
                          (* system->GetGovernment()->RaidFleet() *)
Variable RaidFleetFactors : World -> Q * Q.   (* player.RaidFleetFactors() *)
Variable GetName : GovId -> string.

(** A fleet the loop of line 975 places whatever is drawn: it has a
    government, and no draw below its period reaches 60. *)
Definition always_placed (fleet : FleetProbability.t) : Prop :=
  is_Some (FleetGovernment (FleetProbability.Get fleet))
  /\ 0 < FleetProbability.Period fleet <= 60.

Definition place (system : SystemId) (fleet : FleetId)
  (s : Engine * list FleetId) : Engine * list FleetId :=
  let '(e, placed) := s in
  let '(h, added, w) := FleetPlace (world e) (heap e) fleet system in
  (set_ships (ships e ++ added) (set_heap h (set_world w e)), placed ++ [fleet]).

(** Lines 977-978. *)
Definition place_fleet (system : SystemId) (s : Engine * list FleetId)
  (fleet : FleetProbability.t) : Engine * list FleetId :=
  match FleetGovernment (FleetProbability.Get fleet) with
  | None => s
  | Some _ =>
      let '(r, w) :=
        RandomInt (world (fst s)) (to_uint32 (FleetProbability.Period fleet)) in
      let s := (set_world w (fst s), snd s) in
      if r <? 60 then place system (FleetProbability.Get fleet) s else s
  end.

(** Lines 975-978. *)
Definition place_fleets (system : SystemId) (s : Engine * list FleetId)
  : Engine * list FleetId :=
  Nat.iter 5 (fun s => fold_left (place_fleet system) (Fleets system) s) s.

(** Lines 987-993, [n] rounds of them. *)
Fixpoint raid (n : nat) (system : SystemId) (raidFleet : FleetId)
  (raidGovernment : GovId) (attraction : Q) (s : Engine * list FleetId)
  : Engine * list FleetId :=
  match n with
  | O => s
  | S n =>
      let '(r, w) := RandomReal (world (fst s)) in
      let s := (set_world w (fst s), snd s) in
      let s :=
        if Qltb r attraction then
          let '(e, placed) := place system raidFleet s in
          (say ("Your fleet has attracted the interest of a "
                ++ GetName raidGovernment ++ " raiding party.")%string e,
           placed)
        else s in
      raid n system raidFleet raidGovernment attraction s
  end.

(** Lines 980-994. *)
Definition place_raid (system : SystemId) (s : Engine * list FleetId)
  : Engine * list FleetId :=
  match RaidFleet system with
  | None => s
  | Some raidFleet =>
      match FleetGovernment raidFleet with
      | None => s
      | Some raidGovernment =>
          if IsEnemyOfPlayer raidGovernment then
            let factors := RaidFleetFactors (world (fst s)) in
            let attraction :=
              ((5 # 1000) * (fst factors - snd factors - 2))%Q in
            if Qltb 0 attraction
            then raid 10 system raidFleet raidGovernment attraction s
            else s
          else s
      end
  end.

Definition arrival_fleets (system : SystemId) (e : Engine)
  : Engine * list FleetId :=
  place_raid system (place_fleets system (e, [])).

End Arrival.
End Arrival.

(* ===================================================================== *)
(** * More of the small world                                             *)
(* ===================================================================== *)

(** Engines of the small world for the functions of the foreground, and
    the ship members the record of the model does not hold. *)
Module MoreScenario.
Import Model Code Terms MoreTerms Scenario.

(** The player's flagship, #1, which targets the pirate #2 ten units
    away, and a merchant, #3. *)
Definition star : Ship.t := aiming 2 (ship "Star" "Flagship" player 0 0).
Definition rex : Ship.t := ship "Rex" "Raider" pirate 10 0.

Definition patrol (w : list Z) : Engine :=
  set_flagship (Some 1%nat)
    (engine_of w [(1%nat, star); (2%nat, rex);
                  (3%nat, ship "Ann" "Freighter" merchant 0 30)]).

(** The patrol in the step in which it arrives, with a shot still in
    flight. *)
Definition arriving : Engine := set_projectiles [gunshot] (patrol []).
Definition arrived : Engine := Eval vm_compute in after (EnterSystem arriving).

(** Two merchants, the second of which is drawn to hail. *)
Definition hailing : Engine :=
  engine_of [0; 1] [(1%nat, ship "Ann" "Freighter" merchant 0 0);
                    (2%nat, ship "Bea" "Freighter" merchant 5 0)].
Definition hailed : Engine := Eval vm_compute in after (SendHails hailing).

(** The player hits the pirate that attacks the merchant. *)
Definition thanked : Engine :=
  Eval vm_compute in
    after (DoGrudge (under_attack [] None) 2%nat (Some player)).

Definition patrol_drawn : Engine :=
  Eval vm_compute in after (DrawAll (patrol [])).

(** A merchant that has lost its hull, before and after its last move. *)
Definition wreck : Ship.t := hurt 1 (ship "Hulk" "Freighter" merchant 0 0).
Definition wrecked : Engine := engine_of [] [(1%nat, wreck)].
Definition wreck_moved : Engine :=
  Eval vm_compute in after (MoveShip wrecked 1%nat).

(** An empty system in a step in which a person is drawn. *)
Definition lonely : Engine :=
  set_ships []
    (engine_of [0; 500] [(50%nat, ship "Unnamed" "Corvette" merchant 0 0);
                         (51%nat, ship "Unnamed" "Corvette" pirate 0 0)]).
Definition visited : Engine := Eval vm_compute in after (SpawnPersons lonely).

(** The patrol with an event queued, on arrival. *)
Definition landed_event : ShipEvent := EventByShip 2%nat 3%nat JUMP.
Definition reporting : Engine :=
  set_doEnter true (set_eventQueue [landed_event] (patrol [])).
Definition reported : Engine * list ShipEvent :=
  Eval vm_compute in
    match Foreground.step_events false reporting with
    | Ok r => r
    | Fault _ => (reporting, [])
    end.

(** The ship members: Rex is a mission target, nobody is an escort or
    overheated, every ship is 60 by 40, and the flagship has scanned half
    of the cargo of its target. *)
Definition IsTarget (s : Ship.t) : bool := String.eqb (Ship.Name s) "Rex".
Definition IsEscort (s : Ship.t) : bool := false.
Definition IsOverheated (s : Ship.t) : bool := false.
Definition Width (s : Ship.t) : Q := 60.
Definition Height (s : Ship.t) : Q := 40.
Definition CargoScanFraction (s : Ship.t) : Q := 1 # 2.
Definition OutfitScanFraction (s : Ship.t) : Q := 0.
Definition Degrees (p : Point.t) : Q := 0.

(** The distance to a ship, squared, for the range of its mask. *)
Definition MaskRange (step : Z) (s : Ship.t) (p : Point.t) : Q :=
  Point.X p * Point.X p + Point.Y p * Point.Y p.

Definition patrol_radar : list Radar.Blip * bool :=
  Eval vm_compute in
    match Radar.radar_ships IsTarget IsEscort IsOverheated (patrol []) with
    | Ok r => r
    | Fault _ => ([], false)
    end.

Definition patrol_statuses : list Foreground.Status :=
  Eval vm_compute in
    match Foreground.ship_statuses IsEscort Width Height true Point.zero
            (patrol []) with
    | Ok r => r
    | Fault _ => []
    end.

Definition patrol_scan : option Foreground.Status :=
  Eval vm_compute in
    match Foreground.scan_status Width Height CargoScanFraction
            OutfitScanFraction Degrees Point.zero (patrol []) with
    | Ok r => r
    | Fault _ => None
    end.

(** A click on the pirate. *)
Definition on_rex : Point.t := Point.mk 10 0.

(** A player without escorts: no click selects anything. *)
Definition SelectBox (p : unit) (box : Foreground.Rectangle) (shift : bool)
  : bool * unit := (false, p).
Definition EscortsClick (point : Point.t) : list ShipId := [].
Definition SelectStack (p : unit) (stack : list ShipId) (shift : bool)
  : bool * unit := (true, p).

End MoreScenario.

(* ===================================================================== *)
(** * Properties of the tick-tock monitor                                 *)
(* ===================================================================== *)

Module TickTockProps.
Import TickTock.

Lemma same_slot_true s : same_slot s = true <-> calcTickTock s = drawTickTock s.
Proof. unfold same_slot. apply Bool.eqb_true_iff. Qed.

Lemma same_slot_false s : same_slot s = false <-> calcTickTock s <> drawTickTock s.
Proof. unfold same_slot. apply Bool.eqb_false_iff. Qed.

Lemma negb_differs (b : bool) : b <> negb b.
Proof. destruct b; discriminate. Qed.

Lemma inv_init b : inv (init b).
Proof. left. split; reflexivity. Qed.

(** Every enabled action preserves the invariant. *)
Lemma inv_act s a s' : inv s -> act s a = Some s' -> inv s'.
Proof.
  destruct s as [c d t n f w g k]. unfold inv, act, same_slot; simpl.
  intros Hinv Hact.
  destruct a, f, w, c, d, t; simpl in Hact; try discriminate;
    injection Hact as <-; simpl;
    repeat match goal with
           | H : _ /\ _ |- _ => destruct H
           | H : _ \/ _ |- _ => destruct H
           end;
    subst; try discriminate; try contradiction;
    try (left; split; [reflexivity | congruence]);
    try (right; repeat split; (discriminate || congruence || auto));
    try (repeat split; (discriminate || congruence || auto)).
Qed.

Lemma inv_run sched : forall s s', inv s -> run s sched = Some s' -> inv s'.
Proof.
  induction sched as [|a rest IH]; intros s s' Hinv Hrun; simpl in Hrun.
  - injection Hrun as <-. exact Hinv.
  - destruct (act s a) as [s1|] eqn:Hact; [|discriminate].
    eapply IH; [|exact Hrun]. eapply inv_act; eauto.
Qed.

Lemma run_app s sched1 sched2 :
  run s (sched1 ++ sched2) =
  match run s sched1 with Some s1 => run s1 sched2 | None => None end.
Proof.
  revert s. induction sched1 as [|a rest IH]; intros s; simpl; [reflexivity|].
  destruct (act s a); [apply IH | reflexivity].
Qed.

Lemma run_no_go sched : forall s s',
  ~ In FgGoCall sched -> run s sched = Some s' -> goes s' = goes s.
Proof.
  induction sched as [|a rest IH]; intros s s' Hno Hrun; simpl in Hrun.
  - injection Hrun as <-. reflexivity.
  - destruct (act s a) as [s1|] eqn:Hact; [|discriminate].
    rewrite (IH s1 s') by (auto; intros Hin; apply Hno; right; exact Hin).
    assert (Ha : a <> FgGoCall) by (intros ->; apply Hno; left; reflexivity).
    destruct s as [c d t n f w g k]. unfold act, same_slot in Hact; simpl in Hact.
    destruct a, f, w, c, d, t; simpl in Hact;
      try discriminate; try contradiction;
      injection Hact as <-; reflexivity.
Qed.

Lemma wait_return_idle s s' :
  inv s -> act s FgWaitReturn = Some s' ->
  calculated s' = goes s' /\ calculating_into s' = None
  /\ calcTickTock s' = drawTickTock s'.
Proof.
  destruct s as [c d t n f w g k].
  unfold inv, act, same_slot, calculating_into; simpl.
  intros Hinv Hact.
  destruct f, w, c, d; simpl in Hact; try discriminate;
    injection Hact as <-; simpl;
    repeat match goal with
           | H : _ /\ _ |- _ => destruct H
           | H : _ \/ _ |- _ => destruct H
           end; try contradiction; try discriminate; auto.
Qed.

Lemma go_needs_idle s s' :
  inv s -> act s FgGoCall = Some s' ->
  goes s = calculated s /\ goes s' = S (goes s).
Proof.
  destruct s as [c d t n f w g k].
  unfold inv, act; simpl. intros Hinv Hact.
  destruct f, w; simpl in Hact; try discriminate;
    injection Hact as <-; simpl;
    repeat match goal with
           | H : _ /\ _ |- _ => destruct H
           | H : _ \/ _ |- _ => destruct H
           end; try discriminate; auto.
Qed.

(** C1 (as amended): along every schedule of the protocol,
    (a) the worker is never more than the one requested calculation
        behind the foreground and never ahead of it;
    (b) when [Wait()] returns, every [Go()] so far has its completed
        [CalculateStep], none is in progress, and both indices are equal;
    (c) the [Wait()] that follows a [Go()] returns after exactly one
        [CalculateStep] has completed since that [Go()];
    (d) while a calculation is in progress the slot it writes,
        [calcTickTock], is not the slot [Draw()] reads, [drawTickTock]. *)
Theorem tick_tock_protocol (b : bool) (sched : list Action) (s : State) :
  run (init b) sched = Some s ->
  (goes s = calculated s \/ goes s = S (calculated s))
  /\ (forall s', act s FgWaitReturn = Some s' ->
       calculated s' = goes s' /\ calculating_into s' = None
       /\ calcTickTock s' = drawTickTock s')
  /\ (forall s1 mid s2, act s FgGoCall = Some s1 -> ~ In FgGoCall mid ->
       run s1 (mid ++ [FgWaitReturn]) = Some s2 ->
       calculated s2 = S (calculated s) /\ calculating_into s2 = None)
  /\ (forall slot, calculating_into s = Some slot -> slot <> drawn_slot s).
Proof.
  intros Hrun.
  assert (Hinv : inv s) by (eapply inv_run; [apply inv_init | exact Hrun]).
  split; [|split; [|split]].
  - unfold inv in Hinv. destruct (wk s); intuition.
  - intros s' Hw. eapply wait_return_idle; eauto.
  - intros s1 mid s2 Hgo Hno Hmidw.
    pose proof (go_needs_idle _ _ Hinv Hgo) as [Hidle Hgoes].
    rewrite run_app in Hmidw.
    destruct (run s1 mid) as [sm|] eqn:Hmid; [|discriminate].
    cbn [run] in Hmidw.
    destruct (act sm FgWaitReturn) as [sw|] eqn:Hw; [|discriminate].
    injection Hmidw as <-.
    assert (Hsm : inv sm).
    { eapply inv_run; [|exact Hmid]. eapply inv_act; eauto. }
    pose proof (wait_return_idle _ _ Hsm Hw) as (Hc & Hnone & _).
    pose proof (run_no_go _ _ _ Hno Hmid) as Hg.
    assert (goes sw = goes sm).
    { destruct sm as [c d t n f w g k]. unfold act, same_slot in Hw; simpl in Hw.
      destruct f, c, d; simpl in Hw; try discriminate;
        injection Hw as <-; reflexivity. }
    split; [lia | exact Hnone].
  - intros slot Hslot. unfold calculating_into in Hslot. unfold inv in Hinv.
    unfold drawn_slot. destruct (wk s); try discriminate.
    injection Hslot as <-. apply Hinv.
Qed.

(** The theorem at the end of the first frame. *)
Lemma tick_tock_protocol_witness :
  run (init false) frame
  = Some (mkState true true false 1 FgBeforeWait WkWaiting 1 1)
  /\ forall slot,
       calculating_into (mkState true true false 1 FgBeforeWait WkWaiting 1 1)
       = Some slot ->
       slot <> drawn_slot (mkState true true false 1 FgBeforeWait WkWaiting 1 1).
Proof.
  split; [vm_compute; reflexivity|].
  exact (proj2 (proj2 (proj2
           (tick_tock_protocol false frame
              (mkState true true false 1 FgBeforeWait WkWaiting 1 1)
              ltac:(vm_compute; reflexivity))))).
Defined.

(** C1 as stated fails: at the end of a frame (and just as well before
    the first [Go()]) the worker is idle, so no slot is being calculated
    into, and the two indices name the same slot. *)
Lemma idle_worker_calculates_no_slot :
  exists s, run (init false) frame = Some s
            /\ ~ one_calculated_other_drawn s
            /\ calcTickTock s = drawTickTock s.
Proof.
  exists (mkState true true false 1 FgBeforeWait WkWaiting 1 1).
  split; [vm_compute; reflexivity|]. split; [|reflexivity].
  intros [slot [Hc _]]. discriminate Hc.
Qed.

End TickTockProps.

(* ===================================================================== *)
(** * Properties of the spawn scheduler                                   *)
(* ===================================================================== *)

Module SpawnProps.
Import Model Code Terms.

Lemma wrap_small bits z :
  0 < bits -> - 2 ^ (bits - 1) <= z < 2 ^ (bits - 1) -> wrap bits z = z.
Proof.
  intros Hb Hz. unfold wrap.
  assert (Hp : 2 ^ bits = 2 * 2 ^ (bits - 1)).
  { replace bits with (Z.succ (bits - 1)) at 1 by lia.
    rewrite Z.pow_succ_r by lia. reflexivity. }
  rewrite Z.mod_small by lia. lia.
Qed.

Lemma wrap32_small z : - 2 ^ 31 <= z < 2 ^ 31 -> wrap32 z = z.
Proof. intros Hz. apply wrap_small; simpl; lia. Qed.

Lemma wrap64_small z : - 2 ^ 63 <= z < 2 ^ 63 -> wrap64 z = z.
Proof. intros Hz. apply wrap_small; simpl; lia. Qed.

Section Fleets.
Context `{Collaborators}.

(** One iteration of the loop of [SpawnFleets], for a fleet whose
    government's allies outnumber its enemies: whatever the draw, nothing
    but the random generator changes. *)
Lemma SpawnFleet_outnumbering system e fleet gov :
  FleetGovernment (FleetProbability.Get fleet) = Some gov ->
  let w := snd (RandomInt (world e) (to_uint32 (FleetProbability.Period fleet))) in
  outnumbering w gov -> strengths_in_range w gov ->
  SpawnFleet system e fleet = set_world w e.
Proof.
  intros Hgov w [Hne Hout] [Hlo Hhi]. unfold SpawnFleet. subst w.
  destruct (RandomInt (world e) _) as [r w]. simpl in *.
  destruct (negb (r =? 0)); [reflexivity|].
  rewrite Hgov.
  rewrite wrap64_small by lia.
  destruct (Z.eqb_spec (EnemyStrength w gov) 0) as [E|_]; [contradiction|].
  destruct (Z.ltb_spec (2 * EnemyStrength w gov) (AllyStrength w gov)); [|lia].
  reflexivity.
Qed.

(** What one iteration adds to the record of calls. *)
Lemma SpawnFleet_trace system e fleet :
  trace (SpawnFleet system e fleet) = trace e
  \/ (trace (SpawnFleet system e fleet)
      = trace e ++ [CFleetEnter (FleetProbability.Get fleet)]
      /\ exists gov w,
           FleetGovernment (FleetProbability.Get fleet) = Some gov
           /\ ~ (EnemyStrength w gov <> 0
                 /\ wrap64 (2 * EnemyStrength w gov) < AllyStrength w gov)).
Proof.
  unfold SpawnFleet.
  destruct (RandomInt (world e) _) as [r w]. simpl.
  destruct (negb (r =? 0)); [left; reflexivity|].
  destruct (FleetGovernment _) as [gov|]; [|left; reflexivity].
  destruct (Z.eqb_spec (EnemyStrength w gov) 0) as [E|E]; simpl.
  - destruct (FleetEnter w (heap e) _ system) as [[h added] w'].
    right. split; [reflexivity|]. exists gov, w. split; [reflexivity|].
    intros [Hne _]. contradiction.
  - destruct (Z.ltb_spec (wrap64 (2 * EnemyStrength w gov)) (AllyStrength w gov)).
    + left. reflexivity.
    + destruct (FleetEnter w (heap e) _ system) as [[h added] w'].
      right. split; [reflexivity|]. exists gov, w. split; [reflexivity|].
      intros [_ Hlt]. lia.
Qed.

Lemma SpawnFleets_trace system gov fleets :
  (forall w, outnumbering w gov /\ strengths_in_range w gov) ->
  forall e, exists added,
    trace (fold_left (SpawnFleet system) fleets e) = trace e ++ added
    /\ forall fleet, FleetGovernment fleet = Some gov ->
                     ~ In (CFleetEnter fleet) added.
Proof.
  intros Hall. induction fleets as [|fleet rest IH]; intros e; simpl.
  - exists []. split; [symmetry; apply app_nil_r | intros ? ? []].
  - destruct (IH (SpawnFleet system e fleet)) as (added & Htr & Hno).
    destruct (SpawnFleet_trace system e fleet) as [Hsame | [Hadd Hwhy]].
    + exists added. rewrite Htr, Hsame. split; [reflexivity | exact Hno].
    + exists (CFleetEnter (FleetProbability.Get fleet) :: added).
      rewrite Htr, Hadd, <- app_assoc. split; [reflexivity|].
      intros fl Hfl [Heq | Hin]; [|exact (Hno fl Hfl Hin)].
      injection Heq as Heq. subst fl.
      destruct Hwhy as (gov' & w & Hgov' & Hnot).
      rewrite Hfl in Hgov'. injection Hgov' as <-.
      destruct (Hall w) as [[Hne Hout] [Hlo Hhi]].
      apply Hnot. split; [exact Hne|].
      rewrite wrap64_small by lia. exact Hout.
Qed.

(** C6: a fleet whose government's allies in the system outnumber its
    enemies there by more than two to one, the enemy strength not being
    zero, is not placed.  First for one iteration of the loop, whatever
    the engine's state and the draw: only the random generator advances.
    Then for the whole of [SpawnFleets], in a step in which the
    government's strengths stay that way: [Fleet::Enter] is called for
    none of its fleets. *)
Theorem reinforcements_throttled (system : SystemId) (gov : GovId) :
  (forall e fleet,
     FleetGovernment (FleetProbability.Get fleet) = Some gov ->
     let w := snd (RandomInt (world e)
                     (to_uint32 (FleetProbability.Period fleet))) in
     outnumbering w gov -> strengths_in_range w gov ->
     SpawnFleet system e fleet = set_world w e)
  /\ (forall e e',
        playerSystem e = Some system ->
        (forall w, outnumbering w gov /\ strengths_in_range w gov) ->
        SpawnFleets e = Ok e' ->
        exists added,
          trace e' = trace e ++ added
          /\ forall fleet, FleetGovernment fleet = Some gov ->
                           ~ In (CFleetEnter fleet) added).
Proof.
  split.
  - intros e fleet Hgov w Hout Hrange.
    exact (SpawnFleet_outnumbering system e fleet gov Hgov Hout Hrange).
  - intros e e' Hsys Hall Hrun. unfold SpawnFleets in Hrun.
    rewrite Hsys in Hrun. injection Hrun as <-.
    apply SpawnFleets_trace. exact Hall.
Qed.

End Fleets.

Section Persons.
Context `{Collaborators}.
Variable e : Engine.
Variable system : SystemId.

Local Abbreviation frequency it := (Frequency (heap e) (snd it) system).
Local Abbreviation nonnegative persons :=
  (Forall (fun it => 0 <= Frequency (heap e) (snd it) system) persons).

Lemma frequency_sum_nonneg persons :
  nonnegative persons -> 0 <= frequency_sum e system persons.
Proof.
  induction 1 as [|it rest Hit _ IH]; simpl; lia.
Qed.

Lemma frequency_sum_app l1 l2 :
  frequency_sum e system (l1 ++ l2)
  = frequency_sum e system l1 + frequency_sum e system l2.
Proof. induction l1 as [|it rest IH]; simpl; lia. Qed.

(** The first loop computes the sum when it fits an [int]. *)
Lemma total_frequency_from persons : forall sum,
  nonnegative persons -> 0 <= sum ->
  sum + frequency_sum e system persons < 2 ^ 31 ->
  fold_left (fun sum it => wrap32 (sum + frequency it)) persons sum
  = sum + frequency_sum e system persons.
Proof.
  induction persons as [|it rest IH]; intros sum Hnn Hsum Hfit; simpl in *.
  - lia.
  - inversion Hnn as [|? ? Hit Hrest]; subst.
    pose proof (frequency_sum_nonneg rest Hrest).
    rewrite wrap32_small by lia.
    rewrite IH by (auto; lia). lia.
Qed.

Lemma total_frequency_sum persons :
  nonnegative persons -> frequency_sum e system persons < 2 ^ 31 ->
  total_frequency e system persons = frequency_sum e system persons.
Proof.
  intros Hnn Hfit. unfold total_frequency.
  rewrite total_frequency_from by (auto; lia). lia.
Qed.

(** The second loop picks the person whose stretch of the draws holds
    the draw. *)
Lemma pick_person_stretch pre it post : forall r,
  nonnegative (pre ++ it :: post) ->
  frequency_sum e system (pre ++ it :: post) < 2 ^ 31 ->
  frequency_sum e system pre <= r < frequency_sum e system pre + frequency it ->
  pick_person e system r (pre ++ it :: post) = Some it.
Proof.
  induction pre as [|a pre IH]; intros r Hnn Hfit Hr; simpl in *.
  - inversion Hnn as [|? ? Hit Hrest]; subst.
    pose proof (frequency_sum_nonneg post Hrest).
    rewrite wrap32_small by lia.
    destruct (Z.ltb_spec (r - frequency it) 0); [reflexivity | lia].
  - inversion Hnn as [|? ? Ha Hrest]; subst.
    pose proof (frequency_sum_nonneg _ Hrest) as Hsum.
    rewrite frequency_sum_app in Hsum, Hfit. simpl in Hsum, Hfit.
    assert (0 <= frequency_sum e system pre).
    { apply frequency_sum_nonneg. apply Forall_app in Hrest. apply Hrest. }
    assert (0 <= frequency it /\ 0 <= frequency_sum e system post) as [? ?].
    { apply Forall_app in Hrest. destruct Hrest as [_ Hrest].
      inversion Hrest; subst. split; [assumption|].
      apply frequency_sum_nonneg. assumption. }
    rewrite wrap32_small by lia.
    destruct (Z.ltb_spec (r - frequency a) 0); [lia|].
    apply IH; [assumption | rewrite frequency_sum_app; simpl; lia | lia].
Qed.

Lemma pick_person_none persons : forall r,
  nonnegative persons -> frequency_sum e system persons <= r < 2 ^ 31 ->
  pick_person e system r persons = None.
Proof.
  induction persons as [|a rest IH]; intros r Hnn Hr; simpl in *; [reflexivity|].
  inversion Hnn as [|? ? Ha Hrest]; subst.
  pose proof (frequency_sum_nonneg rest Hrest).
  rewrite wrap32_small by lia.
  destruct (Z.ltb_spec (r - frequency a) 0); [lia|].
  apply IH; [assumption | lia].
Qed.

Lemma pick_person_some persons : forall r,
  nonnegative persons -> frequency_sum e system persons < 2 ^ 31 ->
  0 <= r < frequency_sum e system persons ->
  pick_person e system r persons <> None.
Proof.
  induction persons as [|a rest IH]; intros r Hnn Hfit Hr; simpl in *; [lia|].
  inversion Hnn as [|? ? Ha Hrest]; subst.
  pose proof (frequency_sum_nonneg rest Hrest).
  rewrite wrap32_small by lia.
  destruct (Z.ltb_spec (r - frequency a) 0); [discriminate|].
  apply IH; [assumption | lia | lia].
Qed.

(** Of the first [m] draws, [k] are below [k]. *)
Lemma count_below (k m : nat) :
  (k <= m)%nat ->
  length (List.filter (fun r => r <? Z.of_nat k) (map Z.of_nat (seq 0 m))) = k.
Proof.
  revert k. induction m as [|m IH]; intros k Hk.
  - simpl. lia.
  - rewrite seq_S, map_app, List.filter_app, length_app. simpl.
    destruct (Nat.eq_dec k (S m)) as [->|Hne].
    + destruct (Z.ltb_spec (Z.of_nat m) (Z.of_nat (S m))); [|lia]. simpl.
      rewrite (List.filter_ext_in _ (fun r => r <? Z.of_nat m)).
      * rewrite IH by lia. lia.
      * intros r Hr. apply in_map_iff in Hr as (n & <- & Hn).
        apply in_seq in Hn.
        destruct (Z.ltb_spec (Z.of_nat n) (Z.of_nat (S m)));
          destruct (Z.ltb_spec (Z.of_nat n) (Z.of_nat m)); lia.
    + destruct (Z.ltb_spec (Z.of_nat m) (Z.of_nat k)); [lia|]. simpl.
      rewrite IH by lia. lia.
Qed.

End Persons.

Section Draws.
Context `{Collaborators}.
Variable e : Engine.
Variable system : SystemId.

Local Abbreviation nonnegative persons :=
  (Forall (fun it => 0 <= Frequency (heap e) (snd it) system) persons).
Local Abbreviation in_heap persons :=
  (Forall (fun it => is_Some (heap e !! Person.GetShip (snd it))) persons).

Lemma in_outcomes upper r : In r (outcomes upper) <-> 0 <= r < upper.
Proof.
  unfold outcomes. rewrite in_map_iff. split.
  - intros (n & <- & Hn). apply in_seq in Hn. lia.
  - intros Hr. exists (Z.to_nat r). split; [lia|]. apply in_seq. lia.
Qed.

Lemma length_outcomes upper : length (outcomes upper) = Z.to_nat upper.
Proof. unfold outcomes. rewrite length_map, length_seq. reflexivity. Qed.

Lemma pick_person_in persons : forall r it,
  pick_person e system r persons = Some it -> In it persons.
Proof.
  induction persons as [|a rest IH]; intros r it Hpick; simpl in Hpick;
    [discriminate|].
  destruct (_ <? 0).
  - injection Hpick as <-. left. reflexivity.
  - right. exact (IH _ _ Hpick).
Qed.

Lemma pick_person_same_heap e1 persons :
  heap e1 = heap e ->
  forall r, pick_person e1 system r persons = pick_person e system r persons.
Proof.
  intros Hheap. induction persons as [|a rest IH]; intros r; simpl;
    [reflexivity|].
  rewrite Hheap, IH. reflexivity.
Qed.

(** [SpawnPersons] on the draws [g] and [r]: nobody enters unless the
    gate [g] is zero, and then the person who enters is the one the
    second loop picks on [r]. *)
Lemma SpawnPersons_on_draws w0 g r w1 w2 :
  playerSystem e = Some system ->
  Links_empty system = false ->
  nonnegative Persons ->
  in_heap Persons ->
  frequency_sum e system Persons + 1000 < 2 ^ 31 ->
  0 <= r < frequency_sum e system Persons + 1000 ->
  RandomInt w0 36000 = (g, w1) ->
  RandomInt w1 (frequency_sum e system Persons + 1000) = (r, w2) ->
  exists e',
    SpawnPersons (set_world w0 e) = Ok e'
    /\ match (if g =? 0 then pick_person e system r Persons else None) with
       | Some (name, person) =>
           trace e' = trace e ++ [CPersonEnter name]
           /\ newShips e' = newShips e ++ [Person.GetShip person]
       | None => trace e' = trace e /\ newShips e' = newShips e
       end.
Proof.
  intros Hsystem Hlinks Hnn Hheap Hfit Hr Hgate Hdraw.
  pose proof (frequency_sum_nonneg e system Persons Hnn) as Hsum.
  unfold SpawnPersons. cbn [world set_world]. rewrite Hgate. cbv zeta.
  cbn [playerSystem set_world]. rewrite Hsystem, Hlinks, orb_false_r.
  destruct (Z.eqb_spec g 0) as [Hg|Hg]; cbn [negb];
    [|eexists; split; [reflexivity | auto]].
  change (total_frequency (set_world w1 (set_world w0 e)) system Persons)
    with (total_frequency e system Persons).
  rewrite (total_frequency_sum e system Persons Hnn) by lia.
  destruct (Z.eqb_spec (frequency_sum e system Persons) 0) as [Hzero|Hpos].
  { rewrite pick_person_none by (auto; lia).
    eexists. split; [reflexivity | auto]. }
  rewrite wrap32_small by lia.
  assert (Hn : to_uint32 (frequency_sum e system Persons + 1000)
               = frequency_sum e system Persons + 1000).
  { unfold to_uint32. apply Z.mod_small. lia. }
  rewrite Hn. cbn [world set_world]. rewrite Hdraw.
  rewrite wrap32_small by lia.
  rewrite (pick_person_same_heap (set_world w1 (set_world w0 e)))
    by reflexivity.
  destruct (pick_person e system r Persons) as [[name person]|] eqn:Hpick;
    [|eexists; split; [reflexivity | auto]].
  apply pick_person_in in Hpick.
  rewrite List.Forall_forall in Hheap. destruct (Hheap _ Hpick) as [ship Hship].
  cbn [snd] in Hship.
  unfold deref. cbn [heap set_world]. rewrite Hship. unfold bind.
  destruct (FleetEnterShip _ system _) as [ship' w3].
  eexists. split; [reflexivity | auto].
Qed.

(** A ship enters on the draws with the gate at zero and the second
    draw below the sum of the frequencies, and on no others. *)
Lemma spawns_on_draws (world_of : Z -> Z -> World) g r :
  playerSystem e = Some system ->
  Links_empty system = false ->
  nonnegative Persons ->
  in_heap Persons ->
  frequency_sum e system Persons + 1000 < 2 ^ 31 ->
  0 <= r < frequency_sum e system Persons + 1000 ->
  deals world_of 36000 (frequency_sum e system Persons + 1000) g r ->
  spawns_on e world_of (g, r)
  = (g =? 0) && (r <? frequency_sum e system Persons).
Proof.
  intros Hsystem Hlinks Hnn Hheap Hfit Hr (w1 & w2 & Hgate & Hdraw).
  pose proof (frequency_sum_nonneg e system Persons Hnn) as Hsum.
  destruct (SpawnPersons_on_draws _ g r w1 w2 Hsystem Hlinks Hnn Hheap Hfit Hr
              Hgate Hdraw) as (e' & Hrun & Hwho).
  unfold spawns_on, spawned. cbn [fst snd]. rewrite Hrun.
  destruct (g =? 0); cbn [andb].
  - destruct (Z.ltb_spec r (frequency_sum e system Persons)) as [Hlt|Hge].
    + pose proof (pick_person_some e system Persons r Hnn ltac:(lia)
                    ltac:(lia)) as Hsome.
      destruct (pick_person e system r Persons) as [[name person]|];
        [|contradiction].
      destruct Hwho as [_ ->]. rewrite length_app. cbn [length].
      apply negb_true_iff, Nat.eqb_neq. cbn [set_world newShips]. lia.
    + rewrite pick_person_none in Hwho by (auto; lia).
      destruct Hwho as [_ ->]. cbn [set_world newShips].
      rewrite Nat.eqb_refl. reflexivity.
  - destruct Hwho as [_ ->]. cbn [set_world newShips].
    rewrite Nat.eqb_refl. reflexivity.
Qed.

End Draws.

(** Counting in a product of lists. *)
Lemma count_in_row {A B : Type} (f : A -> bool) (g : B -> bool) a l :
  length (List.filter (fun p => f (fst p) && g (snd p)) (map (pair a) l))
  = if f a then length (List.filter g l) else 0%nat.
Proof.
  induction l as [|b rest IH]; simpl; [destruct (f a); reflexivity|].
  destruct (f a); simpl in *; [|exact IH].
  destruct (g b); simpl; rewrite IH; reflexivity.
Qed.

Lemma count_in_product {A B : Type} (f : A -> bool) (g : B -> bool) l1 l2 :
  length (List.filter (fun p => f (fst p) && g (snd p)) (list_prod l1 l2))
  = (length (List.filter f l1) * length (List.filter g l2))%nat.
Proof.
  induction l1 as [|a rest IH]; simpl; [reflexivity|].
  rewrite List.filter_app, length_app, IH, count_in_row.
  destruct (f a); simpl; lia.
Qed.

Lemma count_zero (m : nat) :
  (0 < m)%nat ->
  length (List.filter (fun g => g =? 0) (map Z.of_nat (seq 0 m))) = 1%nat.
Proof.
  intros Hm.
  rewrite (List.filter_ext_in _ (fun r => r <? Z.of_nat 1)).
  - apply count_below. lia.
  - intros r Hr. apply in_map_iff in Hr as (n & <- & Hn).
    destruct (Z.eqb_spec (Z.of_nat n) 0), (Z.ltb_spec (Z.of_nat n) (Z.of_nat 1));
      lia.
Qed.

(** Of the 36000 (S + 1000) pairs of draws, S spawn somebody. *)
Lemma spawning_count `{Collaborators} (e : Engine) (system : SystemId)
  (world_of : Z -> Z -> World) (S : Z) :
  playerSystem e = Some system ->
  Links_empty system = false ->
  Forall (fun it => 0 <= Frequency (heap e) (snd it) system) Persons ->
  Forall (fun it => is_Some (heap e !! Person.GetShip (snd it))) Persons ->
  frequency_sum e system Persons = S ->
  S + 1000 < 2 ^ 31 ->
  (forall g r, In (g, r) (list_prod (outcomes 36000) (outcomes (S + 1000))) ->
               deals world_of 36000 (S + 1000) g r) ->
  Z.of_nat (length (List.filter (spawns_on e world_of)
                      (list_prod (outcomes 36000) (outcomes (S + 1000))))) = S
  /\ Z.of_nat (length (list_prod (outcomes 36000) (outcomes (S + 1000))))
     = 36000 * (S + 1000).
Proof.
  intros Hsystem Hlinks Hnn Hheap HS Hfit Hdeals.
  pose proof (frequency_sum_nonneg e system Persons Hnn) as Hsum.
  rewrite HS in Hsum.
  split.
  - rewrite (List.filter_ext_in _ (fun p => (fst p =? 0) && (snd p <? S))).
    + rewrite (count_in_product (fun g => g =? 0) (fun r => r <? S)).
      unfold outcomes. rewrite count_zero by lia.
      rewrite (List.filter_ext (fun r => r <? S)
                 (fun r => r <? Z.of_nat (Z.to_nat S)))
        by (intros r; rewrite Z2Nat.id by lia; reflexivity).
      rewrite count_below by lia. lia.
    + intros [g r] Hin. pose proof (Hdeals g r Hin) as Hdeal.
      apply in_prod_iff in Hin as [Hg Hr]. apply in_outcomes in Hr.
      subst S. cbn [fst snd].
      apply spawns_on_draws; assumption.
  - rewrite length_prod, !length_outcomes. lia.
Qed.

(** C8 (as amended): [SpawnPersons] in a system with links, for persons
    whose frequencies are not negative, with their sum [S] leaving room
    for the baseline of 1000 in an [int], and whose ships exist; the
    world [world_of g r] answers [g] to [Random::Int(36000)] and [r] to
    [Random::Int(S + 1000)].
    (a) Nobody enters unless the gate [g] is zero, and then it is the
        person the second loop picks on [r] who enters, or nobody;
    (b) each definition is picked on a stretch of the draws as long as
        its frequency, in the order of [GameData::Persons()];
    (c) the 1000 draws from [S] on pick nobody;
    (d) so of the 36000 (S + 1000) pairs of draws, S spawn somebody: the
        chance of a spawn per step is S / (S + 1000) of the chance
        1 / 36000 of the gate;
    (e) a share below 1 / 36000; with one more definition, of positive
        frequency f, in the list it is S + f of the 36000 (S + f + 1000)
        pairs, a larger share. *)
Theorem rare_encounter_rate `{H : Collaborators} (e : Engine)
  (system : SystemId) (world_of : Z -> Z -> World) (S : Z) :
  playerSystem e = Some system ->
  Links_empty system = false ->
  Forall (fun it => 0 <= Frequency (heap e) (snd it) system) Persons ->
  Forall (fun it => is_Some (heap e !! Person.GetShip (snd it))) Persons ->
  frequency_sum e system Persons = S ->
  S + 1000 < 2 ^ 31 ->
  (forall g r, In (g, r) (list_prod (outcomes 36000) (outcomes (S + 1000))) ->
               deals world_of 36000 (S + 1000) g r) ->
  (forall g r,
     In (g, r) (list_prod (outcomes 36000) (outcomes (S + 1000))) ->
     exists e',
       SpawnPersons (set_world (world_of g r) e) = Ok e'
       /\ match (if g =? 0 then pick_person e system r Persons else None) with
          | Some (name, person) =>
              trace e' = trace e ++ [CPersonEnter name]
              /\ newShips e' = newShips e ++ [Person.GetShip person]
          | None => trace e' = trace e /\ newShips e' = newShips e
          end)
  /\ (forall pre it post r,
        Persons = pre ++ it :: post ->
        frequency_sum e system pre <= r
        < frequency_sum e system pre + Frequency (heap e) (snd it) system ->
        pick_person e system r Persons = Some it)
  /\ (forall r, S <= r < S + 1000 -> pick_person e system r Persons = None)
  /\ Z.of_nat (length (List.filter (spawns_on e world_of)
                         (list_prod (outcomes 36000) (outcomes (S + 1000)))))
     = S
  /\ Z.of_nat (length (list_prod (outcomes 36000) (outcomes (S + 1000))))
     = 36000 * (S + 1000)
  /\ S * 36000 < 1 * (36000 * (S + 1000))
  /\ (forall extra f (world_of' : Z -> Z -> World),
        Frequency (heap e) (snd extra) system = f ->
        0 < f ->
        is_Some (heap e !! Person.GetShip (snd extra)) ->
        S + f + 1000 < 2 ^ 31 ->
        (forall g r,
           In (g, r) (list_prod (outcomes 36000) (outcomes (S + f + 1000))) ->
           deals world_of' 36000 (S + f + 1000) g r) ->
        Z.of_nat
          (length (List.filter
                     (spawns_on (H := with_persons H (@Persons H ++ [extra]))
                                (among H (@Persons H ++ [extra]) e) world_of')
                     (list_prod (outcomes 36000) (outcomes (S + f + 1000)))))
        = S + f
        /\ Z.of_nat (length (list_prod (outcomes 36000)
                                       (outcomes (S + f + 1000))))
           = 36000 * (S + f + 1000)
        /\ S * (36000 * (S + f + 1000)) < (S + f) * (36000 * (S + 1000))).
Proof.
  intros Hsystem Hlinks Hnn Hheap HS Hfit Hdeals.
  pose proof (frequency_sum_nonneg e system Persons Hnn) as Hsum.
  destruct (spawning_count e system world_of S Hsystem Hlinks Hnn Hheap HS Hfit
              Hdeals) as [Hcount Htotal].
  split; [|split; [|split; [|split; [|split; [|split]]]]].
  - intros g r Hin. destruct (Hdeals g r Hin) as (w1 & w2 & Hgate & Hdraw).
    apply in_prod_iff in Hin as [Hg Hr]. apply in_outcomes in Hr.
    subst S. exact (SpawnPersons_on_draws e system _ g r w1 w2 Hsystem Hlinks
                      Hnn Hheap Hfit Hr Hgate Hdraw).
  - intros pre it post r Hsplit Hr. rewrite Hsplit.
    apply pick_person_stretch; [rewrite <- Hsplit; exact Hnn | | exact Hr].
    rewrite <- Hsplit. lia.
  - intros r Hr. apply pick_person_none; [exact Hnn | lia].
  - exact Hcount.
  - exact Htotal.
  - lia.
  - intros extra f world_of' Hf Hpos Hship Hfit' Hdeals'.
    assert (Hnn' : Forall (fun it => 0 <= Frequency (heap e) (snd it) system)
                     (Persons ++ [extra])).
    { apply Forall_app. split; [exact Hnn|]. constructor; [lia | constructor]. }
    assert (Hheap' : Forall (fun it => is_Some (heap e !! Person.GetShip (snd it)))
                       (Persons ++ [extra])).
    { apply Forall_app. split; [exact Hheap|].
      constructor; [exact Hship | constructor]. }
    assert (HS' : frequency_sum e system (Persons ++ [extra]) = S + f).
    { rewrite frequency_sum_app. simpl. lia. }
    destruct (spawning_count (H := with_persons H (@Persons H ++ [extra]))
                (among H (@Persons H ++ [extra]) e) system world_of' (S + f)
                Hsystem Hlinks Hnn' Hheap' HS' Hfit' Hdeals')
      as [Hcount' Htotal'].
    split; [exact Hcount'|]. split; [exact Htotal'|]. nia.
Qed.

Import Scenario.

(** [SpawnFleets] in the small world: the merchants' allies (25) outnumber
    their enemies (10), and their fleet stays out. *)
Lemma reinforcements_throttled_witness :
  exists added,
    trace after_fleets = trace before_fleets ++ added
    /\ forall fleet, FleetGovernment fleet = Some merchant ->
                     ~ In (CFleetEnter fleet) added.
Proof.
  apply (proj2 (reinforcements_throttled sol merchant)
           before_fleets after_fleets).
  - vm_compute. reflexivity.
  - intros w. unfold outnumbering, strengths_in_range. simpl. lia.
  - vm_compute. reflexivity.
Defined.

Lemma dealing_deals m n g r :
  0 <= g < m -> 0 <= r < n -> deals dealing m n g r.
Proof.
  intros Hg Hr. exists [r], []. unfold dealing. simpl.
  destruct (Z.eqb_spec m 0); [lia|]. destruct (Z.eqb_spec n 0); [lia|].
  rewrite !Z.mod_small by lia. auto.
Qed.

Lemma dealing_deals_all m n g r :
  In (g, r) (list_prod (outcomes m) (outcomes n)) -> deals dealing m n g r.
Proof.
  intros Hin. apply in_prod_iff in Hin as [Hg Hr].
  apply in_outcomes in Hg, Hr. apply dealing_deals; assumption.
Qed.

(** The theorem for the two persons of the small world, whose
    frequencies are 1000 each: 2000 of the 36000 * 3000 pairs of draws
    spawn somebody, and on the pair (0, 1500) it is Bob. *)
Lemma rare_encounter_rate_witness :
  Z.of_nat (length (List.filter (spawns_on empty_system dealing)
                      (list_prod (outcomes 36000) (outcomes (2000 + 1000)))))
  = 2000
  /\ exists e',
       SpawnPersons (set_world (dealing 0 1500) empty_system) = Ok e'
       /\ trace e' = trace empty_system ++ [CPersonEnter "Bob"]
       /\ newShips e' = newShips empty_system ++ [51%nat].
Proof.
  destruct (rare_encounter_rate empty_system sol dealing 2000)
    as (Hdraws & _ & _ & Hcount & _).
  - reflexivity.
  - reflexivity.
  - repeat constructor; simpl; lia.
  - repeat constructor; vm_compute; eauto.
  - reflexivity.
  - lia.
  - intros g r. apply dealing_deals_all.
  - split; [exact Hcount|].
    destruct (Hdraws 0 1500) as (e' & Hrun & Hwho).
    + apply in_prod_iff. split; apply in_outcomes; lia.
    + exists e'. split; [exact Hrun|]. exact Hwho.
Defined.

(** C8 as stated fails: with Alice alone in the list, 1000 of the
    36000 * 2000 pairs of draws spawn somebody, a chance of 1/72000 per
    step; with Alice and Bob, 2000 of the 36000 * 3000 pairs, a chance of
    1/54000.  On the pair (0, 1500) nobody enters with Alice alone, and
    Bob enters when he is in the list. *)
Lemma more_persons_more_encounters :
  Z.of_nat (length (List.filter
                      (spawns_on (H := alone) empty_system_alone dealing)
                      (list_prod (outcomes 36000) (outcomes (1000 + 1000)))))
  = 1000
  /\ Z.of_nat (length (list_prod (outcomes 36000) (outcomes (1000 + 1000))))
     = 36000 * (1000 + 1000)
  /\ Z.of_nat (length (List.filter
                         (spawns_on (H := scenario) empty_system dealing)
                         (list_prod (outcomes 36000) (outcomes (2000 + 1000)))))
     = 2000
  /\ Z.of_nat (length (list_prod (outcomes 36000) (outcomes (2000 + 1000))))
     = 36000 * (2000 + 1000)
  /\ (inject_Z 1000 / inject_Z (36000 * (1000 + 1000)) == 1 # 72000)%Q
  /\ (inject_Z 2000 / inject_Z (36000 * (2000 + 1000)) == 1 # 54000)%Q
  /\ ~ (1 # 72000 == 1 # 54000)%Q
  /\ spawns_on (H := alone) empty_system_alone dealing (0, 1500) = false
  /\ spawns_on (H := scenario) empty_system dealing (0, 1500) = true.
Proof.
  destruct (spawning_count (H := alone) empty_system_alone sol dealing 1000)
    as [Hcount1 Htotal1];
    [reflexivity | reflexivity | repeat constructor; simpl; lia
    | repeat constructor; vm_compute; eauto | reflexivity | lia
    | intros g r; apply dealing_deals_all |].
  destruct (spawning_count (H := scenario) empty_system sol dealing 2000)
    as [Hcount2 Htotal2];
    [reflexivity | reflexivity | repeat constructor; simpl; lia
    | repeat constructor; vm_compute; eauto | reflexivity | lia
    | intros g r; apply dealing_deals_all |].
  split; [exact Hcount1|]. split; [exact Htotal1|].
  split; [exact Hcount2|]. split; [exact Htotal2|].
  split; [vm_compute; reflexivity|]. split; [vm_compute; reflexivity|].
  split; [intros Heq; vm_compute in Heq; discriminate Heq|].
  split; vm_compute; reflexivity.
Qed.

End SpawnProps.

(* ===================================================================== *)
(** * Properties of the grudge heuristic                                  *)
(* ===================================================================== *)

Module GrudgeProps.
Import Model Code Terms.

Section Grudge.
Context `{Collaborators}.

Lemma deref_Some e id s : heap e !! id = Some s -> deref e id = Ok s.
Proof. intros Hs. unfold deref. rewrite Hs. reflexivity. Qed.

Lemma lock_Some e id s : heap e !! id = Some s -> lock e (Some id) = Some id.
Proof. intros Hs. unfold lock. rewrite Hs. reflexivity. Qed.

(** While the cool-down runs, an attack by another government than the
    player's changes nothing. *)
Lemma DoGrudge_cooling e target t attacker :
  heap e !! target = Some t ->
  Government.IsPlayer (government attacker) = false ->
  grudgeTime e <> 0 ->
  DoGrudge e target (Some attacker) = Ok e.
Proof.
  intros Ht Hnp Hg. unfold DoGrudge. rewrite (deref_Some _ _ _ Ht). simpl.
  rewrite Hnp. destruct (Z.eqb_spec (grudgeTime e) 0); [contradiction|].
  reflexivity.
Qed.

(** While the requester is there and able, neither does it. *)
Lemma DoGrudge_active e target t attacker :
  heap e !! target = Some t ->
  Government.IsPlayer (government attacker) = false ->
  requester_active e attacker ->
  DoGrudge e target (Some attacker) = Ok e.
Proof.
  intros Ht Hnp (requester & s & Hentry & Hs & Hable).
  unfold DoGrudge. rewrite (deref_Some _ _ _ Ht). simpl. rewrite Hnp.
  destruct (negb (grudgeTime e =? 0)); [reflexivity|].
  rewrite Hentry, (lock_Some _ _ _ Hs), (deref_Some _ _ _ Hs). simpl.
  rewrite Hable. reflexivity.
Qed.

(** Nor when the entry's weak pointer has expired or was reset. *)
Lemma DoGrudge_expired e target t attacker :
  heap e !! target = Some t ->
  Government.IsPlayer (government attacker) = false ->
  requester_expired e attacker ->
  DoGrudge e target (Some attacker) = Ok e.
Proof.
  intros Ht Hnp (entry & Hentry & Hlock).
  unfold DoGrudge. rewrite (deref_Some _ _ _ Ht). simpl. rewrite Hnp.
  destruct (negb (grudgeTime e =? 0)); [reflexivity|].
  rewrite Hentry, Hlock. reflexivity.
Qed.

(** With no entry, or a requester that is disabled or elsewhere, and the
    cool-down over, a qualifying attack makes the request. *)
Lemma DoGrudge_requests e target attacker :
  Government.IsPlayer (government attacker) = false ->
  grudgeTime e = 0 ->
  grudge e !! attacker = None \/ requester_away e attacker ->
  qualifying e target attacker ->
  exists e', DoGrudge e target (Some attacker) = Ok e'
             /\ request_made e target attacker = Some e'
             /\ grudge e' !! attacker = Some (Some target)
             /\ grudgeTime e' = 120.
Proof.
  intros Hnp Hg Hentry
    (t & n & a & Ht & Htp & Hae & Hte & Hmute & Hlang & Hcount & Hweak & Hdraw).
  unfold DoGrudge, request_made.
  rewrite Ht, (deref_Some _ _ _ Ht), Hcount. simpl. rewrite Hnp, Hg. simpl.
  assert (Hsup :
    match grudge e !! attacker with
    | Some entry =>
        match lock e entry with
        | Some pid => let* previous := deref e pid in
                      Ok (present_and_able e previous)
        | None => Ok true
        end
    | None => Ok false
    end = Ok false).
  { destruct Hentry as [Hnone | (requester & s & Hsome & Hs & Haway)].
    - rewrite Hnone. reflexivity.
    - rewrite Hsome, (lock_Some _ _ _ Hs), (deref_Some _ _ _ Hs). simpl.
      rewrite Haway. reflexivity. }
  rewrite Hsup. simpl.
  rewrite Htp, Hae, Hte, Hmute. simpl.
  assert (Hgate :
    negb (String.eqb (Government.Language (government (Ship.GetGovernment t)))
                     EmptyString)
    && (GetCondition (world e)
          (String.append "language: "
             (Government.Language (government (Ship.GetGovernment t)))) =? 0)
    = false).
  { destruct Hlang as [Hl | Hl].
    - rewrite Hl. reflexivity.
    - apply andb_false_iff. right. apply Z.eqb_neq. exact Hl. }
  rewrite Hgate, Hweak.
  destruct (RandomReal (world e)) as [r w] eqn:Hr. simpl in Hdraw |- *.
  rewrite Hdraw.
  eexists. split; [reflexivity|]. split; [reflexivity|].
  split; [simpl; apply lookup_insert_eq | reflexivity].
Qed.

End Grudge.

Import Scenario.

Lemma under_attack_qualifies requester :
  qualifying (under_attack [0] requester) 1%nat pirate.
Proof.
  exists (ship "Ann" "Freighter" merchant 0 0), 1, (Double.of_int 1000).
  destruct requester as [entry|]; repeat split;
    try (vm_compute; reflexivity); left; reflexivity.
Qed.

(** C5 as stated fails: the requester #9 recorded for the pirates has been
    destroyed and its object is gone.  The attack on the merchant
    qualifies, and with no entry for the pirates it raises a request on
    the draw 0; with the expired entry it raises none on any draw. *)
Lemma destroyed_requester_keeps_suppressing :
  qualifying (under_attack [0] (Some (Some 9%nat))) 1%nat pirate
  /\ (exists e', DoGrudge (under_attack [0] None) 1%nat (Some pirate) = Ok e'
                 /\ grudgeTime e' = 120)
  /\ heap (under_attack [0] (Some (Some 9%nat))) !! 9%nat = None
  /\ forall w, DoGrudge (under_attack w (Some (Some 9%nat))) 1%nat (Some pirate)
               = Ok (under_attack w (Some (Some 9%nat))).
Proof.
  split; [apply under_attack_qualifies|].
  split; [eexists; split; vm_compute; reflexivity|].
  split; [vm_compute; reflexivity|].
  intros w. apply (DoGrudge_expired _ _ (ship "Ann" "Freighter" merchant 0 0));
    [vm_compute; reflexivity | reflexivity |].
  exists (Some 9%nat). split; vm_compute; reflexivity.
Qed.

End GrudgeProps.

(* ===================================================================== *)
(** * Properties of the collection of flotsam                             *)
(* ===================================================================== *)

Module CollectionProps.
Import Model Code Terms.

Section Collection.
Context `{Collaborators}.

(** The loop stops at the first body that can collect. *)
Lemma find_collector_first e f bodies : forall collector,
  find_collector e f bodies = Ok collector ->
  match collector with
  | None =>
      forall id, In id bodies ->
                 exists s, heap e !! id = Some s /\ can_collect f id s = false
  | Some id =>
      exists pre post s,
        bodies = pre ++ id :: post
        /\ (forall id', In id' pre ->
              exists s', heap e !! id' = Some s' /\ can_collect f id' s' = false)
        /\ heap e !! id = Some s /\ can_collect f id s = true
  end.
Proof.
  induction bodies as [|body rest IH]; intros collector Hfind; simpl in Hfind.
  - injection Hfind as <-. intros id [].
  - unfold deref in Hfind. destruct (heap e !! body) as [ship|] eqn:Hb;
      [|discriminate]. simpl in Hfind.
    destruct (can_collect f body ship) eqn:Hcan.
    + injection Hfind as <-. exists [], rest, ship.
      split; [reflexivity|]. split; [intros ? []|]. split; assumption.
    + specialize (IH collector Hfind). destruct collector as [id|].
      * destruct IH as (pre & post & s & -> & Hpre & Hs & Hid).
        exists (body :: pre), post, s. split; [reflexivity|].
        split; [|split; assumption].
        intros id' [<- | Hin]; [eauto | apply Hpre; exact Hin].
      * intros id [<- | Hin]; [eauto | apply IH; exact Hin].
Qed.

Lemma find_collector_heap e1 e2 f bodies :
  heap e1 = heap e2 -> find_collector e1 f bodies = find_collector e2 f bodies.
Proof.
  intros Hh. induction bodies as [|body rest IH]; simpl; [reflexivity|].
  unfold deref. rewrite Hh, IH. reflexivity.
Qed.

Lemma collection_message_keeps e f collector amount :
  heap (collection_message e f collector amount) = heap e
  /\ trace (collection_message e f collector amount) = trace e.
Proof.
  unfold collection_message.
  destruct (Flotsam.OutfitType f) as [outfit|];
    [destruct (Qltb (Outfit.installable outfit) 0)|];
    repeat match goal with
           | |- context [if ?b then _ else _] => destruct b
           end; simpl; split; reflexivity.
Qed.

(** [FillCollisionSets] puts no fully cloaked ship into [shipCollisions]. *)
Lemma FillCollisionSets_visible_from ships0 : forall e e1,
  for_each
    (fun e id =>
       let* it := deref e id in
       if same (Ship.GetSystem it) (playerSystem e) && Qeq_bool (Ship.Zoom it) 1
       then if Qltb (Ship.Cloaking it) 1
            then Ok (set_shipCollisions (shipCollisions e ++ [id]) e)
            else Ok (set_cloakedCollisions (cloakedCollisions e ++ [id]) e)
       else Ok e) ships0 e = Ok e1 ->
  heap e1 = heap e
  /\ forall id, In id (shipCollisions e1) ->
       In id (shipCollisions e)
       \/ exists s, heap e !! id = Some s /\ Qltb (Ship.Cloaking s) 1 = true.
Proof.
  induction ships0 as [|id0 rest IH]; intros e e1 Hrun; simpl in Hrun.
  - injection Hrun as <-. split; [reflexivity | auto].
  - unfold deref in Hrun at 1.
    destruct (heap e !! id0) as [it|] eqn:Hit; [|discriminate]. simpl in Hrun.
    destruct (same (Ship.GetSystem it) (playerSystem e)
              && Qeq_bool (Ship.Zoom it) 1).
    + destruct (Qltb (Ship.Cloaking it) 1) eqn:Hcloak;
        apply IH in Hrun as [Hheap Hin]; simpl in *;
        (split; [exact Hheap|]); intros id Hid;
        destruct (Hin id Hid) as [Hold | Hnew]; auto.
      apply in_app_iff in Hold as [Hold | [<- | []]]; eauto.
    + apply IH in Hrun. exact Hrun.
Qed.

Lemma FillCollisionSets_visible e e1 :
  FillCollisionSets e = Ok e1 ->
  forall id, In id (shipCollisions e1) ->
             exists s, heap e !! id = Some s /\ Qltb (Ship.Cloaking s) 1 = true.
Proof.
  intros Hrun id Hid. unfold FillCollisionSets in Hrun.
  apply FillCollisionSets_visible_from in Hrun as [_ Hin].
  destruct (Hin id Hid) as [[] | Hs]. exact Hs.
Qed.

(** C10: one call of [DoCollection], which [CalculateStep] makes once per
    flotsam and step.  Either no body of the circle of radius 5 around the
    flotsam can act, is not its source and has the room: then nothing but
    the record of the query changes.  Or the flotsam is transferred, once,
    to the first such body in the order of the query's answer.  And, the
    query answering with bodies of the set it is asked about, a ship that
    was fully cloaked when [FillCollisionSets] filled [shipCollisions] is
    not the collector. *)
Theorem flotsam_goes_to_first_able (e e' : Engine) (f f' : Flotsam.t) :
  DoCollection e f = Ok (e', f') ->
  let bodies := Circle (heap e) (shipCollisions e) (Flotsam.Position f) 5 in
  exists added,
    trace e' = trace e ++ [CDoCollection f;
                           CCircle ForPickup (Flotsam.Position f) 5] ++ added
    /\ ((forall id, In id bodies ->
           exists s, heap e !! id = Some s /\ can_collect f id s = false)
        /\ f' = f /\ heap e' = heap e /\ added = []
        \/ exists pre collector post s,
             bodies = pre ++ collector :: post
             /\ (forall id, In id pre ->
                   exists s', heap e !! id = Some s'
                              /\ can_collect f id s' = false)
             /\ heap e !! collector = Some s /\ can_collect f collector s = true
             /\ f' = fst (fst (TransferTo f s))
             /\ heap e' = <[collector := snd (fst (TransferTo f s))]> (heap e)
             /\ added = [CTransferTo collector])
    /\ ((forall h set center radius id,
           In id (Circle h set center radius) -> In id set) ->
        forall e0 e1 id s0,
          FillCollisionSets e0 = Ok e1 ->
          shipCollisions e = shipCollisions e1 ->
          heap e0 !! id = Some s0 ->
          Qle_bool 1 (Ship.Cloaking s0) = true ->
          ~ In (CTransferTo id) added).
Proof.
  intros Hrun bodies. unfold DoCollection in Hrun. simpl in Hrun.
  rewrite (find_collector_heap _ e) in Hrun by reflexivity.
  fold bodies in Hrun.
  destruct (find_collector e f bodies) as [collector|] eqn:Hfind;
    simpl in Hrun; [|discriminate].
  apply find_collector_first in Hfind.
  destruct collector as [collector|].
  - destruct Hfind as (pre & post & s & Hbodies & Hpre & Hs & Hcan).
    unfold deref in Hrun. simpl in Hrun. rewrite Hs in Hrun. simpl in Hrun.
    destruct (TransferTo f s) as [[f1 s1] amount] eqn:Htransfer.
    assert (Hres : f' = f1 /\ heap e' = <[collector := s1]> (heap e)
                   /\ trace e' = trace e ++ [CDoCollection f;
                        CCircle ForPickup (Flotsam.Position f) 5]
                        ++ [CTransferTo collector]).
    { destruct (negb (Ship.IsYours s1)); injection Hrun as <- <-.
      - simpl. rewrite <- !app_assoc. auto.
      - destruct (collection_message_keeps
                    (log (CTransferTo collector)
                       (store collector s1
                          (log (CCircle ForPickup (Flotsam.Position f) 5)
                             (log (CDoCollection f) e)))) f1 s1 amount)
          as [Hh Ht].
        rewrite Hh, Ht. simpl. rewrite <- !app_assoc. auto. }
    destruct Hres as (Hf & Hheap & Htrace).
    exists [CTransferTo collector]. split; [exact Htrace|]. split.
    + right. exists pre, collector, post, s. rewrite Htransfer. simpl.
      repeat split; assumption || reflexivity.
    + intros Hsub e0 e1 id s0 Hfill Hsame Hs0 Hcloak [Hin | []].
      injection Hin as <-.
      assert (Hin : In collector (shipCollisions e1)).
      { rewrite <- Hsame. apply (Hsub (heap e) _ (Flotsam.Position f) 5%Q).
        fold bodies. rewrite Hbodies. apply in_elt. }
      destruct (FillCollisionSets_visible _ _ Hfill _ Hin) as (s' & Hs' & Hvis).
      rewrite Hs0 in Hs'. injection Hs' as <-.
      unfold Qltb in Hvis. rewrite Hcloak in Hvis. discriminate.
  - injection Hrun as <- <-. exists []. split.
    + simpl. rewrite <- app_assoc. reflexivity.
    + split; [left; auto | intros _ ? ? ? ? _ _ _ _ []].
Qed.

End Collection.

Import Scenario.

Lemma scenario_circle_subset h set center radius id :
  In id (Circle h set center radius) -> In id set.
Proof. intros Hin. apply List.filter_In in Hin. apply Hin. Qed.

(** The theorem around the crate of the small world: the cloaked #1 is
    nearest and #2 is the source, so #3 collects. *)
Lemma flotsam_goes_to_first_able_witness :
  exists added,
    trace (fst around_crate_collected)
    = trace around_crate_filled
      ++ [CDoCollection tugs_crate;
          CCircle ForPickup (Flotsam.Position tugs_crate) 5] ++ added
    /\ ~ In (CTransferTo 1%nat) added.
Proof.
  destruct (flotsam_goes_to_first_able around_crate_filled
              (fst around_crate_collected) tugs_crate
              (snd around_crate_collected) ltac:(vm_compute; reflexivity))
    as (added & Htrace & _ & Hcloak).
  exists added. split; [exact Htrace|].
  apply (Hcloak scenario_circle_subset around_crate around_crate_filled 1%nat
           (cloaked (ship "Ghost" "Frigate" merchant 0 0)));
    vm_compute; reflexivity.
Defined.

End CollectionProps.

(* ===================================================================== *)
(** * Properties of the resolution of collisions                          *)
(* ===================================================================== *)

Module CollisionProps.
Import Model Code Terms.

(** Case analysis on the next test or call of the runs [_ = Ok _] among
    the hypotheses. *)
Ltac run_step :=
  match goal with
  | H : Fault _ = Ok _ |- _ => discriminate H
  | H : Ok _ = Ok _ |- _ => inversion H; subst; clear H
  | H : bind ?m _ = Ok _ |- _ =>
      let E := fresh "Hrun" in
      destruct m eqn:E; simpl in H; [|discriminate H]
  | H : match ?x with _ => _ end = Ok _ |- _ =>
      let E := fresh "Hcase" in destruct x eqn:E; simpl in H
  end.

Ltac run_all := repeat run_step.

(** Both sides of an equation between engines, field by field. *)
Ltac engine_fields :=
  cbv [log say emit store set_world set_playerSystem set_flagship set_step
       set_heap set_ships set_newShips set_projectiles set_newProjectiles
       set_flotsam set_newFlotsam set_visuals set_newVisuals
       set_hasAntiMissile set_eventQueue set_grudge set_grudgeTime
       set_shipCollisions set_cloakedCollisions set_messages set_draw
       set_doEnter set_doFlash set_trace world playerSystem flagship step
       heap ships newShips projectiles newProjectiles flotsam newFlotsam
       visuals newVisuals hasAntiMissile eventQueue grudge grudgeTime
       shipCollisions cloakedCollisions messages draw doEnter doFlash trace].

(** Case analysis on every test and call of the runs among the
    hypotheses, to the end of each. *)
Ltac break_runs :=
  unfold bind in *;
  repeat match goal with
         | H : Fault _ = Ok _ |- _ => discriminate H
         | H : Ok _ = Ok _ |- _ => inversion H; subst; clear H
         | H : context [match ?x with _ => _ end] |- _ =>
             destruct x eqn:?
         end;
  repeat match goal with
         | |- context [match ?x with _ => _ end] => destruct x eqn:?
         end.

Section Collisions.
Context `{Collaborators}.

Lemma deref_heap e1 e2 id : heap e1 = heap e2 -> deref e1 id = deref e2 id.
Proof. intros Hh. unfold deref. rewrite Hh. reflexivity. Qed.

Lemma deref_inv e id s : deref e id = Ok s -> heap e !! id = Some s.
Proof.
  unfold deref. destruct (heap e !! id); [|discriminate].
  intros Hs. injection Hs as <-. reflexivity.
Qed.

(** ** TakeDamage and the blast *)

Lemma Damage_inv projectile isBlast e id e' :
  Damage projectile isBlast e id = Ok e' ->
  exists s,
    heap e !! id = Some s
    /\ trace e' = trace e ++ [CTakeDamage id isBlast]
    /\ heap e' = <[id := fst (fst (TakeDamage (world e) s projectile isBlast))]>
                   (heap e)
    /\ store_of e' = store_of e.
Proof.
  unfold Damage. intros Hrun.
  destruct (deref e id) as [s|] eqn:Hs; simpl in Hrun; [|discriminate].
  apply deref_inv in Hs. exists s. split; [exact Hs|].
  destruct (TakeDamage (world e) s projectile isBlast) as [[s' type] w].
  destruct (negb (type =? 0)); injection Hrun as <-; simpl; auto.
Qed.

(** The event of a damage: one, of the type [TakeDamage] returned, when
    that type is not zero, and none when it is. *)
Lemma Damage_event projectile isBlast e id e' :
  Damage projectile isBlast e id = Ok e' ->
  exists s,
    heap e !! id = Some s
    /\ let type := snd (fst (TakeDamage (world e) s projectile isBlast)) in
       eventQueue e'
       = eventQueue e
         ++ (if type =? 0 then []
             else [EventByGovernment (Projectile.GetGovernment projectile) id
                                     (Bits type)]).
Proof.
  unfold Damage. intros Hrun.
  destruct (deref e id) as [s|] eqn:Hs; simpl in Hrun; [|discriminate].
  apply deref_inv in Hs. exists s. split; [exact Hs|].
  destruct (TakeDamage (world e) s projectile isBlast) as [[s' type] w].
  simpl. destruct (type =? 0); injection Hrun as <-; simpl;
    [rewrite app_nil_r|]; reflexivity.
Qed.

Lemma spared_unsafe e projectile body :
  Weapon.IsSafe (Projectile.GetWeapon projectile) = false ->
  spared e projectile body = Ok false.
Proof. intros Hsafe. unfold spared. rewrite Hsafe. reflexivity. Qed.

Lemma spared_safe e projectile gov body s :
  Weapon.IsSafe (Projectile.GetWeapon projectile) = true ->
  Projectile.GetGovernment projectile = Some gov ->
  heap e !! body = Some s ->
  spared e projectile body = Ok (negb (target_or_enemy projectile gov body s)).
Proof.
  intros Hsafe Hgov Hs. unfold spared, target_or_enemy, deref.
  rewrite Hsafe, Hgov, Hs. simpl.
  destruct (same (Projectile.Target projectile) (Some body)); reflexivity.
Qed.

(** One loop of the blast, over the bodies a circle query has returned. *)
Lemma Blast_loop projectile hit bodies : forall e e',
  for_each (Blast projectile hit) bodies e = Ok e' ->
  exists added,
    trace e' = trace e ++ added
    /\ store_of e' = store_of e
    /\ (forall c, In c added ->
          exists id, c = CTakeDamage id (negb (same (Some id) hit))
                     /\ In id bodies)
    /\ (forall id, ~ takes_damage id added -> heap e' !! id = heap e !! id)
    /\ (Weapon.IsSafe (Projectile.GetWeapon projectile) = false ->
        forall id, In id bodies ->
                   In (CTakeDamage id (negb (same (Some id) hit))) added)
    /\ (Weapon.IsSafe (Projectile.GetWeapon projectile) = true ->
        forall gov id s,
          Projectile.GetGovernment projectile = Some gov ->
          heap e !! id = Some s ->
          if target_or_enemy projectile gov id s
          then In id bodies ->
               In (CTakeDamage id (negb (same (Some id) hit))) added
          else ~ takes_damage id added).
Proof.
  induction bodies as [|body rest IH]; intros e e' Hrun; simpl in Hrun.
  - injection Hrun as <-. exists []. rewrite app_nil_r.
    split; [reflexivity|]. split; [reflexivity|].
    split; [intros c []|]. split; [reflexivity|].
    split; [intros _ id []|].
    intros _ gov id s _ _.
    destruct (target_or_enemy projectile gov id s);
      [intros [] | intros [b []]].
  - destruct (Blast projectile hit e body) as [e1|] eqn:Hone;
      simpl in Hrun; [|discriminate].
    destruct (IH _ _ Hrun) as (added & Htrace & Hstore & Hshape & Hkeep
                               & Hunsafe & Hsafe).
    unfold Blast in Hone.
    destruct (spared e projectile body) as [skip|] eqn:Hskip;
      simpl in Hone; [|discriminate].
    destruct skip.
    + (* the body is spared *)
      injection Hone as <-.
      exists added. split; [exact Htrace|]. split; [exact Hstore|].
      split; [intros c Hc; destruct (Hshape c Hc) as (id & ? & ?);
              exists id; split; [assumption | right; assumption]|].
      split; [exact Hkeep|]. split.
      * intros Hno. rewrite spared_unsafe in Hskip by exact Hno. discriminate.
      * intros Hyes gov id s Hgov Hs. specialize (Hsafe Hyes gov id s Hgov Hs).
        destruct (target_or_enemy projectile gov id s) eqn:Hte;
          [|exact Hsafe].
        intros [<- | Hin]; [|exact (Hsafe Hin)].
        rewrite (spared_safe _ _ _ _ _ Hyes Hgov Hs), Hte in Hskip.
        discriminate.
    + (* the body is given damage *)
      apply Damage_inv in Hone as (s0 & Hs0 & Htrace1 & Hheap1 & Hstore1).
      exists (CTakeDamage body (negb (same (Some body) hit)) :: added).
      split; [rewrite Htrace, Htrace1, <- app_assoc; reflexivity|].
      split; [rewrite Hstore; exact Hstore1|].
      split.
      { intros c [<- | Hc]; [exists body; split; [reflexivity | left; reflexivity]|].
        destruct (Hshape c Hc) as (id & ? & ?).
        exists id. split; [assumption | right; assumption]. }
      split.
      { intros id Hnot. rewrite Hkeep.
        - rewrite Hheap1. apply lookup_insert_ne. intros ->.
          apply Hnot. eexists. left. reflexivity.
        - intros [b Hb]. apply Hnot. exists b. right. exact Hb. }
      split.
      { intros Hno id [<- | Hin]; [left; reflexivity | right; auto]. }
      intros Hyes gov id s Hgov Hs.
      destruct (Nat.eq_dec id body) as [->|Hne].
      * rewrite Hs in Hs0. injection Hs0 as <-.
        rewrite (spared_safe _ _ _ _ _ Hyes Hgov Hs) in Hskip.
        injection Hskip as Hskip. apply negb_false_iff in Hskip.
        rewrite Hskip. intros _. left. reflexivity.
      * assert (Hs1 : heap e1 !! id = Some s)
          by (rewrite Hheap1, lookup_insert_ne by congruence; exact Hs).
        specialize (Hsafe Hyes gov id s Hgov Hs1).
        destruct (target_or_enemy projectile gov id s).
        -- intros [Heq | Hin]; [congruence | right; exact (Hsafe Hin)].
        -- intros [b [Hb | Hb]]; [congruence | apply Hsafe; exists b; exact Hb].
Qed.

(** ** The search for the closest hit *)

(** [FindHit] changes nothing but the collaborators' state, and asks
    nothing but its queries. *)
Lemma FindHit_frame e projectile e1 closestHit hit hitVelocity :
  FindHit e projectile = Ok (e1, closestHit, hit, hitVelocity) ->
  exists w added,
    e1 = set_trace (trace e ++ added) (set_world w e)
    /\ Forall is_search added
    /\ (Projectile.GetGovernment projectile = None -> hit = None).
Proof.
  intros Hrun. unfold FindHit in Hrun.
  destruct e as [w0 ps fl st hp sh nsh pr npr fo nfo vi nvi ham ev gr gt sc cc
                 ms dr de df tr].
  unfold log in Hrun. simpl in Hrun.
  run_all; simpl; rewrite <- ?app_assoc; simpl;
    first [ eexists _, []; rewrite app_nil_r; split; [reflexivity|]
          | eexists _, _; split; [reflexivity|] ];
    (split; [repeat constructor | congruence]).
Qed.

(** A phasing projectile with a target: either nothing is tested, or the
    mask of the ship its weak pointer locks, which is then in the
    player's system, at full zoom and not fully cloaked. *)
Lemma FindHit_phasing e projectile e1 closestHit hit hitVelocity :
  Weapon.IsPhasing (Projectile.GetWeapon projectile) = true ->
  Projectile.Target projectile <> None ->
  FindHit e projectile = Ok (e1, closestHit, hit, hitVelocity) ->
  (e1 = e /\ hit = None)
  \/ exists tid target,
       lock e (Projectile.TargetPtr projectile) = Some tid
       /\ heap e !! tid = Some target
       /\ same (Ship.GetSystem target) (playerSystem e) = true
       /\ Qeq_bool (Ship.Zoom target) 1 = true
       /\ Qltb (Ship.Cloaking target) 1 = true
       /\ e1 = log (CMaskCollide tid) e
       /\ (hit = None \/ hit = Some tid).
Proof.
  intros Hphasing Htarget Hrun. unfold FindHit in Hrun.
  rewrite Hphasing in Hrun.
  destruct (Projectile.Target projectile) as [t|] eqn:Ht; [|contradiction].
  simpl in Hrun.
  destruct (Projectile.GetGovernment projectile) as [gov|];
    [|injection Hrun as <- _ <- _; left; auto].
  destruct (lock e (Projectile.TargetPtr projectile)) as [tid|] eqn:Hlock;
    [|injection Hrun as <- _ <- _; left; auto].
  destruct (deref e tid) as [target|] eqn:Hderef; simpl in Hrun; [|discriminate].
  apply deref_inv in Hderef.
  destruct (same (Ship.GetSystem target) (playerSystem e)) eqn:Hsys;
    [|injection Hrun as <- _ <- _; left; auto].
  destruct (Qeq_bool (Ship.Zoom target) 1) eqn:Hzoom;
    [|injection Hrun as <- _ <- _; left; auto].
  destruct (Qltb (Ship.Cloaking target) 1) eqn:Hcloak;
    [|injection Hrun as <- _ <- _; left; auto].
  simpl in Hrun. right. exists tid, target.
  match type of Hrun with
  | context [if ?b then _ else _] => destruct b
  end; injection Hrun as <- _ <- _; auto 10.
Qed.

(** ** The grudge and the anti-missile systems *)

(** [DoGrudge] touches neither the ships nor the record of calls. *)
Lemma DoGrudge_frame e target attacker e' :
  DoGrudge e target attacker = Ok e' ->
  trace e' = trace e /\ heap e' = heap e /\ store_of e' = store_of e
  /\ visuals e' = visuals e /\ eventQueue e' = eventQueue e.
Proof.
  intros Hrun. unfold DoGrudge in Hrun.
  destruct attacker as [attacker|]; [|discriminate].
  run_all; simpl; auto.
Qed.

(** The calls of the anti-missile loop. *)
Lemma AntiMissile_frame projectile ready : forall e e' projectile',
  AntiMissile e projectile ready = Ok (e', projectile') ->
  store_of e' = store_of e
  /\ exists added,
       trace e' = trace e ++ added
       /\ Forall (fun c => match c with
                           | CFireAntiMissile id => In id ready
                           | CKill => True
                           | _ => False
                           end) added.
Proof.
  induction ready as [|id rest IH]; intros e e' projectile' Hrun;
    simpl in Hrun.
  - injection Hrun as <- <-. split; [reflexivity|].
    exists []. rewrite app_nil_r. split; [reflexivity | constructor].
  - destruct (eligible e projectile id) as [ok|] eqn:Hok; simpl in Hrun;
      [|discriminate].
    destruct ok.
    + destruct (deref e id) as [ship|] eqn:Hs; simpl in Hrun; [|discriminate].
      destruct (FireAntiMissile (world e) ship projectile)
        as [[[ship' vs] fired] w].
      destruct fired.
      * injection Hrun as <- <-. split; [reflexivity|].
        exists [CFireAntiMissile id; CKill]. simpl. rewrite <- app_assoc.
        split; [reflexivity|]. repeat constructor. 
      * apply IH in Hrun as (Hstore & added & Htrace & Hshape).
        split; [exact Hstore|].
        exists (CFireAntiMissile id :: added). simpl in Htrace.
        rewrite Htrace, <- app_assoc. split; [reflexivity|].
        constructor; [left; reflexivity|].
        eapply List.Forall_impl; [|exact Hshape].
        intros [] Hc; auto. right. exact Hc.
    + apply IH in Hrun as (Hstore & added & Htrace & Hshape).
      split; [exact Hstore|]. exists added. split; [exact Htrace|].
      eapply List.Forall_impl; [|exact Hshape].
      intros [] Hc; auto. right. exact Hc.
Qed.

(** ** The blast on both sets *)

Lemma BlastAll_inv e projectile hit hitPos blastRadius e' :
  BlastAll e projectile hit hitPos blastRadius = Ok e' ->
  exists mid,
    for_each (Blast projectile hit)
      (Circle (heap e) (shipCollisions e) hitPos blastRadius)
      (log (CCircle ForBlast hitPos blastRadius) e) = Ok mid
    /\ for_each (Blast projectile hit)
         (Circle (heap mid) (cloakedCollisions e) hitPos blastRadius)
         (log (CCircle ForCloakedBlast hitPos blastRadius) mid) = Ok e'
    /\ cloakedCollisions mid = cloakedCollisions e.
Proof.
  intros Hrun. unfold BlastAll in Hrun.
  destruct (for_each (Blast projectile hit) _ _) as [mid|] eqn:Hmid;
    simpl in Hrun; [|discriminate].
  exists mid. split; [reflexivity|].
  destruct (Blast_loop _ _ _ _ _ Hmid) as (_ & _ & Hstore & _).
  assert (Hcc : cloakedCollisions mid = cloakedCollisions e).
  { unfold store_of in Hstore. simpl in Hstore. congruence. }
  split; [rewrite <- Hcc; exact Hrun | exact Hcc].
Qed.

(** What [DoCollisions] does, phase by phase. *)
Lemma DoCollisions_inv e projectile e' projectile' :
  DoCollisions e projectile = Ok (e', projectile') ->
  exists e1 closestHit hit hitVelocity,
    FindHit (log (CDoCollisions projectile) e) projectile
    = Ok (e1, closestHit, hit, hitVelocity)
    /\ if Qltb closestHit 1 then
         let exploded := fst (Explode projectile closestHit hitVelocity) in
         let e2 := log (CExplode closestHit)
                     (set_visuals
                        (visuals e1
                         ++ snd (Explode projectile closestHit hitVelocity)) e1) in
         let blastRadius := Weapon.BlastRadius (Projectile.GetWeapon exploded) in
         projectile' = exploded
         /\ exists e3,
              (if Qnonzero blastRadius
               then BlastAll e2 exploded hit (impact exploded closestHit)
                             blastRadius = Ok e3
               else match hit with
                    | Some h => Damage exploded false e2 h = Ok e3
                    | None => e3 = e2
                    end)
              /\ match hit with
                 | Some h => DoGrudge e3 h (Projectile.GetGovernment exploded)
                             = Ok e'
                 | None => e' = e3
                 end
       else if negb (Projectile.MissileStrength projectile =? 0) then
         AntiMissile e1 projectile (hasAntiMissile e1) = Ok (e', projectile')
       else e' = e1 /\ projectile' = projectile.
Proof.
  intros Hrun. unfold DoCollisions in Hrun.
  destruct (FindHit _ projectile) as [[[[e1 closestHit] hit] hitVelocity]|]
    eqn:Hfind; simpl in Hrun; [|discriminate].
  exists e1, closestHit, hit, hitVelocity. split; [reflexivity|].
  destruct (Qltb closestHit 1).
  - destruct (Explode projectile closestHit hitVelocity) as [exploded vs].
    simpl.
    destruct (Qnonzero (Weapon.BlastRadius (Projectile.GetWeapon exploded))).
    + destruct (BlastAll _ exploded hit _ _) as [e3|]; simpl in Hrun;
        [|discriminate].
      destruct hit as [h|].
      * destruct (DoGrudge e3 h _) as [e4|] eqn:Hg; simpl in Hrun;
          [|discriminate].
        injection Hrun as <- <-. split; [reflexivity|]. exists e3. auto.
      * simpl in Hrun. injection Hrun as <- <-. split; [reflexivity|].
        exists e3. auto.
    + destruct hit as [h|].
      * destruct (Damage exploded false _ h) as [e3|]; simpl in Hrun;
          [|discriminate].
        destruct (DoGrudge e3 h _) as [e4|] eqn:Hg; simpl in Hrun;
          [|discriminate].
        injection Hrun as <- <-. split; [reflexivity|]. exists e3. auto.
      * simpl in Hrun. injection Hrun as <- <-. split; [reflexivity|].
        eexists. split; reflexivity.
  - destruct (negb (Projectile.MissileStrength projectile =? 0));
      [exact Hrun|]. injection Hrun as <- <-. auto.
Qed.

(** ** The blast (C3) *)

(** C3: a projectile that [DoCollisions] finds to hit at [closestHit < 1]
    and whose weapon has a blast radius.  The blast is centred on the
    point of impact [hitPos], the position of the projectile plus
    [closestHit] times its velocity: both circle queries are made around
    it, with the blast radius.  [visible] and [cloaked] are the answers
    of the two queries, the second made once the first has been dealt
    with, in the engine [mid], where the ships outside the first answer
    are as they were.
    - Weapon not safe: [TakeDamage] is applied to every body of either
      answer.
    - Weapon safe, fired by the government [gov]: it is applied to the
      bodies of either answer that are the locked target or an enemy of
      [gov], and to no ship that is neither, which is left as it was.
    - It is applied to no ship outside the two answers, and the two
      queries around [hitPos] are the only ones.
    - Every application queues one event for the ship, of the type
      [TakeDamage] returned, unless that type is zero. *)
Theorem blast_reaches_every_body (e e' e1 : Engine)
  (projectile projectile' : Projectile.t) (closestHit : Q)
  (hit : option ShipId) (hitVelocity : Point.t) :
  DoCollisions e projectile = Ok (e', projectile') ->
  FindHit (log (CDoCollisions projectile) e) projectile
  = Ok (e1, closestHit, hit, hitVelocity) ->
  Qltb closestHit 1 = true ->
  let exploded := fst (Explode projectile closestHit hitVelocity) in
  let blastRadius := Weapon.BlastRadius (Projectile.GetWeapon exploded) in
  let hitPos :=
    Point.mk (Point.X (Projectile.Position exploded)
              + closestHit * Point.X (Projectile.Velocity exploded))%Q
             (Point.Y (Projectile.Position exploded)
              + closestHit * Point.Y (Projectile.Velocity exploded))%Q in
  Qnonzero blastRadius = true ->
  exists mid added,
    let visible := Circle (heap e1) (shipCollisions e1) hitPos blastRadius in
    let cloaked := Circle (heap mid) (cloakedCollisions e1) hitPos blastRadius in
    trace e' = trace e1 ++ CExplode closestHit :: added
    /\ (forall id, ~ takes_damage id added ->
          heap mid !! id = heap e1 !! id /\ heap e' !! id = heap e1 !! id)
    /\ (Weapon.IsSafe (Projectile.GetWeapon exploded) = false ->
        forall id, In id visible \/ In id cloaked ->
                   In (CTakeDamage id (negb (same (Some id) hit))) added)
    /\ (Weapon.IsSafe (Projectile.GetWeapon exploded) = true ->
        forall gov, Projectile.GetGovernment exploded = Some gov ->
          (forall id s,
             In id visible /\ heap e1 !! id = Some s
             \/ In id cloaked /\ heap mid !! id = Some s ->
             target_or_enemy exploded gov id s = true ->
             In (CTakeDamage id (negb (same (Some id) hit))) added)
          /\ (forall id s,
                heap e1 !! id = Some s ->
                target_or_enemy exploded gov id s = false ->
                ~ takes_damage id added /\ heap e' !! id = Some s))
    /\ (forall e0 e0' id isBlast,
          Damage exploded isBlast e0 id = Ok e0' ->
          exists s,
            heap e0 !! id = Some s
            /\ let type := snd (fst (TakeDamage (world e0) s exploded isBlast)) in
               eventQueue e0'
               = eventQueue e0
                 ++ (if type =? 0 then []
                     else [EventByGovernment (Projectile.GetGovernment exploded)
                                             id (Bits type)]))
    /\ In (CCircle ForBlast hitPos blastRadius) added
    /\ In (CCircle ForCloakedBlast hitPos blastRadius) added
    /\ (forall c, In c added ->
          c = CCircle ForBlast hitPos blastRadius
          \/ c = CCircle ForCloakedBlast hitPos blastRadius
          \/ exists id, c = CTakeDamage id (negb (same (Some id) hit))
                        /\ (In id visible \/ In id cloaked))
    /\ (forall id, takes_damage id added -> In id visible \/ In id cloaked)
    /\ (forall id, ~ In id visible -> heap mid !! id = heap e1 !! id).
Proof.
  intros Hrun Hfind Hhit exploded blastRadius hitPos Hradius.
  apply DoCollisions_inv in Hrun
    as (e1' & closestHit' & hit' & hitVelocity' & Hfind' & Hrest).
  rewrite Hfind in Hfind'. injection Hfind' as <- <- <- <-.
  rewrite Hhit in Hrest. cbv zeta in Hrest.
  fold exploded in Hrest. fold blastRadius in Hrest. rewrite Hradius in Hrest.
  destruct Hrest as (_ & e3 & Hblast & Hgrudge).
  change (impact exploded closestHit) with hitPos in Hblast.
  apply BlastAll_inv in Hblast as (mid & Hvisible & Hcloaked & Hcc).
  simpl in Hvisible, Hcloaked.
  destruct (Blast_loop _ _ _ _ _ Hvisible)
    as (added1 & Htrace1 & Hstore1 & Hshape1 & Hkeep1 & Hunsafe1 & Hsafe1).
  destruct (Blast_loop _ _ _ _ _ Hcloaked)
    as (added2 & Htrace2 & Hstore2 & Hshape2 & Hkeep2 & Hunsafe2 & Hsafe2).
  simpl in Htrace1, Htrace2, Hkeep1, Hkeep2, Hsafe1, Hsafe2.
  assert (Hend : trace e' = trace e3 /\ heap e' = heap e3).
  { destruct hit as [h|]; [|subst e'; auto].
    apply DoGrudge_frame in Hgrudge. destruct Hgrudge as (? & ? & _). auto. }
  destruct Hend as [Htrace3 Hheap3].
  set (added := CCircle ForBlast hitPos blastRadius :: added1
                ++ CCircle ForCloakedBlast hitPos blastRadius :: added2).
  assert (Hsplit : forall id, takes_damage id added <->
                              takes_damage id added1 \/ takes_damage id added2).
  { intros id. unfold takes_damage, added. split.
    - intros [b [Hb | Hb]]; [discriminate|].
      apply in_app_iff in Hb as [Hb | [Hb | Hb]]; [eauto | discriminate | eauto].
    - intros [[b Hb] | [b Hb]]; exists b; right; apply in_app_iff;
        [left | right; right]; exact Hb. }
  assert (Hin1 : forall c, In c added1 -> In c added).
  { intros c Hc. right. apply in_app_iff. left. exact Hc. }
  assert (Hin2 : forall c, In c added2 -> In c added).
  { intros c Hc. right. apply in_app_iff. right. right. exact Hc. }
  exists mid, added. cbv zeta.
  split.
  { rewrite Htrace3, Htrace2, Htrace1. unfold added.
    rewrite <- !app_assoc. reflexivity. }
  assert (Hkeep : forall id, ~ takes_damage id added ->
            heap mid !! id = heap e1 !! id /\ heap e' !! id = heap e1 !! id).
  { intros id Hnot. rewrite Hsplit in Hnot.
    assert (Hm : heap mid !! id = heap e1 !! id) by (apply Hkeep1; tauto).
    split; [exact Hm|]. rewrite Hheap3, Hkeep2 by tauto. exact Hm. }
  split; [exact Hkeep|]. split.
  { intros Hunsafe id [Hin | Hin].
    - apply Hin1, Hunsafe1; assumption.
    - apply Hin2, Hunsafe2; assumption. }
  split.
  { intros Hsafe gov Hgov. split.
    - intros id s [[Hin Hs] | [Hin Hs]] Hte.
      + specialize (Hsafe1 Hsafe gov id s Hgov Hs). rewrite Hte in Hsafe1.
        apply Hin1, Hsafe1. exact Hin.
      + specialize (Hsafe2 Hsafe gov id s Hgov Hs). rewrite Hte in Hsafe2.
        apply Hin2, Hsafe2. exact Hin.
    - intros id s Hs Hte.
      pose proof (Hsafe1 Hsafe gov id s Hgov Hs) as Hno1.
      rewrite Hte in Hno1.
      assert (Hmid : heap mid !! id = Some s)
        by (rewrite Hkeep1 by exact Hno1; exact Hs).
      pose proof (Hsafe2 Hsafe gov id s Hgov Hmid) as Hno2.
      rewrite Hte in Hno2.
      assert (Hnot : ~ takes_damage id added) by (rewrite Hsplit; tauto).
      split; [exact Hnot|].
      destruct (Hkeep id Hnot) as [_ Hfinal]. rewrite Hfinal. exact Hs. }
  split.
  { intros e0 e0' id isBlast Hdamage. exact (Damage_event _ _ _ _ _ Hdamage). }
  assert (Hshape : forall c, In c added ->
            c = CCircle ForBlast hitPos blastRadius
            \/ c = CCircle ForCloakedBlast hitPos blastRadius
            \/ exists id, c = CTakeDamage id (negb (same (Some id) hit))
                          /\ (In id (Circle (heap e1) (shipCollisions e1)
                                            hitPos blastRadius)
                              \/ In id (Circle (heap mid) (cloakedCollisions e1)
                                               hitPos blastRadius))).
  { intros c [<- | Hc]; [left; reflexivity|].
    apply in_app_iff in Hc as [Hc | [<- | Hc]].
    - destruct (Hshape1 c Hc) as (id & -> & Hid).
      right. right. exists id. split; [reflexivity | left; exact Hid].
    - right. left. reflexivity.
    - destruct (Hshape2 c Hc) as (id & -> & Hid).
      right. right. exists id. split; [reflexivity | right; exact Hid]. }
  split; [left; reflexivity|].
  split; [right; apply in_app_iff; right; left; reflexivity|].
  split; [exact Hshape|].
  split.
  { intros id [b Hb].
    destruct (Hshape _ Hb) as [Hc | [Hc | (id' & Hc & Hid)]];
      [discriminate | discriminate |].
    injection Hc as -> _. exact Hid. }
  intros id Hout. apply Hkeep1. intros [b Hb].
  destruct (Hshape1 _ Hb) as (id' & Hc & Hid). injection Hc as -> _.
  exact (Hout Hid).
Qed.

(** ** The calls of one resolution *)

Lemma FindHit_no_government e projectile e1 closestHit hit hitVelocity :
  FindHit e projectile = Ok (e1, closestHit, hit, hitVelocity) ->
  Projectile.GetGovernment projectile = None ->
  e1 = e /\ closestHit = 0%Q /\ hit = None.
Proof.
  intros Hrun Hgov. unfold FindHit in Hrun. rewrite Hgov in Hrun.
  injection Hrun as <- <- <- _. auto.
Qed.

Lemma DoCollisions_calls e projectile e' projectile' :
  DoCollisions e projectile = Ok (e', projectile') ->
  exists e1 closestHit hit hitVelocity searched resolved,
    FindHit (log (CDoCollisions projectile) e) projectile
    = Ok (e1, closestHit, hit, hitVelocity)
    /\ trace e1 = trace e ++ CDoCollisions projectile :: searched
    /\ Forall is_search searched
    /\ trace e' = trace e1 ++ resolved
    /\ Forall (is_resolution hit) resolved
    /\ store_of e' = store_of e.
Proof.
  intros Hrun.
  apply DoCollisions_inv in Hrun
    as (e1 & closestHit & hit & hitVelocity & Hfind & Hrest).
  destruct (FindHit_frame _ _ _ _ _ _ Hfind) as (w & searched & He1 & Hsearch & _).
  exists e1, closestHit, hit, hitVelocity, searched.
  assert (Htrace1 : trace e1 = trace e ++ CDoCollisions projectile :: searched).
  { rewrite He1. simpl. rewrite <- app_assoc. reflexivity. }
  assert (Hstore1 : store_of e1 = store_of e) by (rewrite He1; reflexivity).
  destruct (Qltb closestHit 1).
  - cbv zeta in Hrest. destruct Hrest as (_ & e3 & Hblast & Hgrudge).
    set (exploded := fst (Explode projectile closestHit hitVelocity)) in *.
    assert (Hres : exists damage,
               trace e3 = trace e1 ++ CExplode closestHit :: damage
               /\ Forall (is_resolution hit) damage
               /\ store_of e3 = store_of e1).
    { destruct (Qnonzero _).
      - apply BlastAll_inv in Hblast as (mid & Hvisible & Hcloaked & _).
        destruct (Blast_loop _ _ _ _ _ Hvisible)
          as (added1 & Htr1 & Hst1 & Hshape1 & _).
        destruct (Blast_loop _ _ _ _ _ Hcloaked)
          as (added2 & Htr2 & Hst2 & Hshape2 & _).
        simpl in Htr1, Htr2.
        eexists (_ :: added1 ++ _ :: added2). split.
        + rewrite Htr2, Htr1, <- !app_assoc. simpl. reflexivity.
        + split; [|transitivity (store_of mid); [exact Hst2 | exact Hst1]].
          constructor; [exact I|]. apply Forall_app. split.
          * apply List.Forall_forall. intros c Hc.
            destruct (Hshape1 c Hc) as (id & -> & _). reflexivity.
          * constructor; [exact I|]. apply List.Forall_forall. intros c Hc.
            destruct (Hshape2 c Hc) as (id & -> & _). reflexivity.
      - destruct hit as [h|].
        + apply Damage_inv in Hblast as (s & _ & Htr & _ & Hst).
          exists [CTakeDamage h false]. simpl in Htr.
          split; [rewrite Htr, <- app_assoc; reflexivity|].
          split; [|exact Hst].
          constructor; [|constructor]. simpl. unfold same.
          rewrite bool_decide_eq_true_2 by reflexivity. reflexivity.
        + subst e3. exists []. simpl. split; [reflexivity|].
          split; [constructor | reflexivity]. }
    destruct Hres as (damage & Htr3 & Hshape3 & Hst3).
    exists (CExplode closestHit :: damage).
    assert (Hend : trace e' = trace e3 /\ store_of e' = store_of e3).
    { destruct hit as [h|]; [|subst e'; auto].
      apply DoGrudge_frame in Hgrudge. tauto. }
    destruct Hend as [Htr4 Hst4].
    repeat split; try assumption.
    + rewrite Htr4. exact Htr3.
    + constructor; [exact I | exact Hshape3].
    + rewrite Hst4, Hst3. exact Hstore1.
  - destruct (negb (Projectile.MissileStrength projectile =? 0)).
    + apply AntiMissile_frame in Hrest as (Hst & added & Htr & Hshape).
      exists added. repeat split; try assumption.
      * eapply List.Forall_impl; [|exact Hshape].
        intros [] Hc; simpl; auto; contradiction.
      * rewrite Hst. exact Hstore1.
    + destruct Hrest as [-> ->]. exists []. rewrite app_nil_r.
      repeat split; try assumption. constructor.
Qed.

(** ** Phasing projectiles (C7) *)


(** ** Anti-missile systems (C4) *)

(** [MoveShip] records the ship at the end of [hasAntiMissile], or not at
    all. *)
Lemma JumpSounds_frame e id ship isJump wasHere wasHyperspacing e' :
  JumpSounds e id ship isJump wasHere wasHyperspacing = Ok e' ->
  exists w, e' = set_world w e.
Proof.
  intros Hrun. unfold JumpSounds in Hrun.
  destruct e as [w0 ps fl st hp sh nsh pr npr fo nfo vi nvi ham ev gr gt sc cc
                 ms dr de df tr].
  unfold deref in Hrun. simpl in Hrun.
  break_runs; eexists; engine_fields; reflexivity.
Qed.

Lemma AutoBoard_frame e id ship e' :
  AutoBoard e id ship = Ok e' ->
  exists w h events,
    e' = set_eventQueue events (set_heap h (set_world w e)).
Proof.
  intros Hrun. unfold AutoBoard in Hrun.
  destruct e as [w0 ps fl st hp sh nsh pr npr fo nfo vi nvi ham ev gr gt sc cc
                 ms dr de df tr].
  unfold deref, emit in Hrun. simpl in Hrun.
  break_runs; do 3 eexists; engine_fields; reflexivity.
Qed.

Lemma LaunchAndFire_frame e id e' :
  LaunchAndFire e id = Ok e' ->
  exists w h launched fired sparks ready,
    e' = set_hasAntiMissile (hasAntiMissile e ++ ready)
           (set_newVisuals (newVisuals e ++ sparks)
              (set_newProjectiles (newProjectiles e ++ fired)
                 (set_newShips (newShips e ++ launched)
                    (set_heap h (set_world w e)))))
    /\ (ready = [] \/ ready = [id]).
Proof.
  intros Hrun. unfold LaunchAndFire in Hrun.
  destruct e as [w0 ps fl st hp sh nsh pr npr fo nfo vi nvi ham ev gr gt sc cc
                 ms dr de df tr].
  unfold deref, store in Hrun. simpl in Hrun.
  break_runs.
  - do 5 eexists. exists [id]. engine_fields. split; [reflexivity | auto].
  - do 5 eexists. exists []. engine_fields. rewrite (app_nil_r ham).
    split; [reflexivity | auto].
Qed.

(** [MoveShip] moves the one ship it is given, leaves the lists of the
    store as they are, and records the ship at the end of
    [hasAntiMissile], or not at all. *)
Lemma MoveShip_frame e id e' :
  MoveShip e id = Ok e' ->
  live_of e' = live_of e
  /\ trace e' = trace e ++ [CShipMove id]
  /\ (hasAntiMissile e' = hasAntiMissile e
      \/ hasAntiMissile e' = hasAntiMissile e ++ [id]).
Proof.
  intros Hrun. unfold MoveShip in Hrun.
  destruct (deref e id) as [ship|]; simpl in Hrun; [|discriminate].
  match type of Hrun with
  | bind ?m _ = _ => destruct m as [wasHere|]; simpl in Hrun; [|discriminate]
  end.
  destruct (ShipMove (world e) ship) as [[[moved vs] fs] w].
  destruct (Ship.ShouldBeRemoved moved).
  { injection Hrun as <-. simpl. auto. }
  destruct (JumpSounds _ id moved _ wasHere _) as [e2|] eqn:Hsounds;
    simpl in Hrun; [|discriminate].
  destruct (AutoBoard e2 id moved) as [e3|] eqn:Hboard;
    simpl in Hrun; [|discriminate].
  destruct (deref e3 id) as [ship3|]; simpl in Hrun; [|discriminate].
  apply JumpSounds_frame in Hsounds as (w2 & ->).
  apply AutoBoard_frame in Hboard as (w3 & h3 & ev3 & ->).
  destruct (negb (same (Ship.GetSystem ship3) _)).
  - injection Hrun as <-. simpl. auto.
  - apply LaunchAndFire_frame in Hrun
      as (w4 & h4 & launched & fired & sparks & ready & -> & Hready).
    simpl. split; [reflexivity|]. split; [reflexivity|].
    destruct Hready as [-> | ->]; [left; apply app_nil_r | right; reflexivity].
Qed.

Lemma MoveShip_ready e id e' :
  MoveShip e id = Ok e' ->
  hasAntiMissile e' = hasAntiMissile e
  \/ hasAntiMissile e' = hasAntiMissile e ++ [id].
Proof. intros Hrun. apply MoveShip_frame in Hrun. tauto. Qed.

Lemma MoveShips_ready moving : forall e e',
  for_each MoveShip moving e = Ok e' ->
  exists ready,
    hasAntiMissile e' = hasAntiMissile e ++ ready /\ sublist ready moving.
Proof.
  induction moving as [|id rest IH]; intros e e' Hrun; simpl in Hrun.
  - injection Hrun as <-. exists []. rewrite app_nil_r.
    split; [reflexivity | constructor].
  - destruct (MoveShip e id) as [e1|] eqn:Hone; simpl in Hrun; [|discriminate].
    destruct (IH _ _ Hrun) as (ready & Hready & Hsub).
    destruct (MoveShip_ready _ _ _ Hone) as [Heq | Heq]; rewrite Heq in Hready.
    + exists ready. split; [exact Hready | apply sublist_cons; exact Hsub].
    + exists (id :: ready). rewrite <- app_assoc in Hready.
      split; [exact Hready | apply sublist_skip; exact Hsub].
Qed.

(** The loop over [hasAntiMissile] is: keep the ships that may intercept,
    let them fire in turn. *)
Lemma AntiMissile_Intercept projectile gov ready : forall e result,
  Projectile.GetGovernment projectile = Some gov ->
  NoDup ready ->
  AntiMissile e projectile ready = Ok result ->
  Intercept e projectile (may_intercept e projectile gov ready) = Ok result.
Proof.
  induction ready as [|id rest IH]; intros e result Hgov Hnodup Hrun;
    simpl in Hrun |- *; [exact Hrun|].
  apply NoDup_cons in Hnodup as [Hfresh Hnodup].
  destruct (eligible e projectile id) as [ok|] eqn:Hok; simpl in Hrun;
    [|discriminate].
  assert (Hpred :
    same (Some id) (Projectile.Target projectile)
    || match heap e !! id with
       | Some s => IsEnemy gov (Ship.GetGovernment s)
       | None => false
       end = ok).
  { unfold eligible in Hok.
    destruct (same (Some id) (Projectile.Target projectile));
      [injection Hok as <-; reflexivity|].
    rewrite Hgov in Hok. unfold deref in Hok.
    destruct (heap e !! id); [|discriminate].
    injection Hok as <-. reflexivity. }
  rewrite Hpred.
  assert (Hrest : forall e2,
    (forall id', id' <> id -> heap e2 !! id' = heap e !! id') ->
    may_intercept e2 projectile gov rest = may_intercept e projectile gov rest).
  { intros e2 Hsame. unfold may_intercept. apply List.filter_ext_in.
    intros id' Hin. rewrite Hsame; [reflexivity|].
    intros ->. apply Hfresh. apply list_elem_of_In. exact Hin. }
  destruct ok.
  - simpl. destruct (deref e id) as [ship|] eqn:Hs; simpl in Hrun |- *;
      [|discriminate].
    destruct (FireAntiMissile (world e) ship projectile)
      as [[[ship' vs] fired] w].
    destruct fired; [exact Hrun|].
    rewrite <- (Hrest (log (CFireAntiMissile id)
                         (set_visuals (visuals e ++ vs)
                            (store id ship' (set_world w e))))).
    + apply IH; assumption.
    + intros id' Hne. simpl. apply lookup_insert_ne. congruence.
  - apply IH; assumption.
Qed.

(** C4 (as amended): a projectile with missile strength that hits
    nothing in this step ([closestHit] is not below 1), fired by the
    government [gov].  Of the ships of [hasAntiMissile], which holds each
    ship once, those that are the locked target or an enemy of [gov] fire
    in the order of the list, and the first success kills the projectile.
    When exactly one of them may intercept, the projectile is killed if
    and only if that ship's [FireAntiMissile] succeeds.  The order of
    [hasAntiMissile] is that of [ships]: [MoveShip] records the ready
    ships as the loop over [ships] comes to them. *)
Theorem anti_missile_first_success (e e' e1 : Engine)
  (projectile projectile' : Projectile.t) (closestHit : Q)
  (hit : option ShipId) (hitVelocity : Point.t) (gov : GovId) :
  DoCollisions e projectile = Ok (e', projectile') ->
  FindHit (log (CDoCollisions projectile) e) projectile
  = Ok (e1, closestHit, hit, hitVelocity) ->
  Qltb closestHit 1 = false ->
  Projectile.MissileStrength projectile <> 0 ->
  Projectile.GetGovernment projectile = Some gov ->
  NoDup (hasAntiMissile e) ->
  let shooters := may_intercept e1 projectile gov (hasAntiMissile e) in
  Intercept e1 projectile shooters = Ok (e', projectile')
  /\ (forall id s,
        shooters = [id] -> heap e1 !! id = Some s ->
        let fired := snd (fst (FireAntiMissile (world e1) s projectile)) in
        projectile' = (if fired then Kill projectile else projectile)
        /\ trace e' = trace e1 ++ CFireAntiMissile id
                                  :: (if fired then [CKill] else []))
  /\ (forall e0 em,
        hasAntiMissile e0 = [] ->
        for_each MoveShip (ships e0) e0 = Ok em ->
        sublist (hasAntiMissile em) (ships e0)).
Proof.
  intros Hrun Hfind Hmiss Hstrength Hgov Hnodup shooters.
  apply DoCollisions_inv in Hrun
    as (e1' & closestHit' & hit' & hitVelocity' & Hfind' & Hrest).
  rewrite Hfind in Hfind'. injection Hfind' as <- <- <- <-.
  rewrite Hmiss in Hrest.
  destruct (Z.eqb_spec (Projectile.MissileStrength projectile) 0);
    [contradiction|]. simpl in Hrest.
  destruct (FindHit_frame _ _ _ _ _ _ Hfind) as (w & searched & He1 & _).
  assert (Hready : hasAntiMissile e1 = hasAntiMissile e)
    by (rewrite He1; reflexivity).
  rewrite Hready in Hrest.
  pose proof (AntiMissile_Intercept _ _ _ _ _ Hgov Hnodup Hrest) as Hint.
  fold shooters in Hint.
  split; [exact Hint|]. split.
  - intros id s Hone Hs. rewrite Hone in Hint. simpl in Hint.
    unfold deref in Hint. rewrite Hs in Hint. simpl in Hint.
    destruct (FireAntiMissile (world e1) s projectile)
      as [[[ship' vs] fired] w'].
    simpl. destruct fired; injection Hint as <- <-; simpl;
      rewrite <- ?app_assoc; auto.
  - intros e0 em Hempty Hmove.
    destruct (MoveShips_ready _ _ _ Hmove) as (ready & Heq & Hsub).
    rewrite Hempty in Heq. simpl in Heq. rewrite Heq. exact Hsub.
Qed.

End Collisions.

Import Scenario.

(** The theorem for two bombs of the small world.  The safe bomb: the
    pirate it hits is given the damage of a direct hit, the two merchants
    in the blast are spared.  The bomb that is not safe goes off at
    (5, 0), half-way between the origin and the pirate it hits: the
    merchant at (5, 5) and the cloaked merchant at (5, -5), which are
    within 6 of that point but not of the origin, are given blast damage,
    and the merchant at (-5, 0), which is within 6 of the origin only,
    is given none. *)
Lemma blast_reaches_every_body_witness :
  (exists added,
     trace (fst battle_bombed)
     = trace (fst (fst (fst safe_bomb_found))) ++ CExplode (1 # 2) :: added
     /\ In (CTakeDamage 2%nat false) added
     /\ ~ takes_damage 1%nat added
     /\ ~ takes_damage 3%nat added)
  /\ (exists added,
        trace (fst blast_site_bombed)
        = trace (fst (fst (fst wide_bomb_found))) ++ CExplode (1 # 2) :: added
        /\ In (CCircle ForBlast (Point.mk (0 + (1 # 2) * 10) (0 + (1 # 2) * 0)) 6)
              added
        /\ In (CTakeDamage 1%nat true) added
        /\ In (CTakeDamage 2%nat false) added
        /\ In (CTakeDamage 3%nat true) added
        /\ ~ takes_damage 4%nat added).
Proof.
  split.
  - destruct (blast_reaches_every_body battle (fst battle_bombed)
                (fst (fst (fst safe_bomb_found))) safe_bomb (snd battle_bombed)
                (1 # 2) (Some 2%nat) Point.zero
                ltac:(vm_compute; reflexivity) ltac:(vm_compute; reflexivity)
                ltac:(vm_compute; reflexivity) ltac:(vm_compute; reflexivity))
      as (mid & added & Htrace & _ & _ & Hsafe & _).
    destruct (Hsafe ltac:(vm_compute; reflexivity) merchant
                    ltac:(vm_compute; reflexivity)) as [Hhit Hspared].
    exists added. split; [exact Htrace|]. split; [|split].
    + apply (Hhit 2%nat (ship "Rex" "Raider" pirate 1 0));
        [left; split; [vm_compute; auto | vm_compute; reflexivity]
        | vm_compute; reflexivity].
    + apply (Hspared 1%nat (ship "Ann" "Freighter" merchant 0 2));
        vm_compute; reflexivity.
    + apply (Hspared 3%nat (cloaked (ship "Ghost" "Frigate" merchant 0 1)));
        vm_compute; reflexivity.
  - destruct (blast_reaches_every_body blast_site (fst blast_site_bombed)
                (fst (fst (fst wide_bomb_found))) wide_bomb
                (snd blast_site_bombed) (1 # 2) (Some 2%nat) Point.zero
                ltac:(vm_compute; reflexivity) ltac:(vm_compute; reflexivity)
                ltac:(vm_compute; reflexivity) ltac:(vm_compute; reflexivity))
      as (mid & added & Htrace & _ & Hunsafe & _ & _ & Hcentre & _ & _ & Honly
          & Hmid).
    specialize (Hunsafe ltac:(vm_compute; reflexivity)).
    assert (Hghost : heap mid !! 3%nat
                     = Some (cloaked (ship "Ghost" "Frigate" merchant 5 (-5)))).
    { rewrite Hmid; [vm_compute; reflexivity|].
      vm_compute. intros [Hin | [Hin | []]]; discriminate Hin. }
    exists added. split; [exact Htrace|]. split; [exact Hcentre|].
    split; [apply (Hunsafe 1%nat); left; vm_compute; auto|].
    split; [apply (Hunsafe 2%nat); left; vm_compute; auto|].
    split.
    + apply (Hunsafe 3%nat). right.
      change (cloakedCollisions (fst (fst (fst wide_bomb_found)))) with [3%nat].
      unfold Circle, scenario. cbn [List.filter].
      match goal with
      | |- context [match ?x with _ => _ end] =>
          replace x with (Some (cloaked (ship "Ghost" "Frigate" merchant 5 (-5))))
            by (symmetry; exact Hghost)
      end.
      vm_compute. auto.
    + intros Hfar. destruct (Honly 4%nat Hfar) as [Hin | Hin].
      * vm_compute in Hin. destruct Hin as [Hin | [Hin | []]]; discriminate Hin.
      * unfold Circle, scenario in Hin. apply filter_In in Hin as [Hin _].
        vm_compute in Hin. destruct Hin as [Hin | []]. discriminate Hin.
Defined.


(** C9: the safe blast of an explosion, which has no government, in
    reach of a ship: line 1593 dereferences [projectile.GetGovernment()]. *)
Theorem safe_explosion_dereferences_null :
  DoCollisions battle safe_explosion = Fault NullGovernment
  /\ Projectile.GetGovernment safe_explosion = None
  /\ Weapon.IsSafe (Projectile.GetWeapon safe_explosion) = true.
Proof. split; [vm_compute; reflexivity | split; reflexivity]. Qed.

(** The theorem in the small world: of the two ready ships only the
    pirate may fire at the merchants' missile; on the draw 0 it
    succeeds. *)
Lemma anti_missile_first_success_witness :
  Intercept (fst (fst (fst (missile_found [0]))))  missile [1%nat]
  = Ok missile_shot_down.
Proof.
  refine (proj1 (anti_missile_first_success (defended [0])
                   (fst missile_shot_down) (fst (fst (fst (missile_found [0]))))
                   missile (snd missile_shot_down) 1 None Point.zero merchant
                   _ _ _ _ _ _)).
  - vm_compute. reflexivity.
  - vm_compute. reflexivity.
  - reflexivity.
  - discriminate.
  - reflexivity.
  - repeat constructor; simpl; intros Hin; inversion Hin; subst;
      try discriminate;
      match goal with
      | Hx : _ ∈ [] |- _ => inversion Hx
      | Hx : _ ∈ [_] |- _ => inversion Hx; subst; try discriminate
      end;
      match goal with
      | Hx : _ ∈ [] |- _ => inversion Hx
      end.
Defined.

(** C4 as stated fails: exactly one anti-missile-ready ship may fire at
    the missile, the pirate #1; on the draw 1 its [FireAntiMissile]
    fails, and the missile is neither killed nor marked for removal: it
    is moved again in the next step. *)
Lemma lone_interceptor_can_miss :
  DoCollisions (defended [1]) missile = Ok missile_missed
  /\ may_intercept (defended [1]) missile merchant
       (hasAntiMissile (defended [1])) = [1%nat]
  /\ In (CFireAntiMissile 1%nat) (trace (fst missile_missed))
  /\ ~ In CKill (trace (fst missile_missed))
  /\ snd missile_missed = missile
  /\ Prune Projectile.ShouldBeRemoved [snd missile_missed] = [missile].
Proof.
  split; [vm_compute; reflexivity|].
  split; [vm_compute; reflexivity|].
  split; [vm_compute; auto 10|].
  split; [|split; vm_compute; reflexivity].
  vm_compute. intros Hin.
  repeat match goal with
         | Hx : _ \/ _ |- _ => destruct Hx as [Hx | Hx]; try discriminate Hx
         end.
  exact Hin.
Qed.

End CollisionProps.

(* ===================================================================== *)
(** * Properties of the order of a step                                   *)
(* ===================================================================== *)

Module StepProps.
Import Model Code Terms CollisionProps.

Section Step.
Context `{Collaborators}.

Lemma moves_app t1 t2 : moves (t1 ++ t2) = moves t1 ++ moves t2.
Proof. apply List.filter_app. Qed.

Lemma moves_none t : Forall (fun c => is_move c = false) t -> moves t = [].
Proof.
  induction t as [|c t IH]; intros Hall; [reflexivity|].
  apply Forall_cons_1 in Hall as [Hc Ht]. unfold moves. simpl.
  rewrite Hc. apply IH. exact Ht.
Qed.

Lemma moves_all {A} (call : A -> Call) (l : list A) :
  (forall a, is_move (call a) = true) -> moves (map call l) = map call l.
Proof.
  intros Hcall. induction l as [|a l IH]; [reflexivity|].
  unfold moves. simpl. rewrite Hcall. f_equal. exact IH.
Qed.

(** ** Before the new objects join the lists *)

Lemma MoveShips_frame moving : forall e e',
  for_each MoveShip moving e = Ok e' ->
  live_of e' = live_of e /\ trace e' = trace e ++ map CShipMove moving.
Proof.
  induction moving as [|id rest IH]; intros e e' Hrun; simpl in Hrun.
  - injection Hrun as <-. rewrite app_nil_r. auto.
  - destruct (MoveShip e id) as [e1|] eqn:Hone; simpl in Hrun; [|discriminate].
    apply MoveShip_frame in Hone as (Hlive & Htrace & _).
    apply IH in Hrun as (Hlive' & Htrace').
    split; [congruence|]. rewrite Htrace', Htrace, <- app_assoc. reflexivity.
Qed.

Lemma EnterSystem_frame e e' :
  EnterSystem e = Ok e' -> trace e' = trace e /\ kept_or_cleared e e'.
Proof.
  intros Hrun. unfold EnterSystem in Hrun.
  destruct e as [w0 ps fl st hp sh nsh pr npr fo nfo vi nvi ham ev gr gt sc cc
                 ms dr de df tr].
  cbn [flagship set_world] in Hrun.
  destruct fl as [f|].
  - destruct (deref _ f) as [fs0|]; [|discriminate].
    unfold bind in Hrun at 1. cbv zeta in Hrun.
    cbn [world heap set_doEnter] in Hrun.
    destruct (Arrive _ _ f) as [[h said] w].
    cbn [set_world set_heap set_messages messages] in Hrun.
    destruct (deref _ f) as [fs|]; [|discriminate].
    unfold bind in Hrun. cbn [world heap] in Hrun.
    destruct (PlaceFleets _ _ _) as [[[h' placed] said'] w'].
    injection Hrun as <-. split; [reflexivity | right; reflexivity].
  - injection Hrun as <-. split; [reflexivity | left; reflexivity].
Qed.

Lemma MoveFlotsam_from moving : forall e,
  let e' :=
    fold_left
      (fun e it =>
         let '(it', vs, w) := FlotsamMove (world e) it in
         log (CFlotsamMove it)
           (set_flotsam (flotsam e ++ [it'])
              (set_newVisuals (newVisuals e ++ vs) (set_world w e))))
      moving e in
  trace e' = trace e ++ map CFlotsamMove moving
  /\ projectiles e' = projectiles e /\ visuals e' = visuals e.
Proof.
  induction moving as [|it rest IH]; intros e; simpl.
  - rewrite app_nil_r. auto.
  - destruct (FlotsamMove (world e) it) as [[it' vs] w].
    destruct (IH (log (CFlotsamMove it)
                    (set_flotsam (flotsam e ++ [it'])
                       (set_newVisuals (newVisuals e ++ vs) (set_world w e)))))
      as (Htrace & Hp & Hv).
    rewrite Htrace, Hp, Hv. simpl. rewrite <- app_assoc. auto.
Qed.

Lemma MoveFlotsam_frame e :
  trace (MoveFlotsam e) = trace e ++ map CFlotsamMove (flotsam e)
  /\ projectiles (MoveFlotsam e) = projectiles e
  /\ visuals (MoveFlotsam e) = visuals e.
Proof. exact (MoveFlotsam_from (flotsam e) (set_flotsam [] e)). Qed.

Lemma MoveProjectiles_from moving : forall e,
  let e' :=
    fold_left
      (fun e projectile =>
         let '(projectile', vs, ps, w) :=
           ProjectileMove (world e) (heap e) projectile in
         log (CProjectileMove projectile)
           (set_projectiles (projectiles e ++ [projectile'])
              (set_newProjectiles (newProjectiles e ++ ps)
                 (set_newVisuals (newVisuals e ++ vs) (set_world w e)))))
      moving e in
  trace e' = trace e ++ map CProjectileMove moving
  /\ visuals e' = visuals e.
Proof.
  induction moving as [|it rest IH]; intros e; simpl.
  - rewrite app_nil_r. auto.
  - destruct (ProjectileMove (world e) (heap e) it) as [[[it' vs] ps] w].
    destruct (IH (log (CProjectileMove it)
                    (set_projectiles (projectiles e ++ [it'])
                       (set_newProjectiles (newProjectiles e ++ ps)
                          (set_newVisuals (newVisuals e ++ vs)
                             (set_world w e))))))
      as (Htrace & Hv).
    rewrite Htrace, Hv. simpl. rewrite <- app_assoc. auto.
Qed.

Lemma MoveProjectiles_frame e :
  trace (MoveProjectiles e) = trace e ++ map CProjectileMove (projectiles e)
  /\ visuals (MoveProjectiles e) = visuals e.
Proof. exact (MoveProjectiles_from (projectiles e) (set_projectiles [] e)). Qed.

Lemma MoveVisuals_from moving : forall e,
  trace (fold_left
           (fun e visual =>
              log (CVisualMove visual)
                (set_visuals (visuals e ++ [VisualMove visual]) e))
           moving e)
  = trace e ++ map CVisualMove moving.
Proof.
  induction moving as [|it rest IH]; intros e; simpl.
  - rewrite app_nil_r. auto.
  - rewrite IH. simpl. rewrite <- app_assoc. auto.
Qed.

Lemma MoveVisuals_frame e :
  trace (MoveVisuals e) = trace e ++ map CVisualMove (visuals e).
Proof. exact (MoveVisuals_from (visuals e) (set_visuals [] e)). Qed.

(** The fleets and the persons enter without a call that moves. *)
Lemma SpawnFleets_calls e e' :
  SpawnFleets e = Ok e' ->
  exists spawned,
    trace e' = trace e ++ spawned
    /\ Forall (fun c => is_move c = false) spawned.
Proof.
  unfold SpawnFleets. destruct (playerSystem e) as [system|]; [|discriminate].
  intros Hrun. injection Hrun as <-.
  generalize (Fleets system) e. clear e.
  induction l as [|fleet rest IH]; intros e; simpl.
  - exists []. rewrite app_nil_r. auto.
  - destruct (IH (SpawnFleet system e fleet)) as (spawned & Htrace & Hall).
    destruct (SpawnProps.SpawnFleet_trace system e fleet) as [Hone | [Hone _]];
      rewrite Hone in Htrace.
    + exists spawned. auto.
    + exists (CFleetEnter (FleetProbability.Get fleet) :: spawned).
      rewrite <- app_assoc in Htrace. split; [exact Htrace|].
      constructor; [reflexivity | exact Hall].
Qed.

Lemma SpawnPersons_calls e e' :
  SpawnPersons e = Ok e' ->
  exists spawned,
    trace e' = trace e ++ spawned
    /\ Forall (fun c => is_move c = false) spawned.
Proof.
  intros Hrun. unfold SpawnPersons in Hrun.
  destruct (RandomInt (world e) 36000) as [gate w]. simpl in Hrun.
  assert (Hsame : forall e0 : Engine, trace e0 = trace e ->
            exists spawned, trace e0 = trace e ++ spawned
              /\ Forall (fun c => is_move c = false) spawned).
  { intros e0 H0. exists []. rewrite app_nil_r. auto. }
  destruct (playerSystem e) as [system|].
  - destruct (negb (gate =? 0) || Links_empty system).
    { injection Hrun as <-. apply Hsame. reflexivity. }
    destruct (total_frequency _ system Persons =? 0).
    { injection Hrun as <-. apply Hsame. reflexivity. }
    destruct (RandomInt _ _) as [r w']. simpl in Hrun.
    destruct (pick_person _ system _ Persons) as [[name person]|].
    + run_step.
      destruct (FleetEnterShip _ system _) as [ship w'']. simpl in Hrun.
      injection Hrun as <-. exists [CPersonEnter name]. simpl.
      split; [reflexivity | constructor; [reflexivity | constructor]].
    + injection Hrun as <-. apply Hsame. reflexivity.
  - destruct (negb (gate =? 0)); [|discriminate].
    injection Hrun as <-. apply Hsame. reflexivity.
Qed.

Lemma SendHails_frame e e' : SendHails e = Ok e' -> trace e' = trace e.
Proof.
  intros Hrun. unfold SendHails in Hrun.
  destruct (RandomInt (world e) 600) as [r w]. simpl in Hrun.
  destruct (negb (r =? 0) || PlayerIsDead w || is_null (head (ships e))).
  { injection Hrun as <-. reflexivity. }
  destruct (RandomInt w _) as [i w']. simpl in Hrun.
  destruct (ships e !! Z.to_nat i) as [id|]; [|discriminate].
  run_step.
  repeat match type of Hrun with
         | (if ?b then _ else _) = _ => destruct b
         end;
    try (injection Hrun as <-; reflexivity).
  destruct (GetHail _ _) as [message w'']. simpl in Hrun.
  destruct (String.eqb message _); injection Hrun as <-; reflexivity.
Qed.

(** What [BeforeMerge] calls: [Move] on every ship, flotsam, projectile and
    visual of the lists as they were when the step began (on no flotsam,
    projectile or visual when the flagship entered another system, which
    empties the lists), then what brings fleets and persons in. *)
Lemma BeforeMerge_frame system e m :
  BeforeMerge system e = Ok m ->
  exists fl pr vi spawned,
    trace m = trace e ++ map CShipMove (ships e) ++ map CFlotsamMove fl
              ++ map CProjectileMove pr ++ map CVisualMove vi ++ spawned
    /\ Forall (fun c => is_move c = false) spawned
    /\ ((fl, pr, vi) = (flotsam e, projectiles e, visuals e)
        \/ (fl, pr, vi) = ([], [], [])).
Proof.
  intros Hrun. unfold BeforeMerge in Hrun.
  destruct (AIStep (world e) (heap e)) as [h0 w0]. simpl in Hrun.
  destruct (DeployDefense w0 h0 system) as [[h1 defenders] w1]. simpl in Hrun.
  run_step. clear Hrun0.
  destruct (for_each MoveShip (ships e) _) as [e1|] eqn:Hships;
    simpl in Hrun; [|discriminate].
  apply MoveShips_frame in Hships as (Hlive1 & Htrace1). simpl in Htrace1.
  match type of Hrun with
  | bind ?m _ = _ => destruct m as [e2|] eqn:Hflag; simpl in Hrun;
                     [|discriminate]
  end.
  assert (H2 : trace e2 = trace e1 /\ kept_or_cleared e1 e2).
  { destruct (flagship e1) as [f|].
    - destruct (deref e1 f) as [fs|]; simpl in Hflag; [|discriminate].
      destruct (negb (same _ (Ship.GetSystem fs))).
      + apply EnterSystem_frame in Hflag as [Htrace Hkept].
        split; [rewrite Htrace; destruct (negb a && _), (negb a); reflexivity|].
        destruct (negb a && _), (negb a); exact Hkept.
      + injection Hflag as <-.
        destruct (negb a && _); (split; [reflexivity | left; reflexivity]).
    - injection Hflag as <-. split; [reflexivity | left; reflexivity]. }
  destruct H2 as [Htrace2 Hkept2].
  run_step. clear Hrun0.
  destruct (AsteroidsStep (world e2)) as [[vs fs] w3]. simpl in Hrun.
  match type of Hrun with
  | context [MoveFlotsam ?x] =>
      destruct (MoveFlotsam_frame x) as (Htf & Hpf & Hvf);
      set (e4 := MoveFlotsam x) in *
  end.
  match type of Hrun with
  | context [MoveProjectiles ?x] =>
      destruct (MoveProjectiles_frame x) as (Htp & Hvp);
      set (e5 := MoveProjectiles x) in *
  end.
  match type of Hrun with
  | context [MoveVisuals ?x] =>
      pose proof (MoveVisuals_frame x) as Htv;
      set (e6 := MoveVisuals x) in *
  end.
  simpl in Htf, Hpf, Hvf, Htp, Hvp, Htv.
  destruct (SpawnFleets _) as [e7|] eqn:Hfleets; simpl in Hrun; [|discriminate].
  destruct (SpawnPersons e7) as [e8|] eqn:Hpersons; simpl in Hrun;
    [|discriminate].
  destruct (SendHails e8) as [e9|] eqn:Hhails; simpl in Hrun; [|discriminate].
  destruct (MouseClicks _ _ _) as [[h10 said] w10]. injection Hrun as <-.
  apply SpawnFleets_calls in Hfleets as (spawned1 & Ht7 & Hall1).
  apply SpawnPersons_calls in Hpersons as (spawned2 & Ht8 & Hall2).
  apply SendHails_frame in Hhails. simpl in Ht7.
  exists (flotsam e2), (projectiles e2), (visuals e2), (spawned1 ++ spawned2).
  split; [|split].
  - simpl. rewrite Hhails, Ht8, Ht7, Htv, Htp, Htf, Hvp, Hvf, Hpf, Htrace2,
      Htrace1. rewrite <- !app_assoc. reflexivity.
  - apply Forall_app. split; assumption.
  - unfold live_of in Hlive1. simpl in Hlive1.
    unfold kept_or_cleared in Hkept2.
    destruct Hkept2 as [Hk | Hk]; [left | right; exact Hk].
    rewrite Hk. congruence.
Qed.

(** ** After the new objects have joined the lists *)

Lemma store_of_scene e e' :
  store_of e' = store_of e ->
  scene_of e' = scene_of e /\ projectiles e' = projectiles e
  /\ flotsam e' = flotsam e /\ draw e' = draw e.
Proof.
  unfold store_of, scene_of. intros Hstore.
  injection Hstore as -> -> _ -> _ -> _ -> _ _ _ -> -> -> _ _. auto.
Qed.

Lemma is_search_still c : is_search c -> is_move c = false.
Proof. destruct c; simpl; try reflexivity; intros []. Qed.

Lemma is_resolution_still hit c : is_resolution hit c -> is_move c = false.
Proof. destruct c; simpl; try reflexivity; intros []. Qed.

(** The ships are put into the collision sets from the list as it is
    after the merge. *)
Lemma FillCollisionSets_from filling : forall e e1,
  for_each
    (fun e id =>
       let* it := deref e id in
       if same (Ship.GetSystem it) (playerSystem e) && Qeq_bool (Ship.Zoom it) 1
       then if Qltb (Ship.Cloaking it) 1
            then Ok (set_shipCollisions (shipCollisions e ++ [id]) e)
            else Ok (set_cloakedCollisions (cloakedCollisions e ++ [id]) e)
       else Ok e) filling e = Ok e1 ->
  exists visible cloaked,
    e1 = set_cloakedCollisions (cloakedCollisions e ++ cloaked)
           (set_shipCollisions (shipCollisions e ++ visible) e)
    /\ forall id s, In id filling -> heap e !! id = Some s ->
                    collidable e s = true ->
                    In id visible \/ In id cloaked.
Proof.
  induction filling as [|id0 rest IH]; intros e e1 Hrun; simpl in Hrun.
  - injection Hrun as <-. exists [], []. rewrite !app_nil_r.
    split; [destruct e; reflexivity | intros id s []].
  - unfold deref in Hrun at 1.
    destruct (heap e !! id0) as [it|] eqn:Hit; [|discriminate]. simpl in Hrun.
    fold (collidable e it) in Hrun.
    destruct (collidable e it) eqn:Hcol;
      [destruct (Qltb (Ship.Cloaking it) 1)|];
      apply IH in Hrun as (visible & cloaked & -> & Hin); simpl in Hin.
    + exists (id0 :: visible), cloaked. split.
      * destruct e. simpl. rewrite <- app_assoc. reflexivity.
      * intros id s [<- | Hrest] Hs Hc; [left; left; reflexivity|].
        destruct (Hin id s Hrest Hs Hc); [left; right|right]; assumption.
    + exists visible, (id0 :: cloaked). split.
      * destruct e. simpl. rewrite <- app_assoc. reflexivity.
      * intros id s [<- | Hrest] Hs Hc; [right; left; reflexivity|].
        destruct (Hin id s Hrest Hs Hc); [left|right; right]; assumption.
    + exists visible, cloaked. split; [reflexivity|].
      intros id s [<- | Hrest] Hs Hc; [congruence|].
      exact (Hin id s Hrest Hs Hc).
Qed.

Lemma FillCollisionSets_frame e e1 :
  FillCollisionSets e = Ok e1 ->
  exists visible cloaked,
    e1 = set_cloakedCollisions cloaked (set_shipCollisions visible e)
    /\ forall id s, In id (ships e) -> heap e !! id = Some s ->
                    collidable e s = true ->
                    In id visible \/ In id cloaked.
Proof.
  intros Hrun. unfold FillCollisionSets in Hrun.
  apply FillCollisionSets_from in Hrun as (visible & cloaked & -> & Hin).
  exists visible, cloaked. split; [destruct e; reflexivity | exact Hin].
Qed.

(** [DoCollisions] adds explosions and sparks to the visuals and takes
    none away. *)
Lemma Blast_visuals projectile hit bodies : forall e e',
  for_each (Blast projectile hit) bodies e = Ok e' -> visuals e' = visuals e.
Proof.
  induction bodies as [|body rest IH]; intros e e' Hrun; simpl in Hrun.
  - injection Hrun as <-. reflexivity.
  - destruct (Blast projectile hit e body) as [e1|] eqn:Hone;
      simpl in Hrun; [|discriminate].
    rewrite (IH _ _ Hrun). unfold Blast, Damage in Hone.
    destruct (spared e projectile body) as [[|]|]; simpl in Hone;
      [injection Hone as <-; reflexivity| |discriminate].
    destruct (deref e body) as [s|]; simpl in Hone; [|discriminate].
    destruct (TakeDamage _ s projectile _) as [[s' type] w].
    destruct (negb (type =? 0)); injection Hone as <-; reflexivity.
Qed.

Lemma AntiMissile_visuals projectile ready : forall e e' projectile',
  AntiMissile e projectile ready = Ok (e', projectile') ->
  exists sparks, visuals e' = visuals e ++ sparks.
Proof.
  induction ready as [|id rest IH]; intros e e' projectile' Hrun;
    simpl in Hrun.
  - injection Hrun as <- <-. exists []. rewrite app_nil_r. reflexivity.
  - destruct (eligible e projectile id) as [[|]|]; simpl in Hrun;
      [| exact (IH _ _ _ Hrun) | discriminate].
    destruct (deref e id) as [s|]; simpl in Hrun; [|discriminate].
    destruct (FireAntiMissile (world e) s projectile) as [[[s' vs] fired] w].
    destruct fired.
    + injection Hrun as <- <-. exists vs. reflexivity.
    + apply IH in Hrun as (sparks & ->). simpl. exists (vs ++ sparks).
      rewrite <- app_assoc. reflexivity.
Qed.

Lemma DoCollisions_visuals e projectile e' projectile' :
  DoCollisions e projectile = Ok (e', projectile') ->
  exists sparks, visuals e' = visuals e ++ sparks.
Proof.
  intros Hrun.
  apply DoCollisions_inv in Hrun
    as (e1 & closestHit & hit & hitVelocity & Hfind & Hrest).
  assert (Hv1 : visuals e1 = visuals e).
  { apply FindHit_frame in Hfind as (w & searched & -> & _ & _). reflexivity. }
  clear Hfind. rewrite <- Hv1. clear Hv1 e.
  destruct (Qltb closestHit 1).
  - cbv zeta in Hrest. destruct Hrest as (_ & e3 & Hdamage & Hgrudge).
    assert (H3 : visuals e3
                 = visuals e1 ++ snd (Explode projectile closestHit hitVelocity)).
    { destruct (Qnonzero _).
      - apply BlastAll_inv in Hdamage as (mid & Hvisible & Hcloaked & _).
        apply Blast_visuals in Hvisible, Hcloaked.
        rewrite Hcloaked. cbn [visuals log set_trace]. rewrite Hvisible.
        reflexivity.
      - destruct hit as [h|]; [|subst e3; reflexivity].
        unfold Damage in Hdamage.
        destruct (deref _ h) as [s|]; [|discriminate].
        unfold bind in Hdamage.
        destruct (TakeDamage _ s _ _) as [[s' type] w'].
        destruct (negb (type =? 0)); injection Hdamage as <-; reflexivity. }
    exists (snd (Explode projectile closestHit hitVelocity)).
    destruct hit as [h|]; [|subst e'; exact H3].
    apply DoGrudge_frame in Hgrudge as (_ & _ & _ & -> & _). exact H3.
  - destruct (negb (_ =? 0)).
    + apply AntiMissile_visuals in Hrest as (sparks & ->). exists sparks.
      reflexivity.
    + destruct Hrest as [-> _]. exists []. rewrite app_nil_r. reflexivity.
Qed.

(** The loop over the merged list of projectiles. *)
Lemma CollideAll_from colliding : forall e e',
  for_each
    (fun e projectile =>
       let* (e, projectile) := DoCollisions e projectile in
       Ok (set_projectiles (projectiles e ++ [projectile]) e))
    colliding e = Ok e' ->
  exists added done sparks,
    trace e' = trace e ++ added
    /\ Forall (fun c => is_move c = false) added
    /\ (forall p, In p colliding -> In (CDoCollisions p) added)
    /\ projectiles e' = projectiles e ++ done
    /\ Forall2 resolves colliding done
    /\ visuals e' = visuals e ++ sparks
    /\ scene_of e' = scene_of e /\ flotsam e' = flotsam e
    /\ draw e' = draw e.
Proof.
  induction colliding as [|p rest IH]; intros e e' Hrun; simpl in Hrun.
  - injection Hrun as <-. exists [], [], []. rewrite !app_nil_r.
    repeat split; auto.
  - destruct (DoCollisions e p) as [[e1 p']|] eqn:Hone; simpl in Hrun;
      [|discriminate].
    apply IH in Hrun
      as (added & done & sparks & Ht & Hstill & Hin & Hp & Hdone & Hv & Hsc
          & Hfl & Hdr).
    simpl in Ht, Hp, Hv, Hsc, Hfl, Hdr.
    destruct (DoCollisions_visuals _ _ _ _ Hone) as (sparks1 & Hv1).
    destruct (DoCollisions_calls _ _ _ _ Hone)
      as (e0 & closestHit & hit & hitVelocity & searched & resolved & _ & Ht0
          & Hsearched & Ht1 & Hresolved & Hstore).
    apply store_of_scene in Hstore as (Hsc1 & Hp1 & Hfl1 & Hdr1).
    exists ((CDoCollisions p :: searched ++ resolved) ++ added),
           (p' :: done), (sparks1 ++ sparks).
    split; [rewrite Ht, Ht1, Ht0; simpl; rewrite <- !app_assoc; simpl;
            rewrite <- ?app_assoc; reflexivity|].
    split.
    { apply Forall_app. split; [|exact Hstill].
      constructor; [reflexivity|]. apply Forall_app. split.
      - eapply List.Forall_impl; [|exact Hsearched]. apply is_search_still.
      - eapply List.Forall_impl; [|exact Hresolved].
        apply is_resolution_still. }
    split.
    { intros q [<- | Hq]; [left; reflexivity|].
      apply in_or_app. right. exact (Hin q Hq). }
    split; [rewrite Hp, Hp1, <- app_assoc; reflexivity|].
    split; [constructor; [exists e, e1; exact Hone | exact Hdone]|].
    split; [rewrite Hv, Hv1, <- app_assoc; reflexivity|].
    unfold scene_of in *. simpl in Hsc. repeat split; congruence.
Qed.

Lemma DoCollection_frame e f e' f' :
  DoCollection e f = Ok (e', f') ->
  store_of e' = store_of e /\ visuals e' = visuals e
  /\ exists added,
       trace e' = trace e ++ CDoCollection f :: added
       /\ Forall (fun c => is_move c = false) added.
Proof.
  intros Hrun. unfold DoCollection in Hrun.
  destruct (find_collector _ f _) as [[id|]|]; simpl in Hrun; [| |discriminate].
  - destruct (deref _ id) as [s|]; simpl in Hrun; [|discriminate].
    destruct (TransferTo f s) as [[f1 s1] amount].
    assert (Hsay : forall e0 : Engine,
              store_of (collection_message e0 f1 s1 amount) = store_of e0
              /\ visuals (collection_message e0 f1 s1 amount) = visuals e0).
    { intros e0. unfold collection_message.
      destruct (Flotsam.OutfitType f1) as [outfit|];
        [destruct (Qltb (Outfit.installable outfit) 0)|];
        repeat match goal with
               | |- context [if ?b then _ else _] => destruct b
               end; simpl; split; reflexivity. }
    destruct (negb (Ship.IsYours s1)); injection Hrun as <- <-.
    + split; [reflexivity|]. split; [reflexivity|].
      exists [CCircle ForPickup (Flotsam.Position f) 5; CTransferTo id].
      split; [repeat (simpl; rewrite <- ?app_assoc); reflexivity|].
      repeat constructor.
    + destruct (Hsay (log (CTransferTo id)
                        (store id s1
                           (log (CCircle ForPickup (Flotsam.Position f) 5)
                              (log (CDoCollection f) e))))) as [Hst Hv].
      split; [rewrite Hst; reflexivity|]. split; [rewrite Hv; reflexivity|].
      exists [CCircle ForPickup (Flotsam.Position f) 5; CTransferTo id].
      destruct (CollectionProps.collection_message_keeps
                  (log (CTransferTo id)
                     (store id s1
                        (log (CCircle ForPickup (Flotsam.Position f) 5)
                           (log (CDoCollection f) e)))) f1 s1 amount)
        as [_ Ht].
      rewrite Ht.
      split; [repeat (simpl; rewrite <- ?app_assoc); reflexivity|].
      repeat constructor.
  - injection Hrun as <- <-. split; [reflexivity|]. split; [reflexivity|].
    exists [CCircle ForPickup (Flotsam.Position f) 5].
    split; [repeat (simpl; rewrite <- ?app_assoc); reflexivity|].
    repeat constructor.
Qed.

(** The loop over the merged list of flotsam. *)
Lemma CollectAll_from collecting : forall e e',
  for_each
    (fun e it =>
       let* (e, it) := DoCollection e it in
       Ok (set_flotsam (flotsam e ++ [it]) e))
    collecting e = Ok e' ->
  exists added done,
    trace e' = trace e ++ added
    /\ Forall (fun c => is_move c = false) added
    /\ (forall f, In f collecting -> In (CDoCollection f) added)
    /\ flotsam e' = flotsam e ++ done
    /\ Forall2 collects collecting done
    /\ visuals e' = visuals e
    /\ scene_of e' = scene_of e /\ projectiles e' = projectiles e
    /\ draw e' = draw e.
Proof.
  induction collecting as [|f rest IH]; intros e e' Hrun; simpl in Hrun.
  - injection Hrun as <-. exists [], []. rewrite !app_nil_r.
    repeat split; auto.
  - destruct (DoCollection e f) as [[e1 f']|] eqn:Hone; simpl in Hrun;
      [|discriminate].
    apply IH in Hrun
      as (added & done & Ht & Hstill & Hin & Hf & Hdone & Hv & Hsc & Hp & Hdr).
    simpl in Ht, Hf, Hv, Hp, Hdr.
    destruct (DoCollection_frame _ _ _ _ Hone)
      as (Hstore & Hv1 & added1 & Ht1 & Hstill1).
    apply store_of_scene in Hstore as (Hsc1 & Hp1 & Hf1 & Hdr1).
    exists ((CDoCollection f :: added1) ++ added), (f' :: done).
    split; [rewrite Ht, Ht1; simpl; rewrite <- !app_assoc; reflexivity|].
    split.
    { apply Forall_app. split; [|exact Hstill].
      constructor; [reflexivity | exact Hstill1]. }
    split.
    { intros q [<- | Hq]; [left; reflexivity|].
      apply in_or_app. right. exact (Hin q Hq). }
    split; [rewrite Hf, Hf1, <- app_assoc; reflexivity|].
    split; [constructor; [exists e, e1; exact Hone | exact Hdone]|].
    split; [congruence|].
    unfold scene_of in *. simpl in Hsc. repeat split; congruence.
Qed.

Lemma DoScanning_frame e id e' :
  DoScanning e id = Ok e' ->
  store_of e' = store_of e /\ visuals e' = visuals e /\ trace e' = trace e.
Proof.
  intros Hrun. unfold DoScanning in Hrun.
  destruct (deref e id) as [s|]; simpl in Hrun; [|discriminate].
  destruct (Scan (world e) s) as [[s' scan] w].
  destruct (negb (scan =? 0)); [|injection Hrun as <-; auto].
  destruct (lock _ _) as [tid|]; [|injection Hrun as <-; auto].
  destruct (deref _ tid) as [target|]; simpl in Hrun; [|discriminate].
  destruct (Ship.IsTargetable target); injection Hrun as <-; auto.
Qed.

Lemma DoScannings_frame scanning : forall e e',
  for_each DoScanning scanning e = Ok e' ->
  store_of e' = store_of e /\ visuals e' = visuals e /\ trace e' = trace e.
Proof.
  induction scanning as [|id rest IH]; intros e e' Hrun; simpl in Hrun.
  - injection Hrun as <-. auto.
  - destruct (DoScanning e id) as [e1|] eqn:Hone; simpl in Hrun;
      [|discriminate].
    apply DoScanning_frame in Hone as (Hs1 & Hv1 & Ht1).
    apply IH in Hrun as (Hs & Hv & Ht).
    repeat split; congruence.
Qed.

(** ** The draw list *)

Lemma AddSprites_frame e id ship :
  exists parts,
    AddSprites e id ship = set_draw (draw e ++ parts) e
    /\ In (DrawShip id) parts.
Proof.
  unfold AddSprites. destruct (ShipParts ship) as [below above].
  eexists. split; [reflexivity|].
  apply in_or_app. right. left. reflexivity.
Qed.

Lemma DrawShips_from drawing : forall e e',
  for_each
    (fun e id =>
       let* ship := deref e id in
       if same (Ship.GetSystem ship) (playerSystem e) && Ship.HasSprite ship
          && negb (same (Some id) (flagship e))
       then Ok (set_world (FlareSounds (world e) ship) (AddSprites e id ship))
       else Ok e)
    drawing e = Ok e' ->
  exists w parts,
    e' = set_world w (set_draw (draw e ++ parts) e)
    /\ forall id s, In id drawing -> heap e !! id = Some s ->
                    drawable e s = true -> Some id <> flagship e ->
                    In (DrawShip id) parts.
Proof.
  induction drawing as [|id0 rest IH]; intros e e' Hrun; simpl in Hrun.
  - injection Hrun as <-. exists (world e), []. rewrite app_nil_r.
    split; [destruct e; reflexivity | intros id s []].
  - unfold deref in Hrun at 1.
    destruct (heap e !! id0) as [ship|] eqn:Hship; [|discriminate].
    simpl in Hrun. fold (drawable e ship) in Hrun.
    destruct (drawable e ship && negb (same (Some id0) (flagship e)))
      eqn:Htest.
    + destruct (AddSprites_frame e id0 ship) as (parts0 & Hadd & Hin0).
      rewrite Hadd in Hrun.
      apply IH in Hrun as (w & parts & -> & Hin). simpl in Hin.
      exists w, (parts0 ++ parts). split.
      * destruct e. simpl. rewrite <- app_assoc. reflexivity.
      * intros id s [<- | Hrest] Hs Hd Hf; apply in_or_app;
          [left; exact Hin0 | right; exact (Hin id s Hrest Hs Hd Hf)].
    + apply IH in Hrun as (w & parts & -> & Hin).
      exists w, parts. split; [reflexivity|].
      intros id s [<- | Hrest] Hs Hd Hf; [|exact (Hin id s Hrest Hs Hd Hf)].
      exfalso. rewrite Hs in Hship. injection Hship as <-.
      rewrite Hd in Htest. simpl in Htest.
      unfold same in Htest. rewrite bool_decide_eq_false_2 in Htest;
        [discriminate | exact Hf].
Qed.

Lemma DrawFlagship_frame e e' :
  match flagship e with
  | Some f =>
      let* ship := deref e f in
      if Ship.HasSprite ship
      then Ok (set_world (FlareSounds (world e) ship) (AddSprites e f ship))
      else Ok e
  | None => Ok e
  end = Ok e' ->
  exists w top,
    e' = set_world w (set_draw (draw e ++ top) e)
    /\ forall f s, flagship e = Some f -> heap e !! f = Some s ->
                   Ship.HasSprite s = true -> In (DrawShip f) top.
Proof.
  intros Hrun. destruct (flagship e) as [f|] eqn:Hflag.
  - unfold deref in Hrun.
    destruct (heap e !! f) as [ship|] eqn:Hship; [|discriminate].
    simpl in Hrun. destruct (Ship.HasSprite ship) eqn:Hsprite.
    + destruct (AddSprites_frame e f ship) as (parts & Hadd & Hin).
      rewrite Hadd in Hrun. injection Hrun as <-.
      exists (FlareSounds (world e) ship), parts. split; [reflexivity|].
      intros f' s Hf Hs _. injection Hf as <-. exact Hin.
    + injection Hrun as <-. exists (world e), []. rewrite app_nil_r.
      split; [destruct e; reflexivity|].
      intros f' s Hf Hs Hsp. injection Hf as <-. congruence.
  - injection Hrun as <-. exists (world e), []. rewrite app_nil_r.
    split; [destruct e; reflexivity|]. intros f s Hf. discriminate.
Qed.

(** What [DrawAll] adds to the draw list: every flotsam, projectile and
    visual of the lists, and every ship that is in the player's system
    and has a sprite. *)
Lemma DrawAll_frame e e' :
  DrawAll e = Ok e' ->
  exists w drawn,
    e' = set_world w (set_draw (draw e ++ drawn) e)
    /\ (forall f, In f (flotsam e) -> In (DrawFlotsam f) drawn)
    /\ (forall p, In p (projectiles e) -> In (DrawProjectile p) drawn)
    /\ (forall v, In v (visuals e) -> In (DrawVisual v) drawn)
    /\ (forall id s, In id (ships e) -> heap e !! id = Some s ->
                     drawable e s = true -> In (DrawShip id) drawn).
Proof.
  intros Hrun. unfold DrawAll in Hrun. cbv zeta in Hrun.
  destruct (playerSystem (set_world _ e)) as [system|] eqn:Hsystem;
    [|discriminate].
  destruct (for_each _ _ _) as [e1|] eqn:Hships; [|discriminate].
  unfold bind in Hrun at 1.
  match type of Hrun with
  | bind ?m _ = _ => destruct m as [e2|] eqn:Hflag; [|discriminate]
  end.
  unfold bind in Hrun. injection Hrun as <-.
  apply DrawShips_from in Hships as (w1 & parts & He1 & Hin1).
  apply DrawFlagship_frame in Hflag as (w2 & top & He2 & Hin2).
  subst e2 e1. simpl in Hin1, Hin2, Hsystem.
  exists w2, (Objects (Radar (world e) (heap e) (ships e) (projectiles e)) system
              ++ AsteroidsDraw
                   (Radar (world e) (heap e) (ships e) (projectiles e))
              ++ map DrawFlotsam (flotsam e) ++ parts ++ top
              ++ map DrawProjectile (projectiles e)
              ++ map DrawVisual (visuals e)).
  split; [destruct e; simpl; rewrite <- !app_assoc; reflexivity|].
  split; [|split; [|split]].
  - intros f Hf. rewrite !in_app_iff. right. right. left.
    apply in_map. exact Hf.
  - intros p Hp. rewrite !in_app_iff. do 5 right. left.
    apply in_map. exact Hp.
  - intros v Hv. rewrite !in_app_iff. do 6 right.
    apply in_map. exact Hv.
  - intros id s Hid Hs Hd. rewrite !in_app_iff.
    destruct (decide (Some id = flagship e)) as [Hf | Hf].
    + do 4 right. left. apply (Hin2 id s); [congruence | exact Hs|].
      unfold drawable in Hd. apply andb_prop in Hd. tauto.
    + do 3 right. left. exact (Hin1 id s Hid Hs Hd Hf).
Qed.

(** What [AfterMerge] does with the lists it is given. *)
Lemma AfterMerge_frame e e' :
  AfterMerge e = Ok e' ->
  exists added sparks,
    trace e' = trace e ++ added
    /\ Forall (fun c => is_move c = false) added
    /\ (forall p, In p (projectiles e) -> In (CDoCollisions p) added)
    /\ (forall f, In f (flotsam e) -> In (CDoCollection f) added)
    /\ (forall id s, In id (ships e) -> heap e !! id = Some s ->
                     collidable e s = true ->
                     In id (shipCollisions e') \/ In id (cloakedCollisions e'))
    /\ ships e' = ships e
    /\ Forall2 resolves (projectiles e) (projectiles e')
    /\ Forall2 collects (flotsam e) (flotsam e')
    /\ visuals e' = visuals e ++ sparks
    /\ (forall f, In f (flotsam e') -> In (DrawFlotsam f) (draw e'))
    /\ (forall p, In p (projectiles e') -> In (DrawProjectile p) (draw e'))
    /\ (forall v, In v (visuals e') -> In (DrawVisual v) (draw e'))
    /\ (forall id s, In id (ships e') -> heap e' !! id = Some s ->
                     drawable e' s = true -> In (DrawShip id) (draw e')).
Proof.
  intros Hrun. unfold AfterMerge in Hrun. cbv zeta in Hrun.
  destruct (FillCollisionSets _) as [e1|] eqn:Hfill; [|discriminate].
  unfold bind in Hrun at 1.
  destruct (CollideAll e1) as [e2|] eqn:Hcollide; [|discriminate].
  unfold bind in Hrun at 1.
  destruct (CollectAll _) as [e4|] eqn:Hcollect; [|discriminate].
  unfold bind in Hrun at 1.
  destruct (for_each DoScanning _ e4) as [e5|] eqn:Hscan; [|discriminate].
  unfold bind in Hrun.
  apply FillCollisionSets_frame in Hfill as (visible & cloaked & He1 & Hfilled).
  apply CollideAll_from in Hcollide
    as (added1 & done1 & sparks & Ht2 & Hstill1 & Hin1 & Hp2 & Hdone1 & Hv2
        & Hsc2 & Hf2 & _).
  apply CollectAll_from in Hcollect
    as (added2 & done2 & Ht4 & Hstill2 & Hin2 & Hf4 & Hdone2 & Hv4 & Hsc4
        & Hp4 & _).
  apply DoScannings_frame in Hscan as (Hstore5 & Hv5 & Ht5).
  apply store_of_scene in Hstore5 as (Hsc5 & Hp5 & Hf5 & _).
  apply DrawAll_frame in Hrun
    as (w & drawn & He' & Hflotsam & Hprojectiles & Hvisuals & Hships).
  unfold scene_of in Hsc2, Hsc4, Hsc5. simpl in *.
  injection Hsc5 as Hps5 Hfs5 Hsh5 Hsc5 Hcc5.
  injection Hsc4 as Hps4 Hfs4 Hsh4 Hsc4 Hcc4.
  injection Hsc2 as Hps2 Hfs2 Hsh2 Hsc2 Hcc2.
  subst e1. simpl in *.
  assert (Hheap : heap e' = heap e5) by (subst e'; reflexivity).
  assert (Hdraw : draw e' = draw e5 ++ drawn) by (subst e'; reflexivity).
  assert (Hps : playerSystem e' = playerSystem e5) by (subst e'; reflexivity).
  assert (Hsh : ships e' = ships e5) by (subst e'; reflexivity).
  assert (Hpr : projectiles e' = projectiles e5) by (subst e'; reflexivity).
  assert (Hfl : flotsam e' = flotsam e5) by (subst e'; reflexivity).
  assert (Hvi : visuals e' = visuals e5) by (subst e'; reflexivity).
  assert (Hsc : shipCollisions e' = shipCollisions e5)
    by (subst e'; reflexivity).
  assert (Hcc : cloakedCollisions e' = cloakedCollisions e5)
    by (subst e'; reflexivity).
  assert (Htr : trace e' = trace e5) by (subst e'; reflexivity).
  clear He'.
  exists (added1 ++ added2), sparks.
  split; [rewrite Htr, Ht5, Ht4, Ht2, app_assoc; reflexivity|].
  split; [apply Forall_app; split; assumption|].
  split; [intros p Hp; apply in_or_app; left; exact (Hin1 p Hp)|].
  split.
  { intros f Hf. apply in_or_app. right. apply Hin2. rewrite Hf2. exact Hf. }
  split.
  { intros id s Hid Hs Hc. rewrite Hsc, Hcc, Hsc5, Hcc5, Hsc4, Hcc4, Hsc2, Hcc2.
    exact (Hfilled id s Hid Hs Hc). }
  split; [congruence|].
  split; [rewrite Hpr, Hp5, Hp4, Hp2; exact Hdone1|].
  split; [rewrite Hfl, Hf5, Hf4, <- Hf2; exact Hdone2|].
  split; [congruence|].
  split.
  { intros f Hf. rewrite Hdraw. apply in_or_app. right. apply Hflotsam.
    congruence. }
  split.
  { intros p Hp. rewrite Hdraw. apply in_or_app. right. apply Hprojectiles.
    congruence. }
  split.
  { intros v Hv. rewrite Hdraw. apply in_or_app. right. apply Hvisuals.
    congruence. }
  intros id s Hid Hs Hd. rewrite Hdraw. apply in_or_app. right.
  apply (Hships id s); [congruence | congruence|].
  unfold drawable in *. rewrite <- Hps. exact Hd.
Qed.

Lemma Merge_frame m :
  trace (Merge m) = trace m /\ heap (Merge m) = heap m
  /\ playerSystem (Merge m) = playerSystem m
  /\ ships (Merge m) = ships m ++ newShips m
  /\ projectiles (Merge m) = projectiles m ++ newProjectiles m
  /\ flotsam (Merge m) = flotsam m ++ newFlotsam m
  /\ visuals (Merge m) = visuals m ++ newVisuals m.
Proof. unfold Merge, Append. simpl. repeat split; reflexivity. Qed.

(** ** The new objects (C2) *)

Lemma bind_inv {A B : Type} (m : result A) (k : A -> result B) (b : B) :
  bind m k = Ok b -> exists a, m = Ok a /\ k a = Ok b.
Proof.
  destruct m as [a|f]; simpl; [|discriminate]. intros Hk. exists a. auto.
Qed.

Lemma CalculateStep_inv e e' system :
  playerSystem e = Some system ->
  CalculateStep e = Ok e' ->
  exists m, BeforeMerge system (set_draw [] e) = Ok m
            /\ AfterMerge (Merge m) = Ok e'.
Proof.
  intros Hsystem Hrun. unfold CalculateStep in Hrun. cbv zeta in Hrun.
  change (playerSystem (set_draw [] e)) with (playerSystem e) in Hrun.
  rewrite Hsystem in Hrun.
  apply bind_inv in Hrun as (m & Hbefore & Hrun).
  exists m. split; assumption.
Qed.

(** C2, as the code has it.  A step that ends, in a system: [m] is the
    engine at the merge of lines 1123-1126, [before] the calls made up to
    there and [after] the calls made from there.
    - [Move] is called before the merge only, once on each ship, flotsam,
      projectile and visual of the lists as they were when the step began
      (on the ships only when the flagship entered a system, which empties
      the other lists): the objects staged in the four lists of new
      objects are not moved in the step that makes them.
    - After the merge the new objects are dealt with like the old ones:
      [DoCollisions] is called on every new projectile and [DoCollection]
      on every new flotsam, and a new ship that is in the player's system
      at full zoom is in one of the two collision sets, where projectiles
      and blasts find it.
    - At the end of the step the lists are the old objects followed by the
      new ones, the projectiles and the flotsam as [DoCollisions] and
      [DoCollection] left them, the visuals followed by those of the
      explosions; every flotsam, projectile and visual of them is in the
      draw list, and so is every ship in the player's system that has a
      sprite. *)
Theorem new_objects_join_after_the_moves (e e' : Engine) (system : SystemId) :
  playerSystem e = Some system ->
  CalculateStep e = Ok e' ->
  exists m before after sparks,
    BeforeMerge system (set_draw [] e) = Ok m
    /\ AfterMerge (Merge m) = Ok e'
    /\ trace m = trace e ++ before
    /\ trace e' = trace m ++ after
    /\ (exists fl pr vi,
          moves before = map CShipMove (ships e) ++ map CFlotsamMove fl
                         ++ map CProjectileMove pr ++ map CVisualMove vi
          /\ ((fl, pr, vi) = (flotsam e, projectiles e, visuals e)
              \/ (fl, pr, vi) = ([], [], [])))
    /\ moves after = []
    /\ (forall p, In p (newProjectiles m) -> In (CDoCollisions p) after)
    /\ (forall f, In f (newFlotsam m) -> In (CDoCollection f) after)
    /\ (forall id s, In id (newShips m) -> heap m !! id = Some s ->
                     collidable m s = true ->
                     In id (shipCollisions e') \/ In id (cloakedCollisions e'))
    /\ ships e' = ships m ++ newShips m
    /\ Forall2 resolves (projectiles m ++ newProjectiles m) (projectiles e')
    /\ Forall2 collects (flotsam m ++ newFlotsam m) (flotsam e')
    /\ visuals e' = visuals m ++ newVisuals m ++ sparks
    /\ (forall f, In f (flotsam e') -> In (DrawFlotsam f) (draw e'))
    /\ (forall p, In p (projectiles e') -> In (DrawProjectile p) (draw e'))
    /\ (forall v, In v (visuals e') -> In (DrawVisual v) (draw e'))
    /\ (forall id s, In id (ships e') -> heap e' !! id = Some s ->
                     drawable e' s = true -> In (DrawShip id) (draw e')).
Proof.
  intros Hsystem Hrun.
  destruct (CalculateStep_inv _ _ _ Hsystem Hrun) as (m & Hbefore & Hafter).
  clear Hrun.
  destruct (BeforeMerge_frame _ _ _ Hbefore)
    as (fl & pr & vi & spawned & Htrace & Hstill & Hlists).
  destruct (AfterMerge_frame _ _ Hafter)
    as (after & sparks & Htrace' & Hstill' & Hcollide & Hcollect & Hfilled
        & Hships & Hresolved & Hcollected & Hvisuals & Hdrawn).
  destruct (Merge_frame m) as (Htm & Hhm & Hpm & Hsm & Hprm & Hflm & Hvim).
  rewrite Htm in Htrace'. rewrite Hsm in Hships, Hfilled.
  rewrite Hprm in Hresolved, Hcollide. rewrite Hflm in Hcollected, Hcollect.
  rewrite Hvim, <- app_assoc in Hvisuals. rewrite Hhm in Hfilled.
  change (trace (set_draw [] e)) with (trace e) in Htrace.
  change (ships (set_draw [] e)) with (ships e) in Htrace.
  change (flotsam (set_draw [] e)) with (flotsam e) in Hlists.
  change (projectiles (set_draw [] e)) with (projectiles e) in Hlists.
  change (visuals (set_draw [] e)) with (visuals e) in Hlists.
  exists m, (map CShipMove (ships e) ++ map CFlotsamMove fl
             ++ map CProjectileMove pr ++ map CVisualMove vi ++ spawned),
         after, sparks.
  split; [exact Hbefore|]. split; [exact Hafter|]. split; [exact Htrace|].
  split; [exact Htrace'|]. split.
  { exists fl, pr, vi. split; [|exact Hlists].
    rewrite !moves_app, (moves_none spawned Hstill), app_nil_r.
    rewrite !moves_all by reflexivity. reflexivity. }
  split; [exact (moves_none after Hstill')|].
  split; [intros p Hp; apply Hcollide, in_or_app; right; exact Hp|].
  split; [intros f Hf; apply Hcollect, in_or_app; right; exact Hf|].
  split.
  { intros id s Hid Hs Hc. apply (Hfilled id s); [|exact Hs|].
    - apply in_or_app. right. exact Hid.
    - unfold collidable in *. rewrite Hpm. exact Hc. }
  split; [exact Hships|]. split; [exact Hresolved|].
  split; [exact Hcollected|]. split; [exact Hvisuals | exact Hdrawn].
Qed.

End Step.

Import Scenario.

(** The theorem for the step of the gunboat and the pirate. *)
Lemma new_objects_join_after_the_moves_witness :
  exists m before after,
    BeforeMerge sol (set_draw [] gunfight) = Ok m
    /\ trace m = trace gunfight ++ before
    /\ trace gunfight_step = trace m ++ after
    /\ moves before = [CShipMove 1%nat; CShipMove 2%nat]
    /\ moves after = []
    /\ forall p, In p (newProjectiles m) -> In (CDoCollisions p) after.
Proof.
  destruct (new_objects_join_after_the_moves gunfight gunfight_step sol
              ltac:(reflexivity) ltac:(vm_compute; reflexivity))
    as (m & before & after & sparks & Hbefore & _ & Htrace & Htrace'
        & (fl & pr & vi & Hmoves & Hlists) & Hstill & Hcollide & _).
  exists m, before, after.
  split; [exact Hbefore|]. split; [exact Htrace|]. split; [exact Htrace'|].
  split; [|split; [exact Hstill | exact Hcollide]].
  rewrite Hmoves.
  destruct Hlists as [Hlists | Hlists]; injection Hlists as -> -> ->;
    reflexivity.
Defined.

(** In the step in which the gunboat fires it, its shot is tested for
    collisions, explodes on the pirate and damages it, and the pirate
    fleet that enters is in the collision set: the new projectile and the
    new ship take part in the collision detection of the step that made
    them. *)
Lemma new_projectile_collides_at_once :
  CalculateStep gunfight = Ok gunfight_step
  /\ BeforeMerge sol (set_draw [] gunfight) = Ok gunfight_merge
  /\ projectiles gunfight = []
  /\ newProjectiles gunfight_merge = [gunshot]
  /\ newShips gunfight_merge = [102%nat]
  /\ In (CDoCollisions gunshot) (trace gunfight_step)
  /\ In (CTakeDamage 2%nat false) (trace gunfight_step)
  /\ In 102%nat (shipCollisions gunfight_step).
Proof.
  split; [vm_compute; reflexivity|]. split; [vm_compute; reflexivity|].
  split; [reflexivity|]. split; [reflexivity|]. split; [reflexivity|].
  split; [vm_compute; auto 10|]. split; [vm_compute; auto 10|].
  vm_compute; auto 10.
Qed.

End StepProps.

(* ===================================================================== *)
(** * The cooldown of the requests for help (C5)                          *)
(* ===================================================================== *)

Module CooldownProps.
Import Model Code Terms.
Import CollisionProps StepProps.

Section Cooldown.
Context `{Collaborators}.

Lemma kept_or_started_refl g : kept_or_started g g.
Proof. left. reflexivity. Qed.

Lemma kept_or_started_trans g1 g2 g3 :
  kept_or_started g1 g2 -> kept_or_started g2 g3 -> kept_or_started g1 g3.
Proof. unfold kept_or_started. intros [-> | [-> ->]] [-> | [? ->]]; auto; lia. Qed.

Lemma for_each_time {A : Type} (body : Engine -> A -> result Engine)
  (l : list A) :
  (forall e a e', body e a = Ok e' -> grudgeTime e' = grudgeTime e) ->
  forall e e', for_each body l e = Ok e' -> grudgeTime e' = grudgeTime e.
Proof.
  intros Hbody. induction l as [|a rest IH]; intros e e' Hrun; simpl in Hrun.
  - injection Hrun as <-. reflexivity.
  - destruct (body e a) as [e1|] eqn:Hone; simpl in Hrun; [|discriminate].
    rewrite (IH _ _ Hrun). exact (Hbody _ _ _ Hone).
Qed.

Lemma fold_left_time {A : Type} (body : Engine -> A -> Engine) (l : list A) :
  (forall e a, grudgeTime (body e a) = grudgeTime e) ->
  forall e, grudgeTime (fold_left body l e) = grudgeTime e.
Proof.
  intros Hbody. induction l as [|a rest IH]; intros e; simpl; [reflexivity|].
  rewrite IH. apply Hbody.
Qed.

(** *** What comes before the decrement *)

Lemma MoveShip_time e id e' :
  MoveShip e id = Ok e' -> grudgeTime e' = grudgeTime e.
Proof.
  intros Hrun. unfold MoveShip in Hrun.
  destruct (deref e id) as [ship|]; simpl in Hrun; [|discriminate].
  match type of Hrun with
  | bind ?m _ = _ => destruct m as [wasHere|]; simpl in Hrun; [|discriminate]
  end.
  destruct (ShipMove (world e) ship) as [[[moved vs] fs] w].
  destruct (Ship.ShouldBeRemoved moved).
  { injection Hrun as <-. reflexivity. }
  destruct (JumpSounds _ id moved _ wasHere _) as [e2|] eqn:Hsounds;
    simpl in Hrun; [|discriminate].
  destruct (AutoBoard e2 id moved) as [e3|] eqn:Hboard;
    simpl in Hrun; [|discriminate].
  destruct (deref e3 id) as [ship3|]; simpl in Hrun; [|discriminate].
  apply JumpSounds_frame in Hsounds as (w2 & ->).
  apply AutoBoard_frame in Hboard as (w3 & h3 & ev3 & ->).
  destruct (negb (same (Ship.GetSystem ship3) _)).
  - injection Hrun as <-. reflexivity.
  - apply LaunchAndFire_frame in Hrun
      as (w4 & h4 & launched & fired & sparks & ready & -> & Hready).
    reflexivity.
Qed.

Lemma EnterSystem_time e e' :
  EnterSystem e = Ok e' -> grudgeTime e' = grudgeTime e.
Proof.
  intros Hrun. unfold EnterSystem in Hrun.
  destruct e as [w0 ps fl st hp sh nsh pr npr fo nfo vi nvi ham ev gr gt sc cc
                 ms dr de df tr].
  cbn [flagship set_world] in Hrun.
  destruct fl as [f|].
  - destruct (deref _ f) as [fs0|]; [|discriminate].
    unfold bind in Hrun at 1. cbv zeta in Hrun.
    cbn [world heap set_doEnter] in Hrun.
    destruct (Arrive _ _ f) as [[h said] w].
    cbn [set_world set_heap set_messages messages] in Hrun.
    destruct (deref _ f) as [fs|]; [|discriminate].
    unfold bind in Hrun. cbn [world heap] in Hrun.
    destruct (PlaceFleets _ _ _) as [[[h' placed] said'] w'].
    injection Hrun as <-. reflexivity.
  - injection Hrun as <-. reflexivity.
Qed.

Lemma MoveFlotsam_time e : grudgeTime (MoveFlotsam e) = grudgeTime e.
Proof.
  unfold MoveFlotsam. rewrite fold_left_time; [reflexivity|].
  intros e0 it. destruct (FlotsamMove (world e0) it) as [[it' vs] w].
  reflexivity.
Qed.

Lemma MoveProjectiles_time e : grudgeTime (MoveProjectiles e) = grudgeTime e.
Proof.
  unfold MoveProjectiles. rewrite fold_left_time; [reflexivity|].
  intros e0 p. destruct (ProjectileMove (world e0) (heap e0) p) as [[[p' vs] ps] w].
  reflexivity.
Qed.

Lemma MoveVisuals_time e : grudgeTime (MoveVisuals e) = grudgeTime e.
Proof.
  unfold MoveVisuals. rewrite fold_left_time; [reflexivity|].
  intros e0 v. reflexivity.
Qed.

Lemma SpawnFleets_time e e' :
  SpawnFleets e = Ok e' -> grudgeTime e' = grudgeTime e.
Proof.
  unfold SpawnFleets. destruct (playerSystem e) as [system|]; [|discriminate].
  intros Hrun. injection Hrun as <-. apply fold_left_time.
  intros e0 fleet. unfold SpawnFleet.
  destruct (RandomInt _ _) as [r w]. destruct (negb (r =? 0)); [reflexivity|].
  destruct (FleetGovernment _) as [gov|]; [|reflexivity].
  match goal with |- context [if ?b then _ else _] => destruct b end;
    [reflexivity|].
  destruct (FleetEnter _ _ _ _) as [[h added] w']. reflexivity.
Qed.

Lemma SpawnPersons_time e e' :
  SpawnPersons e = Ok e' -> grudgeTime e' = grudgeTime e.
Proof.
  intros Hrun. unfold SpawnPersons in Hrun.
  destruct e as [w0 ps fl st hp sh nsh pr npr fo nfo vi nvi ham ev gr gt sc cc
                 ms dr de df tr].
  unfold deref, store in Hrun. simpl in Hrun.
  break_runs; reflexivity.
Qed.

Lemma SendHails_time e e' :
  SendHails e = Ok e' -> grudgeTime e' = grudgeTime e.
Proof.
  intros Hrun. unfold SendHails in Hrun.
  destruct (RandomInt (world e) 600) as [r w]. simpl in Hrun.
  destruct (negb (r =? 0) || PlayerIsDead w || is_null (head (ships e))).
  { injection Hrun as <-. reflexivity. }
  destruct (RandomInt w _) as [i w']. simpl in Hrun.
  destruct (ships e !! Z.to_nat i) as [id|]; [|discriminate].
  run_step.
  repeat match type of Hrun with
         | (if ?b then _ else _) = _ => destruct b
         end;
    try (injection Hrun as <-; reflexivity).
  destruct (GetHail _ _) as [message w'']. simpl in Hrun.
  destruct (String.eqb message _); injection Hrun as <-; reflexivity.
Qed.

Lemma BeforeMerge_time system e m :
  BeforeMerge system e = Ok m -> grudgeTime m = grudgeTime e.
Proof.
  intros Hrun. unfold BeforeMerge in Hrun.
  destruct (AIStep (world e) (heap e)) as [h0 w0].
  cbv beta iota zeta in Hrun.
  destruct (DeployDefense _ _ system) as [[h1 defenders] w1].
  cbv beta iota zeta in Hrun.
  apply bind_inv in Hrun as (wasHyperspacing & _ & Hrun).
  apply bind_inv in Hrun as (e1 & Hships & Hrun).
  apply bind_inv in Hrun as (e2 & Hflag & Hrun).
  apply bind_inv in Hrun as (pruned & _ & Hrun).
  destruct (AsteroidsStep _) as [[vs fs] w3]. cbv beta iota zeta in Hrun.
  apply bind_inv in Hrun as (e7 & Hfleets & Hrun).
  apply bind_inv in Hrun as (e8 & Hpersons & Hrun).
  apply bind_inv in Hrun as (e9 & Hhails & Hrun).
  destruct (MouseClicks _ _ _) as [[h10 said] w10]. injection Hrun as <-.
  apply (for_each_time _ _ MoveShip_time) in Hships.
  assert (H2 : grudgeTime e2 = grudgeTime e1).
  { destruct (flagship e1) as [f|].
    - apply bind_inv in Hflag as (flag & _ & Hflag).
      destruct (negb (same _ (Ship.GetSystem flag))).
      + apply EnterSystem_time in Hflag. rewrite Hflag.
        destruct (negb wasHyperspacing && _), (negb wasHyperspacing);
          reflexivity.
      + injection Hflag as <-. destruct (negb wasHyperspacing && _);
          reflexivity.
    - injection Hflag as <-. reflexivity. }
  apply SpawnPersons_time in Hpersons. apply SendHails_time in Hhails.
  clear Hflag.
  match type of Hfleets with
  | context [MoveFlotsam ?x] =>
      pose proof (MoveFlotsam_time x) as Hf;
      remember (MoveFlotsam x) as e4 eqn:He4; clear He4
  end.
  match type of Hfleets with
  | context [MoveProjectiles ?x] =>
      pose proof (MoveProjectiles_time x) as Hp;
      remember (MoveProjectiles x) as e5 eqn:He5; clear He5
  end.
  match type of Hfleets with
  | context [MoveVisuals ?x] =>
      pose proof (MoveVisuals_time x) as Hv;
      remember (MoveVisuals x) as e6 eqn:He6; clear He6
  end.
  apply SpawnFleets_time in Hfleets.
  cbn [grudgeTime set_visuals set_projectiles set_flotsam set_newFlotsam
       set_newVisuals set_world set_ships set_newShips set_heap]
    in Hfleets, Hf, Hp, Hv, Hships.
  cbn [grudgeTime set_messages set_heap set_world].
  congruence.
Qed.

Lemma Merge_time m : grudgeTime (Merge m) = grudgeTime m.
Proof. reflexivity. Qed.

(** *** What comes after it *)

Lemma FillCollisionSets_time e e1 :
  FillCollisionSets e = Ok e1 -> grudgeTime e1 = grudgeTime e.
Proof.
  intros Hrun. apply FillCollisionSets_frame in Hrun as (v & c & -> & _).
  reflexivity.
Qed.

(** The request for help is the one place that sets the cooldown, and it
    does so only when the cooldown is zero. *)
Lemma DoGrudge_time e target attacker e' :
  DoGrudge e target attacker = Ok e' ->
  kept_or_started (grudgeTime e) (grudgeTime e').
Proof.
  intros Hrun. unfold DoGrudge in Hrun.
  destruct attacker as [attacker|]; [|discriminate].
  destruct (grudgeTime e =? 0) eqn:Hzero.
  - apply Z.eqb_eq in Hzero.
    run_all; simpl; try (left; reflexivity);
      (right; split; [exact Hzero | reflexivity]).
  - run_all; simpl; left; reflexivity.
Qed.

Lemma Damage_time projectile isBlast e id e' :
  Damage projectile isBlast e id = Ok e' -> grudgeTime e' = grudgeTime e.
Proof.
  intros Hrun. unfold Damage in Hrun.
  destruct (deref e id) as [s|]; simpl in Hrun; [|discriminate].
  destruct (TakeDamage _ _ _ _) as [[s' ev] w].
  destruct (negb (ev =? 0)); injection Hrun as <-; reflexivity.
Qed.

Lemma Blast_time projectile hit e body e' :
  Blast projectile hit e body = Ok e' -> grudgeTime e' = grudgeTime e.
Proof.
  intros Hrun. unfold Blast in Hrun.
  destruct (spared e projectile body) as [skip|]; simpl in Hrun; [|discriminate].
  destruct skip; [injection Hrun as <-; reflexivity|].
  exact (Damage_time _ _ _ _ _ Hrun).
Qed.

Lemma BlastAll_time e projectile hit hitPos blastRadius e' :
  BlastAll e projectile hit hitPos blastRadius = Ok e' ->
  grudgeTime e' = grudgeTime e.
Proof.
  intros Hrun. apply BlastAll_inv in Hrun as (mid & Hfirst & Hsecond & _).
  apply (for_each_time _ _ (Blast_time projectile hit)) in Hfirst, Hsecond.
  simpl in Hfirst, Hsecond. congruence.
Qed.

Lemma AntiMissile_time projectile ready : forall e e' projectile',
  AntiMissile e projectile ready = Ok (e', projectile') ->
  grudgeTime e' = grudgeTime e.
Proof.
  induction ready as [|id rest IH]; intros e e' projectile' Hrun;
    simpl in Hrun.
  - injection Hrun as <- <-. reflexivity.
  - destruct (eligible e projectile id) as [ok|]; simpl in Hrun; [|discriminate].
    destruct ok; [|exact (IH _ _ _ Hrun)].
    destruct (deref e id) as [s|]; simpl in Hrun; [|discriminate].
    destruct (FireAntiMissile _ _ _) as [[[s' vs] fired] w].
    destruct fired.
    + injection Hrun as <- <-. reflexivity.
    + apply IH in Hrun. rewrite Hrun. reflexivity.
Qed.

Lemma DoCollisions_time e projectile e' projectile' :
  DoCollisions e projectile = Ok (e', projectile') ->
  kept_or_started (grudgeTime e) (grudgeTime e').
Proof.
  intros Hrun.
  apply DoCollisions_inv in Hrun
    as (e1 & closestHit & hit & hitVelocity & Hfind & Hrest).
  apply FindHit_frame in Hfind as (w & added & -> & _).
  destruct (Qltb closestHit 1).
  - cbv zeta in Hrest. destruct Hrest as (_ & e3 & Hblast & Hgrudge).
    assert (H3 : grudgeTime e3 = grudgeTime e).
    { destruct (Qnonzero _).
      - apply BlastAll_time in Hblast. rewrite Hblast. reflexivity.
      - destruct hit as [h|].
        + apply Damage_time in Hblast. rewrite Hblast. reflexivity.
        + subst e3. reflexivity. }
    destruct hit as [h|].
    + apply DoGrudge_time in Hgrudge. rewrite H3 in Hgrudge. exact Hgrudge.
    + subst e'. rewrite H3. apply kept_or_started_refl.
  - destruct (negb (_ =? 0)).
    + apply AntiMissile_time in Hrest. rewrite Hrest. left. reflexivity.
    + destruct Hrest as [-> _]. left. reflexivity.
Qed.

Lemma CollideAll_time e e' :
  CollideAll e = Ok e' -> kept_or_started (grudgeTime e) (grudgeTime e').
Proof.
  unfold CollideAll.
  change (grudgeTime e) with (grudgeTime (set_projectiles [] e)).
  generalize (set_projectiles [] e). generalize (projectiles e).
  induction l as [|p rest IH]; intros e0 Hrun; simpl in Hrun.
  - injection Hrun as <-. apply kept_or_started_refl.
  - destruct (DoCollisions e0 p) as [[e1 p']|] eqn:Hone; simpl in Hrun;
      [|discriminate].
    apply IH in Hrun. apply DoCollisions_time in Hone.
    exact (kept_or_started_trans _ _ _ Hone Hrun).
Qed.

Lemma DoCollection_time e f e' f' :
  DoCollection e f = Ok (e', f') -> grudgeTime e' = grudgeTime e.
Proof.
  intros Hrun. unfold DoCollection in Hrun.
  destruct (find_collector _ f _) as [[id|]|]; simpl in Hrun; [| |discriminate].
  - destruct (deref _ id) as [s|]; simpl in Hrun; [|discriminate].
    destruct (TransferTo f s) as [[f1 s1] amount].
    assert (Hsay : forall e0 : Engine,
              grudgeTime (collection_message e0 f1 s1 amount) = grudgeTime e0).
    { intros e0. unfold collection_message.
      destruct (Flotsam.OutfitType f1) as [outfit|];
        [destruct (Qltb (Outfit.installable outfit) 0)|];
        repeat match goal with
               | |- context [if ?b then _ else _] => destruct b
               end; reflexivity. }
    destruct (negb (Ship.IsYours s1)); injection Hrun as <- <-.
    + reflexivity.
    + rewrite Hsay. reflexivity.
  - injection Hrun as <- <-. reflexivity.
Qed.

Lemma CollectAll_time e e' :
  CollectAll e = Ok e' -> grudgeTime e' = grudgeTime e.
Proof.
  unfold CollectAll. intros Hrun.
  apply for_each_time in Hrun; [exact Hrun|].
  intros e0 f e1 Hone.
  destruct (DoCollection e0 f) as [[e2 f']|] eqn:Hcol; simpl in Hone;
    [|discriminate].
  injection Hone as <-. exact (DoCollection_time _ _ _ _ Hcol).
Qed.

Lemma DoScanning_time e id e' :
  DoScanning e id = Ok e' -> grudgeTime e' = grudgeTime e.
Proof.
  intros Hrun. unfold DoScanning in Hrun.
  destruct (deref e id) as [s|]; simpl in Hrun; [|discriminate].
  destruct (Scan (world e) s) as [[s' scan] w].
  destruct (negb (scan =? 0)); [|injection Hrun as <-; auto].
  destruct (lock _ _) as [tid|]; [|injection Hrun as <-; auto].
  destruct (deref _ tid) as [target|]; simpl in Hrun; [|discriminate].
  destruct (Ship.IsTargetable target); injection Hrun as <-; auto.
Qed.

Lemma DrawAll_time e e' : DrawAll e = Ok e' -> grudgeTime e' = grudgeTime e.
Proof.
  intros Hrun. apply DrawAll_frame in Hrun as (w & drawn & -> & _).
  reflexivity.
Qed.

(** Lines 1128-1212: the decrement, and then at most one request. *)
Lemma AfterMerge_time e e' :
  AfterMerge e = Ok e' ->
  kept_or_started (tick (grudgeTime e)) (grudgeTime e').
Proof.
  intros Hrun. unfold AfterMerge in Hrun. cbv zeta in Hrun.
  destruct (FillCollisionSets _) as [e1|] eqn:Hfill; [|discriminate].
  unfold bind in Hrun at 1.
  destruct (CollideAll e1) as [e2|] eqn:Hcollide; [|discriminate].
  unfold bind in Hrun at 1.
  destruct (CollectAll _) as [e4|] eqn:Hcollect; [|discriminate].
  unfold bind in Hrun at 1.
  destruct (for_each DoScanning _ e4) as [e5|] eqn:Hscan; [|discriminate].
  unfold bind in Hrun.
  apply FillCollisionSets_time in Hfill. cbn [grudgeTime set_grudgeTime] in Hfill.
  apply CollideAll_time in Hcollide.
  apply CollectAll_time in Hcollect. cbn [grudgeTime set_hasAntiMissile] in Hcollect.
  apply (for_each_time _ _ DoScanning_time) in Hscan.
  apply DrawAll_time in Hrun.
  rewrite Hrun, Hscan, Hcollect, <- Hfill. exact Hcollide.
Qed.

Lemma CalculateStep_time e e' system :
  playerSystem e = Some system ->
  CalculateStep e = Ok e' ->
  kept_or_started (tick (grudgeTime e)) (grudgeTime e').
Proof.
  intros Hsystem Hrun.
  destruct (CalculateStep_inv _ _ _ Hsystem Hrun) as (m & Hbefore & Hafter).
  apply BeforeMerge_time in Hbefore. apply AfterMerge_time in Hafter.
  rewrite Merge_time, Hbefore in Hafter. exact Hafter.
Qed.

(** Without a system there is no step to count. *)
Lemma CalculateStep_nowhere e e' :
  playerSystem e = None -> CalculateStep e = Ok e' ->
  grudgeTime e' = grudgeTime e.
Proof.
  intros Hnone Hrun. unfold CalculateStep in Hrun. cbv zeta in Hrun.
  cbn [playerSystem set_draw] in Hrun.
  change (playerSystem (set_draw [] e)) with (playerSystem e) in Hrun.
  rewrite Hnone in Hrun. injection Hrun as <-. reflexivity.
Qed.

(** Only the request changes the cooldown, and it does so from zero. *)
Lemma DoGrudge_sets e target gov e' :
  DoGrudge e target (Some gov) = Ok e' ->
  grudgeTime e' <> grudgeTime e ->
  grudgeTime e = 0
  /\ Government.IsPlayer (government gov) = false
  /\ request_made e target gov = Some e'
  /\ grudgeTime e' = 120.
Proof.
  intros Hrun Hchanged. unfold DoGrudge in Hrun. unfold request_made.
  destruct (deref e target) as [t|] eqn:Ht; simpl in Hrun; [|discriminate].
  apply deref_inv in Ht. rewrite Ht.
  destruct (Government.IsPlayer (government gov)).
  { exfalso. apply Hchanged. run_all; reflexivity. }
  destruct (Z.eqb_spec (grudgeTime e) 0) as [Hzero|Hcool]; simpl in Hrun;
    [|exfalso; apply Hchanged; injection Hrun as <-; reflexivity].
  match type of Hrun with
  | bind ?m _ = _ => destruct m as [suppressed|]; simpl in Hrun; [|discriminate]
  end.
  repeat match type of Hrun with
         | (if ?b then _ else _) = _ =>
             destruct b;
             [exfalso; apply Hchanged; injection Hrun as <-; reflexivity|]
         end.
  destruct (count_attackers e target gov) as [[n a]|]; simpl in Hrun;
    [|discriminate].
  destruct (Double.leb a (strength t));
    [exfalso; apply Hchanged; injection Hrun as <-; reflexivity|].
  destruct (RandomReal (world e)) as [r w].
  destruct (draw_fails r a (strength t));
    [exfalso; apply Hchanged; injection Hrun as <-; reflexivity|].
  injection Hrun as <-. split; [exact Hzero|]. repeat split.
Qed.

Lemma tick_counting g : 2 <= g <= 120 -> tick g = g - 1.
Proof.
  intros Hg. unfold tick. destruct (Z.eqb_spec g 0); [lia|]. simpl.
  apply SpawnProps.wrap32_small. lia.
Qed.

Lemma tick_last g : 0 <= g <= 1 -> tick g = 0.
Proof.
  intros Hg. assert (Hcases : g = 0 \/ g = 1) by lia.
  destruct Hcases as [-> | ->]; reflexivity.
Qed.

Lemma step_counts e0 e1 system :
  playerSystem e0 = Some system -> CalculateStep e0 = Ok e1 ->
  2 <= grudgeTime e0 <= 120 -> grudgeTime e1 = grudgeTime e0 - 1.
Proof.
  intros Hsystem Hrun Hg.
  pose proof (CalculateStep_time _ _ _ Hsystem Hrun) as Hstep.
  rewrite tick_counting in Hstep by exact Hg.
  destruct Hstep as [Hkept | [Hzero _]]; [exact Hkept | lia].
Qed.

Lemma step_last e0 e1 system :
  playerSystem e0 = Some system -> CalculateStep e0 = Ok e1 ->
  0 <= grudgeTime e0 <= 1 -> grudgeTime e1 = 0 \/ grudgeTime e1 = 120.
Proof.
  intros Hsystem Hrun Hg.
  pose proof (CalculateStep_time _ _ _ Hsystem Hrun) as Hstep.
  rewrite tick_last in Hstep by exact Hg.
  destruct Hstep as [Hkept | [_ Hset]]; [left | right]; assumption.
Qed.

Lemma steps_count es : forall e0 g,
  grudgeTime e0 = g -> g <= 120 -> steps_from e0 es ->
  forall k ek, Z.of_nat k < g - 1 -> es !! k = Some ek ->
               grudgeTime ek = g - 1 - Z.of_nat k.
Proof.
  induction es as [|e1 rest IH]; intros e0 g Hg Hmax Hsteps k ek Hk Hek.
  - discriminate Hek.
  - destruct Hsteps as (Hsystem & Hrun & Hrest).
    destruct (playerSystem e0) as [system|] eqn:Hps; [|contradiction].
    assert (H1 : grudgeTime e1 = g - 1).
    { rewrite (step_counts _ _ _ Hps Hrun); lia. }
    destruct k as [|k]; simpl in Hek.
    + injection Hek as <-. rewrite H1. lia.
    + rewrite (IH e1 (g - 1) H1 ltac:(lia) Hrest k ek ltac:(lia) Hek). lia.
Qed.

(** C5 (as amended): for an attacking government [attacker] other than
    the player's and a target that is alive,
    (a) while the requester recorded for [attacker] is alive, in the
        player's system and not disabled, an attack raises no request:
        the engine is left as it was;
    (b) so it is while the cooldown is not zero, for every such
        government; and of all that [DoGrudge] does, for any government,
        only the request changes the cooldown: it sets it to 120, and
        finds it at zero;
    (c) a step that [CalculateStep] calculates in a system decrements
        the cooldown once, before its collisions, which are the only
        callers of [DoGrudge].  When the step begins with the cooldown
        at 2 or more, it ends with one less: the collisions have run
        with the cooldown not zero and, by (b), have raised no request.
        When it begins with 1 or 0, the collisions run with the cooldown
        at zero, and the step ends with 0, or with 120 after a request.
        A step without a system leaves the cooldown alone;
    (d) hence the 119 steps that follow a step that has left the
        cooldown at 120 end with 119, 118, ..., 1, and none of them
        raises a request;
    (e) with the cooldown at zero and the requester alive but disabled
        or out of the system (or no entry at all), a qualifying attack
        raises the request: the entry now names the target, the cooldown
        is 120;
    (f) once the entry's weak pointer has expired, because the requester
        is gone or the entry was reset by the thanks, no attack raises a
        request for [attacker]. *)
Theorem grudge_suppression (e : Engine) (target : ShipId) (t : Ship.t)
  (attacker : GovId) :
  heap e !! target = Some t ->
  Government.IsPlayer (government attacker) = false ->
  (requester_active e attacker -> DoGrudge e target (Some attacker) = Ok e)
  /\ (grudgeTime e <> 0 -> DoGrudge e target (Some attacker) = Ok e)
  /\ (forall gov e',
        DoGrudge e target (Some gov) = Ok e' ->
        grudgeTime e' <> grudgeTime e ->
        grudgeTime e = 0
        /\ Government.IsPlayer (government gov) = false
        /\ request_made e target gov = Some e'
        /\ grudgeTime e' = 120)
  /\ (forall e0 e1 system,
        playerSystem e0 = Some system ->
        CalculateStep e0 = Ok e1 ->
        0 <= grudgeTime e0 <= 120 ->
        (2 <= grudgeTime e0 -> grudgeTime e1 = grudgeTime e0 - 1)
        /\ (grudgeTime e0 <= 1 -> grudgeTime e1 = 0 \/ grudgeTime e1 = 120))
  /\ (forall e0 e1,
        playerSystem e0 = None ->
        CalculateStep e0 = Ok e1 ->
        grudgeTime e1 = grudgeTime e0)
  /\ (forall e0 es,
        grudgeTime e0 = 120 ->
        steps_from e0 es ->
        forall k ek, (k < 119)%nat -> es !! k = Some ek ->
                     grudgeTime ek = 119 - Z.of_nat k)
  /\ (grudgeTime e = 0 ->
      grudge e !! attacker = None \/ requester_away e attacker ->
      qualifying e target attacker ->
      exists e', DoGrudge e target (Some attacker) = Ok e'
                 /\ request_made e target attacker = Some e'
                 /\ grudge e' !! attacker = Some (Some target)
                 /\ grudgeTime e' = 120)
  /\ (requester_expired e attacker -> DoGrudge e target (Some attacker) = Ok e).
Proof.
  intros Ht Hnp. repeat apply conj.
  - apply GrudgeProps.DoGrudge_active with t; assumption.
  - apply GrudgeProps.DoGrudge_cooling with t; assumption.
  - intros gov e'. apply DoGrudge_sets.
  - intros e0 e1 system Hsystem Hrun Hg. split; intros Hcase.
    + apply (step_counts _ _ _ Hsystem Hrun). lia.
    + apply (step_last _ _ _ Hsystem Hrun). lia.
  - apply CalculateStep_nowhere.
  - intros e0 es Hg Hsteps k ek Hk Hek.
    rewrite (steps_count es e0 120 Hg ltac:(lia) Hsteps k ek ltac:(lia) Hek).
    lia.
  - apply GrudgeProps.DoGrudge_requests; assumption.
  - apply GrudgeProps.DoGrudge_expired with t; assumption.
Qed.

End Cooldown.

Import Scenario.

(** The theorem in the small world.  With the requester recorded for
    the pirates disabled, the attack on the merchant raises a request.
    The pirate gunboat's shot hits the merchant in the step that fires
    it: with the cooldown at 120 or at 2 before the step, the step leaves
    it at 119 or at 1, and the step after the one that began with 120
    leaves it at 118; with the cooldown at 1 it is decremented to zero,
    the attack raises the request, and the step ends with 120. *)
Lemma grudge_suppression_witness :
  (exists e',
     DoGrudge (store 9%nat (disabled (ship "Old" "Freighter" merchant 5 5))
                 (under_attack [0] (Some (Some 9%nat))))
              1%nat (Some pirate) = Ok e'
     /\ grudge e' !! pirate = Some (Some 1%nat) /\ grudgeTime e' = 120)
  /\ CalculateStep (ambush 120) = Ok (ambush_step 120)
  /\ grudgeTime (ambush_step 120) = 119
  /\ CalculateStep (ambush 2) = Ok (ambush_step 2)
  /\ grudgeTime (ambush_step 2) = 1
  /\ CalculateStep (ambush 1) = Ok (ambush_step 1)
  /\ grudgeTime (ambush_step 1) = 120
  /\ grudge (ambush_step 1) !! pirate = Some (Some 1%nat)
  /\ grudge (ambush_step 2) !! pirate = None
  /\ steps_from (ambush 120) [ambush_step 120; ambush_second]
  /\ grudgeTime ambush_second = 118.
Proof.
  assert (Ht : heap (store 9%nat (disabled (ship "Old" "Freighter" merchant 5 5))
                       (under_attack [0] (Some (Some 9%nat)))) !! 1%nat
               = Some (ship "Ann" "Freighter" merchant 0 0))
    by (vm_compute; reflexivity).
  pose proof (grudge_suppression _ 1%nat _ pirate Ht eq_refl)
    as (_ & _ & _ & Hstep & _ & Hsteps & Hrequest & _).
  assert (H120 : CalculateStep (ambush 120) = Ok (ambush_step 120))
    by (vm_compute; reflexivity).
  assert (H2 : CalculateStep (ambush 2) = Ok (ambush_step 2))
    by (vm_compute; reflexivity).
  assert (H1 : CalculateStep (ambush 1) = Ok (ambush_step 1))
    by (vm_compute; reflexivity).
  split.
  { destruct (Hrequest eq_refl) as (e' & Hrun & _ & Hentry & Htime).
    - right. exists 9%nat, (disabled (ship "Old" "Freighter" merchant 5 5)).
      repeat split; vm_compute; reflexivity.
    - exists (ship "Ann" "Freighter" merchant 0 0), 1, (Double.of_int 1000).
      repeat split; try (vm_compute; reflexivity). left. reflexivity.
    - exists e'. auto. }
  split; [exact H120|].
  split.
  { assert (Hg : 0 <= grudgeTime (ambush 120) <= 120)
      by (change (0 <= 120 <= 120); lia).
    rewrite (proj1 (Hstep (ambush 120) _ sol eq_refl H120 Hg));
      [reflexivity | change (2 <= 120); lia]. }
  split; [exact H2|].
  split.
  { assert (Hg : 0 <= grudgeTime (ambush 2) <= 120)
      by (change (0 <= 2 <= 120); lia).
    rewrite (proj1 (Hstep (ambush 2) _ sol eq_refl H2 Hg));
      [reflexivity | change (2 <= 2); lia]. }
  split; [exact H1|].
  split; [vm_compute; reflexivity|].
  split; [vm_compute; reflexivity|].
  split; [vm_compute; reflexivity|].
  assert (Hrun : steps_from (ambush 120) [ambush_step 120; ambush_second]).
  { split; [discriminate|]. split; [exact H120|].
    split; [vm_compute; discriminate|].
    split; [vm_compute; reflexivity | exact I]. }
  split; [exact Hrun|].
  exact (Hsteps (ambush 120) _ eq_refl Hrun 1%nat ambush_second
           ltac:(lia) eq_refl).
Defined.

End CooldownProps.

(* ===================================================================== *)
(** * Further properties of the tick-tock monitor                         *)
(* ===================================================================== *)

Module TeardownProps.
Import TickTock Teardown.

(** X1: between the return of [Wait()] and the call of [Go()], which is
    when [Step()] reads and writes the engine, the worker is not inside
    [CalculateStep] and has nothing to publish, and it cannot start a
    calculation: both indices name the same slot. *)
Theorem step_runs_while_worker_is_paused (b : bool) (sched : list Action)
  (s : State) :
  run (init b) sched = Some s ->
  foreground_owns_engine s ->
  ~ worker_busy s /\ act s WkWake = None
  /\ calcTickTock s = drawTickTock s.
Proof.
  intros Hrun Hfg.
  assert (Hinv : inv s)
    by (eapply TickTockProps.inv_run;
        [apply TickTockProps.inv_init | exact Hrun]).
  destruct s as [c d t n f w g k]. unfold inv in Hinv.
  unfold foreground_owns_engine, worker_busy, act, same_slot in *.
  simpl in *.
  destruct w; simpl in *;
    try (destruct Hinv as (_ & _ & [-> | ->]);
         destruct Hfg as [Hfg | Hfg]; discriminate Hfg).
  - assert (Hsame : c = d).
    { destruct Hinv as [[Hsame _] | (_ & _ & [-> | ->])]; [exact Hsame| |];
        destruct Hfg as [Hfg | Hfg]; discriminate Hfg. }
    subst d. split; [intros [H | H]; discriminate H|].
    split; [|reflexivity].
    destruct f; try reflexivity; rewrite Bool.eqb_reflx; reflexivity.
  - assert (Hsame : c = d).
    { destruct Hinv as [[Hsame _] | (_ & _ & [-> | ->])]; [exact Hsame| |];
        destruct Hfg as [Hfg | Hfg]; discriminate Hfg. }
    subst d. split; [intros [H | H]; discriminate H|].
    split; [|reflexivity]. destruct f; reflexivity.
Qed.

(** The theorem after the first [Wait()]. *)
Lemma step_runs_while_worker_is_paused_witness :
  ~ worker_busy (mkState false false false 0 FgBeforeStep WkWaiting 0 0)
  /\ act (mkState false false false 0 FgBeforeStep WkWaiting 0 0) WkWake = None.
Proof.
  destruct (step_runs_while_worker_is_paused false [FgWaitReturn]
              (mkState false false false 0 FgBeforeStep WkWaiting 0 0)
              ltac:(reflexivity) ltac:(left; reflexivity))
    as (Hbusy & Hwake & _).
  split; [exact Hbusy | exact Hwake].
Defined.

(** X2: once the destructor has set [terminate], the worker starts no
    other calculation, and it can always leave its loop, which is what
    [calcThread.join()] waits for: wherever the two threads are, at most
    three actions of the worker alone bring it to the exit, and at most
    the calculation that was in progress is completed. *)
Theorem destructor_joins_the_worker (s : State) :
  terminate s = true ->
  act s WkWake = None
  /\ exists rest s',
       (length rest <= 3)%nat
       /\ forallb is_worker_action rest = true
       /\ run s rest = Some s'
       /\ wk s' = WkExited
       /\ (calculated s' <= S (calculated s))%nat
       /\ terminate s' = true.
Proof.
  intros Hterm. destruct s as [c d t n f w g k]. simpl in Hterm. subst t.
  split.
  { unfold act. simpl. destruct f, w; try reflexivity;
      rewrite orb_true_r; reflexivity. }
  destruct w;
    [exists [WkExit] | exists [WkCalcDone; WkPublish; WkExit]
     | exists [WkPublish; WkExit] | exists []];
    destruct f; eexists;
    (split; [simpl; lia|]); (split; [reflexivity|]);
    (split; [reflexivity|]); (split; [reflexivity|]);
    (split; [simpl; lia | reflexivity]).
Qed.

(** The theorem for a destructor that runs while the first calculation
    is in progress. *)
Lemma destructor_joins_the_worker_witness :
  exists rest s',
    run (mkState false true true 1 FgDestroyed WkCalculating 1 0) rest = Some s'
    /\ wk s' = WkExited /\ (calculated s' <= 1)%nat.
Proof.
  destruct (destructor_joins_the_worker
              (mkState false true true 1 FgDestroyed WkCalculating 1 0)
              ltac:(reflexivity))
    as (_ & rest & s' & _ & _ & Hrun & Hwk & Hcalc & _).
  exists rest, s'. split; [exact Hrun|]. split; [exact Hwk | exact Hcalc].
Defined.

End TeardownProps.

(* ===================================================================== *)
(** * Further properties of a step                                        *)
(* ===================================================================== *)

Module EngineProps.
Import Model Code Terms MoreTerms CollisionProps.

Section Engine.
Context `{Collaborators}.

(** ** EnterSystem *)

(** X3: [EnterSystem] with a flagship asks for the jump event, forgets
    every request for help, and empties the lists of projectiles, visuals
    and flotsam, the new ones of this step included; it takes no ship
    and no message away, and it leaves the new ships, the queued events
    and the cool-down of the requests as they are.  Without a flagship
    nothing but the collaborators' state changes. *)
Theorem entering_a_system_clears_the_battlefield (e e' : Engine) :
  EnterSystem e = Ok e' ->
  match flagship e with
  | None => e' = set_world (AIClean (world e)) e
  | Some _ =>
      doEnter e' = true /\ grudge e' = ∅
      /\ (projectiles e', visuals e', flotsam e') = ([], [], [])
      /\ (newProjectiles e', newVisuals e', newFlotsam e') = ([], [], [])
      /\ newShips e' = newShips e
      /\ (exists placed, ships e' = ships e ++ placed)
      /\ (exists said, messages e' = messages e ++ said)
      /\ eventQueue e' = eventQueue e
      /\ grudgeTime e' = grudgeTime e
      /\ playerSystem e' = playerSystem e
  end.
Proof.
  intros Hrun. unfold EnterSystem in Hrun.
  destruct e as [w0 ps fl st hp sh nsh pr npr fo nfo vi nvi ham ev gr gt sc cc
                 ms dr de df tr].
  cbn [flagship set_world] in Hrun |- *.
  destruct fl as [f|].
  - destruct (deref _ f) as [fs0|]; [|discriminate].
    unfold bind in Hrun at 1. cbv zeta in Hrun.
    cbn [world heap set_doEnter] in Hrun.
    destruct (Arrive _ _ f) as [[h said] w].
    cbn [set_world set_heap set_messages messages] in Hrun.
    destruct (deref _ f) as [fs|]; [|discriminate].
    unfold bind in Hrun. cbn [world heap] in Hrun.
    destruct (PlaceFleets _ _ _) as [[[h' placed] said'] w'].
    injection Hrun as <-. cbn.
    repeat split; try reflexivity.
    + exists placed. reflexivity.
    + eexists. rewrite <- !app_assoc. reflexivity.
  - injection Hrun as <-. reflexivity.
Qed.


(** ** FillCollisionSets *)

Lemma FillCollisionSets_exact filling : forall e e1,
  for_each
    (fun e id =>
       let* it := deref e id in
       if same (Ship.GetSystem it) (playerSystem e) && Qeq_bool (Ship.Zoom it) 1
       then if Qltb (Ship.Cloaking it) 1
            then Ok (set_shipCollisions (shipCollisions e ++ [id]) e)
            else Ok (set_cloakedCollisions (cloakedCollisions e ++ [id]) e)
       else Ok e) filling e = Ok e1 ->
  e1 = set_cloakedCollisions
         (cloakedCollisions e ++ List.filter (cloaked_here e) filling)
         (set_shipCollisions
            (shipCollisions e ++ List.filter (visible_here e) filling) e).
Proof.
  induction filling as [|id0 rest IH]; intros e e1 Hrun; simpl in Hrun.
  - injection Hrun as <-. simpl. rewrite !app_nil_r. destruct e; reflexivity.
  - unfold deref in Hrun at 1. simpl.
    unfold visible_here at 1, cloaked_here at 1.
    destruct (heap e !! id0) as [it|] eqn:Hit; [|discriminate].
    simpl in Hrun. fold (collidable e it) in Hrun.
    destruct (collidable e it) eqn:Hcol;
      [destruct (Qltb (Ship.Cloaking it) 1)|];
      apply IH in Hrun; subst e1; simpl;
      destruct e; simpl; rewrite <- ?app_assoc; reflexivity.
Qed.

(** X4: [FillCollisionSets] rebuilds both collision sets from the list
    of ships: the ships in the player's system at full zoom, in the order
    of the list, those cloaked less than fully in [shipCollisions] and
    the fully cloaked ones in [cloakedCollisions].  What the sets held
    before is dropped, no ship is in both, and nothing else changes. *)
Theorem collision_sets_are_rebuilt (e e1 : Engine) :
  FillCollisionSets e = Ok e1 ->
  e1 = set_cloakedCollisions (List.filter (cloaked_here e) (ships e))
         (set_shipCollisions (List.filter (visible_here e) (ships e)) e)
  /\ forall id, ~ (In id (shipCollisions e1) /\ In id (cloakedCollisions e1)).
Proof.
  intros Hrun. unfold FillCollisionSets in Hrun.
  apply FillCollisionSets_exact in Hrun.
  assert (He1 : e1 = set_cloakedCollisions
                       (List.filter (cloaked_here e) (ships e))
                       (set_shipCollisions
                          (List.filter (visible_here e) (ships e)) e)).
  { rewrite Hrun. destruct e; reflexivity. }
  split; [exact He1|].
  intros id [Hv Hc]. rewrite He1 in Hv, Hc. simpl in Hv, Hc.
  apply List.filter_In in Hv as [_ Hv]. apply List.filter_In in Hc as [_ Hc].
  unfold visible_here in Hv. unfold cloaked_here in Hc.
  destruct (heap e !! id) as [s|]; [|discriminate].
  destruct (Qltb (Ship.Cloaking s) 1);
    [rewrite andb_false_r in Hc | rewrite andb_false_r in Hv]; discriminate.
Qed.


(** ** The end of a step *)

Lemma store_of_staged e e' :
  store_of e' = store_of e ->
  staged_of e' = staged_of e /\ hasAntiMissile e' = hasAntiMissile e.
Proof.
  unfold store_of, staged_of. intros Hstore.
  injection Hstore as _ _ _ _ -> _ -> _ -> -> -> _ _ _ _ _. auto.
Qed.

Lemma CollideAll_staged colliding : forall e e',
  for_each
    (fun e projectile =>
       let* (e, projectile) := DoCollisions e projectile in
       Ok (set_projectiles (projectiles e ++ [projectile]) e))
    colliding e = Ok e' ->
  staged_of e' = staged_of e /\ hasAntiMissile e' = hasAntiMissile e.
Proof.
  induction colliding as [|p rest IH]; intros e e' Hrun; simpl in Hrun.
  - injection Hrun as <-. auto.
  - destruct (DoCollisions e p) as [[e1 p']|] eqn:Hone; simpl in Hrun;
      [|discriminate].
    apply IH in Hrun as [Hs Ha]. unfold staged_of in Hs. simpl in Hs, Ha.
    destruct (DoCollisions_calls _ _ _ _ Hone)
      as (_ & _ & _ & _ & _ & _ & _ & _ & _ & _ & _ & Hstore).
    apply store_of_staged in Hstore as [Hs1 Ha1].
    unfold staged_of in *. split; congruence.
Qed.

Lemma CollectAll_staged collecting : forall e e',
  for_each
    (fun e it =>
       let* (e, it) := DoCollection e it in
       Ok (set_flotsam (flotsam e ++ [it]) e))
    collecting e = Ok e' ->
  staged_of e' = staged_of e /\ hasAntiMissile e' = hasAntiMissile e.
Proof.
  induction collecting as [|f rest IH]; intros e e' Hrun; simpl in Hrun.
  - injection Hrun as <-. auto.
  - destruct (DoCollection e f) as [[e1 f']|] eqn:Hone; simpl in Hrun;
      [|discriminate].
    apply IH in Hrun as [Hs Ha]. unfold staged_of in Hs. simpl in Hs, Ha.
    destruct (StepProps.DoCollection_frame _ _ _ _ Hone) as (Hstore & _).
    apply store_of_staged in Hstore as [Hs1 Ha1].
    unfold staged_of in *. split; congruence.
Qed.

Lemma AfterMerge_staged e e' :
  AfterMerge e = Ok e' ->
  staged_of e' = staged_of e /\ hasAntiMissile e' = [].
Proof.
  intros Hrun. unfold AfterMerge in Hrun. cbv zeta in Hrun.
  apply StepProps.bind_inv in Hrun as (e1 & Hfill & Hrun).
  apply StepProps.bind_inv in Hrun as (e2 & Hcollide & Hrun).
  apply StepProps.bind_inv in Hrun as (e4 & Hcollect & Hrun).
  apply StepProps.bind_inv in Hrun as (e5 & Hscan & Hrun).
  apply StepProps.FillCollisionSets_frame in Hfill
    as (visible & cloaked & He1 & _).
  apply CollideAll_staged in Hcollide as [Hs2 _].
  apply CollectAll_staged in Hcollect as [Hs4 Ha4].
  apply StepProps.DoScannings_frame in Hscan as (Hstore5 & _).
  apply store_of_staged in Hstore5 as [Hs5 Ha5].
  apply StepProps.DrawAll_frame in Hrun as (w & drawn & He' & _).
  assert (Hs' : staged_of e' = staged_of e5) by (rewrite He'; reflexivity).
  assert (Ha' : hasAntiMissile e' = hasAntiMissile e5)
    by (rewrite He'; reflexivity).
  assert (Hs1 : staged_of e1 = staged_of e) by (rewrite He1; reflexivity).
  unfold staged_of in *. simpl in Hs2, Hs4, Ha4.
  split; congruence.
Qed.

(** X5: a step that ends in a system leaves the four lists of new objects
    and the list of anti-missile-ready ships empty: what a step stages is
    merged in that step, and no ship stays ready for the next one. *)
Theorem a_step_leaves_nothing_staged (e e' : Engine) (system : SystemId) :
  playerSystem e = Some system ->
  CalculateStep e = Ok e' ->
  newShips e' = [] /\ newProjectiles e' = [] /\ newFlotsam e' = []
  /\ newVisuals e' = [] /\ hasAntiMissile e' = [].
Proof.
  intros Hsystem Hrun.
  destruct (StepProps.CalculateStep_inv _ _ _ Hsystem Hrun)
    as (m & _ & Hafter).
  apply AfterMerge_staged in Hafter as [Hs Ha].
  unfold staged_of, Merge, Append in Hs. simpl in Hs.
  injection Hs as -> -> -> ->. auto.
Qed.


(** ** SendHails *)

(** X6: [SendHails] adds at most one message, and only for a ship of the
    list that is not the player's, is in the player's system, is not
    disabled, has crew and is not fully cloaked; the message ends with
    the hail the ship gave, which is not empty.  It moves, adds and
    removes nothing, and changes no ship. *)
Theorem hails_come_from_ships_that_can_talk (e e' : Engine) :
  SendHails e = Ok e' ->
  store_of e' = store_of e /\ heap e' = heap e
  /\ eventQueue e' = eventQueue e /\ trace e' = trace e
  /\ (messages e' = messages e
      \/ exists id source w tag,
           In id (ships e) /\ heap e !! id = Some source
           /\ can_hail e source
           /\ fst (GetHail w source) <> EmptyString
           /\ messages e'
              = messages e ++ [String.append tag (fst (GetHail w source))]).
Proof.
  intros Hrun. unfold SendHails in Hrun.
  destruct (RandomInt (world e) 600) as [r w]. cbv zeta in Hrun.
  cbn [world ships set_world] in Hrun.
  destruct (negb (r =? 0) || PlayerIsDead w || is_null (head (ships e))).
  { injection Hrun as <-. repeat split; auto. }
  destruct (RandomInt w _) as [i w'].
  cbn [world ships set_world] in Hrun.
  destruct (ships e !! Z.to_nat i) as [id|] eqn:Hid; [|discriminate].
  unfold deref in Hrun. cbn [heap set_world] in Hrun.
  destruct (heap e !! id) as [source|] eqn:Hsource; [|discriminate].
  unfold bind in Hrun. cbn [playerSystem world set_world] in Hrun.
  destruct (Government.IsPlayer _) eqn:Hplayer.
  { injection Hrun as <-. repeat split; auto. }
  destruct (same (Ship.GetSystem source) (playerSystem e)) eqn:Hhere;
    cbn [negb] in Hrun.
  2: { injection Hrun as <-. repeat split; auto. }
  destruct (Ship.IsDisabled source) eqn:Hdisabled; cbn [orb] in Hrun.
  { injection Hrun as <-. repeat split; auto. }
  destruct (Ship.Crew source =? 0) eqn:Hcrew; cbn [orb] in Hrun.
  { injection Hrun as <-. repeat split; auto. }
  destruct (Qle_bool 1 (Ship.Cloaking source)) eqn:Hcloak.
  { injection Hrun as <-. repeat split; auto. }
  destruct (GetHail w' source) as [message w''] eqn:Hhail.
  cbn [set_world] in Hrun.
  destruct (String.eqb message EmptyString) eqn:Hempty.
  { injection Hrun as <-. repeat split; auto. }
  injection Hrun as <-. repeat split; try reflexivity.
  right. exists id, source, w'. eexists.
  split; [apply list_elem_of_In; eapply list_elem_of_lookup_2; exact Hid|].
  split; [exact Hsource|]. split.
  { unfold can_hail. repeat split; auto.
    - unfold same in Hhere. apply bool_decide_eq_true in Hhere. exact Hhere.
    - apply Z.eqb_neq. exact Hcrew.
    - unfold Qltb. rewrite Hcloak. reflexivity. }
  rewrite Hhail. simpl. split; [|reflexivity].
  intros ->. discriminate Hempty.
Qed.

(** X7: [ships.size()] ships are in the list when the hailing ship is
    drawn; as long as [Random::Int(n)] answers below [n] and every ship
    of the list is alive, the loop of lines 1387-1392 finds the ship and
    [SendHails] dereferences no null pointer. *)
Theorem hails_find_their_ship (e : Engine) :
  draws_in_range ->
  (forall id, In id (ships e) -> is_Some (heap e !! id)) ->
  exists e', SendHails e = Ok e'.
Proof.
  intros Hrange Halive. unfold SendHails.
  destruct (RandomInt (world e) 600) as [r w]. cbv zeta.
  cbn [world ships set_world].
  destruct (ships e) as [|id0 rest] eqn:Hships.
  { rewrite orb_true_r. eexists. reflexivity. }
  destruct (negb (r =? 0) || PlayerIsDead w || is_null (head (id0 :: rest)));
    [eexists; reflexivity|].
  pose proof (Hrange w (Z.of_nat (length (id0 :: rest)))
                ltac:(simpl; lia)) as Hi.
  destruct (RandomInt w _) as [i w']. cbn [fst] in Hi.
  cbn [world ships set_world].
  destruct (lookup_lt_is_Some_2 (id0 :: rest) (Z.to_nat i) ltac:(lia))
    as [id Hid].
  rewrite Hid.
  destruct (Halive id) as [source Hsource].
  { apply list_elem_of_In. eapply list_elem_of_lookup_2. exact Hid. }
  unfold deref. cbn [heap set_world]. rewrite Hsource. unfold bind.
  repeat match goal with
         | |- exists _, (if ?b then _ else _) = _ => destruct b
         | |- exists _, (let '(_, _) := ?p in _) = _ => destruct p
         end; eexists; reflexivity.
Qed.


(** ** DoGrudge, when the player is the attacker *)

(** X8: the player damages a ship of the government [gov] for which no
    requester is recorded, or whose requester is alive, in the system
    and able (who then says thank you).  No ship is changed and the
    cool-down is not touched; afterwards the table holds an entry with a
    null pointer for [gov], so that no attack by a ship of [gov] raises a
    request any more: "someone has already said thank you today". *)
Theorem thanks_end_the_requests (e e' : Engine) (target : ShipId) (t : Ship.t)
  (attacker : GovId) :
  heap e !! target = Some t ->
  Government.IsPlayer (government attacker) = true ->
  Government.IsPlayer (government (Ship.GetGovernment t)) = false ->
  grudge e !! Ship.GetGovernment t = None
  \/ requester_active e (Ship.GetGovernment t) ->
  DoGrudge e target (Some attacker) = Ok e' ->
  heap e' = heap e /\ grudgeTime e' = grudgeTime e
  /\ grudge e' !! Ship.GetGovernment t = Some None
  /\ (requester_active e (Ship.GetGovernment t) ->
      exists previous, messages e' = messages e ++ [thanks e previous])
  /\ forall victim v,
       heap e' !! victim = Some v ->
       DoGrudge e' victim (Some (Ship.GetGovernment t)) = Ok e'.
Proof.
  intros Ht Hplayer Hgov Hentry Hrun.
  assert (Hfacts : heap e' = heap e /\ grudgeTime e' = grudgeTime e
                   /\ grudge e' !! Ship.GetGovernment t = Some None
                   /\ (requester_active e (Ship.GetGovernment t) ->
                       exists previous,
                         messages e' = messages e ++ [thanks e previous])).
  { unfold DoGrudge in Hrun. rewrite (GrudgeProps.deref_Some _ _ _ Ht) in Hrun.
    unfold bind in Hrun at 1. rewrite Hplayer in Hrun. cbv zeta in Hrun.
    destruct Hentry as [Hnone | (requester & s & Hsome & Hs & Hable)].
    - rewrite Hnone in Hrun. simpl in Hrun. injection Hrun as <-. simpl.
      split; [reflexivity|]. split; [reflexivity|].
      split; [apply lookup_insert_eq|].
      intros (requester & s & Hsome & _). congruence.
    - rewrite Hsome in Hrun. simpl in Hrun. rewrite Hs in Hrun.
      simpl in Hrun.
      rewrite (GrudgeProps.deref_Some _ _ s) in Hrun by exact Hs.
      simpl in Hrun.
      match type of Hrun with
      | context [present_and_able ?x s] =>
          change (present_and_able x s) with (present_and_able e s) in Hrun
      end.
      rewrite Hable in Hrun. injection Hrun as <-. simpl.
      split; [reflexivity|]. split; [reflexivity|].
      split; [apply lookup_insert_eq|].
      intros _. exists s. reflexivity. }
  destruct Hfacts as (Hheap & Htime & Hnull & Hthanks).
  split; [exact Hheap|]. split; [exact Htime|]. split; [exact Hnull|].
  split; [exact Hthanks|].
  intros victim v Hv. apply (GrudgeProps.DoGrudge_expired _ _ v);
    [exact Hv | exact Hgov|].
  exists None. split; [exact Hnull | reflexivity].
Qed.


(** ** DoCollisions: when the anti-missile systems are not asked *)

Lemma Blast_calls projectile hit bodies e e' :
  for_each (Blast projectile hit) bodies e = Ok e' ->
  exists added,
    trace e' = trace e ++ added
    /\ Forall (fun c => exists id isBlast, c = CTakeDamage id isBlast) added.
Proof.
  intros Hrun.
  destruct (Blast_loop _ _ _ _ _ Hrun) as (added & Htrace & _ & Hcalls & _).
  exists added. split; [exact Htrace|].
  apply List.Forall_forall. intros c Hc.
  destruct (Hcalls c Hc) as (id & -> & _). eauto.
Qed.

(** X9: the anti-missile systems are asked only about a projectile with
    missile strength that hits nothing in this step.  For every other
    projectile [DoCollisions] calls no [FireAntiMissile] and no [Kill];
    and one that neither hits nor has missile strength is left as it is,
    with nothing changed but what the search changed. *)
Theorem anti_missile_is_the_last_resort (e e' e1 : Engine)
  (projectile projectile' : Projectile.t) (closestHit : Q)
  (hit : option ShipId) (hitVelocity : Point.t) :
  DoCollisions e projectile = Ok (e', projectile') ->
  FindHit (log (CDoCollisions projectile) e) projectile
  = Ok (e1, closestHit, hit, hitVelocity) ->
  Qltb closestHit 1 = true \/ Projectile.MissileStrength projectile = 0 ->
  (exists added,
     trace e' = trace e1 ++ added
     /\ Forall (fun c => match c with
                         | CFireAntiMissile _ | CKill => False
                         | _ => True
                         end) added)
  /\ (Qltb closestHit 1 = false -> e' = e1 /\ projectile' = projectile).
Proof.
  intros Hrun Hfind Hcase.
  apply DoCollisions_inv in Hrun
    as (e1' & closestHit' & hit' & hitVelocity' & Hfind' & Hrest).
  rewrite Hfind in Hfind'. injection Hfind' as <- <- <- <-.
  destruct (Qltb closestHit 1) eqn:Hc.
  - split; [|discriminate]. cbv zeta in Hrest.
    destruct Hrest as (_ & e3 & Hdamage & Hgrudge).
    assert (H3 : exists added,
               trace e3 = trace e1 ++ CExplode closestHit :: added
               /\ Forall (fun c => match c with
                                   | CFireAntiMissile _ | CKill => False
                                   | _ => True
                                   end) added).
    { destruct (Qnonzero _).
      - apply BlastAll_inv in Hdamage as (mid & Hvisible & Hcloaked & _).
        apply Blast_calls in Hvisible as (added1 & Ht1 & Hall1).
        apply Blast_calls in Hcloaked as (added2 & Ht2 & Hall2).
        simpl in Ht1, Ht2. eexists. split.
        + rewrite Ht2, Ht1. repeat (simpl; rewrite <- ?app_assoc).
          reflexivity.
        + apply Forall_cons; split; [exact I|].
          apply Forall_app. split.
          * eapply List.Forall_impl; [|exact Hall1].
            intros c (id & b & ->). exact I.
          * apply Forall_cons; split; [exact I|].
            eapply List.Forall_impl; [|exact Hall2].
            intros c (id & b & ->). exact I.
      - destruct hit as [h|].
        + apply Damage_inv in Hdamage as (s & _ & Ht & _). simpl in Ht.
          eexists. split; [rewrite Ht, <- app_assoc; reflexivity|].
          repeat constructor.
        + subst e3. exists []. simpl. split; [reflexivity | constructor]. }
    destruct H3 as (added & Ht3 & Hall3).
    exists (CExplode closestHit :: added). split.
    + destruct hit as [h|]; [|subst e'; exact Ht3].
      apply DoGrudge_frame in Hgrudge as (-> & _). exact Ht3.
    + constructor; [exact I | exact Hall3].
  - destruct Hcase as [Hcase | Hzero]; [discriminate|].
    rewrite Hzero in Hrest. simpl in Hrest. destruct Hrest as [-> ->].
    split; [|auto]. exists []. rewrite app_nil_r.
    split; [reflexivity | constructor].
Qed.


(** ** The draw list, bottom to top *)

Lemma AddSprites_layers e id ship :
  exists parts,
    AddSprites e id ship = set_draw (draw e ++ parts) e
    /\ Forall (fun d => ship_of d = Some id) parts
    /\ In (DrawShip id) parts.
Proof.
  unfold AddSprites. destruct (ShipParts ship) as [below above].
  eexists. split; [reflexivity|]. split.
  - apply Forall_app. split; [|apply Forall_app; split].
    + apply List.Forall_forall. intros d Hd.
      apply in_map_iff in Hd as (tag & <- & _). reflexivity.
    + repeat constructor.
    + apply List.Forall_forall. intros d Hd.
      apply in_map_iff in Hd as (tag & <- & _). reflexivity.
  - apply in_or_app. right. left. reflexivity.
Qed.

Lemma DrawShips_layers drawing : forall e e',
  for_each
    (fun e id =>
       let* ship := deref e id in
       if same (Ship.GetSystem ship) (playerSystem e) && Ship.HasSprite ship
          && negb (same (Some id) (flagship e))
       then Ok (set_world (FlareSounds (world e) ship) (AddSprites e id ship))
       else Ok e)
    drawing e = Ok e' ->
  exists w parts,
    e' = set_world w (set_draw (draw e ++ parts) e)
    /\ Forall (fun d => exists id s,
                 ship_of d = Some id /\ In id drawing
                 /\ Some id <> flagship e
                 /\ heap e !! id = Some s /\ drawable e s = true) parts.
Proof.
  induction drawing as [|id0 rest IH]; intros e e' Hrun; simpl in Hrun.
  - injection Hrun as <-. exists (world e), []. rewrite app_nil_r.
    split; [destruct e; reflexivity | constructor].
  - unfold deref in Hrun at 1.
    destruct (heap e !! id0) as [ship|] eqn:Hship; [|discriminate].
    simpl in Hrun. fold (drawable e ship) in Hrun.
    destruct (drawable e ship) eqn:Hd; simpl in Hrun.
    + destruct (same (Some id0) (flagship e)) eqn:Hf; simpl in Hrun.
      * apply IH in Hrun as (w & parts & -> & Hall).
        exists w, parts. split; [reflexivity|].
        eapply List.Forall_impl; [|exact Hall].
        intros d (id & s & ? & ? & ? & ? & ?). exists id, s.
        repeat split; auto. right. assumption.
      * destruct (AddSprites_layers e id0 ship) as (parts0 & Hadd & Hall0 & _).
        rewrite Hadd in Hrun.
        apply IH in Hrun as (w & parts & -> & Hall). simpl in Hall.
        exists w, (parts0 ++ parts). split.
        { destruct e. simpl. rewrite <- app_assoc. reflexivity. }
        apply Forall_app. split.
        { eapply List.Forall_impl; [|exact Hall0].
          intros d Hd0. exists id0, ship. repeat split; auto.
          - left. reflexivity.
          - unfold same in Hf. apply bool_decide_eq_false in Hf. exact Hf. }
        eapply List.Forall_impl; [|exact Hall].
        intros d (id & s & ? & ? & ? & ? & ?). exists id, s.
        repeat split; auto. right. assumption.
    + apply IH in Hrun as (w & parts & -> & Hall).
      exists w, parts. split; [reflexivity|].
      eapply List.Forall_impl; [|exact Hall].
      intros d (id & s & ? & ? & ? & ? & ?). exists id, s.
      repeat split; auto. right. assumption.
Qed.

Lemma DrawFlagship_layers e e' :
  match flagship e with
  | Some f =>
      let* ship := deref e f in
      if Ship.HasSprite ship
      then Ok (set_world (FlareSounds (world e) ship) (AddSprites e f ship))
      else Ok e
  | None => Ok e
  end = Ok e' ->
  exists w top,
    e' = set_world w (set_draw (draw e ++ top) e)
    /\ Forall (fun d => exists f, flagship e = Some f /\ ship_of d = Some f) top.
Proof.
  intros Hrun. destruct (flagship e) as [f|] eqn:Hflag.
  - unfold deref in Hrun.
    destruct (heap e !! f) as [ship|] eqn:Hship; [|discriminate].
    simpl in Hrun. destruct (Ship.HasSprite ship) eqn:Hsprite.
    + destruct (AddSprites_layers e f ship) as (parts & Hadd & Hall & _).
      rewrite Hadd in Hrun. injection Hrun as <-.
      exists (FlareSounds (world e) ship), parts. split; [reflexivity|].
      eapply List.Forall_impl; [|exact Hall]. intros d Hd. eauto.
    + injection Hrun as <-. exists (world e), []. rewrite app_nil_r.
      split; [destruct e; reflexivity | constructor].
  - injection Hrun as <-. exists (world e), []. rewrite app_nil_r.
    split; [destruct e; reflexivity | constructor].
Qed.

(** X10: the layers of the draw list, from the bottom: the objects of the
    system, the asteroids, the flotsam, the ships other than the
    flagship (those in the player's system that have a sprite), the
    flagship on top of them, then the projectiles and above everything
    the visuals.  No sprite of the flagship is under a sprite of another
    ship. *)
Theorem the_flagship_is_drawn_on_top (e e' : Engine) :
  DrawAll e = Ok e' ->
  exists system w others top,
    playerSystem e = Some system
    /\ draw e' = draw e ++ Objects w system ++ AsteroidsDraw w
                 ++ map DrawFlotsam (flotsam e) ++ others ++ top
                 ++ map DrawProjectile (projectiles e)
                 ++ map DrawVisual (visuals e)
    /\ Forall (fun d => exists id s,
                 ship_of d = Some id /\ In id (ships e)
                 /\ Some id <> flagship e
                 /\ heap e !! id = Some s /\ drawable e s = true) others
    /\ Forall (fun d => exists f, flagship e = Some f /\ ship_of d = Some f)
              top.
Proof.
  intros Hrun. unfold DrawAll in Hrun. cbv zeta in Hrun.
  destruct (playerSystem (set_world _ e)) as [system|] eqn:Hsystem;
    [|discriminate].
  apply StepProps.bind_inv in Hrun as (e1 & Hships & Hrun).
  apply StepProps.bind_inv in Hrun as (e2 & Hflag & Hrun).
  injection Hrun as <-.
  apply DrawShips_layers in Hships as (w1 & parts & He1 & Hall1).
  apply DrawFlagship_layers in Hflag as (w2 & top & He2 & Hall2).
  subst e2 e1. simpl in Hall1, Hall2, Hsystem.
  exists system, (Radar (world e) (heap e) (ships e) (projectiles e)),
         parts, top.
  split; [exact Hsystem|].
  split; [destruct e; simpl; rewrite <- !app_assoc; reflexivity|].
  split; [exact Hall1 | exact Hall2].
Qed.


(** ** SpawnPersons *)

Lemma pick_person_positive e system persons : forall r it,
  Forall (fun it => 0 <= Frequency (heap e) (snd it) system < 2 ^ 31) persons ->
  0 <= r < 2 ^ 31 ->
  pick_person e system r persons = Some it ->
  In it persons /\ 0 < Frequency (heap e) (snd it) system.
Proof.
  induction persons as [|a rest IH]; intros r it Hall Hr Hpick;
    simpl in Hpick; [discriminate|].
  apply Forall_cons_1 in Hall as [Ha Hrest].
  rewrite SpawnProps.wrap32_small in Hpick by lia.
  destruct (Z.ltb_spec (r - Frequency (heap e) (snd a) system) 0).
  - injection Hpick as <-. split; [left; reflexivity | lia].
  - assert (Hr' : 0 <= r - Frequency (heap e) (snd a) system < 2 ^ 31) by lia.
    destruct (IH _ it Hrest Hr' Hpick) as [Hin Hpos].
    split; [right; exact Hin | exact Hpos].
Qed.

Lemma pick_person_heap e1 e2 system persons :
  heap e1 = heap e2 ->
  forall r, pick_person e1 system r persons = pick_person e2 system r persons.
Proof.
  intros Hheap. induction persons as [|a rest IH]; intros r; simpl;
    [reflexivity|].
  rewrite Hheap, IH. reflexivity.
Qed.

(** X11: [SpawnPersons] brings in at most one person per step, one of
    [GameData::Persons()] whose frequency for the player's system is
    positive: a person who is not eligible there never appears.  (The
    frequencies are not negative, their sum plus 1000 fits an [int], and
    [Random::Int(n)] answers below [n].) *)
Theorem only_eligible_persons_appear (e e' : Engine) (system : SystemId) :
  draws_in_range ->
  playerSystem e = Some system ->
  Forall (fun it => 0 <= Frequency (heap e) (snd it) system) Persons ->
  frequency_sum e system Persons + 1000 < 2 ^ 31 ->
  SpawnPersons e = Ok e' ->
  (trace e' = trace e /\ newShips e' = newShips e)
  \/ exists name person,
       In (name, person) Persons
       /\ 0 < Frequency (heap e) person system
       /\ trace e' = trace e ++ [CPersonEnter name]
       /\ newShips e' = newShips e ++ [Person.GetShip person].
Proof.
  intros Hrange Hsystem Hnn Hfit Hrun. unfold SpawnPersons in Hrun.
  destruct (RandomInt (world e) 36000) as [gate w]. cbv zeta in Hrun.
  cbn [playerSystem set_world] in Hrun. rewrite Hsystem in Hrun.
  destruct (negb (gate =? 0) || Links_empty system).
  { injection Hrun as <-. left. auto. }
  change (total_frequency (set_world w e) system Persons)
    with (total_frequency e system Persons) in Hrun.
  pose proof (SpawnProps.frequency_sum_nonneg e system Persons Hnn) as Hsum.
  rewrite (SpawnProps.total_frequency_sum e system Persons Hnn) in Hrun
    by lia.
  destruct (frequency_sum e system Persons =? 0).
  { injection Hrun as <-. left. auto. }
  rewrite SpawnProps.wrap32_small in Hrun by lia.
  assert (Hn : to_uint32 (frequency_sum e system Persons + 1000)
               = frequency_sum e system Persons + 1000).
  { unfold to_uint32. apply Z.mod_small. lia. }
  rewrite Hn in Hrun. cbn [world set_world] in Hrun.
  assert (Hpos : 0 < frequency_sum e system Persons + 1000) by lia.
  pose proof (Hrange w (frequency_sum e system Persons + 1000) Hpos) as Hr.
  destruct (RandomInt w _) as [r w']. cbn [fst] in Hr.
  rewrite SpawnProps.wrap32_small in Hrun by lia.
  rewrite (pick_person_heap (set_world w e) e) in Hrun by reflexivity.
  destruct (pick_person e system r Persons) as [[name person]|] eqn:Hpick.
  - assert (Hbound : Forall (fun it => 0 <= Frequency (heap e) (snd it) system
                                       < 2 ^ 31) Persons).
    { clear - Hnn Hfit. revert Hfit.
      induction Hnn as [|it rest Hit Hrest IH]; intros Hfit; [constructor|].
      simpl in Hfit.
      pose proof (SpawnProps.frequency_sum_nonneg e system rest Hrest).
      constructor; [lia | apply IH; lia]. }
    assert (Hr' : 0 <= r < 2 ^ 31) by lia.
    destruct (pick_person_positive _ _ _ _ _ Hbound Hr' Hpick)
      as [Hin Hfrequent].
    simpl in Hfrequent.
    destruct (deref _ _) as [ship|]; [|discriminate].
    unfold bind in Hrun.
    destruct (FleetEnterShip _ system _) as [ship' w''].
    injection Hrun as <-. right. exists name, person. auto.
  - injection Hrun as <-. left. auto.
Qed.

(** ** MoveShip *)

Lemma AutoBoard_events e id ship e' :
  AutoBoard e id ship = Ok e' ->
  newShips e' = newShips e /\ newProjectiles e' = newProjectiles e
  /\ hasAntiMissile e' = hasAntiMissile e
  /\ (eventQueue e' = eventQueue e
      \/ exists victim type,
           eventQueue e' = eventQueue e ++ [EventByShip id victim type]
           /\ (type = BOARD \/ type = ASSIST)).
Proof.
  intros Hrun. unfold AutoBoard in Hrun.
  destruct e as [w0 ps fl st hp sh nsh pr npr fo nfo vi nvi ham ev gr gt sc cc
                 ms dr de df tr].
  unfold deref, emit in Hrun. simpl in Hrun.
  break_runs; engine_fields; repeat (split; [reflexivity|]);
    first [left; reflexivity
          |right; do 2 eexists; split; [reflexivity|auto]].
Qed.

(** X12: a ship that is to be removed after its move has its
    destruction queued, once, and does nothing more in this step: it
    boards nobody, launches nothing and does not fire.  A ship that lives
    on queues at most one event, for the ship it boarded or assisted. *)
Theorem a_dying_ship_only_reports_its_death (e e' : Engine) (id : ShipId)
  (ship : Ship.t) :
  heap e !! id = Some ship ->
  MoveShip e id = Ok e' ->
  exists events,
    eventQueue e' = eventQueue e ++ events
    /\ if Ship.ShouldBeRemoved (fst (fst (fst (ShipMove (world e) ship))))
       then events = [EventByGovernment None id DESTROY]
            /\ heap e'
               = <[id := fst (fst (fst (ShipMove (world e) ship)))]> (heap e)
            /\ newShips e' = newShips e
            /\ newProjectiles e' = newProjectiles e
            /\ hasAntiMissile e' = hasAntiMissile e
       else events = []
            \/ exists victim type,
                 events = [EventByShip id victim type]
                 /\ (type = BOARD \/ type = ASSIST).
Proof.
  intros Hship Hrun. unfold MoveShip in Hrun.
  rewrite (GrudgeProps.deref_Some _ _ ship) in Hrun by exact Hship.
  cbn [bind] in Hrun.
  match type of Hrun with
  | bind ?m _ = _ => destruct m as [wasHere|]; cbn [bind] in Hrun;
                     [|discriminate]
  end.
  destruct (ShipMove (world e) ship) as [[[moved vs] fs] w].
  cbn [fst]. cbv zeta in Hrun.
  destruct (Ship.ShouldBeRemoved moved).
  { injection Hrun as <-. eexists. split; [|split; [reflexivity|]].
    - destruct e; reflexivity.
    - destruct e; repeat split; reflexivity. }
  match type of Hrun with
  | bind (JumpSounds ?e0 _ _ _ _ _) _ = _ =>
      assert (Hqueue : eventQueue e0 = eventQueue e) by (destruct e; reflexivity);
      destruct (JumpSounds e0 id moved (Ship.IsUsingJumpDrive ship) wasHere
                  (Ship.IsHyperspacing ship)) as [e2|] eqn:Hsounds;
      cbn [bind] in Hrun; [|discriminate]
  end.
  destruct (AutoBoard e2 id moved) as [e3|] eqn:Hboard;
    cbn [bind] in Hrun; [|discriminate].
  destruct (deref e3 id) as [ship3|]; cbn [bind] in Hrun; [|discriminate].
  apply JumpSounds_frame in Hsounds as (w2 & ->).
  apply AutoBoard_events in Hboard as (_ & _ & _ & Hevents).
  assert (Hqueue2 : forall e0, eventQueue (set_world w2 e0) = eventQueue e0)
    by (intros e0; destruct e0; reflexivity).
  rewrite Hqueue2, Hqueue in Hevents.
  assert (Hlast : eventQueue e' = eventQueue e3).
  { destruct (negb (same (Ship.GetSystem ship3) (playerSystem e3))).
    - injection Hrun as <-. reflexivity.
    - apply LaunchAndFire_frame in Hrun
        as (w4 & h4 & launched & fired & sparks & ready & -> & _).
      destruct e3; reflexivity. }
  rewrite Hlast.
  destruct Hevents as [Hnone | (victim & type & Hone & Htype)].
  - exists []. rewrite app_nil_r. split; [exact Hnone|left; reflexivity].
  - exists [EventByShip id victim type]. split; [exact Hone|].
    right. exists victim, type. split; [reflexivity|exact Htype].
Qed.

End Engine.

Import Scenario MoreScenario.

Lemma small_world_draws_in_range : draws_in_range.
Proof.
  intros w n Hn. cbn. destruct (draw_next w) as [r w']. cbn [fst].
  destruct (n =? 0) eqn:Hzero; [apply Z.eqb_eq in Hzero; lia|].
  apply Z.mod_pos_bound. exact Hn.
Qed.

(** The patrol arrives: the shot in flight is gone and the jump event is
    asked for. *)
Lemma entering_a_system_clears_the_battlefield_witness :
  EnterSystem arriving = Ok arrived
  /\ projectiles arriving = [gunshot]
  /\ projectiles arrived = [] /\ doEnter arrived = true.
Proof.
  assert (Hrun : EnterSystem arriving = Ok arrived)
    by (vm_compute; reflexivity).
  pose proof (entering_a_system_clears_the_battlefield arriving arrived Hrun)
    as Hclear.
  change (flagship arriving) with (Some 1%nat) in Hclear.
  destruct Hclear as (Henter & _ & Hlists & _).
  split; [exact Hrun|]. split; [reflexivity|].
  split; [exact (f_equal (fun lists => fst (fst lists)) Hlists)|exact Henter].
Defined.

(** The three ships around the crate: the cloaked one is in the second
    set only. *)
Lemma collision_sets_are_rebuilt_witness :
  shipCollisions around_crate_filled = [2%nat; 3%nat]
  /\ cloakedCollisions around_crate_filled = [1%nat]
  /\ forall id, ~ (In id (shipCollisions around_crate_filled)
                   /\ In id (cloakedCollisions around_crate_filled)).
Proof.
  destruct (collision_sets_are_rebuilt around_crate around_crate_filled
              ltac:(vm_compute; reflexivity)) as [_ Hdisjoint].
  split; [reflexivity|]. split; [reflexivity|exact Hdisjoint].
Defined.

(** The step of the gunfight: the shot the gunboat fired is no longer
    among the new projectiles. *)
Lemma a_step_leaves_nothing_staged_witness :
  newShips gunfight_step = [] /\ newProjectiles gunfight_step = []
  /\ newFlotsam gunfight_step = [] /\ newVisuals gunfight_step = []
  /\ hasAntiMissile gunfight_step = [].
Proof.
  apply (a_step_leaves_nothing_staged gunfight gunfight_step sol).
  - reflexivity.
  - vm_compute. reflexivity.
Defined.

(** The second merchant hails: no ship is changed. *)
Lemma hails_come_from_ships_that_can_talk_witness :
  SendHails hailing = Ok hailed
  /\ heap hailed = heap hailing /\ length (messages hailed) = 1%nat.
Proof.
  assert (Hrun : SendHails hailing = Ok hailed) by (vm_compute; reflexivity).
  destruct (hails_come_from_ships_that_can_talk hailing hailed Hrun)
    as (_ & Hheap & _).
  split; [exact Hrun|]. split; [exact Hheap|reflexivity].
Defined.

Lemma hails_find_their_ship_witness :
  exists e', SendHails hailing = Ok e'.
Proof.
  apply hails_find_their_ship.
  - exact small_world_draws_in_range.
  - intros id [<- | [<- | []]]; vm_compute; eexists; reflexivity.
Defined.

(** The player hits the pirate Rex: from then on the pirates' attacks
    raise no request. *)
Lemma thanks_end_the_requests_witness :
  grudge thanked !! pirate = Some None
  /\ forall victim v,
       heap thanked !! victim = Some v ->
       DoGrudge thanked victim (Some pirate) = Ok thanked.
Proof.
  destruct (thanks_end_the_requests (under_attack [] None) thanked 2%nat
              (aiming 1 (worth 500 (ship "Rex" "Raider" pirate 3 0))) player
              ltac:(vm_compute; reflexivity) ltac:(reflexivity)
              ltac:(reflexivity) ltac:(left; vm_compute; reflexivity)
              ltac:(vm_compute; reflexivity))
    as (_ & _ & Hentry & _ & Hlater).
  split; [exact Hentry|exact Hlater].
Defined.

(** The safe bomb hits the pirate: no anti-missile system is asked. *)
Lemma anti_missile_is_the_last_resort_witness :
  exists added,
    trace (fst battle_bombed)
    = trace (fst (fst (fst safe_bomb_found))) ++ added
    /\ Forall (fun c => match c with
                        | CFireAntiMissile _ | CKill => False
                        | _ => True
                        end) added.
Proof.
  destruct (anti_missile_is_the_last_resort battle (fst battle_bombed)
              (fst (fst (fst safe_bomb_found))) safe_bomb (snd battle_bombed)
              (1 # 2) (Some 2%nat) Point.zero
              ltac:(vm_compute; reflexivity) ltac:(vm_compute; reflexivity)
              ltac:(left; vm_compute; reflexivity)) as [Hquiet _].
  exact Hquiet.
Defined.

(** The patrol: the flagship, #1, is drawn after the pirate and the
    merchant. *)
Lemma the_flagship_is_drawn_on_top_witness :
  draw patrol_drawn
  = [DrawObject 0; DrawShip 2%nat; DrawShip 3%nat; DrawShip 1%nat]
  /\ exists system w others top,
       playerSystem (patrol []) = Some system
       /\ draw patrol_drawn
          = draw (patrol []) ++ Objects w system ++ AsteroidsDraw w
            ++ map DrawFlotsam (flotsam (patrol [])) ++ others ++ top
            ++ map DrawProjectile (projectiles (patrol []))
            ++ map DrawVisual (visuals (patrol []))
       /\ Forall (fun d => exists f,
                    flagship (patrol []) = Some f /\ ship_of d = Some f) top.
Proof.
  destruct (the_flagship_is_drawn_on_top (patrol []) patrol_drawn
              ltac:(vm_compute; reflexivity))
    as (system & w & others & top & Hsystem & Hdraw & _ & Htop).
  split; [reflexivity|].
  exists system, w, others, top. auto.
Defined.

(** The wreck moves for the last time. *)
Lemma a_dying_ship_only_reports_its_death_witness :
  eventQueue wreck_moved = [EventByGovernment None 1%nat DESTROY]
  /\ newProjectiles wreck_moved = [] /\ hasAntiMissile wreck_moved = [].
Proof.
  destruct (a_dying_ship_only_reports_its_death wrecked wreck_moved 1%nat wreck
              ltac:(vm_compute; reflexivity) ltac:(vm_compute; reflexivity))
    as (events & Hqueue & Hdead).
  assert (Hgone : Ship.ShouldBeRemoved
                    (fst (fst (fst (ShipMove (world wrecked) wreck)))) = true)
    by reflexivity.
  rewrite Hgone in Hdead.
  destruct Hdead as (-> & _ & _ & Hfired & Hready).
  split; [exact Hqueue|]. split; [exact Hfired|exact Hready].
Defined.

(** An empty system in which Alice is drawn. *)
Lemma only_eligible_persons_appear_witness :
  SpawnPersons lonely = Ok visited
  /\ ((trace visited = trace lonely /\ newShips visited = newShips lonely)
      \/ exists name person,
           In (name, person) Persons
           /\ 0 < Frequency (heap lonely) person sol
           /\ trace visited = trace lonely ++ [CPersonEnter name]
           /\ newShips visited = newShips lonely ++ [Person.GetShip person]).
Proof.
  assert (Hrun : SpawnPersons lonely = Ok visited)
    by (vm_compute; reflexivity).
  split; [exact Hrun|].
  apply (only_eligible_persons_appear lonely visited sol).
  - exact small_world_draws_in_range.
  - reflexivity.
  - repeat constructor; cbn; lia.
  - vm_compute. reflexivity.
  - exact Hrun.
Defined.

End EngineProps.

(* ===================================================================== *)
(** * Properties of Prune                                                 *)
(* ===================================================================== *)

Module VectorProps.
Import Model Code Vector.

Section Prune.
Context {A : Type} (ShouldBeRemoved : A -> bool).

Local Abbreviation keep := (fun x : A => negb (ShouldBeRemoved x)).

Lemma contents_Some (l : list A) : contents (map Some l) = Some l.
Proof. induction l as [|x l IH]; simpl; [|rewrite IH]; reflexivity. Qed.

(** The first loop stops at the first object to remove. *)
Lemma skip_kept_spec (rest : list A) : forall (done : list A) fuel,
  (length rest < fuel)%nat ->
  Forall (fun x => ShouldBeRemoved x = false) done ->
  exists kept tail,
    rest = kept ++ tail
    /\ Forall (fun x => ShouldBeRemoved x = false) kept
    /\ match tail with
       | [] => True
       | x :: _ => ShouldBeRemoved x = true
       end
    /\ skip_kept ShouldBeRemoved fuel (map Some (done ++ rest)) (length done)
       = Some (length (done ++ kept)).
Proof.
  induction rest as [|x rest IH]; intros done fuel Hfuel Hdone;
    (destruct fuel as [|fuel]; [simpl in Hfuel; lia|]).
  - exists [], []. rewrite !app_nil_r. simpl.
    rewrite list_lookup_fmap, lookup_ge_None_2 by lia. auto.
  - simpl. rewrite list_lookup_fmap, lookup_app_r by lia.
    rewrite Nat.sub_diag. simpl.
    destruct (ShouldBeRemoved x) eqn:Hx; simpl.
    + exists [], (x :: rest). rewrite app_nil_r. auto.
    + destruct (IH (done ++ [x]) fuel ltac:(simpl in Hfuel; lia))
        as (kept & tail & -> & Hkept & Htail & Hskip).
      { apply Forall_app. split; [exact Hdone | repeat constructor; exact Hx]. }
      exists (x :: kept), tail. split; [reflexivity|].
      split; [constructor; assumption|]. split; [exact Htail|].
      rewrite <- app_assoc in Hskip. simpl in Hskip.
      rewrite length_app in Hskip. simpl in Hskip.
      rewrite Nat.add_1_r in Hskip. rewrite Hskip.
      rewrite !length_app. simpl. f_equal. lia.
Qed.

(** The second loop, once the writing iterator is behind the reading
    one: the slots between them hold what is left of removed or moved
    objects. *)
Lemma compact_spec (rest : list A) :
  forall (done : list A) (junk : list (option A)) fuel,
  (length rest < fuel)%nat ->
  junk <> [] ->
  exists junk',
    compact ShouldBeRemoved fuel (map Some done ++ junk ++ map Some rest)
            (length done + length junk) (length done)
    = Some (map Some (done ++ List.filter keep rest) ++ junk',
            length (done ++ List.filter keep rest)).
Proof.
  induction rest as [|x rest IH]; intros done junk fuel Hfuel Hjunk;
    (destruct fuel as [|fuel]; [simpl in Hfuel; lia|]).
  - simpl. rewrite !app_nil_r.
    rewrite lookup_ge_None_2
      by (rewrite length_app, length_map; lia).
    exists junk. reflexivity.
  - simpl.
    assert (Hat : (map Some done ++ junk ++ Some x :: map Some rest)
                  !! (length done + length junk)%nat = Some (Some x)).
    { rewrite lookup_app_r by (rewrite length_map; lia).
      rewrite length_map.
      replace (length done + length junk - length done)%nat
        with (length junk) by lia.
      rewrite lookup_app_r by lia. rewrite Nat.sub_diag. reflexivity. }
    rewrite Hat. destruct (ShouldBeRemoved x) eqn:Hx; simpl.
    + destruct (IH done (junk ++ [Some x]) fuel
                  ltac:(simpl in Hfuel; lia)) as (junk' & Hrun).
      { intros Hnil. apply app_eq_nil in Hnil as [_ Hnil]. discriminate. }
      rewrite <- app_assoc in Hrun. simpl in Hrun.
      rewrite length_app in Hrun. simpl in Hrun.
      replace (length done + (length junk + 1))%nat
        with (S (length done + length junk)) in Hrun by lia.
      exists junk'. exact Hrun.
    + destruct junk as [|j junk]; [contradiction|]. simpl.
      destruct (Nat.eqb_spec (length done) (length done + S (length junk)));
        [lia|].
      destruct (IH (done ++ [x]) (junk ++ [None]) fuel
                  ltac:(simpl in Hfuel; lia)) as (junk' & Hrun).
      { intros Hnil. apply app_eq_nil in Hnil as [_ Hnil]. discriminate. }
      assert (Hstate :
                <[length done := Some x]>
                  (<[(length done + S (length junk))%nat := None]>
                     (map Some done ++ j :: junk ++ Some x :: map Some rest))
                = map Some (done ++ [x]) ++ (junk ++ [None]) ++ map Some rest).
      { rewrite insert_app_r_alt by (rewrite length_map; lia).
        rewrite length_map.
        replace (length done + S (length junk) - length done)%nat
          with (S (length junk)) by lia.
        simpl. rewrite (insert_app_r_alt junk) by lia.
        rewrite Nat.sub_diag. simpl.
        rewrite (insert_app_r_alt (map Some done))
          by (rewrite length_map; lia).
        rewrite length_map, Nat.sub_diag. simpl.
        rewrite map_app. simpl. rewrite <- !app_assoc. reflexivity. }
      exists junk'. rewrite Hstate.
      replace (S (length done + S (length junk)))
        with (length (done ++ [x]) + length (junk ++ [None]))%nat
        by (rewrite !length_app; simpl; lia).
      replace (S (length done)) with (length (done ++ [x]))
        by (rewrite length_app; simpl; lia).
      rewrite Hrun. rewrite <- (app_assoc done [x]). reflexivity.
Qed.

(** X13: the in-place [Prune] of a vector returns, in their order, the
    objects that should not be removed, exactly what filtering the
    vector gives.  On the way it never reads an object that was moved
    from and never move-assigns an object to itself. *)
Theorem prune_in_place_filters (objects : list A) :
  PruneInPlace ShouldBeRemoved objects = Some (Prune ShouldBeRemoved objects).
Proof.
  unfold PruneInPlace, Prune. cbv zeta. rewrite length_map.
  destruct (skip_kept_spec objects [] (S (length objects)) ltac:(lia)
              ltac:(constructor))
    as (kept & tail & -> & Hkept & Htail & Hskip).
  cbn [app Datatypes.length] in Hskip. rewrite Hskip. clear Hskip.
  assert (Hfilter : List.filter keep kept = kept).
  { clear - Hkept. induction Hkept as [|x l Hx _ IH]; simpl; [reflexivity|].
    rewrite Hx. simpl. rewrite IH. reflexivity. }
  rewrite List.filter_app, Hfilter.
  destruct tail as [|x tail].
  - simpl. rewrite !app_nil_r.
    rewrite lookup_ge_None_2 by (rewrite length_map; lia).
    rewrite firstn_all2 by (rewrite length_map; lia).
    apply contents_Some.
  - simpl. rewrite Htail. simpl.
    rewrite map_app. simpl.
    rewrite lookup_app_r by (rewrite length_map; lia).
    rewrite length_map, Nat.sub_diag. simpl. rewrite Htail. simpl.
    destruct (compact_spec tail kept [Some x] (length (kept ++ x :: tail))
                ltac:(rewrite length_app; simpl; lia) ltac:(discriminate))
      as (junk' & Hrun).
    simpl in Hrun. rewrite Nat.add_1_r in Hrun. rewrite Hrun.
    rewrite take_app_length' by (rewrite length_map; reflexivity).
    apply contents_Some.
Qed.

End Prune.
End VectorProps.

(* ===================================================================== *)
(** * Properties of the radar                                             *)
(* ===================================================================== *)

Module RadarProps.
Import Model Code Radar.

Section Radar.
Context `{Collaborators}.
Variables IsTarget IsEscort IsOverheated : Ship.t -> bool.

Local Abbreviation RadarType := (RadarType IsTarget IsEscort IsOverheated).
Local Abbreviation radar_ship := (radar_ship IsTarget IsEscort IsOverheated).
Local Abbreviation radar_ships := (radar_ships IsTarget IsEscort IsOverheated).

Lemma blink_count step :
  0 <= step -> Z.rem (Z.quot step 6) 7 = (step mod 42) / 6.
Proof.
  intros Hstep.
  rewrite Z.quot_div_nonneg, Z.rem_mod_nonneg by
    (try apply Z.div_pos; lia).
  change 42 with (6 * 7). rewrite Z.rem_mul_r by lia.
  rewrite Z.mul_comm, Z.div_add by lia.
  rewrite (Z.div_small (step mod 6) 6) by (apply Z.mod_pos_bound; lia).
  reflexivity.
Qed.

(** X14: a mission target that is not destroyed is shown as [BLINK] in
    two windows of six steps out of every 42, whatever else is true of
    it, and in no other step; nothing but a mission target ever
    blinks. *)
Theorem mission_targets_blink_twice_in_42_steps (e : Engine) (ship : Ship.t)
  (step : Z) :
  0 <= step ->
  (RadarType e ship step = BLINK
   <-> IsTarget ship = true /\ Ship.IsDestroyed ship = false
       /\ blink_window step = true).
Proof.
  intros Hstep. unfold Radar.RadarType, blink_window. cbv zeta.
  rewrite (blink_count step Hstep).
  pose proof (Z.mod_pos_bound step 42 ltac:(lia)) as Hr.
  assert (Hwindow : ((step mod 42 / 6 =? 0) || (step mod 42 / 6 =? 2))
                    = ((step mod 42 <? 6)
                       || ((12 <=? step mod 42) && (step mod 42 <? 18)))).
  { generalize dependent (step mod 42). intros r Hr.
    destruct (Z.eqb_spec (r / 6) 0) as [H0 | H0];
      destruct (Z.eqb_spec (r / 6) 2) as [H2 | H2];
      destruct (Z.ltb_spec r 6); destruct (Z.leb_spec 12 r);
      destruct (Z.ltb_spec r 18); simpl; try reflexivity; exfalso;
      pose proof (Z.div_mod r 6 ltac:(lia));
      pose proof (Z.mod_pos_bound r 6 ltac:(lia)); nia. }
  rewrite Hwindow.
  destruct (IsTarget ship), (Ship.IsDestroyed ship); simpl;
    try (split; [|intros (? & ? & ?); discriminate];
         repeat match goal with
                | |- (if ?b then _ else _) = _ -> _ => destruct b
                end; discriminate).
  destruct ((step mod 42 <? 6) || _); [tauto|].
  split; [|intros (? & ? & ?); discriminate].
  repeat match goal with
         | |- (if ?b then _ else _) = _ -> _ => destruct b
         end; discriminate.
Qed.

(** X15: what the colours of the radar say.  A ship is shown as
    [HOSTILE] only if it is not disabled, its government is an enemy of
    the player and its target is a living ship of the player; as [PLAYER]
    only if it is not disabled and is the player's or an escort of a
    government that is not an enemy; and a ship of an enemy government
    that is not an escort of a friend is never shown as [FRIENDLY]. *)
Theorem radar_colours_tell_friend_from_foe (e : Engine) (ship : Ship.t)
  (step : Z) :
  let gov := Ship.GetGovernment ship in
  (RadarType e ship step = HOSTILE ->
   Ship.IsDisabled ship = false /\ IsEnemyOfPlayer gov = true
   /\ Government.IsPlayer (government gov) = false
   /\ targets_player e ship = true)
  /\ (RadarType e ship step = PLAYER ->
      Ship.IsDisabled ship = false
      /\ (Government.IsPlayer (government gov) = true
          \/ IsEscort ship = true /\ IsEnemyOfPlayer gov = false))
  /\ (RadarType e ship step = FRIENDLY ->
      Ship.IsDisabled ship = false /\ IsEnemyOfPlayer gov = false
      /\ Government.IsPlayer (government gov) = false)
  /\ (RadarType e ship step = UNFRIENDLY ->
      IsEnemyOfPlayer gov = true /\ targets_player e ship = false).
Proof.
  unfold Radar.RadarType. cbv zeta.
  destruct (IsTarget ship && _ && _); [repeat split; discriminate|].
  destruct (Ship.IsDisabled ship); simpl; [repeat split; discriminate|].
  destruct (IsOverheated ship && _); [repeat split; discriminate|].
  destruct (Government.IsPlayer _); simpl;
    [repeat split; try discriminate; auto|].
  destruct (IsEscort ship), (IsEnemyOfPlayer (Ship.GetGovernment ship));
    simpl; destruct (targets_player e ship);
    repeat split; try discriminate; auto.
Qed.


(** ** The ships on the radar *)

Lemma radar_ship_inv e blips hasHostiles id blips' hasHostiles' :
  radar_ship e (blips, hasHostiles) id = Ok (blips', hasHostiles') ->
  exists s,
    heap e !! id = Some s
    /\ if same (Ship.GetSystem s) (playerSystem e)
          && negb (Qle_bool 1 (Ship.Cloaking s)
                   && negb (Government.IsPlayer
                              (government (Ship.GetGovernment s))))
       then exists type,
              blips' = blips ++ [ShipBlip type id]
              /\ hasHostiles'
                 = hasHostiles || is_hostile e s
              /\ (forall f fs, flagship e = Some f -> heap e !! f = Some fs ->
                               lock e (Ship.GetTargetShip fs) = Some id ->
                               type = SPECIAL)
       else blips' = blips /\ hasHostiles' = hasHostiles.
Proof.
  unfold Radar.radar_ship, deref. intros Hrun.
  destruct (heap e !! id) as [s|]; [|discriminate]. simpl in Hrun.
  exists s. split; [reflexivity|].
  destruct (same (Ship.GetSystem s) (playerSystem e)); simpl in Hrun |- *;
    [|injection Hrun as <- <-; auto].
  destruct (Qle_bool 1 (Ship.Cloaking s) && _); simpl in Hrun |- *;
    [injection Hrun as <- <-; auto|].
  destruct (flagship e) as [f|].
  - destruct (heap e !! f) as [fs|] eqn:Hfs; [|discriminate].
    simpl in Hrun. injection Hrun as <- <-. eexists.
    split; [reflexivity|]. split; [reflexivity|].
    intros f' fs' Hf Hfs' Hlock. injection Hf as <-.
    rewrite Hfs in Hfs'. injection Hfs' as <-. rewrite Hlock.
    unfold same. rewrite bool_decide_eq_true_2 by reflexivity. reflexivity.
  - simpl in Hrun. injection Hrun as <- <-. eexists.
    split; [reflexivity|]. split; [reflexivity|]. discriminate.
Qed.

Lemma radar_ships_from e listed : forall blips hasHostiles blips' hasHostiles',
  for_each (radar_ship e) listed (blips, hasHostiles)
  = Ok (blips', hasHostiles') ->
  (forall id, on_radar id blips' ->
     on_radar id blips
     \/ In id listed
        /\ exists s, heap e !! id = Some s
                     /\ Ship.GetSystem s = playerSystem e
                     /\ (Qle_bool 1 (Ship.Cloaking s) = false
                         \/ Government.IsPlayer
                              (government (Ship.GetGovernment s)) = true))
  /\ (hasHostiles' = true ->
      hasHostiles = true
      \/ exists id s, In id listed /\ heap e !! id = Some s
                      /\ on_radar id blips' /\ is_hostile e s = true)
  /\ (forall f fs id type,
        flagship e = Some f -> heap e !! f = Some fs ->
        lock e (Ship.GetTargetShip fs) = Some id ->
        In (ShipBlip type id) blips' ->
        In (ShipBlip type id) blips \/ type = SPECIAL)
  /\ (forall id, on_radar id blips -> on_radar id blips').
Proof.
  induction listed as [|id0 rest IH];
    intros blips hasHostiles blips' hasHostiles' Hrun; cbn [for_each] in Hrun.
  - injection Hrun as <- <-. repeat split; auto.
  - apply StepProps.bind_inv in Hrun as ([blips1 hasHostiles1] & Hone & Hrun).
    apply radar_ship_inv in Hone as (s0 & Hs0 & Hone).
    destruct (IH _ _ _ _ Hrun) as (Hshown & Hhostile & Htarget & Hmono).
    destruct (same (Ship.GetSystem s0) (playerSystem e)) eqn:Hhere;
      simpl in Hone;
      [destruct (Qle_bool 1 (Ship.Cloaking s0)) eqn:Hcloak;
       [destruct (Government.IsPlayer _) eqn:Hplayer|]|];
      simpl in Hone;
      try (destruct Hone as [-> ->];
           split; [|split; [|split]];
           [ intros id Hid; destruct (Hshown id Hid) as [? | [? ?]];
             [left; assumption | right; split; [right|]; assumption]
           | intros Hh; destruct (Hhostile Hh) as [? | (id & s & ? & ?)];
             [left; assumption
             | right; exists id, s; split; [right|]; assumption]
           | exact Htarget
           | exact Hmono ]).
    all: destruct Hone as (type0 & -> & -> & Hspecial).
    all: assert (Hin0 : on_radar id0 blips')
      by (apply Hmono; exists type0; apply in_or_app; right; left;
          reflexivity).
    all: assert (Hhere' : Ship.GetSystem s0 = playerSystem e)
      by (unfold same in Hhere; apply bool_decide_eq_true in Hhere;
          exact Hhere).
    all: split; [|split; [|split]].
    all: try (intros id Hid; destruct (Hshown id Hid) as [[type Hold] | [? ?]];
              [ apply in_app_iff in Hold as [Hold | [Hnew | []]];
                [ left; exists type; exact Hold
                | injection Hnew as _ <-; right; split; [left; reflexivity|];
                  exists s0; repeat split; auto ]
              | right; split; [right|]; assumption ]).
    all: try (intros Hh; destruct (Hhostile Hh) as [Hold | (id & s & ? & ?)];
              [ apply orb_prop in Hold as [Hold | Hold];
                [ left; exact Hold
                | right; exists id0, s0; repeat split; auto; left;
                  reflexivity ]
              | right; exists id, s; split; [right|]; assumption ]).
    all: try (intros f fs id type Hf Hfs Hlock Hin;
              destruct (Htarget f fs id type Hf Hfs Hlock Hin) as [Hold | ?];
              [ apply in_app_iff in Hold as [Hold | [Hnew | []]];
                [ left; exact Hold
                | injection Hnew as <- <-; right;
                  exact (Hspecial f fs Hf Hfs Hlock) ]
              | right; assumption ]).
    all: intros id [type Hid]; apply Hmono; exists type; apply in_or_app;
      left; exact Hid.
Qed.

(** X16: the ships [FillRadar] shows.  A ship on the radar is a ship of
    the list that is in the player's system and is either the player's or
    not fully cloaked; hostile ships are reported only if one of the
    ships shown is not disabled, belongs to an enemy and targets a ship
    of the player; and the ship the flagship targets is shown as
    [SPECIAL] whatever it is. *)
Theorem cloaked_strangers_stay_off_the_radar (e : Engine)
  (blips : list Blip) (hasHostiles : bool) :
  radar_ships e = Ok (blips, hasHostiles) ->
  (forall id, on_radar id blips ->
     In id (ships e)
     /\ exists s, heap e !! id = Some s
                  /\ Ship.GetSystem s = playerSystem e
                  /\ (Qle_bool 1 (Ship.Cloaking s) = false
                      \/ Government.IsPlayer
                           (government (Ship.GetGovernment s)) = true))
  /\ (hasHostiles = true ->
      exists id s, In id (ships e) /\ heap e !! id = Some s
                   /\ on_radar id blips /\ is_hostile e s = true)
  /\ (forall f fs id type,
        flagship e = Some f -> heap e !! f = Some fs ->
        lock e (Ship.GetTargetShip fs) = Some id ->
        In (ShipBlip type id) blips -> type = SPECIAL).
Proof.
  intros Hrun. unfold Radar.radar_ships in Hrun.
  apply radar_ships_from in Hrun as (Hshown & Hhostile & Htarget & _).
  split; [|split].
  - intros id Hid. destruct (Hshown id Hid) as [[type []] | Hnew]. exact Hnew.
  - intros Hh. destruct (Hhostile Hh) as [Hold | Hnew];
      [discriminate | exact Hnew].
  - intros f fs id type Hf Hfs Hlock Hin.
    destruct (Htarget f fs id type Hf Hfs Hlock Hin) as [[] | Hs]. exact Hs.
Qed.

End Radar.

(** ** The siren *)

Lemma alarm_counts_down s seen : forall n,
  alarmTime s = Z.of_nat n -> Z.of_nat n < 2 ^ 31 ->
  Forall (fun raised => raised = false) (take n (snd (alarms s seen))).
Proof.
  revert s. induction seen as [|h rest IH]; intros s n Htime Hn; simpl.
  - rewrite take_nil. constructor.
  - destruct (alarm s h) as [s1 raised] eqn:Hone.
    destruct (alarms s1 rest) as [s2 later] eqn:Hrest. simpl.
    destruct n as [|n]; [constructor|]. simpl.
    unfold alarm in Hone. rewrite Htime in Hone.
    destruct (Z.eqb_spec (Z.of_nat (S n)) 0) as [Hz | _]; [lia|].
    simpl in Hone. injection Hone as <- <-.
    constructor; [reflexivity|].
    specialize (IH (mkSiren (wrap32 (Z.of_nat (S n) - 1)) (hadHostiles s)) n).
    rewrite Hrest in IH. apply IH; [|lia].
    simpl. rewrite SpawnProps.wrap32_small by lia. lia.
Qed.

(** X17: the alarm is raised only in a step in which hostile ships are
    seen, none had been seen before and the count-down is at zero; it
    sets the count-down to 180, and whatever the next steps see, it is
    not raised again in the 180 steps that follow. *)
Theorem the_siren_rests_for_180_steps (s s1 : Siren) (hasHostiles : bool) :
  alarm s hasHostiles = (s1, true) ->
  alarmTime s = 0 /\ hasHostiles = true /\ hadHostiles s = false
  /\ s1 = mkSiren 180 true
  /\ forall seen,
       Forall (fun raised => raised = false)
              (take 180 (snd (alarms s1 seen))).
Proof.
  unfold alarm. intros Hone.
  destruct (Z.eqb_spec (alarmTime s) 0) as [Hz | _]; simpl in Hone;
    [|discriminate].
  destruct hasHostiles; simpl in Hone; [|discriminate].
  destruct (hadHostiles s); simpl in Hone; [discriminate|].
  injection Hone as <-. repeat split; auto.
  intros seen. apply (alarm_counts_down _ seen 180%nat); [reflexivity | lia].
Qed.

(** The theorem for the first sight of a hostile ship. *)
Lemma the_siren_rests_for_180_steps_witness :
  Forall (fun raised => raised = false)
         (take 180 (snd (alarms (mkSiren 180 true) [true; false; true]))).
Proof.
  pose proof (the_siren_rests_for_180_steps (mkSiren 0 false)
                (mkSiren 180 true) true ltac:(reflexivity))
    as (_ & _ & _ & _ & Hrest).
  exact (Hrest [true; false; true]).
Defined.

Import Scenario MoreScenario.

(** Rex, a mission target, in step 13: the second window. *)
Lemma mission_targets_blink_twice_in_42_steps_witness :
  RadarType IsTarget IsEscort IsOverheated (patrol []) rex 13 = BLINK.
Proof.
  apply (mission_targets_blink_twice_in_42_steps IsTarget IsEscort IsOverheated
           (patrol []) rex 13).
  - lia.
  - repeat split; reflexivity.
Defined.

(** The radar of the patrol: the pirate the flagship targets is shown
    as [SPECIAL]. *)
Lemma cloaked_strangers_stay_off_the_radar_witness :
  patrol_radar
  = ([ShipBlip PLAYER 1%nat; ShipBlip SPECIAL 2%nat; ShipBlip FRIENDLY 3%nat],
     false)
  /\ forall type, In (ShipBlip type 2%nat) (fst patrol_radar) -> type = SPECIAL.
Proof.
  destruct (cloaked_strangers_stay_off_the_radar IsTarget IsEscort IsOverheated
              (patrol []) (fst patrol_radar) (snd patrol_radar)
              ltac:(vm_compute; reflexivity)) as (_ & _ & Htarget).
  split; [reflexivity|].
  intros type Hin.
  apply (Htarget 1%nat star 2%nat type);
    [reflexivity | vm_compute; reflexivity | vm_compute; reflexivity
    | exact Hin].
Defined.

End RadarProps.

(* ===================================================================== *)
(** * Properties of the foreground                                        *)
(* ===================================================================== *)

Module ForegroundProps.
Import Model Code Foreground.

Lemma Qltb_true a b : Qltb a b = true <-> (a < b)%Q.
Proof.
  unfold Qltb. rewrite negb_true_iff.
  destruct (Qle_bool b a) eqn:Hle.
  - apply Qle_bool_iff in Hle. split; [discriminate|].
    intros Hlt. exfalso. apply (Qlt_not_le _ _ Hlt Hle).
  - split; [|reflexivity]. intros _. apply Qnot_le_lt. intros Hle'.
    apply Qle_bool_iff in Hle'. congruence.
Qed.

Lemma Qltb_false a b : Qltb a b = false <-> (b <= a)%Q.
Proof.
  unfold Qltb. rewrite negb_false_iff. apply Qle_bool_iff.
Qed.

Lemma Qnonzero_false a : Qnonzero a = false <-> (a == 0)%Q.
Proof.
  unfold Qnonzero. rewrite negb_false_iff. apply Qeq_bool_iff.
Qed.

Ltac by_cases_Qltb :=
  repeat match goal with
  | |- context [Qltb ?a ?b] =>
      let H := fresh "Hlt" in
      destruct (Qltb a b) eqn:H;
      [apply Qltb_true in H | apply Qltb_false in H]
  end.

Lemma fmin_spec a b :
  (fmin a b <= a)%Q /\ (fmin a b <= b)%Q /\ (fmin a b = a \/ fmin a b = b).
Proof.
  unfold fmin. by_cases_Qltb.
  - repeat split; [apply Qlt_le_weak; assumption|apply Qle_refl|right; reflexivity].
  - repeat split; [apply Qle_refl|assumption|left; reflexivity].
Qed.

Lemma fmax_spec a b :
  (a <= fmax a b)%Q /\ (b <= fmax a b)%Q /\ (fmax a b = a \/ fmax a b = b).
Proof.
  unfold fmax. by_cases_Qltb.
  - repeat split; [apply Qlt_le_weak; assumption|apply Qle_refl|right; reflexivity].
  - repeat split; [apply Qle_refl|assumption|left; reflexivity].
Qed.

(** ** The jump counter *)

Lemma count_jump_range jumping jumpCount :
  0 <= jumpCount <= 100 ->
  0 <= count_jump jumping jumpCount <= 100
  /\ (jumping = true -> count_jump jumping jumpCount = Z.min 100 (jumpCount + 1))
  /\ (jumping = false -> count_jump jumping jumpCount = Z.max 0 (jumpCount - 1)).
Proof.
  intros Hrange. unfold count_jump.
  destruct jumping.
  - destruct (jumpCount <? 100) eqn:Hlt.
    + apply Z.ltb_lt in Hlt. rewrite SpawnProps.wrap32_small by lia.
      repeat split; try lia; discriminate.
    + apply Z.ltb_ge in Hlt. repeat split; try lia; discriminate.
  - destruct (0 <? jumpCount) eqn:Hlt.
    + apply Z.ltb_lt in Hlt. rewrite SpawnProps.wrap32_small by lia.
      repeat split; try lia; discriminate.
    + apply Z.ltb_ge in Hlt. repeat split; try lia; discriminate.
Qed.

Lemma count_down n jumpCount :
  0 <= jumpCount <= 100 ->
  Nat.iter n (step_jump_count false (Some false)) jumpCount
  = Z.max 0 (jumpCount - Z.of_nat n).
Proof.
  intros Hrange. induction n as [|n IH].
  - simpl. lia.
  - rewrite Nat.iter_succ, IH. unfold step_jump_count.
    destruct (count_jump_range false (Z.max 0 (jumpCount - Z.of_nat n)))
      as (_ & _ & Hdown); [lia|].
    rewrite Hdown by reflexivity. lia.
Qed.

(** X18: the jump counter stays between 0 and 100 and moves by at most
    one a step; the mini-map it fades is drawn with an opacity above 0
    and at most one half, reached from a count of 30 on; and 100 steps
    in space without jumping hide the mini-map, whatever the count
    was. *)
Theorem the_jump_counter_stays_within_100 hasObject flagship jumpCount showMiniMap :
  0 <= jumpCount <= 100 ->
  let next := step_jump_count hasObject flagship jumpCount in
  0 <= next <= 100
  /\ Z.abs (next - jumpCount) <= 1
  /\ (forall alpha, minimap_alpha showMiniMap next = Some alpha ->
      (0 < alpha)%Q /\ (alpha <= 1 # 2)%Q
      /\ (30 <= next -> (alpha == 1 # 2)%Q))
  /\ minimap_alpha showMiniMap
       (Nat.iter 100 (step_jump_count false (Some false)) jumpCount) = None.
Proof.
  intros Hrange next.
  assert (Hnext : 0 <= next <= 100 /\ Z.abs (next - jumpCount) <= 1).
  { subst next. unfold step_jump_count.
    destruct hasObject; [lia|]. destruct flagship as [jumping|]; [|lia].
    destruct (count_jump_range jumping jumpCount Hrange) as (Hr & Hup & Hdown).
    destruct jumping; [rewrite Hup by reflexivity|rewrite Hdown by reflexivity];
      lia. }
  destruct Hnext as [Hnext Hstep].
  split; [exact Hnext|]. split; [exact Hstep|]. split.
  - intros alpha Halpha. unfold minimap_alpha in Halpha.
    destruct (next =? 0) eqn:Hzero; [discriminate|].
    apply Z.eqb_neq in Hzero.
    destruct showMiniMap; [|discriminate]. simpl in Halpha.
    injection Halpha as <-.
    assert (Hpos : (0 < inject_Z next / 30)%Q).
    { apply Qlt_shift_div_l; [reflexivity|]. rewrite Qmult_0_l.
      change 0%Q with (inject_Z 0). rewrite <- Zlt_Qlt. lia. }
    destruct (fmin_spec 1 (inject_Z next / 30)) as (Hone & Hquot & Hwhich).
    split; [|split].
    + destruct Hwhich as [-> | ->]; lra.
    + lra.
    + intros Hfull.
      assert (Hge : (1 <= inject_Z next / 30)%Q).
      { apply Qle_shift_div_l; [reflexivity|]. rewrite Qmult_1_l.
        change 30%Q with (inject_Z 30). rewrite <- Zle_Qle. exact Hfull. }
      unfold fmin. destruct (Qltb (inject_Z next / 30) 1) eqn:Hlt.
      * apply Qltb_true in Hlt. lra.
      * reflexivity.
  - rewrite count_down by exact Hrange.
    replace (Z.max 0 (jumpCount - Z.of_nat 100)) with 0 by lia. reflexivity.
Qed.

(** The counter half way up: the next step of a jumping flagship. *)
Lemma the_jump_counter_stays_within_100_witness :
  0 <= step_jump_count false (Some true) 29 <= 100
  /\ minimap_alpha true
       (Nat.iter 100 (step_jump_count false (Some false)) 29) = None.
Proof.
  assert (Hrange : 0 <= 29 <= 100) by lia.
  destruct (the_jump_counter_stays_within_100 false (Some true) 29 true Hrange)
    as (Hnext & _ & _ & Hgone).
  split; [exact Hnext|exact Hgone].
Defined.

(** ** The flash *)

Lemma fade_step flash :
  (0 <= flash)%Q ->
  (0 <= fade flash)%Q
  /\ (fade flash <= flash)%Q
  /\ ((fade flash == 0)%Q \/ (fade flash <= flash - (2 # 1000))%Q).
Proof.
  intros Hpos. unfold fade, step_flash.
  destruct (Qnonzero flash) eqn:Hnz; cbn [snd].
  - destruct (fmax_spec 0 (flash * (99 # 100) - (2 # 1000)))
      as (Hzero & _ & [Hwhich | Hwhich]); rewrite Hwhich in *.
    + repeat split; [lra|lra|left; reflexivity].
    + repeat split; [lra|lra|right; lra].
  - apply Qnonzero_false in Hnz.
    repeat split; [lra|lra|left; exact Hnz].
Qed.

Lemma fade_zero flash : (flash == 0)%Q -> (fade flash == 0)%Q.
Proof.
  intros Hzero. unfold fade, step_flash.
  pose proof Hzero as Hnz. apply Qnonzero_false in Hnz. rewrite Hnz. cbn [snd].
  exact Hzero.
Qed.

Lemma fade_iter n flash :
  (0 <= flash)%Q ->
  (0 <= Nat.iter n fade flash)%Q
  /\ ((Nat.iter n fade flash == 0)%Q
      \/ (Nat.iter n fade flash <= flash - inject_Z (Z.of_nat n) * (2 # 1000))%Q).
Proof.
  intros Hpos. induction n as [|n [IHpos IH]].
  - cbn [Nat.iter nat_rect]. change (inject_Z (Z.of_nat 0)) with 0%Q.
    split; [exact Hpos|]. right. lra.
  - rewrite Nat.iter_succ.
    destruct (fade_step _ IHpos) as (Hpos' & Hle & Hstep).
    split; [exact Hpos'|].
    destruct IH as [IH | IH].
    + left. apply fade_zero. exact IH.
    + destruct Hstep as [Hstep | Hstep]; [left; exact Hstep|].
      right. rewrite Nat2Z.inj_succ. unfold Z.succ. rewrite inject_Z_plus.
      change (inject_Z 1) with 1%Q. lra.
Qed.

Lemma fade_out flash :
  (0 <= flash)%Q -> (flash <= 4 # 10)%Q -> (Nat.iter 200 fade flash == 0)%Q.
Proof.
  intros Hpos Hmax.
  destruct (fade_iter 200 flash Hpos) as (Hge & [Hzero | Hle]);
    [exact Hzero|].
  change (inject_Z (Z.of_nat 200)) with 200%Q in Hle. lra.
Qed.

(** X19: a flash starts at 0.4 and consumes the request for it;
    without a new request it never grows, stays between 0 and 0.4, and
    has faded to nothing after 200 steps. *)
Theorem the_flash_fades_in_200_steps doFlash flash :
  (0 <= flash)%Q -> (flash <= 4 # 10)%Q ->
  let next := step_flash doFlash flash in
  fst next = false
  /\ (0 <= snd next)%Q /\ (snd next <= 4 # 10)%Q
  /\ (doFlash = true -> snd next = (4 # 10)%Q)
  /\ (doFlash = false -> (snd next <= flash)%Q)
  /\ (Nat.iter 200 (fun flash => snd (step_flash false flash)) flash == 0)%Q.
Proof.
  intros Hpos Hmax next. subst next.
  pose proof (fade_out flash Hpos Hmax) as Hout.
  destruct doFlash.
  - change (step_flash true flash) with (false, (4 # 10)%Q). cbn [fst snd].
    split; [reflexivity|]. split; [discriminate|]. split; [discriminate|].
    split; [reflexivity|]. split; [discriminate|exact Hout].
  - destruct (fade_step flash Hpos) as (Hge & Hle & _).
    unfold fade in Hge, Hle.
    split.
    { unfold step_flash. destruct (Qnonzero flash); reflexivity. }
    split; [exact Hge|]. split; [lra|].
    split; [discriminate|]. split; [intros _; exact Hle|exact Hout].
Qed.

(** A flash that has just started. *)
Lemma the_flash_fades_in_200_steps_witness :
  (snd (step_flash false (4 # 10)) <= 4 # 10)%Q
  /\ (Nat.iter 200 (fun flash => snd (step_flash false flash)) (4 # 10) == 0)%Q.
Proof.
  assert (Hpos : (0 <= 4 # 10)%Q) by discriminate.
  assert (Hmax : (4 # 10 <= 4 # 10)%Q) by discriminate.
  destruct (the_flash_fades_in_200_steps false (4 # 10) Hpos Hmax)
    as (_ & _ & Hle & _ & _ & Hgone).
  split; [exact Hle|exact Hgone].
Defined.

(** ** The zoom *)

(** X20: the zoom approaches the preferred zoom without passing it: it
    moves by at most three percent a step, towards the target, stops
    exactly on it, and an inactive engine leaves it alone. *)
Theorem the_zoom_never_overshoots isActive zoomTarget zoom :
  (0 < zoom)%Q ->
  let next := step_zoom isActive zoomTarget zoom in
  (isActive = false -> next = zoom)
  /\ ((zoom <= zoomTarget)%Q -> (zoom <= next)%Q /\ (next <= zoomTarget)%Q)
  /\ ((zoomTarget <= zoom)%Q -> (zoomTarget <= next)%Q /\ (next <= zoom)%Q)
  /\ (zoom * (97 # 100) <= next)%Q /\ (next <= zoom * (103 # 100))%Q
  /\ (isActive = true ->
      (zoom * (97 # 100) <= zoomTarget)%Q ->
      (zoomTarget <= zoom * (103 # 100))%Q ->
      (next == zoomTarget)%Q).
Proof.
  intros Hpos next. subst next. unfold step_zoom.
  destruct isActive.
  - destruct (Qltb zoom zoomTarget) eqn:Hup;
      [apply Qltb_true in Hup | apply Qltb_false in Hup].
    + destruct (fmin_spec zoomTarget (zoom * (103 # 100)))
        as (Hmin1 & Hmin2 & [Hwhich | Hwhich]); rewrite Hwhich in *.
      * repeat split; try discriminate; lra.
      * repeat split; try discriminate; lra.
    + destruct (Qltb zoomTarget zoom) eqn:Hdown;
        [apply Qltb_true in Hdown | apply Qltb_false in Hdown].
      * destruct (fmax_spec zoomTarget (zoom * (97 # 100)))
          as (Hmax1 & Hmax2 & [Hwhich | Hwhich]); rewrite Hwhich in *.
        -- repeat split; try discriminate; lra.
        -- repeat split; try discriminate; lra.
      * repeat split; try discriminate; lra.
  - repeat split; try discriminate; lra.
Qed.

(** Zooming in from 1 to 2. *)
Lemma the_zoom_never_overshoots_witness :
  (1 <= step_zoom true 2 1)%Q /\ (step_zoom true 2 1 <= 2)%Q.
Proof.
  assert (Hpos : (0 < 1)%Q) by reflexivity.
  destruct (the_zoom_never_overshoots true 2 1 Hpos) as (_ & Hup & _).
  apply Hup. discriminate.
Defined.

(** ** The clicks *)

Section Clicks.
Context {Selection : Type}.
Variable SelectBox : Selection -> Rectangle -> bool -> bool * Selection.
Variable EscortsClick : Point.t -> list ShipId.
Variable SelectStack : Selection -> list ShipId -> bool -> bool * Selection.

Local Abbreviation step_clicks := (step_clicks SelectBox EscortsClick SelectStack).

(** X21: a click waits for the next step and is acted on in that step
    only: the step after [Click] or [RClick] clears the request, the
    second step has no click left, and a step changes the selection only
    when a left click was requested.  A right click never changes the
    selection and always reaches the click handler. *)
Theorem a_click_lasts_one_step zoom zoom' (p : Selection) (c : Clicks) :
  let first := step_clicks zoom p c in
  let second := step_clicks zoom' (snd first) (fst first) in
  doClickNextStep (fst first) = false
  /\ doClick (fst second) = false
  /\ snd second = snd first
  /\ fst second
     = mkClicks false false (isRightClick (fst first))
         (isRadarClick (fst first)) (hasShift (fst first))
         (clickPoint (fst first)) (clickBox (fst first))
  /\ (doClickNextStep c = false -> doClick (fst first) = false /\ snd first = p)
  /\ (doClickNextStep c = true -> isRightClick c = true ->
      doClick (fst first) = true /\ snd first = p
      /\ clickPoint (fst first) = clickPoint c)
  /\ (doClick (fst first) = true -> doClickNextStep c = true).
Proof.
  intros first second.
  assert (Hlatch : doClickNextStep (fst first) = false).
  { subst first. unfold step_clicks, Foreground.step_clicks.
    destruct (doClickNextStep c) eqn:Hnext; cbn [doClick isRightClick clickBox hasShift clickPoint];
      [|reflexivity].
    destruct (isRightClick c); cbn [negb andb]; [reflexivity|].
    destruct (SelectBox p (clickBox c) (hasShift c)) as [[|] p1];
      cbn [negb]; [reflexivity|].
    destruct (EscortsClick (clickPoint c)) as [|head stack]; [reflexivity|].
    destruct (SelectStack p1 (head :: stack) (hasShift c)) as [selected p2].
    reflexivity. }
  assert (Hsecond : fst second
     = mkClicks false false (isRightClick (fst first))
         (isRadarClick (fst first)) (hasShift (fst first))
         (clickPoint (fst first)) (clickBox (fst first))
     /\ snd second = snd first).
  { subst second. unfold Foreground.step_clicks.
    rewrite Hlatch. cbn [doClick andb fst snd]. split; reflexivity. }
  destruct Hsecond as [Hsecond Hkept].
  split; [exact Hlatch|]. split; [rewrite Hsecond; reflexivity|].
  split; [exact Hkept|]. split; [exact Hsecond|].
  subst first. unfold step_clicks, Foreground.step_clicks.
  destruct (doClickNextStep c) eqn:Hnext;
    cbn [doClick isRightClick clickBox hasShift clickPoint andb].
  - split; [discriminate|]. split; [|intros _; reflexivity].
    intros _ Hright. rewrite Hright. cbn [negb fst snd doClick clickPoint].
    repeat split; reflexivity.
  - cbn [fst snd doClick]. split; [intros _; split; reflexivity|].
    split; discriminate.
Qed.

(** X22: a left click and a right click at the same point of the screen
    mean the same point of the system: on the radar both are measured
    from its centre and scaled by 1/0.025, elsewhere both are divided by
    the zoom.  The right click is scaled when it is made, the left click
    in the step that finds nothing to select under it. *)
Theorem left_and_right_clicks_agree clickable radarCenter radarDiameter center
  zoom point to shift (c c' : Clicks) (p : Selection) :
  let pressed :=
    Click clickable radarCenter radarDiameter center zoom point to shift c in
  fst (SelectBox p (clickBox pressed) shift) = false ->
  EscortsClick (clickPoint pressed) = [] ->
  let left := step_clicks zoom p pressed in
  let right :=
    step_clicks zoom p
      (RClick clickable radarCenter radarDiameter zoom point c') in
  doClick (fst left) = true /\ doClick (fst right) = true
  /\ isRightClick (fst left) = false /\ isRightClick (fst right) = true
  /\ clickPoint (fst left) = clickPoint (fst right)
  /\ snd right = p.
Proof.
  intros pressed Hbox Hstack left right.
  subst left right. unfold Foreground.step_clicks.
  subst pressed. unfold Click, RClick in *.
  cbn [doClick doClickNextStep isRightClick isRadarClick hasShift clickPoint
       clickBox negb andb fst snd] in *.
  destruct (SelectBox p _ shift) as [selected p1]. cbn [fst] in Hbox.
  subst selected. cbn [negb]. rewrite Hstack.
  cbn [doClick isRightClick clickPoint fst snd].
  repeat (split; [reflexivity|]). split; [|reflexivity].
  destruct (clickable
            && within_length (Point.sub point radarCenter)
                 ((1 # 2) * radarDiameter)); reflexivity.
Qed.

End Clicks.

(** ** The status overlays *)

Section Frame.
Context `{Collaborators}.
Variable IsEscort : Ship.t -> bool.
Variable Width : Ship.t -> Q.
Variable Height : Ship.t -> Q.
Variable CargoScanFraction : Ship.t -> Q.
Variable OutfitScanFraction : Ship.t -> Q.
Variable Degrees : Point.t -> Q.

Local Abbreviation ship_status := (ship_status IsEscort Width Height).
Local Abbreviation ship_statuses := (ship_statuses IsEscort Width Height).
Local Abbreviation scan_status :=
  (scan_status Width Height CargoScanFraction OutfitScanFraction Degrees).

Ltac read_color H :=
  match type of H with
  | ?l = _ => let v := eval vm_compute in l in change l with v in H
  end.

Lemma draw_status_in_table zoom (it : Status) :
  0 <= type it <= 2 ->
  exists rings,
    draw_status zoom it = Some rings
    /\ Forall (fun ring =>
         ((color_at (type it) = Some (ringColor ring)
           /\ ringFraction ring = outer it)
          \/ (color_at (3 + type it) = Some (ringColor ring)
              /\ ringFraction ring = inner it))
         /\ (0 < ringFraction ring)%Q
         /\ (2 <= type it -> ringDashes ring = 0%Q)) rings.
Proof.
  intros Htype. unfold draw_status.
  rewrite SpawnProps.wrap32_small by lia.
  assert (Hcases : type it = 0 \/ type it = 1 \/ type it = 2) by lia.
  assert (Houter : exists c, color_at (type it) = Some c).
  { destruct Hcases as [-> | [-> | ->]]; eexists; reflexivity. }
  assert (Hinner : exists c, color_at (3 + type it) = Some c).
  { destruct Hcases as [-> | [-> | ->]]; eexists; reflexivity. }
  destruct Houter as [c1 Hc1], Hinner as [c2 Hc2]. rewrite Hc1, Hc2.
  assert (Hdashes : 2 <= type it ->
    (if 2 <=? type it then 0%Q else (20 * fmin 1 zoom)%Q) = 0%Q).
  { intros Hscan. apply Z.leb_le in Hscan. rewrite Hscan. reflexivity. }
  destruct (Qltb 0 (outer it)) eqn:Ho; destruct (Qltb 0 (inner it)) eqn:Hi;
    try apply Qltb_true in Ho; try apply Qltb_true in Hi;
    eexists; (split; [reflexivity|]); cbn [app];
    repeat (apply List.Forall_cons;
            [cbn [ringColor ringFraction ringDashes];
             split; [first [left; split; reflexivity
                           |right; split; reflexivity]
                    |split; [assumption|first [exact Hdashes|reflexivity]]]|]);
    apply List.Forall_nil.
Qed.

Lemma ship_status_inv center e id st :
  ship_status center e id = Ok (Some st) ->
  exists ship,
    heap e !! id = Some ship
    /\ Ship.GetSystem ship = playerSystem e
    /\ ~ (Ship.Cloaking ship == 1)%Q
    /\ Ship.IsDestroyed ship = false
    /\ (IsEnemyOfPlayer (Ship.GetGovernment ship) = true
        \/ Government.IsPlayer (government (Ship.GetGovernment ship)) = true
        \/ IsEscort ship = true)
    /\ st = mkStatus (Point.sub (Ship.Position ship) center)
              (Ship.Shields ship) (Ship.Hull ship)
              (fmax 20 (fmin (Width ship) (Height ship) * (1 # 2)))%Q
              (if IsEnemyOfPlayer (Ship.GetGovernment ship) then 1 else 0)
              None.
Proof.
  unfold ship_status, Foreground.ship_status. intros Hrun.
  apply StepProps.bind_inv in Hrun as (ship & Hship & Hrun).
  apply CollisionProps.deref_inv in Hship.
  exists ship. split; [exact Hship|].
  destruct (same (Ship.GetSystem ship) (playerSystem e)) eqn:Hsys;
    cbn [negb orb] in Hrun; [|discriminate].
  destruct (Qeq_bool (Ship.Cloaking ship) 1) eqn:Hcloak; [discriminate|].
  destruct (Ship.IsDestroyed ship) eqn:Hdead; [discriminate|].
  destruct (IsEnemyOfPlayer (Ship.GetGovernment ship)
            || Government.IsPlayer (government (Ship.GetGovernment ship))
            || IsEscort ship) eqn:Hshown; [|discriminate].
  injection Hrun as <-.
  unfold same in Hsys. apply bool_decide_eq_true in Hsys.
  split; [exact Hsys|]. split.
  { intros Heq. apply Qeq_bool_iff in Heq. congruence. }
  split; [reflexivity|]. split; [|reflexivity].
  apply orb_true_iff in Hshown as [Hshown | Hshown]; [|auto].
  apply orb_true_iff in Hshown as [Hshown | Hshown]; auto.
Qed.

Lemma ship_statuses_from center e ids acc statuses :
  for_each
    (fun statuses id =>
       let* status := ship_status center e id in
       Ok (statuses ++ match status with Some s => [s] | None => [] end))
    ids acc = Ok statuses ->
  exists more,
    statuses = acc ++ more
    /\ Forall (fun st => exists id, In id ids
                 /\ ship_status center e id = Ok (Some st)) more.
Proof.
  revert acc statuses. induction ids as [|id ids IH]; intros acc statuses Hrun.
  - injection Hrun as <-. exists []. rewrite app_nil_r. split; constructor.
  - cbn [for_each] in Hrun.
    apply StepProps.bind_inv in Hrun as (acc1 & Hone & Hrun).
    apply StepProps.bind_inv in Hone as (status & Hstatus & Hone).
    injection Hone as <-.
    apply IH in Hrun as (more & -> & Hmore).
    exists (match status with Some s => [s] | None => [] end ++ more).
    rewrite app_assoc. split; [reflexivity|].
    apply Forall_app. split.
    + destruct status as [st|]; constructor; [|constructor].
      exists id. split; [left; reflexivity|exact Hstatus].
    + eapply List.Forall_impl; [|exact Hmore].
      intros st (id' & Hin & Hst). exists id'. split; [right; exact Hin|exact Hst].
Qed.

(** X23: every status overlay made by a step can be drawn: its type is
    0 or 1 for a ship and 2 for a scan, so the colours are read inside
    the table of six.  A ship has an overlay only when it is in the
    player's system, not fully cloaked and not destroyed, and an enemy
    is ringed in the hostile colours, anyone else in the friendly ones;
    the rings have a radius of at least 20, a scan ring of at least
    30. *)
Theorem status_overlays_index_the_colour_table show center e zoom statuses scan :
  ship_statuses show center e = Ok statuses ->
  scan_status center e = Ok scan ->
  Forall (fun st =>
    exists id ship rings,
      In id (ships e) /\ heap e !! id = Some ship
      /\ Ship.GetSystem ship = playerSystem e
      /\ ~ (Ship.Cloaking ship == 1)%Q
      /\ Ship.IsDestroyed ship = false
      /\ type st = (if IsEnemyOfPlayer (Ship.GetGovernment ship) then 1 else 0)
      /\ (20 <= radius st)%Q
      /\ draw_status zoom st = Some rings
      /\ Forall (fun ring =>
           In (ringColor ring)
              (if IsEnemyOfPlayer (Ship.GetGovernment ship)
               then ["overlay hostile shields"; "overlay hostile hull"]
               else ["overlay friendly shields"; "overlay friendly hull"])%string)
           rings) statuses
  /\ (show = false -> statuses = [])
  /\ (forall st, scan = Some st ->
      exists rings,
        type st = 2 /\ (30 <= radius st)%Q
        /\ draw_status zoom st = Some rings
        /\ Forall (fun ring =>
             In (ringColor ring)
                ["overlay outfit scan"; "overlay cargo scan"]%string
             /\ ringDashes ring = 0%Q) rings).
Proof.
  intros Hships Hscan. split; [|split].
  - unfold ship_statuses, Foreground.ship_statuses in Hships.
    destruct show; [|injection Hships as <-; constructor].
    apply ship_statuses_from in Hships as (more & -> & Hmore).
    cbn [app]. eapply List.Forall_impl; [|exact Hmore].
    intros st (id & Hin & Hst).
    apply ship_status_inv in Hst
      as (ship & Hship & Hsys & Hcloak & Hdead & _ & ->).
    exists id, ship. cbn [type radius].
    destruct (draw_status_in_table zoom
      (mkStatus (Point.sub (Ship.Position ship) center)
         (Ship.Shields ship) (Ship.Hull ship)
         (fmax 20 (fmin (Width ship) (Height ship) * (1 # 2)))%Q
         (if IsEnemyOfPlayer (Ship.GetGovernment ship) then 1 else 0) None))
      as (rings & Hdraw & Hcolors).
    { cbn [type]. destruct (IsEnemyOfPlayer _); lia. }
    exists rings. repeat (split; [assumption || reflexivity|]).
    split.
    { destruct (fmax_spec 20 (fmin (Width ship) (Height ship) * (1 # 2)))
        as (Hge & _). exact Hge. }
    split; [exact Hdraw|].
    eapply List.Forall_impl; [|exact Hcolors].
    cbn [type]. intros ring (Hring & _).
    destruct (IsEnemyOfPlayer (Ship.GetGovernment ship));
      destruct Hring as [[Hc _] | [Hc _]]; read_color Hc;
      injection Hc as <-; cbn [In]; auto.
  - intros ->. injection Hships as <-. reflexivity.
  - intros st ->. unfold scan_status, Foreground.scan_status in Hscan.
    destruct (flagship e) as [f|]; [|discriminate].
    apply StepProps.bind_inv in Hscan as (fs & _ & Hscan).
    destruct (lock e (Ship.GetTargetShip fs)) as [tid|]; [|discriminate].
    apply StepProps.bind_inv in Hscan as (target & _ & Hscan).
    match type of Hscan with (if ?c then _ else _) = _ =>
      destruct c; [|discriminate] end.
    injection Hscan as <-. cbn [type radius].
    match goal with |- context [draw_status zoom ?s] =>
      destruct (draw_status_in_table zoom s) as (rings & Hdraw & Hcolors);
        [cbn [type]; lia|] end.
    exists rings. split; [reflexivity|]. split.
    { destruct (fmax_spec 20 (fmax (Width target) (Height target) * (1 # 2)))
        as (Hge & _). lra. }
    split; [exact Hdraw|].
    eapply List.Forall_impl; [|exact Hcolors].
    cbn [type]. intros ring (Hring & _ & Hdashes).
    split; [|apply Hdashes; lia].
    destruct Hring as [[Hc _] | [Hc _]]; read_color Hc;
      injection Hc as <-; cbn [In]; auto.
Qed.

(** ** The events *)

Lemma step_events_inv hasObject e e' events :
  step_events hasObject e = Ok (e', events) ->
  (e' = set_eventQueue [] e /\ events = eventQueue e)
  \/ (exists f fs,
        hasObject = false /\ flagship e = Some f /\ heap e !! f = Some fs
        /\ doEnter e = true /\ (Ship.Zoom fs == 1)%Q
        /\ Ship.IsHyperspacing fs = false
        /\ e' = set_doEnter false (set_eventQueue [] e)
        /\ events = eventQueue e ++ [EventByShip f f JUMP]).
Proof.
  unfold step_events. intros Hrun.
  destruct hasObject; [injection Hrun as <- <-; left; split; reflexivity|].
  destruct e as [w0 ps fl st hp sh nsh pr npr fo nfo vi nvi ham ev gr gt sc cc ms dr de df tr].
  cbn [flagship set_eventQueue eventQueue doEnter] in *.
  destruct fl as [f|]; [|injection Hrun as <- <-; left; split; reflexivity].
  apply StepProps.bind_inv in Hrun as (fs & Hfs & Hrun).
  apply CollisionProps.deref_inv in Hfs. cbn [heap] in Hfs.
  destruct de; cbn [andb] in Hrun;
    [|injection Hrun as <- <-; left; split; reflexivity].
  destruct (Qeq_bool (Ship.Zoom fs) 1) eqn:Hzoom; cbn [andb] in Hrun;
    [|injection Hrun as <- <-; left; split; reflexivity].
  destruct (Ship.IsHyperspacing fs) eqn:Hhyper; cbn [negb] in Hrun;
    [injection Hrun as <- <-; left; split; reflexivity|].
  injection Hrun as <- <-. right. exists f, fs.
  apply Qeq_bool_iff in Hzoom.
  repeat split; try reflexivity; assumption.
Qed.

(** X24: a step hands over every queued event, in order, and leaves the
    queue empty; the only event it adds is the jump of the flagship,
    after an arrival, once the flagship is at full size and out of
    hyperspace.  That jump is reported once: the step that reports it
    clears the arrival, and a step that follows with nothing queued
    reports nothing. *)
Theorem an_arrival_is_reported_once hasObject hasObject' e e1 events :
  step_events hasObject e = Ok (e1, events) ->
  eventQueue e1 = []
  /\ heap e1 = heap e /\ flagship e1 = flagship e
  /\ (exists jump, events = eventQueue e ++ jump
        /\ (jump = []
            \/ exists f, flagship e = Some f /\ jump = [EventByShip f f JUMP]
                 /\ doEnter e = true /\ doEnter e1 = false))
  /\ (doEnter e = false -> events = eventQueue e /\ doEnter e1 = false)
  /\ (events <> eventQueue e ->
      step_events hasObject' e1 = Ok (e1, [])).
Proof.
  intros Hrun. apply step_events_inv in Hrun
    as [[-> ->] | (f & fs & -> & Hf & Hfs & Henter & Hzoom & Hhyper & -> & ->)].
  - destruct e as [w0 ps fl st hp sh nsh pr npr fo nfo vi nvi ham ev gr gt sc cc ms dr de df tr].
    cbn [set_eventQueue eventQueue heap flagship doEnter].
    split; [reflexivity|]. split; [reflexivity|]. split; [reflexivity|].
    split; [exists []; rewrite app_nil_r; auto|].
    split; [auto|]. intros Hne. congruence.
  - destruct e as [w0 ps fl st hp sh nsh pr npr fo nfo vi nvi ham ev gr gt sc cc ms dr de df tr].
    cbn [set_eventQueue set_doEnter eventQueue heap flagship doEnter] in *.
    split; [reflexivity|]. split; [reflexivity|]. split; [reflexivity|].
    split.
    { eexists. split; [reflexivity|]. right. exists f. auto. }
    split; [intros ->; discriminate|].
    intros _. unfold step_events.
    cbn [set_eventQueue set_doEnter eventQueue flagship doEnter andb].
    destruct hasObject'; [reflexivity|]. subst fl.
    unfold deref. cbn [heap set_eventQueue set_doEnter]. rewrite Hfs.
    reflexivity.
Qed.

End Frame.

Import Scenario MoreScenario.

(** The overlays of the patrol: the flagship in the friendly colours,
    the pirate in the hostile ones, and the scan of the pirate's cargo. *)
Lemma status_overlays_index_the_colour_table_witness :
  map type patrol_statuses = [0; 1]
  /\ forall st, patrol_scan = Some st ->
       exists rings,
         type st = 2 /\ (30 <= radius st)%Q
         /\ draw_status 1 st = Some rings
         /\ Forall (fun ring =>
              In (ringColor ring)
                 ["overlay outfit scan"; "overlay cargo scan"]%string
              /\ ringDashes ring = 0%Q) rings.
Proof.
  destruct (status_overlays_index_the_colour_table IsEscort Width Height
              CargoScanFraction OutfitScanFraction Degrees true Point.zero
              (patrol []) 1 patrol_statuses patrol_scan
              ltac:(vm_compute; reflexivity) ltac:(vm_compute; reflexivity))
    as (_ & _ & Hscan).
  split; [reflexivity|exact Hscan].
Defined.

(** The patrol arrives with one event queued: the jump of the flagship
    is added to it, and the next step reports nothing. *)
Lemma an_arrival_is_reported_once_witness :
  snd reported = [landed_event; EventByShip 1%nat 1%nat JUMP]
  /\ step_events false (fst reported) = Ok (fst reported, []).
Proof.
  destruct (an_arrival_is_reported_once false false reporting (fst reported)
              (snd reported) ltac:(vm_compute; reflexivity))
    as (_ & _ & _ & _ & _ & Hnext).
  split; [reflexivity|].
  apply Hnext. intros Hsame. discriminate Hsame.
Defined.

(** A click next to the centre of the radar, at zoom 2. *)
Lemma left_and_right_clicks_agree_witness :
  clickPoint
    (fst (step_clicks SelectBox EscortsClick SelectStack 2 tt
            (Click true Point.zero 100 Point.zero 2 (Point.mk 1 1)
               (Point.mk 1 1) false
               (mkClicks false false false false false Point.zero
                  (WithCorners Point.zero Point.zero)))))
  = clickPoint
      (fst (step_clicks SelectBox EscortsClick SelectStack 2 tt
              (RClick true Point.zero 100 2 (Point.mk 1 1)
                 (mkClicks false false false false false Point.zero
                    (WithCorners Point.zero Point.zero))))).
Proof.
  destruct (left_and_right_clicks_agree SelectBox EscortsClick SelectStack
              true Point.zero 100 Point.zero 2 (Point.mk 1 1) (Point.mk 1 1)
              false
              (mkClicks false false false false false Point.zero
                 (WithCorners Point.zero Point.zero))
              (mkClicks false false false false false Point.zero
                 (WithCorners Point.zero Point.zero))
              tt ltac:(reflexivity) ltac:(reflexivity))
    as (_ & _ & _ & _ & Hsame & _).
  exact Hsame.
Defined.

End ForegroundProps.

(* ===================================================================== *)
(** * Properties of the clicks on ships                                   *)
(* ===================================================================== *)

Module MouseProps.
Import Model Code Mouse.

Section Mouse.
Context `{Collaborators}.
Variable MaskRange : Z -> Ship.t -> Point.t -> Q.

Local Abbreviation click_range := (click_range MaskRange).
Local Abbreviation clickable_at := (clickable_at MaskRange).
Local Abbreviation click_target := (click_target MaskRange).
Local Abbreviation ship_click := (ship_click MaskRange).

Lemma click_target_spec e fs clickPoint candidates clickRange clickTarget r t :
  click_target e fs clickPoint candidates clickRange clickTarget = Ok (r, t) ->
  (r = clickRange /\ t = clickTarget
   /\ forall id range, In id candidates ->
        clickable_at e fs clickPoint id range -> (clickRange < range)%Q)
  \/ (exists before id after rest,
        candidates = before ++ id :: after ++ rest
        /\ t = Some id
        /\ clickable_at e fs clickPoint id r
        /\ (r <= clickRange)%Q
        /\ (forall id' range, In id' before ->
              clickable_at e fs clickPoint id' range -> (r <= range)%Q)
        /\ (forall id' range, In id' after ->
              clickable_at e fs clickPoint id' range -> (r < range)%Q)
        /\ (rest = []
            \/ (after = [] /\ (r == 0)%Q
                /\ exists ship, heap e !! id = Some ship
                     /\ IsEnemyOfPlayer (Ship.GetGovernment ship) = true))).
Proof.
  revert clickRange clickTarget.
  induction candidates as [|id0 tail IH]; intros clickRange clickTarget Hrun.
  - injection Hrun as <- <-. left. split; [reflexivity|].
    split; [reflexivity|]. intros id range [].
  - cbn [Mouse.click_target] in Hrun.
    apply StepProps.bind_inv in Hrun as (ship0 & Hship0 & Hrun).
    apply CollisionProps.deref_inv in Hship0.
    destruct (can_click e id0 ship0) eqn:Hcan.
    + destruct (Qle_bool (click_range e fs clickPoint ship0) clickRange)
        eqn:Hnear.
      * apply Qle_bool_iff in Hnear.
        assert (Hat : clickable_at e fs clickPoint id0
                        (click_range e fs clickPoint ship0)).
        { exists ship0. repeat split; assumption. }
        destruct (negb (Qnonzero (click_range e fs clickPoint ship0))
                  && IsEnemyOfPlayer (Ship.GetGovernment ship0)) eqn:Hbreak.
        -- injection Hrun as <- <-. right.
           exists [], id0, [], tail.
           apply andb_true_iff in Hbreak as [Hzero Henemy].
           apply negb_true_iff, ForegroundProps.Qnonzero_false in Hzero.
           split; [reflexivity|]. split; [reflexivity|].
           split; [exact Hat|]. split; [exact Hnear|].
           split; [intros ? ? []|]. split; [intros ? ? []|].
           right. split; [reflexivity|]. split; [exact Hzero|].
           exists ship0. split; assumption.
        -- apply IH in Hrun
             as [(-> & -> & Hfar)
                |(before & id & after & rest & -> & -> & Hid & Hle & Hbefore
                  & Hafter & Hrest)].
           ++ right. exists [], id0, tail, [].
              rewrite app_nil_r.
              split; [reflexivity|]. split; [reflexivity|].
              split; [exact Hat|]. split; [exact Hnear|].
              split; [intros ? ? []|]. split; [exact Hfar|].
              left. reflexivity.
           ++ right. exists (id0 :: before), id, after, rest.
              split; [reflexivity|]. split; [reflexivity|].
              split; [exact Hid|]. split; [lra|].
              split; [|split; [exact Hafter|exact Hrest]].
              intros id' range [<- | Hin] Hat'.
              ** destruct Hat' as (ship' & Hship' & _ & <-).
                 rewrite Hship0 in Hship'. injection Hship' as <-. exact Hle.
              ** eapply Hbefore; eassumption.
      * assert (Hfar0 : (clickRange < click_range e fs clickPoint ship0)%Q).
        { apply Qnot_le_lt. intros Hle. apply Qle_bool_iff in Hle. congruence. }
        apply IH in Hrun
          as [(-> & -> & Hfar)
             |(before & id & after & rest & -> & -> & Hid & Hle & Hbefore
               & Hafter & Hrest)].
        -- left. split; [reflexivity|]. split; [reflexivity|].
           intros id' range [<- | Hin] Hat'.
           ++ destruct Hat' as (ship' & Hship' & _ & <-).
              rewrite Hship0 in Hship'. injection Hship' as <-. exact Hfar0.
           ++ eapply Hfar; eassumption.
        -- right. exists (id0 :: before), id, after, rest.
           split; [reflexivity|]. split; [reflexivity|].
           split; [exact Hid|]. split; [exact Hle|].
           split; [|split; [exact Hafter|exact Hrest]].
           intros id' range [<- | Hin] Hat'.
           ++ destruct Hat' as (ship' & Hship' & _ & <-).
              rewrite Hship0 in Hship'. injection Hship' as <-. lra.
           ++ eapply Hbefore; eassumption.
    + apply IH in Hrun
        as [(-> & -> & Hfar)
           |(before & id & after & rest & -> & -> & Hid & Hle & Hbefore
             & Hafter & Hrest)].
      * left. split; [reflexivity|]. split; [reflexivity|].
        intros id' range [<- | Hin] Hat'.
        -- destruct Hat' as (ship' & Hship' & Hcan' & _).
           rewrite Hship0 in Hship'. injection Hship' as <-. congruence.
        -- eapply Hfar; eassumption.
      * right. exists (id0 :: before), id, after, rest.
        split; [reflexivity|]. split; [reflexivity|].
        split; [exact Hid|]. split; [exact Hle|].
        split; [|split; [exact Hafter|exact Hrest]].
        intros id' range [<- | Hin] Hat'.
        -- destruct Hat' as (ship' & Hship' & Hcan' & _).
           rewrite Hship0 in Hship'. injection Hship' as <-. congruence.
        -- eapply Hbefore; eassumption.
Qed.

Lemma click_target_clickable e fs clickPoint r target :
  click_target e fs clickPoint (ships e) 50%Q None = Ok (r, Some target) ->
  clickable_at e fs clickPoint target r.
Proof.
  intros Hrun. apply click_target_spec in Hrun
    as [(_ & Hnone & _) | (before & id & after & rest & _ & Hid & Hat & _)].
  - discriminate.
  - injection Hid as ->. exact Hat.
Qed.

(** X25: a click selects a ship nearest to it among the targetable
    ships of the player's system other than the flagship, within a range
    of 50; of several at the same range the last in the list wins, except
    that an enemy right under the click ends the search.  No ship is
    selected only when every such ship is farther away than 50. *)
Theorem a_click_picks_the_nearest_ship e fs clickPoint r t :
  click_target e fs clickPoint (ships e) 50%Q None = Ok (r, t) ->
  (r <= 50)%Q
  /\ match t with
     | None =>
         r = 50%Q
         /\ forall id range, In id (ships e) ->
              clickable_at e fs clickPoint id range -> (50 < range)%Q
     | Some id =>
         exists before after rest,
           ships e = before ++ id :: after ++ rest
           /\ clickable_at e fs clickPoint id r
           /\ (forall id' range, In id' before ->
                 clickable_at e fs clickPoint id' range -> (r <= range)%Q)
           /\ (forall id' range, In id' after ->
                 clickable_at e fs clickPoint id' range -> (r < range)%Q)
           /\ (rest = []
               \/ (after = [] /\ (r == 0)%Q
                   /\ exists ship, heap e !! id = Some ship
                        /\ IsEnemyOfPlayer (Ship.GetGovernment ship) = true))
     end.
Proof.
  intros Hrun. apply click_target_spec in Hrun
    as [(-> & -> & Hfar)
       |(before & id & after & rest & Hships & -> & Hid & Hle & Hbefore
         & Hafter & Hrest)].
  - split; [lra|]. split; [reflexivity|exact Hfar].
  - split; [exact Hle|]. exists before, after, rest. auto.
Qed.


End Mouse.

Import Scenario MoreScenario.

(** A click on the pirate: it is the ship selected, at range 0, and no
    ship after it in the list is as near. *)
Lemma a_click_picks_the_nearest_ship_witness :
  click_target MaskRange (patrol []) star on_rex (ships (patrol [])) 50%Q None
  = Ok (0%Q, Some 2%nat)
  /\ exists before after rest,
       ships (patrol []) = before ++ 2%nat :: after ++ rest
       /\ clickable_at MaskRange (patrol []) star on_rex 2%nat 0
       /\ forall id range, In id after ->
            clickable_at MaskRange (patrol []) star on_rex id range ->
            (0 < range)%Q.
Proof.
  assert (Hrun : click_target MaskRange (patrol []) star on_rex
                   (ships (patrol [])) 50%Q None = Ok (0%Q, Some 2%nat))
    by (vm_compute; reflexivity).
  destruct (a_click_picks_the_nearest_ship MaskRange (patrol []) star on_rex
              0 (Some 2%nat) Hrun)
    as (_ & before & after & rest & Hships & Hat & _ & Hafter & _).
  split; [exact Hrun|].
  exists before, after, rest. auto.
Defined.


End MouseProps.

(* ===================================================================== *)
(** * Properties of the fleets placed on arrival                          *)
(* ===================================================================== *)

Module ArrivalProps.
Import Model Code MoreTerms Arrival.

Section Arrival.
Context `{Collaborators}.
Variable FleetPlace : World -> gmap ShipId Ship.t -> FleetId -> SystemId ->
                      gmap ShipId Ship.t * list ShipId * World.
Variable RaidFleet : SystemId -> option FleetId.
Variable RaidFleetFactors : World -> Q * Q.
Variable GetName : GovId -> string.

Local Abbreviation place := (place FleetPlace).
Local Abbreviation place_fleet := (place_fleet FleetPlace).
Local Abbreviation place_fleets := (place_fleets FleetPlace).
Local Abbreviation raid := (raid FleetPlace GetName).
Local Abbreviation place_raid :=
  (place_raid FleetPlace RaidFleet RaidFleetFactors GetName).
Local Abbreviation arrival_fleets :=
  (arrival_fleets FleetPlace RaidFleet RaidFleetFactors GetName).

Lemma place_inv system fleet s :
  snd (place system fleet s) = snd s ++ [fleet]
  /\ messages (fst (place system fleet s)) = messages (fst s)
  /\ exists added, ships (fst (place system fleet s)) = ships (fst s) ++ added.
Proof.
  destruct s as [e placed]. unfold place, Arrival.place.
  destruct (FleetPlace (world e) (heap e) fleet system) as [[h added] w].
  destruct e as [w0 ps fl st hp sh nsh pr npr fo nfo vi nvi ham ev gr gt sc cc ms dr de df tr].
  cbn. split; [reflexivity|]. split; [reflexivity|]. exists added. reflexivity.
Qed.

Lemma place_fleet_inv system s fleet :
  messages (fst (place_fleet system s fleet)) = messages (fst s)
  /\ (exists added,
        ships (fst (place_fleet system s fleet)) = ships (fst s) ++ added)
  /\ (snd (place_fleet system s fleet) = snd s
      \/ (snd (place_fleet system s fleet)
          = snd s ++ [FleetProbability.Get fleet]
          /\ is_Some (FleetGovernment (FleetProbability.Get fleet))))
  /\ (draws_in_range -> always_placed fleet ->
      snd (place_fleet system s fleet) = snd s ++ [FleetProbability.Get fleet]).
Proof.
  unfold place_fleet, Arrival.place_fleet.
  destruct (FleetGovernment (FleetProbability.Get fleet)) as [gov|] eqn:Hgov.
  - pose proof (fun Hdraws : draws_in_range =>
        Hdraws (world (fst s)) (to_uint32 (FleetProbability.Period fleet)))
      as Hdraw.
    destruct (RandomInt (world (fst s))
                (to_uint32 (FleetProbability.Period fleet))) as [r w].
    cbn [fst] in Hdraw.
    destruct (r <? 60) eqn:Hr.
    + destruct (place_inv system (FleetProbability.Get fleet)
                  (set_world w (fst s), snd s)) as (Hplaced & Hsaid & Hships).
      cbn [fst snd] in Hplaced, Hsaid, Hships.
      assert (Hm : messages (set_world w (fst s)) = messages (fst s)).
      { destruct (fst s). reflexivity. }
      assert (Hs : ships (set_world w (fst s)) = ships (fst s)).
      { destruct (fst s). reflexivity. }
      rewrite Hm in Hsaid. rewrite Hs in Hships.
      split; [exact Hsaid|]. split; [exact Hships|].
      split; [right; split; [exact Hplaced|eexists; reflexivity]|].
      intros _ _. exact Hplaced.
    + cbn [fst snd].
      split; [destruct (fst s); reflexivity|].
      split; [exists []; rewrite app_nil_r; destruct (fst s); reflexivity|].
      split; [left; reflexivity|].
      intros Hdraws (_ & Hperiod). exfalso.
      apply Z.ltb_ge in Hr.
      assert (Hsmall : to_uint32 (FleetProbability.Period fleet)
                       = FleetProbability.Period fleet).
      { unfold to_uint32. apply Z.mod_small.
        change (2 ^ 32) with 4294967296. lia. }
      rewrite Hsmall in Hdraw. specialize (Hdraw Hdraws). lia.
  - split; [reflexivity|]. split; [exists []; rewrite app_nil_r; reflexivity|].
    split; [left; reflexivity|].
    intros _ ([gov Hgov'] & _). congruence.
Qed.

Lemma place_round_inv system fleets s :
  let s' := fold_left (place_fleet system) fleets s in
  messages (fst s') = messages (fst s)
  /\ (exists added, ships (fst s') = ships (fst s) ++ added)
  /\ exists more,
       snd s' = snd s ++ more
       /\ (length more <= length fleets)%nat
       /\ Forall (fun f => is_Some (FleetGovernment f)
                    /\ In f (map FleetProbability.Get fleets)) more
       /\ (draws_in_range -> forall fleet,
             In fleet fleets -> always_placed fleet ->
             In (FleetProbability.Get fleet) more).
Proof.
  revert s. induction fleets as [|fleet fleets IH]; intros s; cbn [fold_left].
  - split; [reflexivity|]. split; [exists []; rewrite app_nil_r; reflexivity|].
    exists []. rewrite app_nil_r. split; [reflexivity|].
    split; [reflexivity|]. split; [constructor|]. intros _ fleet [].
  - destruct (IH (place_fleet system s fleet))
      as (Hsaid & [added Hships] & more & Hplaced & Hlen & Hmore & Hall).
    destruct (place_fleet_inv system s fleet)
      as (Hsaid1 & [added1 Hships1] & Hstep & Hsure).
    split; [congruence|].
    split; [exists (added1 ++ added); rewrite Hships, Hships1, app_assoc;
            reflexivity|].
    assert (Hweaken : Forall (fun f => is_Some (FleetGovernment f)
               /\ In f (map FleetProbability.Get (fleet :: fleets))) more).
    { eapply List.Forall_impl; [|exact Hmore].
      intros f [Hgov Hin]. split; [exact Hgov|right; exact Hin]. }
    destruct Hstep as [Hsame | [Hone Hgov]].
    + exists more. split; [congruence|]. split; [cbn [length]; lia|].
      split; [exact Hweaken|].
      intros Hdraws fleet' [<- | Hin] Hgood.
      * specialize (Hsure Hdraws Hgood). rewrite Hsame in Hsure.
        exfalso. apply (f_equal (@length _)) in Hsure.
        rewrite length_app in Hsure. cbn [length] in Hsure. lia.
      * apply Hall; assumption.
    + exists (FleetProbability.Get fleet :: more).
      split; [rewrite Hplaced, Hone, <- app_assoc; reflexivity|].
      split; [cbn [length]; lia|].
      split.
      { apply List.Forall_cons; [|exact Hweaken].
        split; [exact Hgov|left; reflexivity]. }
      intros Hdraws fleet' [<- | Hin] Hgood; [left; reflexivity|].
      right. apply Hall; assumption.
Qed.

Lemma place_rounds_inv system n s :
  let s' :=
    Nat.iter n (fun s => fold_left (place_fleet system) (Fleets system) s) s in
  messages (fst s') = messages (fst s)
  /\ (exists added, ships (fst s') = ships (fst s) ++ added)
  /\ exists more,
       snd s' = snd s ++ more
       /\ (length more <= n * length (Fleets system))%nat
       /\ Forall (fun f => is_Some (FleetGovernment f)
                    /\ In f (map FleetProbability.Get (Fleets system))) more
       /\ (draws_in_range -> forall fleet,
             In fleet (Fleets system) -> always_placed fleet ->
             (n <= count_occ Nat.eq_dec more (FleetProbability.Get fleet))%nat).
Proof.
  induction n as [|n IH].
  - cbn [Nat.iter nat_rect].
    split; [reflexivity|]. split; [exists []; rewrite app_nil_r; reflexivity|].
    exists []. rewrite app_nil_r. split; [reflexivity|].
    split; [cbn; lia|]. split; [constructor|]. intros _ fleet _ _. cbn. lia.
  - rewrite Nat.iter_succ.
    destruct IH as (Hsaid & [added Hships] & more & Hplaced & Hlen & Hmore & Hall).
    destruct (place_round_inv system (Fleets system)
      (Nat.iter n (fun s => fold_left (place_fleet system) (Fleets system) s) s))
      as (Hsaid1 & [added1 Hships1] & more1 & Hplaced1 & Hlen1 & Hmore1 & Hall1).
    cbv zeta. split; [congruence|].
    split; [exists (added ++ added1); rewrite Hships1, Hships, app_assoc;
            reflexivity|].
    exists (more ++ more1).
    split; [rewrite Hplaced1, Hplaced, app_assoc; reflexivity|].
    split; [rewrite length_app; lia|].
    split; [apply Forall_app; split; assumption|].
    intros Hdraws fleet Hin Hgood.
    rewrite count_occ_app.
    specialize (Hall Hdraws fleet Hin Hgood).
    specialize (Hall1 Hdraws fleet Hin Hgood).
    apply (count_occ_In Nat.eq_dec) in Hall1. lia.
Qed.

Lemma raid_inv n system raidFleet raidGovernment attraction s :
  let s' := raid n system raidFleet raidGovernment attraction s in
  (exists added, ships (fst s') = ships (fst s) ++ added)
  /\ exists k,
       (k <= n)%nat
       /\ snd s' = snd s ++ repeat raidFleet k
       /\ messages (fst s')
          = messages (fst s)
            ++ repeat ("Your fleet has attracted the interest of a "
                       ++ GetName raidGovernment ++ " raiding party.")%string k.
Proof.
  revert s. induction n as [|n IH]; intros s; cbn [Arrival.raid].
  - split; [exists []; rewrite app_nil_r; reflexivity|].
    exists 0%nat. cbn [repeat]. rewrite !app_nil_r. auto.
  - destruct (RandomReal (world (fst s))) as [r w].
    assert (Hm : messages (set_world w (fst s)) = messages (fst s)).
    { destruct (fst s). reflexivity. }
    assert (Hs : ships (set_world w (fst s)) = ships (fst s)).
    { destruct (fst s). reflexivity. }
    destruct (Qltb r attraction).
    + destruct (place_inv system raidFleet (set_world w (fst s), snd s))
        as (Hplaced & Hsaid & [added Hships]).
      destruct (place system raidFleet (set_world w (fst s), snd s))
        as [e1 placed1] eqn:Hplace.
      cbn [fst snd] in Hplaced, Hsaid, Hships.
      match goal with |- context [raid n _ _ _ _ ?s1] =>
        destruct (IH s1) as ([added' Hships'] & k & Hk & Hlog & Hmsgs) end.
      cbn [fst snd] in Hships', Hlog, Hmsgs.
      assert (Hsay : forall m, messages (say m e1) = messages e1 ++ [m]
                               /\ ships (say m e1) = ships e1).
      { intros m. destruct e1. split; reflexivity. }
      split.
      { exists (added ++ added').
        rewrite Hships', (proj2 (Hsay _)), Hships, Hs, app_assoc. reflexivity. }
      exists (S k). split; [lia|].
      split.
      { rewrite Hlog, Hplaced, <- app_assoc. reflexivity. }
      rewrite Hmsgs, (proj1 (Hsay _)), Hsaid, Hm, <- app_assoc. reflexivity.
    + destruct (IH (set_world w (fst s), snd s))
        as ([added' Hships'] & k & Hk & Hlog & Hmsgs).
      cbn [fst snd] in Hships', Hlog, Hmsgs.
      split; [exists added'; rewrite Hships', Hs; reflexivity|].
      exists k. split; [lia|]. split; [exact Hlog|].
      rewrite Hmsgs, Hm. reflexivity.
Qed.

Lemma place_raid_inv system s :
  let s' := place_raid system s in
  (exists added, ships (fst s') = ships (fst s) ++ added)
  /\ exists raids said,
       snd s' = snd s ++ raids
       /\ messages (fst s') = messages (fst s) ++ said
       /\ (length raids <= 10)%nat
       /\ length said = length raids
       /\ (raids <> [] ->
           exists raidFleet raidGovernment,
             RaidFleet system = Some raidFleet
             /\ FleetGovernment raidFleet = Some raidGovernment
             /\ IsEnemyOfPlayer raidGovernment = true
             /\ (2 < fst (RaidFleetFactors (world (fst s)))
                     - snd (RaidFleetFactors (world (fst s))))%Q
             /\ raids = repeat raidFleet (length raids)
             /\ said
                = repeat ("Your fleet has attracted the interest of a "
                          ++ GetName raidGovernment ++ " raiding party.")%string
                    (length raids)).
Proof.
  assert (Hquiet :
    (exists added, ships (fst s) = ships (fst s) ++ added)
    /\ exists raids said,
         snd s = snd s ++ raids
         /\ messages (fst s) = messages (fst s) ++ said
         /\ (length raids <= 10)%nat
         /\ length said = length raids
         /\ (raids <> [] ->
             exists raidFleet raidGovernment,
               RaidFleet system = Some raidFleet
               /\ FleetGovernment raidFleet = Some raidGovernment
               /\ IsEnemyOfPlayer raidGovernment = true
               /\ (2 < fst (RaidFleetFactors (world (fst s)))
                       - snd (RaidFleetFactors (world (fst s))))%Q
               /\ raids = repeat raidFleet (length raids)
               /\ said
                  = repeat ("Your fleet has attracted the interest of a "
                            ++ GetName raidGovernment
                            ++ " raiding party.")%string
                      (length raids))).
  { split; [exists []; rewrite app_nil_r; reflexivity|].
    exists [], []. rewrite !app_nil_r.
    split; [reflexivity|]. split; [reflexivity|].
    split; [cbn; lia|]. split; [reflexivity|]. intros Hne. congruence. }
  cbv zeta. unfold place_raid, Arrival.place_raid.
  destruct (RaidFleet system) as [raidFleet|]; [|exact Hquiet].
  destruct (FleetGovernment raidFleet) as [raidGovernment|] eqn:Hgov;
    [|exact Hquiet].
  destruct (IsEnemyOfPlayer raidGovernment) eqn:Henemy; [|exact Hquiet].
  cbv zeta.
  destruct (Qltb 0 ((5 # 1000)
              * (fst (RaidFleetFactors (world (fst s)))
                 - snd (RaidFleetFactors (world (fst s))) - 2))) eqn:Hpull;
    [|exact Hquiet].
  clear Hquiet. apply ForegroundProps.Qltb_true in Hpull.
  match goal with |- context [raid 10%nat system raidFleet raidGovernment ?a s] =>
    destruct (raid_inv 10 system raidFleet raidGovernment a s)
      as (Hships & k & Hk & Hlog & Hmsgs) end.
  split; [exact Hships|].
  exists (repeat raidFleet k),
    (repeat ("Your fleet has attracted the interest of a "
             ++ GetName raidGovernment ++ " raiding party.")%string k).
  rewrite !repeat_length.
  split; [exact Hlog|]. split; [exact Hmsgs|].
  split; [exact Hk|]. split; [reflexivity|].
  intros _. exists raidFleet, raidGovernment.
  split; [reflexivity|]. split; [exact Hgov|]. split; [exact Henemy|].
  split; [lra|]. split; reflexivity.
Qed.

(** X27: on arrival each fleet of the system is tried five times and is
    placed only if it has a government; under draws that stay below
    their bound, a fleet with a government and a period of at most 60 is
    placed every time.  After them at most ten raid fleets are placed,
    each announced by one message, and only when the raiders are enemies
    of the player and the first raid factor exceeds the second by more
    than 2.  The ships that were there stay, and no other message is
    added. *)
Theorem arrival_places_fleets_and_raids system e :
  let settled := place_fleets system (e, []) in
  let arrived := arrival_fleets system e in
  exists regular raids said added,
    snd settled = regular
    /\ snd arrived = regular ++ raids
    /\ messages (fst arrived) = messages e ++ said
    /\ ships (fst arrived) = ships e ++ added
    /\ (length regular <= 5 * length (Fleets system))%nat
    /\ Forall (fun f => is_Some (FleetGovernment f)
                 /\ In f (map FleetProbability.Get (Fleets system))) regular
    /\ (draws_in_range -> forall fleet,
          In fleet (Fleets system) -> always_placed fleet ->
          (5 <= count_occ Nat.eq_dec regular (FleetProbability.Get fleet))%nat)
    /\ (length raids <= 10)%nat
    /\ length said = length raids
    /\ (raids <> [] ->
        exists raidFleet raidGovernment,
          RaidFleet system = Some raidFleet
          /\ FleetGovernment raidFleet = Some raidGovernment
          /\ IsEnemyOfPlayer raidGovernment = true
          /\ (2 < fst (RaidFleetFactors (world (fst settled)))
                  - snd (RaidFleetFactors (world (fst settled))))%Q
          /\ raids = repeat raidFleet (length raids)
          /\ said
             = repeat ("Your fleet has attracted the interest of a "
                       ++ GetName raidGovernment ++ " raiding party.")%string
                 (length raids)).
Proof.
  intros settled arrived.
  pose proof (place_rounds_inv system 5 (e, [])) as Hrounds.
  cbv zeta in Hrounds.
  change (Nat.iter 5
            (fun s => fold_left (place_fleet system) (Fleets system) s) (e, []))
    with settled in Hrounds.
  destruct Hrounds
    as (Hsaid & [added Hships] & regular & Hplaced & Hlen & Hregular & Hall).
  cbn [fst snd app] in Hsaid, Hships, Hplaced.
  pose proof (place_raid_inv system settled) as Hraid.
  cbv zeta in Hraid.
  change (place_raid system settled) with arrived in Hraid.
  destruct Hraid
    as ([added' Hships'] & raids & said & Hlog & Hmsgs & Hten & Hsame & Hwhy).
  exists regular, raids, said, (added ++ added').
  split; [exact Hplaced|]. split; [rewrite Hlog, Hplaced; reflexivity|].
  split; [rewrite Hmsgs, Hsaid; reflexivity|].
  split; [rewrite Hships', Hships, app_assoc; reflexivity|].
  split; [exact Hlen|]. split; [exact Hregular|]. split; [exact Hall|].
  split; [exact Hten|]. split; [exact Hsame|exact Hwhy].
Qed.

End Arrival.
End ArrivalProps.
